(** * compute_and_apply_rhs: the right-hand side of the HOMME dynamical core

    A shallow embedding of the two Kokkos implementations of
    [compute_and_apply_rhs]:

    - [Scratch]  follows  kokkos_scratch/compute_and_apply_rhs.cpp
      (the functor [update_state]);
    - [Basic]    follows  kokkos_basic/compute_and_apply_rhs.cpp
      (the flat team/vector version and its free functions);
    - [ScratchExtra] and [BasicExtra] hold the functions of the two files
      that [compute_and_apply_rhs] does not call or that report on its
      result ([preq_vertadv], the energy view of [compute_energy_grad],
      [print_results_2norm]);
    - [Main]     follows  the command line handling of main.cpp;
    - [Utility]  follows  level_vectorized_ppscan/Utility.hpp (the copies
      between the host and the device layout, the numeric helpers and the
      iterator over a host view).

    Conventions of the embedding.

    - [Real] is [double] in the sources.  It is modelled by the real numbers
      [R]: every arithmetic operation is exact and there is no rounding,
      overflow or NaN.
    - A Kokkos view of static shape is modelled by its index function
      ([View2] for [Real[NP][NP]], [View3] for [Real[NUM_LEV][NP][NP]] and
      [Real[2][NP][NP]], [View4] for the rank four shapes).  A subview that
      fixes the leading index is a partial application.  The declared extents
      are not part of the function: they are recorded separately where a
      statement is about them ([Basic.extent]).
    - A [Kokkos::parallel_for] whose iterations do not read what another
      iteration writes is executed in increasing index order, as a fold over
      the index range ([parallel_for]); team barriers are then no-ops.  The
      level loop of the pressure in kokkos_basic is not of that kind: it is
      run in an order that the caller gives ([parallel_for_in]).
    - A quotient is the quotient of the real numbers, which Rocq extends to
      a zero divisor by [x / 0 = 0].  Where a statement depends on a zero
      divisor, the quotient is taken with [quotient], which has no result
      there, as [double] has a NaN or an infinity.
    - [NP], [NUM_LEV], the physical constants and the spherical operators
      live in headers that are not part of the sources at hand; they are
      section variables. *)

From Stdlib Require Import Reals Lra Lia List Arith ZArith Bool.
From Stdlib Require Ascii String DecimalString DecimalNat.
Import ListNotations.

Open Scope R_scope.

(** ** Views *)

Definition Real := R.

Definition View2 := nat -> nat -> Real.
Definition View3 := nat -> nat -> nat -> Real.
Definition View4 := nat -> nat -> nat -> nat -> Real.

(** [v(i, j) = x] *)
Definition set2 (v : View2) (i j : nat) (x : Real) : View2 :=
  fun i' j' => if (i' =? i)%nat && (j' =? j)%nat then x else v i' j'.

(** [v(l, i, j) = x] *)
Definition set3 (v : View3) (l i j : nat) (x : Real) : View3 :=
  fun l' => if (l' =? l)%nat then set2 (v l') i j x else v l'.

(** [v(a, b, i, j) = x] *)
Definition set4 (v : View4) (a b i j : nat) (x : Real) : View4 :=
  fun a' => if (a' =? a)%nat then set3 (v a') b i j x else v a'.

(** An operator that fills the subview [v(l, ALL, ALL)] with [s]. *)
Definition put2 (v : View3) (l : nat) (s : View2) : View3 :=
  fun l' => if (l' =? l)%nat then s else v l'.

(** An operator that fills the subview [v(l, ALL, ALL, ALL)] with [s]. *)
Definition put3 (v : View4) (l : nat) (s : View3) : View4 :=
  fun l' => if (l' =? l)%nat then s else v l'.

(** ** Loops *)

(** [for (k = lo; k < hi; ++k) body(k)] *)
Definition for_loop {St : Type} (lo hi : nat) (body : nat -> St -> St) (s : St) : St :=
  fold_left (fun s k => body k s) (seq lo (hi - lo)) s.

(** [for (k = hi; k > lo; --k) body(k)] *)
Definition for_loop_down {St : Type} (hi lo : nat) (body : nat -> St -> St) (s : St) : St :=
  fold_left (fun s k => body k s) (rev (seq (S lo) (hi - lo))) s.

(** [Kokkos::parallel_for(Range(team, n), body)], run in index order. *)
Definition parallel_for {St : Type} (n : nat) (body : nat -> St -> St) (s : St) : St :=
  for_loop 0 n body s.

(** [Kokkos::parallel_for(Range(team, n), body)] with the iterations run
    in the order [order], a permutation of [0 .. n - 1]. *)
Definition parallel_for_in {St : Type} (order : list nat) (body : nat -> St -> St)
    (s : St) : St :=
  fold_left (fun s k => body k s) order s.

(** ** Quotients *)

(** [x / y] where the divisor may be zero: in [double] the quotient is then
    a NaN or an infinity, and so is everything computed from it. *)
Definition quotient (x y : Real) : option Real :=
  if Req_dec_T y 0 then None else Some (x / y).


(** ** Sums over levels *)

(** [g lo + g (lo + 1) + ... + g (lo + n - 1)] *)
Fixpoint sum_levels (g : nat -> Real) (lo n : nat) : Real :=
  match n with
  | O => 0
  | S n' => g lo + sum_levels g (S lo) n'
  end.

(** ** The two vertical scans of a column, in closed form

    [inc l] is the hydrostatic increment [Rgas * T_v * dp / pressure] of
    level [l] and [phis] the surface geopotential: the geopotential at level
    [l] of a column of [N] levels is [phis], plus the increments of the levels
    between [l] and the surface (the larger indices), plus half the increment
    of [l]. *)
Definition hydrostatic_scan (phis : Real) (inc : nat -> Real) (N l : nat) : Real :=
  phis + sum_levels inc (S l) (N - 1 - l) + 0.5 * inc l.

(** [omega_p] at level [l] of a column: with [ckk = 0.5 / p l],
    [ckl = 2 * ckk] and [suml] the divergences of the levels above [l] (the
    smaller indices), [vgrad_p l / p l - ckl * suml - ckk * div l]. *)
Definition omega_scan (vgrad_p p div : nat -> Real) (l : nat) : Real :=
  let ckk := 0.5 / p l in
  let ckl := 2.0 * ckk in
  vgrad_p l / p l - ckl * sum_levels div 0 l - ckk * div l.
(** * The scratch-memory implementation (kokkos_scratch) *)

Module Scratch.

(** ** Region and Control

    [Region.hpp] and [Control.hpp] are not among the sources; the records
    list the accessors that [update_state] calls on them.  A [Region] value
    holds the subviews of one element [ie], a [Control] value the scalars of
    the run and the buffers of the team that works on that element.

    [U_current], [U_previous] and [U_future] are the three time levels of
    [U], and likewise for [V], [T] and [DP3D]: the record keeps one field
    for each, so the three time levels are three different slots.
    [m_data.X(team)] and [m_data.X(ie, ...)] both name the buffer [X] of the
    team that works on element [ie].

    An accessor [X_update] returns the view that [update_state] writes and
    [X] the (const) view it reads.  Whether the two are the same storage is
    decided in [Region.hpp]; the record keeps one field for each.  In
    [update_state] no [X] is read at an index after [X_update] was written
    there, so a [Region] whose [X_update] starts equal to [X] describes the
    case where both name one storage. *)

Record Region : Type := Build_Region {
  (* prognostic fields, Real[NUM_LEV][NP][NP], at the three time levels *)
  U_current : View3;
  V_current : View3;
  T_current : View3;
  DP3D_current : View3;
  U_previous : View3;
  V_previous : View3;
  T_previous : View3;
  DP3D_previous : View3;
  U_future : View3;
  V_future : View3;
  T_future : View3;
  DP3D_future : View3;
  (* metric fields *)
  DINV : View4;          (* Real[2][2][NP][NP] *)
  D : View4;             (* Real[2][2][NP][NP] *)
  METDET : View2;
  SPHEREMP : View2;
  FCOR : View2;
  PHIS : View2;
  (* diagnostics, Real[NUM_LEV][NP][NP] *)
  PHI : View3;
  PHI_update : View3;
  PECND : View3;
  DERIVED_UN0 : View3;
  DERIVED_UN0_update : View3;
  DERIVED_VN0 : View3;
  DERIVED_VN0_update : View3;
  OMEGA_P : View3;
  OMEGA_P_update : View3;
  (* Real[NUM_LEV_P][NP][NP] *)
  ETA_DPDN : View3;
  ETA_DPDN_update : View3;
  (* tracers: QDP(ie, tracer, time level) is Real[NUM_LEV][NP][NP] *)
  QDP : nat -> Z -> View3 }.

Record Control : Type := Build_Control {
  num_elems : nat;
  dt2 : Real;
  qn0 : Z;
  hybrid_a : nat -> Real;
  ps0 : Real;
  (* buffers of the team *)
  pressure : View3;      (* Real[NUM_LEV][NP][NP] *)
  T_v : View3;           (* Real[NUM_LEV][NP][NP] *)
  div_vdp : View3;       (* Real[NUM_LEV][NP][NP] *)
  omega_p : View3;       (* Real[NUM_LEV][NP][NP] *)
  vector_buf : View4     (* Real[NUM_LEV][2][NP][NP] *) }.

(** The functor: [struct update_state { const Control m_data; const Region
    m_region; ... }].  The members are handles; what they point to is
    mutated, so every member function returns the new [update_state]. *)
Record update_state : Type := Build_update_state {
  m_data : Control;
  m_region : Region }.

(** Writing through one accessor. *)

Definition set_U_future (r : Region) (x : View3) : Region :=
  Build_Region (U_current r) (V_current r) (T_current r) (DP3D_current r)
    (U_previous r) (V_previous r) (T_previous r) (DP3D_previous r) x (V_future
    r) (T_future r) (DP3D_future r) (DINV r) (D r) (METDET r) (SPHEREMP r)
    (FCOR r) (PHIS r) (PHI r) (PHI_update r) (PECND r) (DERIVED_UN0 r)
    (DERIVED_UN0_update r) (DERIVED_VN0 r) (DERIVED_VN0_update r) (OMEGA_P r)
    (OMEGA_P_update r) (ETA_DPDN r) (ETA_DPDN_update r) (QDP r).

Definition set_V_future (r : Region) (x : View3) : Region :=
  Build_Region (U_current r) (V_current r) (T_current r) (DP3D_current r)
    (U_previous r) (V_previous r) (T_previous r) (DP3D_previous r) (U_future
    r) x (T_future r) (DP3D_future r) (DINV r) (D r) (METDET r) (SPHEREMP r)
    (FCOR r) (PHIS r) (PHI r) (PHI_update r) (PECND r) (DERIVED_UN0 r)
    (DERIVED_UN0_update r) (DERIVED_VN0 r) (DERIVED_VN0_update r) (OMEGA_P r)
    (OMEGA_P_update r) (ETA_DPDN r) (ETA_DPDN_update r) (QDP r).

Definition set_T_future (r : Region) (x : View3) : Region :=
  Build_Region (U_current r) (V_current r) (T_current r) (DP3D_current r)
    (U_previous r) (V_previous r) (T_previous r) (DP3D_previous r) (U_future
    r) (V_future r) x (DP3D_future r) (DINV r) (D r) (METDET r) (SPHEREMP r)
    (FCOR r) (PHIS r) (PHI r) (PHI_update r) (PECND r) (DERIVED_UN0 r)
    (DERIVED_UN0_update r) (DERIVED_VN0 r) (DERIVED_VN0_update r) (OMEGA_P r)
    (OMEGA_P_update r) (ETA_DPDN r) (ETA_DPDN_update r) (QDP r).

Definition set_DP3D_future (r : Region) (x : View3) : Region :=
  Build_Region (U_current r) (V_current r) (T_current r) (DP3D_current r)
    (U_previous r) (V_previous r) (T_previous r) (DP3D_previous r) (U_future
    r) (V_future r) (T_future r) x (DINV r) (D r) (METDET r) (SPHEREMP r)
    (FCOR r) (PHIS r) (PHI r) (PHI_update r) (PECND r) (DERIVED_UN0 r)
    (DERIVED_UN0_update r) (DERIVED_VN0 r) (DERIVED_VN0_update r) (OMEGA_P r)
    (OMEGA_P_update r) (ETA_DPDN r) (ETA_DPDN_update r) (QDP r).

Definition set_PHI_update (r : Region) (x : View3) : Region :=
  Build_Region (U_current r) (V_current r) (T_current r) (DP3D_current r)
    (U_previous r) (V_previous r) (T_previous r) (DP3D_previous r) (U_future
    r) (V_future r) (T_future r) (DP3D_future r) (DINV r) (D r) (METDET r)
    (SPHEREMP r) (FCOR r) (PHIS r) (PHI r) x (PECND r) (DERIVED_UN0 r)
    (DERIVED_UN0_update r) (DERIVED_VN0 r) (DERIVED_VN0_update r) (OMEGA_P r)
    (OMEGA_P_update r) (ETA_DPDN r) (ETA_DPDN_update r) (QDP r).

Definition set_DERIVED_UN0_update (r : Region) (x : View3) : Region :=
  Build_Region (U_current r) (V_current r) (T_current r) (DP3D_current r)
    (U_previous r) (V_previous r) (T_previous r) (DP3D_previous r) (U_future
    r) (V_future r) (T_future r) (DP3D_future r) (DINV r) (D r) (METDET r)
    (SPHEREMP r) (FCOR r) (PHIS r) (PHI r) (PHI_update r) (PECND r)
    (DERIVED_UN0 r) x (DERIVED_VN0 r) (DERIVED_VN0_update r) (OMEGA_P r)
    (OMEGA_P_update r) (ETA_DPDN r) (ETA_DPDN_update r) (QDP r).

Definition set_DERIVED_VN0_update (r : Region) (x : View3) : Region :=
  Build_Region (U_current r) (V_current r) (T_current r) (DP3D_current r)
    (U_previous r) (V_previous r) (T_previous r) (DP3D_previous r) (U_future
    r) (V_future r) (T_future r) (DP3D_future r) (DINV r) (D r) (METDET r)
    (SPHEREMP r) (FCOR r) (PHIS r) (PHI r) (PHI_update r) (PECND r)
    (DERIVED_UN0 r) (DERIVED_UN0_update r) (DERIVED_VN0 r) x (OMEGA_P r)
    (OMEGA_P_update r) (ETA_DPDN r) (ETA_DPDN_update r) (QDP r).

Definition set_OMEGA_P_update (r : Region) (x : View3) : Region :=
  Build_Region (U_current r) (V_current r) (T_current r) (DP3D_current r)
    (U_previous r) (V_previous r) (T_previous r) (DP3D_previous r) (U_future
    r) (V_future r) (T_future r) (DP3D_future r) (DINV r) (D r) (METDET r)
    (SPHEREMP r) (FCOR r) (PHIS r) (PHI r) (PHI_update r) (PECND r)
    (DERIVED_UN0 r) (DERIVED_UN0_update r) (DERIVED_VN0 r) (DERIVED_VN0_update
    r) (OMEGA_P r) x (ETA_DPDN r) (ETA_DPDN_update r) (QDP r).

Definition set_ETA_DPDN_update (r : Region) (x : View3) : Region :=
  Build_Region (U_current r) (V_current r) (T_current r) (DP3D_current r)
    (U_previous r) (V_previous r) (T_previous r) (DP3D_previous r) (U_future
    r) (V_future r) (T_future r) (DP3D_future r) (DINV r) (D r) (METDET r)
    (SPHEREMP r) (FCOR r) (PHIS r) (PHI r) (PHI_update r) (PECND r)
    (DERIVED_UN0 r) (DERIVED_UN0_update r) (DERIVED_VN0 r) (DERIVED_VN0_update
    r) (OMEGA_P r) (OMEGA_P_update r) (ETA_DPDN r) x (QDP r).

Definition set_pressure (c : Control) (x : View3) : Control :=
  Build_Control (num_elems c) (dt2 c) (qn0 c) (hybrid_a c) (ps0 c) x (T_v c)
    (div_vdp c) (omega_p c) (vector_buf c).

Definition set_T_v (c : Control) (x : View3) : Control :=
  Build_Control (num_elems c) (dt2 c) (qn0 c) (hybrid_a c) (ps0 c) (pressure
    c) x (div_vdp c) (omega_p c) (vector_buf c).

Definition set_div_vdp (c : Control) (x : View3) : Control :=
  Build_Control (num_elems c) (dt2 c) (qn0 c) (hybrid_a c) (ps0 c) (pressure
    c) (T_v c) x (omega_p c) (vector_buf c).

Definition set_omega_p (c : Control) (x : View3) : Control :=
  Build_Control (num_elems c) (dt2 c) (qn0 c) (hybrid_a c) (ps0 c) (pressure
    c) (T_v c) (div_vdp c) x (vector_buf c).

Definition set_vector_buf (c : Control) (x : View4) : Control :=
  Build_Control (num_elems c) (dt2 c) (qn0 c) (hybrid_a c) (ps0 c) (pressure
    c) (T_v c) (div_vdp c) (omega_p c) x.

Definition set_qn0 (c : Control) (x : Z) : Control :=
  Build_Control (num_elems c) (dt2 c) x (hybrid_a c) (ps0 c) (pressure c) (T_v
    c) (div_vdp c) (omega_p c) (vector_buf c).

Definition on_region (f : update_state) (g : Region -> Region) : update_state :=
  Build_update_state (m_data f) (g (m_region f)).

Definition on_data (f : update_state) (g : Control -> Control) : update_state :=
  Build_update_state (g (m_data f)) (m_region f).

(** The functor of a run whose [Control] holds [qn0 = q] and is otherwise
    that of [f]. *)
Definition with_qn0 (f : update_state) (q : Z) : update_state :=
  on_data f (fun d => set_qn0 d q).

(** ** The member functions of [update_state] *)

Section Kernels.

(** Compile-time extents (Types.hpp). *)
Variables NP NUM_LEV : nat.

(** [PhysicalConstants::] *)
Variables Rgas Rwater_vapor kappa eta_ave_w : Real.

(** The operators of sphere_operators.hpp, as functions from their input
    views to the view they fill.  The team and the derivative matrix held
    by [m_data] are part of the operator.
    - [gradient_sphere s dinv] is [Real[2][NP][NP]];
    - [gradient_sphere_update s dinv g] is the new content of [g];
    - [divergence_sphere v metdet dinv] is [Real[NP][NP]];
    - [vorticity_sphere u v metdet d] is [Real[NP][NP]]. *)
Variable gradient_sphere : View2 -> View4 -> View3.
Variable gradient_sphere_update : View2 -> View4 -> View3 -> View3.
Variable divergence_sphere : View3 -> View2 -> View4 -> View2.
Variable vorticity_sphere : View2 -> View2 -> View2 -> View4 -> View2.

(** What a local array or the team scratch holds before its first write. *)
Variable uninit2 : View2.
Variable uninit3 : View3.
Variable uninit4 : View4.

(** Depends on PHI (after preq_hydrostatic), PECND.  Modifies Ephi_grad.
    The loop keeps its two velocity components in [Ephi(0, 0)] and
    [Ephi(0, 1)]. *)
Definition compute_energy_grad (f : update_state) (ilev : nat)
    (c_dinv : View4) (Ephi_grad : View3) : View3 :=
  let r := m_region f in
  let Ephi : View2 := uninit2 in
  let Ephi :=
    parallel_for (NP * NP) (fun idx Ephi =>
      let igp := (idx / NP)%nat in
      let jgp := (idx mod NP)%nat in
      let Ephi := set2 Ephi 0 0 (U_current r ilev igp jgp) in
      let Ephi := set2 Ephi 0 1 (V_current r ilev igp jgp) in
      set2 Ephi igp jgp
        (0.5 * (Ephi 0%nat 0%nat * Ephi 0%nat 0%nat
                + Ephi 0%nat 1%nat * Ephi 0%nat 1%nat)
         + PHI_update r ilev igp jgp
         + PECND r ilev igp jgp)) Ephi in
  gradient_sphere_update Ephi c_dinv Ephi_grad.

(** First half of [compute_velocity]: the content of [grad_buf], the
    subview of [m_data.vector_buf(team)] at [ilev], when the last loop of
    [compute_velocity] starts. *)
Definition compute_velocity_grad_buf (f : update_state) (ilev : nat)
    (c_dinv : View4) : View3 :=
  let T_v := T_v (m_data f) in
  let pressure := pressure (m_data f) in
  let p_ilev := pressure ilev in
  let grad_buf := gradient_sphere p_ilev c_dinv in
  let grad_buf :=
    parallel_for (2 * NP * NP) (fun idx grad_buf =>
      let hgp := ((idx / NP) / NP)%nat in
      let igp := ((idx / NP) mod NP)%nat in
      let jgp := (idx mod NP)%nat in
      let gpterm := T_v ilev igp jgp / p_ilev igp jgp in
      set3 grad_buf hgp igp jgp (grad_buf hgp igp jgp * (Rgas * gpterm)))
      grad_buf in
  (* grad_buf -> Ephi_grad + glnpsi *)
  compute_energy_grad f ilev c_dinv grad_buf.

(** The two momentum tendencies of the last loop of [compute_velocity], at
    the point [(igp, jgp)] of level [ilev]; [vort] already holds the Coriolis
    term. *)
Definition vtens1 (f : update_state) (ilev : nat) (grad_buf : View3)
    (vort : View2) (igp jgp : nat) : Real :=
  (* v_vadv(igp, jgp, 0) *)
  V_current (m_region f) ilev igp jgp * vort igp jgp - grad_buf 0%nat igp jgp.

Definition vtens2 (f : update_state) (ilev : nat) (grad_buf : View3)
    (vort : View2) (igp jgp : nat) : Real :=
  (* v_vadv(igp, jgp, 1) - *)
  (- U_current (m_region f) ilev igp jgp) * vort igp jgp
  - grad_buf 1%nat igp jgp.

(** The last loop of [compute_velocity], on [(vort, U_future, V_future)]. *)
Definition compute_velocity_point (f : update_state) (ilev : nat)
    (grad_buf : View3) (igp jgp : nat) (t : View2 * View3 * View3)
    : View2 * View3 * View3 :=
  let r := m_region f in
  let '(vort, U_fut, V_fut) := t in
  let vort := set2 vort igp jgp (vort igp jgp + FCOR r igp jgp) in
  let U_fut := set3 U_fut ilev igp jgp
    (SPHEREMP r igp jgp
     * (U_previous r ilev igp jgp
        + dt2 (m_data f) * vtens1 f ilev grad_buf vort igp jgp)) in
  let V_fut := set3 V_fut ilev igp jgp
    (SPHEREMP r igp jgp
     * (V_previous r ilev igp jgp
        + dt2 (m_data f) * vtens2 f ilev grad_buf vort igp jgp)) in
  (vort, U_fut, V_fut).

(** Depends on pressure, PHI, U_current, V_current, METDET, D, DINV, U, V,
    FCOR, SPHEREMP, T_v.  Modifies U, V. *)
Definition compute_velocity (f : update_state) (ilev : nat) (c_dinv : View4)
    : update_state :=
  let r := m_region f in
  let grad_buf := compute_velocity_grad_buf f ilev c_dinv in
  let vort :=
    vorticity_sphere (U_current r ilev) (V_current r ilev) (METDET r) (D r) in
  let '(_, U_fut, V_fut) :=
    parallel_for (NP * NP) (fun idx t =>
      let igp := (idx / NP)%nat in
      let jgp := (idx mod NP)%nat in
      compute_velocity_point f ilev grad_buf igp jgp t)
      (vort, U_future r, V_future r) in
  Build_update_state
    (set_vector_buf (m_data f) (put3 (vector_buf (m_data f)) ilev grad_buf))
    (set_V_future (set_U_future r U_fut) V_fut).

(** Depends on ETA_DPDN.  Modifies ETA_DPDN. *)
Definition compute_eta_dpdn (f : update_state) (ilev : nat) : update_state :=
  let r := m_region f in
  let eta_update :=
    parallel_for (NP * NP) (fun idx eta_update =>
      let igp := (idx / NP)%nat in
      let jgp := (idx mod NP)%nat in
      (* TODO: Compute the actual value for this *)
      let eta_dot_dpdn_ie := 0 in
      set3 eta_update ilev igp jgp
        (ETA_DPDN r ilev igp jgp + eta_ave_w * eta_dot_dpdn_ie))
      (ETA_DPDN_update r) in
  on_region f (fun r => set_ETA_DPDN_update r eta_update).

Definition compute_velocity_eta_dpdn (f : update_state) (c_dinv : View4)
    : update_state :=
  parallel_for NUM_LEV (fun ilev f =>
    let f := compute_velocity f ilev c_dinv in
    compute_eta_dpdn f ilev) f.

(** The hydrostatic increment of a level, [Rgas * T_v * hk] with
    [hk = dp / pressure]. *)
Definition lev_term (f : update_state) (ilev igp jgp : nat) : Real :=
  let hk := DP3D_current (m_region f) ilev igp jgp
            / pressure (m_data f) ilev igp jgp in
  Rgas * T_v (m_data f) ilev igp jgp * hk.

(** The body of the two point loops of [preq_hydrostatic]: the column at
    [(igp, jgp)], from the bottom level [NUM_LEV - 1] up to level 0. *)
Definition preq_hydrostatic_column (f : update_state) (igp jgp : nat)
    (phi_update : View3) : View3 :=
  let pressure := pressure (m_data f) in
  let T_v := T_v (m_data f) in
  let phis := PHIS (m_region f) in
  let dp := DP3D_current (m_region f) in
  let phii := lev_term f (NUM_LEV - 1) igp jgp in
  let phi_update :=
    set3 phi_update (NUM_LEV - 1) igp jgp (phis igp jgp + phii * 0.5) in
  let '(phii, phi_update) :=
    for_loop_down (NUM_LEV - 2) 0 (fun ilev '(phii, phi_update) =>
      let lev_term := lev_term f ilev igp jgp in
      let phi_update :=
        set3 phi_update ilev igp jgp (phis igp jgp + phii + lev_term * 0.5) in
      (phii + lev_term, phi_update)) (phii, phi_update) in
  let hk := 0.5 * dp 0%nat igp jgp / pressure 0%nat igp jgp in
  set3 phi_update 0 igp jgp
    (phis igp jgp + phii + Rgas * T_v 0%nat igp jgp * hk).

(** Depends on PHIS, DP3D, PHI, pressure, T_v.  Modifies PHI. *)
Definition preq_hydrostatic (f : update_state) : update_state :=
  let phi_update :=
    for_loop 0 NP (fun igp phi_update =>
      for_loop 0 NP (fun jgp phi_update =>
        preq_hydrostatic_column f igp jgp phi_update) phi_update)
      (PHI_update (m_region f)) in
  on_region f (fun r => set_PHI_update r phi_update).

(** [vgrad_p] of the omega loops: the wind of level [ilev] against the
    pressure gradient [grad_p] of that level. *)
Definition vgrad_p (f : update_state) (grad_p : View3) (ilev igp jgp : nat)
    : Real :=
  U_current (m_region f) ilev igp jgp * grad_p 0%nat igp jgp
  + V_current (m_region f) ilev igp jgp * grad_p 1%nat igp jgp.

(** The bodies of the point loops of the three phases, on [(omega_p, suml)]. *)
Definition preq_omega_ps_init_point (f : update_state) (grad_p : View3)
    (igp jgp : nat) (t : View3 * View2) : View3 * View2 :=
  let '(omega, suml) := t in
  let p_ilev := pressure (m_data f) 0%nat in
  let vgrad_p := vgrad_p f grad_p 0 igp jgp in
  let ckk := 0.5 / p_ilev igp jgp in
  let term := div_vdp (m_data f) 0%nat igp jgp in
  let omega :=
    set3 omega 0 igp jgp (vgrad_p / p_ilev igp jgp - ckk * term) in
  let suml := set2 suml igp jgp term in
  (omega, suml).

Definition preq_omega_ps_loop_point (f : update_state) (grad_p : View3)
    (ilev igp jgp : nat) (t : View3 * View2) : View3 * View2 :=
  let '(omega, suml) := t in
  let p_ilev := pressure (m_data f) ilev in
  let vgrad_p := vgrad_p f grad_p ilev igp jgp in
  let ckk := 0.5 / p_ilev igp jgp in
  let ckl := 2.0 * ckk in
  let term := div_vdp (m_data f) ilev igp jgp in
  let omega :=
    set3 omega ilev igp jgp
      (vgrad_p / p_ilev igp jgp - ckl * suml igp jgp - ckk * term) in
  let suml := set2 suml igp jgp (suml igp jgp + term) in
  (omega, suml).

Definition preq_omega_ps_tail_point (f : update_state) (grad_p : View3)
    (igp jgp : nat) (t : View3 * View2) : View3 * View2 :=
  let '(omega, suml) := t in
  let p_ilev := pressure (m_data f) (NUM_LEV - 1)%nat in
  let vgrad_p := vgrad_p f grad_p (NUM_LEV - 1) igp jgp in
  let ckk := 0.5 / p_ilev igp jgp in
  let ckl := 2.0 * ckk in
  let term := div_vdp (m_data f) (NUM_LEV - 1)%nat igp jgp in
  let omega :=
    set3 omega (NUM_LEV - 1) igp jgp
      (vgrad_p / p_ilev igp jgp - ckl * suml igp jgp - ckk * term) in
  (omega, suml).

(** The three phases of the omega scan return the new functor together
    with the two local views [grad_p] and [suml] they are handed. *)
Definition preq_omega_ps_init (f : update_state) (c_dinv : View4)
    (grad_p : View3) (suml : View2) : update_state * View3 * View2 :=
  let p_ilev := pressure (m_data f) 0%nat in
  let grad_p := gradient_sphere p_ilev c_dinv in
  let '(omega, suml) :=
    parallel_for (NP * NP) (fun loop_idx t =>
      let jgp := (loop_idx / NP)%nat in
      let igp := (loop_idx mod NP)%nat in
      preq_omega_ps_init_point f grad_p igp jgp t) (omega_p (m_data f), suml) in
  (on_data f (fun d => set_omega_p d omega), grad_p, suml).

(** The body of the level loop of [preq_omega_ps_loop], on
    [(omega_p, grad_p, suml)]. *)
Definition preq_omega_ps_loop_level (f : update_state) (c_dinv : View4)
    (ilev : nat) (t : View3 * View3 * View2) : View3 * View3 * View2 :=
  let '(omega, _, suml) := t in
  let p_ilev := pressure (m_data f) ilev in
  let grad_p := gradient_sphere p_ilev c_dinv in
  let '(omega, suml) :=
    parallel_for (NP * NP) (fun loop_idx t =>
      let jgp := (loop_idx / NP)%nat in
      let igp := (loop_idx mod NP)%nat in
      preq_omega_ps_loop_point f grad_p ilev igp jgp t) (omega, suml) in
  (omega, grad_p, suml).

Definition preq_omega_ps_loop (f : update_state) (c_dinv : View4)
    (grad_p : View3) (suml : View2) : update_state * View3 * View2 :=
  (* Another candidate for parallel scan *)
  let '(omega, grad_p, suml) :=
    for_loop 1 (NUM_LEV - 1) (preq_omega_ps_loop_level f c_dinv)
      (omega_p (m_data f), grad_p, suml) in
  (on_data f (fun d => set_omega_p d omega), grad_p, suml).

Definition preq_omega_ps_tail (f : update_state) (c_dinv : View4)
    (grad_p : View3) (suml : View2) : update_state * View3 * View2 :=
  let p_ilev := pressure (m_data f) (NUM_LEV - 1)%nat in
  let grad_p := gradient_sphere p_ilev c_dinv in
  let '(omega, suml) :=
    parallel_for (NP * NP) (fun loop_idx t =>
      let jgp := (loop_idx / NP)%nat in
      let igp := (loop_idx mod NP)%nat in
      preq_omega_ps_tail_point f grad_p igp jgp t) (omega_p (m_data f), suml) in
  (on_data f (fun d => set_omega_p d omega), grad_p, suml).

(** Depends on pressure, U_current, V_current, div_vdp, omega_p.
    [preq_omega_ps_scan] also returns the final [grad_p] and [suml]. *)
Definition preq_omega_ps_scan (f : update_state) (c_dinv : View4)
    : update_state * View3 * View2 :=
  let suml : View2 := uninit2 in
  let grad_p : View3 := uninit3 in
  let '(f, grad_p, suml) := preq_omega_ps_init f c_dinv grad_p suml in
  let '(f, grad_p, suml) := preq_omega_ps_loop f c_dinv grad_p suml in
  preq_omega_ps_tail f c_dinv grad_p suml.

Definition preq_omega_ps (f : update_state) (c_dinv : View4) : update_state :=
  fst (fst (preq_omega_ps_scan f c_dinv)).

(** Depends on DP3D. *)
Definition compute_pressure (f : update_state) : update_state :=
  let r := m_region f in
  let d := m_data f in
  let pressure :=
    parallel_for (NP * NP) (fun idx pressure =>
      let igp := (idx / NP)%nat in
      let jgp := (idx mod NP)%nat in
      set3 pressure 0 igp jgp
        (hybrid_a d 0%nat * ps0 d + 0.5 * DP3D_current r 0%nat igp jgp))
      (pressure d) in
  let pressure :=
    for_loop 1 NUM_LEV (fun ilev pressure =>
      parallel_for (NP * NP) (fun idx pressure =>
        let igp := (idx / NP)%nat in
        let jgp := (idx mod NP)%nat in
        set3 pressure ilev igp jgp
          (pressure (ilev - 1)%nat igp jgp
           + 0.5 * (DP3D_current r (ilev - 1)%nat igp jgp
                    + DP3D_current r ilev igp jgp))) pressure) pressure in
  on_data f (fun d => set_pressure d pressure).

(** Depends on DP3D, PHIS, DP3D, PHI, T_v.  Modifies pressure, PHI. *)
Definition compute_scan_properties (f : update_state) (c_dinv : View4)
    : update_state :=
  let f := compute_pressure f in
  let f := preq_hydrostatic f in
  preq_omega_ps f c_dinv.

Definition compute_temperature_no_tracers_helper (f : update_state)
    (ilev : nat) : update_state :=
  let r := m_region f in
  let T_v :=
    parallel_for (NP * NP) (fun idx T_v =>
      let igp := (idx / NP)%nat in
      let jgp := (idx mod NP)%nat in
      set3 T_v ilev igp jgp (T_current r ilev igp jgp)) (T_v (m_data f)) in
  on_data f (fun d => set_T_v d T_v).

Definition compute_temperature_tracers_helper (f : update_state)
    (ilev : nat) : update_state :=
  let r := m_region f in
  let T_v :=
    parallel_for (NP * NP) (fun idx T_v =>
      let igp := (idx / NP)%nat in
      let jgp := (idx mod NP)%nat in
      let Qt := QDP r 0%nat (qn0 (m_data f)) ilev igp jgp
                / DP3D_current r ilev igp jgp in
      set3 T_v ilev igp jgp
        (T_current r ilev igp jgp
         * (1.0 + (Rwater_vapor / Rgas - 1.0) * Qt))) (T_v (m_data f)) in
  on_data f (fun d => set_T_v d T_v).

(** The virtual temperature the helper chosen by [qn0] stores at a point. *)
Definition virtual_temperature (f : update_state) (ilev igp jgp : nat) : Real :=
  if (qn0 (m_data f) =? -1)%Z then T_current (m_region f) ilev igp jgp
  else
    let Qt := QDP (m_region f) 0%nat (qn0 (m_data f)) ilev igp jgp
              / DP3D_current (m_region f) ilev igp jgp in
    T_current (m_region f) ilev igp jgp
    * (1.0 + (Rwater_vapor / Rgas - 1.0) * Qt).

(** The same value, with the quotient [QDP / DP3D_current] of
    [compute_temperature_tracers_helper] as [double] has it: where
    [DP3D_current] is zero, what the helper stores is not a real number. *)
Definition stored_virtual_temperature (f : update_state) (ilev igp jgp : nat)
    : option Real :=
  if (qn0 (m_data f) =? -1)%Z then Some (T_current (m_region f) ilev igp jgp)
  else
    match quotient (QDP (m_region f) 0%nat (qn0 (m_data f)) ilev igp jgp)
            (DP3D_current (m_region f) ilev igp jgp) with
    | Some Qt =>
        Some (T_current (m_region f) ilev igp jgp
              * (1.0 + (Rwater_vapor / Rgas - 1.0) * Qt))
    | None => None
    end.

(** The point loop of [compute_div_vdp], on
    [(vdp_ilev, DERIVED_UN0_update, DERIVED_VN0_update)]. *)
Definition compute_div_vdp_point (f : update_state) (ilev igp jgp : nat)
    (t : View3 * View3 * View3) : View3 * View3 * View3 :=
  let r := m_region f in
  let '(vdp_ilev, un0, vn0) := t in
  let v1 := U_current r ilev igp jgp in
  let v2 := V_current r ilev igp jgp in
  let vdp_ilev :=
    set3 vdp_ilev 0 igp jgp (v1 * DP3D_current r ilev igp jgp) in
  let vdp_ilev :=
    set3 vdp_ilev 1 igp jgp (v2 * DP3D_current r ilev igp jgp) in
  let un0 := set3 un0 ilev igp jgp
    (DERIVED_UN0 r ilev igp jgp + eta_ave_w * vdp_ilev 0%nat igp jgp) in
  let vn0 := set3 vn0 ilev igp jgp
    (DERIVED_VN0 r ilev igp jgp + eta_ave_w * vdp_ilev 1%nat igp jgp) in
  (vdp_ilev, un0, vn0).

(** Depends on DERIVED_UN0, DERIVED_VN0, METDET, DINV.  Initializes
    div_vdp, which is used 2 times afterwards.  Modifies DERIVED_UN0,
    DERIVED_VN0. *)
Definition compute_div_vdp (f : update_state) (ilev : nat) (c_dinv : View4)
    : update_state :=
  let r := m_region f in
  let d := m_data f in
  (* Create subviews to explicitly have static dimensions *)
  let vdp_ilev := vector_buf d ilev in
  let '(vdp_ilev, un0, vn0) :=
    parallel_for (NP * NP) (fun idx t =>
      let igp := (idx / NP)%nat in
      let jgp := (idx mod NP)%nat in
      compute_div_vdp_point f ilev igp jgp t)
      (vdp_ilev, DERIVED_UN0_update r, DERIVED_VN0_update r) in
  let div_vdp_ilev := divergence_sphere vdp_ilev (METDET r) c_dinv in
  Build_update_state
    (set_div_vdp (set_vector_buf d (put3 (vector_buf d) ilev vdp_ilev))
                 (put2 (div_vdp d) ilev div_vdp_ilev))
    (set_DERIVED_VN0_update (set_DERIVED_UN0_update r un0) vn0).

(** Depends on T_current, DERIVE_UN0, DERIVED_VN0, METDET, DINV.  Might
    depend on QDP, DP3D_current. *)
Definition compute_temperature_div_vdp (f : update_state) (c_dinv : View4)
    : update_state :=
  if (qn0 (m_data f) =? -1)%Z then
    parallel_for NUM_LEV (fun ilev f =>
      let f := compute_temperature_no_tracers_helper f ilev in
      compute_div_vdp f ilev c_dinv) f
  else
    parallel_for NUM_LEV (fun ilev f =>
      let f := compute_temperature_tracers_helper f ilev in
      compute_div_vdp f ilev c_dinv) f.

(** The temperature tendency of [compute_stuff] at the point [(igp, jgp)] of
    level [ilev]. *)
Definition ttens (f : update_state) (ilev : nat) (grad_tmp : View3)
    (igp jgp : nat) : Real :=
  let r := m_region f in
  let d := m_data f in
  let cur_T_v := T_v d ilev igp jgp in
  let v1 := U_current r ilev igp jgp in
  let v2 := V_current r ilev igp jgp in
  (* T_vadv(ilev, igp, jgp) *)
  0.0 - (v1 * grad_tmp 0%nat igp jgp + v2 * grad_tmp 1%nat igp jgp)
  (* kappa_star(ilev, igp, jgp) *)
  + kappa * cur_T_v * omega_p d ilev igp jgp.

(** The point loop of [compute_stuff], on
    [(OMEGA_P_update, T_future, DP3D_future)]. *)
Definition compute_stuff_point (f : update_state) (ilev : nat)
    (grad_tmp : View3) (igp jgp : nat) (t : View3 * View3 * View3)
    : View3 * View3 * View3 :=
  let r := m_region f in
  let d := m_data f in
  let '(omega_P_upd, T_fut, DP3D_fut) := t in
  let omega_P_upd := set3 omega_P_upd ilev igp jgp
    (OMEGA_P r ilev igp jgp + eta_ave_w * omega_p d ilev igp jgp) in
  let T_fut := set3 T_fut ilev igp jgp
    (SPHEREMP r igp jgp
     * (T_previous r ilev igp jgp + dt2 d * ttens f ilev grad_tmp igp jgp)) in
  let DP3D_fut := set3 DP3D_fut ilev igp jgp
    (SPHEREMP r igp jgp
     * (DP3D_previous r ilev igp jgp - dt2 d * div_vdp d ilev igp jgp)) in
  (omega_P_upd, T_fut, DP3D_fut).

(** The body of the level loop of [compute_stuff]. *)
Definition compute_stuff_level (f : update_state) (ilev : nat) (c_dinv : View4)
    : update_state :=
  let r := m_region f in
  let d := m_data f in
  (* Create subviews to explicitly have static dimensions *)
  let T_ie_n0_ilev := T_current r ilev in
  (* grad_tmp = subview(m_data.vector_buf(team), ilev, ALL, ALL, ALL) *)
  let grad_tmp := gradient_sphere T_ie_n0_ilev c_dinv in
  let '(omega_P_upd, T_fut, DP3D_fut) :=
    parallel_for (NP * NP) (fun idx t =>
      let igp := (idx / NP)%nat in
      let jgp := (idx mod NP)%nat in
      compute_stuff_point f ilev grad_tmp igp jgp t)
      (OMEGA_P_update r, T_future r, DP3D_future r) in
  Build_update_state
    (set_vector_buf d (put3 (vector_buf d) ilev grad_tmp))
    (set_DP3D_future
       (set_T_future (set_OMEGA_P_update r omega_P_upd) T_fut) DP3D_fut).

(** Depends on DERIVED_UN0, DERIVED_VN0, U, V.  Modifies DERIVED_UN0,
    DERIVED_VN0, OMEGA_P, T, and DP3D. *)
Definition compute_stuff (f : update_state) (c_dinv : View4) : update_state :=
  parallel_for NUM_LEV (fun ilev f => compute_stuff_level f ilev c_dinv) f.

Definition init_const_cache (f : update_state) (c_dinv : View4) : View4 :=
  parallel_for (NP * NP) (fun idx c_dinv =>
    let hgp := (idx / NP)%nat in
    let igp := (idx mod NP)%nat in
    for_loop 0 2 (fun jgp c_dinv =>
      for_loop 0 2 (fun kgp c_dinv =>
        set4 c_dinv jgp kgp hgp igp (DINV (m_region f) jgp kgp hgp igp))
        c_dinv) c_dinv) c_dinv.

(** [update_state::operator()(TeamPolicy team)], for the element of the
    team. *)
Definition operator_call (f : update_state) : update_state :=
  (* Cache dinv, and dvv *)
  let c_dinv := init_const_cache f uninit4 in
  let f := compute_temperature_div_vdp f c_dinv in
  let f := compute_scan_properties f c_dinv in
  let f := compute_velocity_eta_dpdn f c_dinv in
  (* Breaks pressure *)
  compute_stuff f c_dinv.

(** [compute_and_apply_rhs]: one team per element [ie < num_elems]; [fs ie]
    is the functor as the team of element [ie] sees it. *)
Definition compute_and_apply_rhs (num_elems : nat) (fs : nat -> update_state)
    : nat -> update_state :=
  fun ie => if (ie <? num_elems)%nat then operator_call (fs ie) else fs ie.

End Kernels.

End Scratch.

(** ** What a stage may write

    [blank_X f] is [f] with the views that stage [X] writes replaced by a
    fixed view: two functors that differ only there have the same
    [blank_X]. *)

Module ScratchFrame.
Import Scratch.

Definition blank2 : View2 := fun _ _ => 0.
Definition blank3 : View3 := fun _ _ _ => 0.
Definition blank4 : View4 := fun _ _ _ _ => 0.

(** [compute_temperature_div_vdp]: T_v, vector_buf, div_vdp, DERIVED_UN0,
    DERIVED_VN0. *)
Definition blank_temperature_div_vdp (f : update_state) : update_state :=
Build_update_state
  (set_div_vdp (set_vector_buf (set_T_v (m_data f) blank3) blank4) blank3)
  (set_DERIVED_VN0_update (set_DERIVED_UN0_update (m_region f) blank3) blank3).

(** [compute_scan_properties]: pressure, PHI, omega_p. *)
Definition blank_scan_properties (f : update_state) : update_state :=
Build_update_state
  (set_omega_p (set_pressure (m_data f) blank3) blank3)
  (set_PHI_update (m_region f) blank3).

(** [preq_omega_ps]: omega_p. *)
Definition blank_omega_p (f : update_state) : update_state :=
on_data f (fun d => set_omega_p d blank3).

(** [compute_velocity_eta_dpdn]: vector_buf, U, V, ETA_DPDN. *)
Definition blank_velocity_eta_dpdn (f : update_state) : update_state :=
Build_update_state
  (set_vector_buf (m_data f) blank4)
  (set_ETA_DPDN_update
     (set_V_future (set_U_future (m_region f) blank3) blank3) blank3).

(** [compute_stuff]: vector_buf, OMEGA_P, T, DP3D. *)
Definition blank_stuff (f : update_state) : update_state :=
Build_update_state
  (set_vector_buf (m_data f) blank4)
  (set_DP3D_future
     (set_T_future (set_OMEGA_P_update (m_region f) blank3) blank3) blank3).

(** [operator()]: everything above. *)
Definition blank_operator_call (f : update_state) : update_state :=
blank_stuff
  (blank_velocity_eta_dpdn
     (blank_scan_properties (blank_temperature_div_vdp f))).

End ScratchFrame.

(** * The flat team/vector implementation (kokkos_basic) *)

Module Basic.

(** ** TestData and Region

    [TestData.hpp], [Region.hpp] and [Types.hpp] are not among the sources.
    The records list what [compute_and_apply_rhs] reads from them; the
    enumerations are the index constants it uses to pick a field out of the
    packed views. *)

Record Control : Type := Build_Control {
  nets : nat;
  nete : nat;
  n0 : nat;
  np1 : nat;
  nm1 : nat;
  qn0 : Z;
  dt2 : Real }.

Record HVCoord : Type := Build_HVCoord {
  hyai : nat -> Real;
  ps0 : Real }.

Record Constants : Type := Build_Constants {
  Rgas : Real;
  Rwater_vapor : Real;
  kappa : Real;
  eta_ave_w : Real }.

Record TestData : Type := Build_TestData {
  control : Control;
  hvcoord : HVCoord;
  constants : Constants }.

Inductive Scalars2D : Type := METDET | SPHEREMP | FCOR | PHIS.
Inductive Tensors2D : Type := DINV | D.
Inductive Scalars3D : Type := UN0 | VN0 | PHI | PECND | OMEGA_P.
Inductive Scalars4D : Type := U | V | T | DP3D.

Definition Scalars3D_eqb (a b : Scalars3D) : bool :=
  match a, b with
  | UN0, UN0 | VN0, VN0 | PHI, PHI | PECND, PECND | OMEGA_P, OMEGA_P => true
  | _, _ => false
  end.

Definition Scalars4D_eqb (a b : Scalars4D) : bool :=
  match a, b with
  | U, U | V, V | T, T | DP3D, DP3D => true
  | _, _ => false
  end.

(** The subviews of one element [ie]:
    [scalars_2d_ie], [tensors_2d_ie], [scalars_3d_ie], [scalars_4d_ie]
    (indexed by time level, then field), [Qdp(ie, ...)] and
    [eta_dot_dpdn(ie, ...)]. *)
Record Region : Type := Build_Region {
  scalars_2d : Scalars2D -> View2;
  tensors_2d : Tensors2D -> View4;
  scalars_3d : Scalars3D -> View3;              (* Real[NUM_LEV][NP][NP] each *)
  scalars_4d : nat -> Scalars4D -> View3;       (* Real[NUM_LEV][NP][NP] each *)
  Qdp : Z -> nat -> View3;
  eta_dot_dpdn : View3                          (* Real[NUM_LEV_P][NP][NP] *) }.

(** [scalars_3d_ie(F, l, i, j) = x] *)
Definition set_3d (s : Scalars3D -> View3) (F : Scalars3D) (l i j : nat)
    (x : Real) : Scalars3D -> View3 :=
  fun F' => if Scalars3D_eqb F' F then set3 (s F') l i j x else s F'.

(** [subview(scalars_3d_ie, F, ALL, ALL, ALL)] replaced by [v] *)
Definition put_3d (s : Scalars3D -> View3) (F : Scalars3D) (v : View3)
    : Scalars3D -> View3 :=
  fun F' => if Scalars3D_eqb F' F then v else s F'.

(** [scalars_4d_ie(tl, F, l, i, j) = x] *)
Definition set_4d (s : nat -> Scalars4D -> View3) (tl : nat) (F : Scalars4D)
    (l i j : nat) (x : Real) : nat -> Scalars4D -> View3 :=
  fun tl' F' =>
    if (tl' =? tl)%nat && Scalars4D_eqb F' F then set3 (s tl' F') l i j x
    else s tl' F'.

(** The views created at the top of [compute_and_apply_rhs]
    ([ViewManaged<...> div_vdp("div_vdp")] and so on).  They are created once
    and captured by every team. *)
Record Locals : Type := Build_Locals {
  div_vdp : View3;           (* Real[NUM_LEV][NP][NP] *)
  Ephi : View2;              (* Real[NP][NP] *)
  eta_dot_dpdn_ie : View3;   (* Real[NUM_LEV_P][NP][NP] *)
  grad_p : View4;            (* Real[NUM_LEV][2][NP][NP] *)
  kappa_star : View3;        (* Real[NUM_LEV][NP][NP] *)
  omega_p : View3;           (* Real[NUM_LEV][NP][NP] *)
  p : View3;                 (* Real[NUM_LEV][NP][NP] *)
  T_v : View3;               (* Real[NUM_LEV][NP][NP] *)
  vgrad_p : View3;           (* Real[NUM_LEV][NP][NP] *)
  vort : View3;              (* Real[NUM_LEV][NP][NP] *)
  vdp : View4;               (* Real[NUM_LEV][2][NP][NP] *)
  grad_tmp : View3           (* Real[2][NP][NP] *) }.

(** The service arrays of a team ([Real ttens[NUM_LEV][NP][NP] = {}] and so
    on) after the tendency loop. *)
Record Tendencies : Type := Build_Tendencies {
  t_Ephi : View2;
  t_grad_tmp : View3;
  vgrad_T : View2;           (* Real[NP][NP] *)
  vtens1 : View3;            (* Real[NUM_LEV][NP][NP] *)
  vtens2 : View3;            (* Real[NUM_LEV][NP][NP] *)
  ttens : View3              (* Real[NUM_LEV][NP][NP] *) }.

Section Kernels.

(** Compile-time extents (Types.hpp). *)
Variables NP NUM_LEV : nat.
Definition NUM_LEV_P : nat := NUM_LEV + 1.

(** The operators of sphere_operators.hpp, as in [Scratch]. *)
Variable gradient_sphere : View2 -> View4 -> View3.
Variable divergence_sphere : View3 -> View2 -> View4 -> View2.
Variable vorticity_sphere : View2 -> View2 -> View2 -> View4 -> View2.

(** What the local array [phii] of [preq_hydrostatic] and [suml] of
    [preq_omega_ps] hold before their first write. *)
Variable uninit2 : View2.
Variable uninit3 : View3.

(** The order in which the threads of a team run the iterations of the
    level loop of the pressure (lines 116-124), a permutation of
    [0 .. NUM_LEV - 2]: [seq 0 (NUM_LEV - 1)] for a team of one thread. *)
Variable pressure_order : list nat.

(** *** preq_hydrostatic, the overload that takes the team *)
Definition preq_hydrostatic_team (phis : View2) (T_v p dp : View3)
    (Rgas : Real) (phi : View3) : View3 :=
  let phii : View3 := uninit3 in
  let '(_, phi) :=
    parallel_for (NP * NP) (fun loop_idx '(phii, phi) =>
      let jgp := (loop_idx / NP)%nat in
      let igp := (loop_idx mod NP)%nat in
      let hkk := 0.5 * dp (NUM_LEV - 1)%nat igp jgp / p (NUM_LEV - 1)%nat igp jgp in
      let hkl := 2.0 * hkk in
      let phii := set3 phii (NUM_LEV - 1) igp jgp
                    (Rgas * T_v (NUM_LEV - 1)%nat igp jgp * hkl) in
      let phi := set3 phi (NUM_LEV - 1) igp jgp
                   (phis igp jgp + Rgas * T_v (NUM_LEV - 1)%nat igp jgp * hkk) in
      let '(phii, phi) :=
        for_loop_down (NUM_LEV - 2) 1 (fun ilev '(phii, phi) =>
          let hkk := 0.5 * dp ilev igp jgp / p ilev igp jgp in
          let hkl := 2.0 * hkk in
          let phii := set3 phii ilev igp jgp
                        (phii (ilev + 1)%nat igp jgp + Rgas * T_v ilev igp jgp * hkl) in
          let phi := set3 phi ilev igp jgp
                       (phis igp jgp + phii (ilev + 1)%nat igp jgp
                        + Rgas * T_v ilev igp jgp * hkk) in
          (phii, phi)) (phii, phi) in
      let hkk := 0.5 * dp 0%nat igp jgp / p 0%nat igp jgp in
      let phi := set3 phi 0 igp jgp
                   (phis igp jgp + phii 1%nat igp jgp
                    + Rgas * T_v 0%nat igp jgp * hkk) in
      (phii, phi)) (phii, phi) in
  phi.

(** *** preq_hydrostatic, the serial overload *)
Definition preq_hydrostatic (phis : View2) (T_v p dp : View3)
    (Rgas : Real) (phi : View3) : View3 :=
  let phii : View3 := uninit3 in
  let '(_, phi) :=
    for_loop 0 NP (fun jgp '(phii, phi) =>
      let '(phii, phi) :=
        for_loop 0 NP (fun igp '(phii, phi) =>
          let hkk := 0.5 * dp (NUM_LEV - 1)%nat igp jgp / p (NUM_LEV - 1)%nat igp jgp in
          let hkl := 2.0 * hkk in
          let phii := set3 phii (NUM_LEV - 1) igp jgp
                        (Rgas * T_v (NUM_LEV - 1)%nat igp jgp * hkl) in
          let phi := set3 phi (NUM_LEV - 1) igp jgp
                       (phis igp jgp + Rgas * T_v (NUM_LEV - 1)%nat igp jgp * hkk) in
          (phii, phi)) (phii, phi) in
      let '(phii, phi) :=
        for_loop_down (NUM_LEV - 2) 1 (fun ilev '(phii, phi) =>
          for_loop 0 NP (fun igp '(phii, phi) =>
            let hkk := 0.5 * dp ilev igp jgp / p ilev igp jgp in
            let hkl := 2.0 * hkk in
            let phii := set3 phii ilev igp jgp
                          (phii (ilev + 1)%nat igp jgp
                           + Rgas * T_v ilev igp jgp * hkl) in
            let phi := set3 phi ilev igp jgp
                         (phis igp jgp + phii (ilev + 1)%nat igp jgp
                          + Rgas * T_v ilev igp jgp * hkk) in
            (phii, phi)) (phii, phi)) (phii, phi) in
      for_loop 0 NP (fun igp '(phii, phi) =>
        let hkk := 0.5 * dp 0%nat igp jgp / p 0%nat igp jgp in
        let phi := set3 phi 0 igp jgp
                     (phis igp jgp + phii 1%nat igp jgp
                      + Rgas * T_v 0%nat igp jgp * hkk) in
        (phii, phi)) (phii, phi)) (phii, phi) in
  phi.

(** The column at [(igp, jgp)] of either overload of [preq_omega_ps], on
    [(suml, omega_p)]. *)
Definition preq_omega_ps_init_point (p vgrad_p div_vdp : View3)
    (igp jgp : nat) (t : View2 * View3) : View2 * View3 :=
  let '(suml, omega_p) := t in
  let ckk := 0.5 / p 0%nat igp jgp in
  let term := div_vdp 0%nat igp jgp in
  let omega_p := set3 omega_p 0 igp jgp
                   (vgrad_p 0%nat igp jgp / p 0%nat igp jgp - ckk * term) in
  let suml := set2 suml igp jgp term in
  (suml, omega_p).

Definition preq_omega_ps_loop_point (p vgrad_p div_vdp : View3)
    (ilev igp jgp : nat) (t : View2 * View3) : View2 * View3 :=
  let '(suml, omega_p) := t in
  let ckk := 0.5 / p ilev igp jgp in
  let ckl := 2.0 * ckk in
  let term := div_vdp ilev igp jgp in
  let omega_p := set3 omega_p ilev igp jgp
                   (vgrad_p ilev igp jgp / p ilev igp jgp
                    - ckl * suml igp jgp - ckk * term) in
  let suml := set2 suml igp jgp (suml igp jgp + term) in
  (suml, omega_p).

Definition preq_omega_ps_tail_point (p vgrad_p div_vdp : View3)
    (igp jgp : nat) (t : View2 * View3) : View2 * View3 :=
  let '(suml, omega_p) := t in
  let ckk := 0.5 / p (NUM_LEV - 1)%nat igp jgp in
  let ckl := 2.0 * ckk in
  let term := div_vdp (NUM_LEV - 1)%nat igp jgp in
  let omega_p := set3 omega_p (NUM_LEV - 1) igp jgp
                   (vgrad_p (NUM_LEV - 1)%nat igp jgp / p (NUM_LEV - 1)%nat igp jgp
                    - ckl * suml igp jgp - ckk * term) in
  (suml, omega_p).

(** *** preq_omega_ps, the overload that takes the team *)
Definition preq_omega_ps_team (p vgrad_p div_vdp omega_p : View3) : View3 :=
  let suml : View2 := uninit2 in
  let '(_, omega_p) :=
    parallel_for (NP * NP) (fun loop_idx t =>
      let jgp := (loop_idx / NP)%nat in
      let igp := (loop_idx mod NP)%nat in
      let t := preq_omega_ps_init_point p vgrad_p div_vdp igp jgp t in
      let t :=
        for_loop 1 (NUM_LEV - 1) (fun ilev t =>
          preq_omega_ps_loop_point p vgrad_p div_vdp ilev igp jgp t) t in
      preq_omega_ps_tail_point p vgrad_p div_vdp igp jgp t) (suml, omega_p) in
  omega_p.

(** *** preq_omega_ps, the serial overload *)
Definition preq_omega_ps (p vgrad_p div_vdp omega_p : View3) : View3 :=
  let suml : View2 := uninit2 in
  let '(_, omega_p) :=
    for_loop 0 NP (fun jgp t =>
      let t :=
        for_loop 0 NP (fun igp t =>
          preq_omega_ps_init_point p vgrad_p div_vdp igp jgp t) t in
      let t :=
        for_loop 1 (NUM_LEV - 1) (fun ilev t =>
          for_loop 0 NP (fun igp t =>
            preq_omega_ps_loop_point p vgrad_p div_vdp ilev igp jgp t) t) t in
      for_loop 0 NP (fun igp t =>
        preq_omega_ps_tail_point p vgrad_p div_vdp igp jgp t) t)
      (suml, omega_p) in
  omega_p.

(** *** compute_and_apply_rhs: the work of one team *)

Section Team.
Variable data : TestData.

(** Input parameters *)
Let n0 := n0 (control data).
Let np1 := np1 (control data).
Let nm1 := nm1 (control data).
Let qn0 := qn0 (control data).
Let dt2 := dt2 (control data).

(** Lines 108-124: the pressure [p].  Iteration [ilev] of the level loop
    reads [p(ilev, ., .)], which iteration [ilev - 1] writes. *)
Definition team_pressure (region : Region) (p : View3) : View3 :=
  let dp3d_ie_n0 := scalars_4d region n0 DP3D in
  let p :=
    for_loop 0 NP (fun igp p =>
      for_loop 0 NP (fun jgp p =>
        set3 p 0 igp jgp
          (hyai (hvcoord data) 0%nat * ps0 (hvcoord data)
           + 0.5 * dp3d_ie_n0 0%nat igp jgp)) p) p in
  parallel_for_in pressure_order (fun ilev p =>
    parallel_for (NP * NP) (fun idx p =>
      let igp := (idx / NP)%nat in
      let jgp := (idx mod NP)%nat in
      set3 p (ilev + 1) igp jgp
        (p ilev igp jgp
         + 0.5 * dp3d_ie_n0 ilev igp jgp
         + 0.5 * dp3d_ie_n0 (ilev + 1)%nat igp jgp)) p) p.

(** Lines 132-144: the point loop of the divergence stage, on
    [(vgrad_p, vdp, scalars_3d_ie)]. *)
Definition team_divergence_point (region : Region) (grad_p : View4)
    (ilev igp jgp : nat) (t : View3 * View4 * (Scalars3D -> View3))
    : View3 * View4 * (Scalars3D -> View3) :=
  let '(vgrad_p, vdp, s3d) := t in
  let dp3d_ie_n0 := scalars_4d region n0 DP3D in
  let v1 := scalars_4d region n0 U ilev igp jgp in
  let v2 := scalars_4d region n0 V ilev igp jgp in
  let vgrad_p := set3 vgrad_p ilev igp jgp
    (v1 * grad_p ilev 0%nat igp jgp + v2 * grad_p ilev 1%nat igp jgp) in
  let vdp := set4 vdp ilev 0 igp jgp (v1 * dp3d_ie_n0 ilev igp jgp) in
  let vdp := set4 vdp ilev 1 igp jgp (v2 * dp3d_ie_n0 ilev igp jgp) in
  let s3d := set_3d s3d UN0 ilev igp jgp
    (s3d UN0 ilev igp jgp
     + eta_ave_w (constants data) * vdp ilev 0%nat igp jgp) in
  let s3d := set_3d s3d VN0 ilev igp jgp
    (s3d VN0 ilev igp jgp
     + eta_ave_w (constants data) * vdp ilev 1%nat igp jgp) in
  (vgrad_p, vdp, s3d).

(** Lines 128-150, on
    [(grad_p, vgrad_p, vdp, scalars_3d_ie, div_vdp, vort)]. *)
Definition team_divergence (region : Region) (p : View3)
    (t : View4 * View3 * View4 * (Scalars3D -> View3) * View3 * View3)
    : View4 * View3 * View4 * (Scalars3D -> View3) * View3 * View3 :=
  let metDet_ie := scalars_2d region METDET in
  let DInv_ie := tensors_2d region DINV in
  parallel_for NUM_LEV (fun ilev t =>
    let '(grad_p, vgrad_p, vdp, s3d, div_vdp, vort) := t in
    let grad_p := put3 grad_p ilev (gradient_sphere (p ilev) DInv_ie) in
    let '(vgrad_p, vdp, s3d) :=
      parallel_for (NP * NP) (fun idx t =>
        let igp := (idx / NP)%nat in
        let jgp := (idx mod NP)%nat in
        team_divergence_point region grad_p ilev igp jgp t)
        (vgrad_p, vdp, s3d) in
    let div_vdp :=
      put2 div_vdp ilev (divergence_sphere (vdp ilev) metDet_ie DInv_ie) in
    let vort :=
      put2 vort ilev
        (vorticity_sphere (s3d UN0 ilev) (s3d VN0 ilev) metDet_ie
           (tensors_2d region D)) in
    (grad_p, vgrad_p, vdp, s3d, div_vdp, vort)) t.

(** Lines 152-174, on [(T_v, kappa_star)]. *)
Definition team_temperature (region : Region) (t : View3 * View3)
    : View3 * View3 :=
  let dp3d_ie_n0 := scalars_4d region n0 DP3D in
  let T_ie_n0 := scalars_4d region n0 T in
  if (qn0 =? -1)%Z then
    parallel_for NUM_LEV (fun ilev t =>
      parallel_for (NP * NP) (fun idx '(T_v, kappa_star) =>
        let igp := (idx / NP)%nat in
        let jgp := (idx mod NP)%nat in
        (set3 T_v ilev igp jgp (T_ie_n0 ilev igp jgp),
         set3 kappa_star ilev igp jgp (kappa (constants data)))) t) t
  else
    parallel_for NUM_LEV (fun ilev t =>
      parallel_for (NP * NP) (fun idx '(T_v, kappa_star) =>
        let igp := (idx / NP)%nat in
        let jgp := (idx mod NP)%nat in
        let Qt := Qdp region qn0 1%nat ilev igp jgp
                  / dp3d_ie_n0 ilev igp jgp in
        (set3 T_v ilev igp jgp
           (T_ie_n0 ilev igp jgp
            * (1.0 + (Rwater_vapor (constants data) / Rgas (constants data)
                      - 1.0) * Qt)),
         set3 kappa_star ilev igp jgp (kappa (constants data)))) t) t.

(** The number of levels the loops at lines 181 and 192 run over. *)
Definition accumulate_levels : nat := NUM_LEV_P.
Definition tendency_levels : nat := NUM_LEV_P.
(** ... and the loop at line 235. *)
Definition leapfrog_levels : nat := NUM_LEV.

(** Lines 181-188, on [(eta_dot_dpdn(ie, ...), scalars_3d_ie)]. *)
Definition team_accumulate (eta_dot_dpdn_ie omega_p : View3)
    (t : View3 * (Scalars3D -> View3)) : View3 * (Scalars3D -> View3) :=
  parallel_for accumulate_levels (fun ilev t =>
    parallel_for (NP * NP) (fun idx '(eta_dot_dpdn, s3d) =>
      let igp := (idx / NP)%nat in
      let jgp := (idx mod NP)%nat in
      let eta_dot_dpdn := set3 eta_dot_dpdn ilev igp jgp
        (eta_dot_dpdn ilev igp jgp
         + eta_ave_w (constants data) * eta_dot_dpdn_ie ilev igp jgp) in
      let s3d := set_3d s3d OMEGA_P ilev igp jgp
        (s3d OMEGA_P ilev igp jgp
         + eta_ave_w (constants data) * omega_p ilev igp jgp) in
      (eta_dot_dpdn, s3d)) t) t.

(** Lines 215-230: the last point loop of the tendency stage, on
    [(vtens1, vtens2, ttens)]. *)
Definition team_tendency_point (region : Region) (T_v p : View3) (grad_p : View4) (vort kappa_star omega_p : View3)
    (T_vadv : View3) (v_vadv : View4) (vgrad_T : View2) (grad_tmp : View3)
    (ilev igp jgp : nat) (t : View3 * View3 * View3) : View3 * View3 * View3 :=
  let '(vtens1, vtens2, ttens) := t in
  let gpterm := T_v ilev igp jgp / p ilev igp jgp in
  let glnps1 := Rgas (constants data) * gpterm * grad_p ilev 0%nat igp jgp in
  let glnps2 := Rgas (constants data) * gpterm * grad_p ilev 1%nat igp jgp in
  let v1 := scalars_4d region n0 U ilev igp jgp in
  let v2 := scalars_4d region n0 V ilev igp jgp in
  let vtens1 := set3 vtens1 ilev igp jgp
    (v_vadv ilev igp jgp 0%nat
     + v2 * (scalars_2d region FCOR igp jgp + vort ilev igp jgp)
     - grad_tmp 0%nat igp jgp - glnps1) in
  let vtens2 := set3 vtens2 ilev igp jgp
    (v_vadv ilev igp jgp 1%nat
     - v1 * (scalars_2d region FCOR igp jgp + vort ilev igp jgp)
     - grad_tmp 0%nat igp jgp - glnps2) in
  let ttens := set3 ttens ilev igp jgp
    (T_vadv ilev igp jgp - vgrad_T igp jgp
     + kappa_star ilev igp jgp * T_v ilev igp jgp * omega_p ilev igp jgp) in
  (vtens1, vtens2, ttens).

(** Lines 192-231.  [T_vadv] and [v_vadv] are the zero-initialised
    service arrays that nothing writes. *)
Definition team_tendency (region : Region) (s3d : Scalars3D -> View3)
    (T_v p : View3) (grad_p : View4) (vort kappa_star omega_p : View3)
    (t : Tendencies) : Tendencies :=
  let DInv_ie := tensors_2d region DINV in
  let T_ie_n0 := scalars_4d region n0 T in
  let T_vadv : View3 := fun _ _ _ => 0 in
  let v_vadv : View4 := fun _ _ _ _ => 0 in
  parallel_for tendency_levels (fun ilev t =>
    let Ephi :=
      parallel_for (NP * NP) (fun idx Ephi =>
        let igp := (idx / NP)%nat in
        let jgp := (idx mod NP)%nat in
        let v1 := scalars_4d region n0 U ilev igp jgp in
        let v2 := scalars_4d region n0 V ilev igp jgp in
        set2 Ephi igp jgp
          (0.5 * (v1 * v1 + v2 * v2) + s3d PHI ilev igp jgp
           + s3d PECND ilev igp jgp)) (t_Ephi t) in
    let grad_tmp := gradient_sphere (T_ie_n0 ilev) DInv_ie in
    let vgrad_T :=
      parallel_for (NP * NP) (fun idx vgrad_T =>
        let igp := (idx / NP)%nat in
        let jgp := (idx mod NP)%nat in
        let v1 := scalars_4d region n0 U ilev igp jgp in
        let v2 := scalars_4d region n0 V ilev igp jgp in
        set2 vgrad_T igp jgp
          (v1 * grad_tmp 0%nat igp jgp + v2 * grad_tmp 1%nat igp jgp))
        (vgrad_T t) in
    let grad_tmp := gradient_sphere Ephi DInv_ie in
    let '(vtens1, vtens2, ttens) :=
      parallel_for (NP * NP) (fun idx t =>
        let igp := (idx / NP)%nat in
        let jgp := (idx mod NP)%nat in
        team_tendency_point region T_v p grad_p vort kappa_star omega_p
          T_vadv v_vadv vgrad_T grad_tmp ilev igp jgp t)
        (vtens1 t, vtens2 t, ttens t) in
    Build_Tendencies Ephi grad_tmp vgrad_T vtens1 vtens2 ttens) t.

(** Lines 235-244, on [scalars_4d_ie]. *)
Definition team_leapfrog_point (region : Region) (vtens1 ttens div_vdp : View3)
    (ilev igp jgp : nat) (s4d : nat -> Scalars4D -> View3)
    : nat -> Scalars4D -> View3 :=
  let spheremp_ie := scalars_2d region SPHEREMP in
  let s4d := set_4d s4d np1 U ilev igp jgp
    (spheremp_ie igp jgp
     * (s4d nm1 U ilev igp jgp + dt2 * vtens1 ilev igp jgp)) in
  let s4d := set_4d s4d np1 V ilev igp jgp
    (spheremp_ie igp jgp
     * (s4d nm1 V ilev igp jgp + dt2 * vtens1 ilev igp jgp)) in
  let s4d := set_4d s4d np1 T ilev igp jgp
    (spheremp_ie igp jgp
     * (s4d nm1 T ilev igp jgp + dt2 * ttens ilev igp jgp)) in
  let s4d := set_4d s4d np1 DP3D ilev igp jgp
    (spheremp_ie igp jgp
     * (s4d nm1 DP3D ilev igp jgp + dt2 * div_vdp ilev igp jgp)) in
  s4d.

Definition team_leapfrog (region : Region) (vtens1 ttens div_vdp : View3)
    (s4d : nat -> Scalars4D -> View3) : nat -> Scalars4D -> View3 :=
  parallel_for leapfrog_levels (fun ilev s4d =>
    parallel_for (NP * NP) (fun idx s4d =>
      let igp := (idx / NP)%nat in
      let jgp := (idx mod NP)%nat in
      team_leapfrog_point region vtens1 ttens div_vdp ilev igp jgp s4d)
      s4d) s4d.

(** The body of the team lambda for the element whose subviews are
    [region] (the branch [ie < nete]).  [loc] is what the captured views
    hold when the team starts. *)
Definition team_body (region : Region) (loc : Locals) : Region * Locals :=
  (* Service arrays *)
  let tend0 :=
    Build_Tendencies (Ephi loc) (grad_tmp loc) (fun _ _ => 0)
      (fun _ _ _ => 0) (fun _ _ _ => 0) (fun _ _ _ => 0) in
  let dp3d_ie_n0 := scalars_4d region n0 DP3D in
  let p := team_pressure region (p loc) in
  let '(grad_p, vgrad_p, vdp, s3d, div_vdp, vort) :=
    team_divergence region p
      (grad_p loc, vgrad_p loc, vdp loc, scalars_3d region,
       div_vdp loc, vort loc) in
  let '(T_v, kappa_star) := team_temperature region (T_v loc, kappa_star loc) in
  let s3d :=
    put_3d s3d PHI
      (preq_hydrostatic_team (scalars_2d region PHIS) T_v p dp3d_ie_n0
         (Rgas (constants data)) (s3d PHI)) in
  let omega_p := preq_omega_ps p vgrad_p div_vdp (omega_p loc) in
  let '(eta_dot_dpdn, s3d) :=
    team_accumulate (eta_dot_dpdn_ie loc) omega_p
      (eta_dot_dpdn region, s3d) in
  let tend :=
    team_tendency region s3d T_v p grad_p vort kappa_star omega_p tend0 in
  let s4d :=
    team_leapfrog region (vtens1 tend) (ttens tend) div_vdp
      (scalars_4d region) in
  (Build_Region (scalars_2d region) (tensors_2d region) s3d s4d
     (Qdp region) eta_dot_dpdn,
   Build_Locals div_vdp (t_Ephi tend) (eta_dot_dpdn_ie loc) grad_p
     kappa_star omega_p p T_v vgrad_p vort vdp (t_grad_tmp tend)).

(** [compute_and_apply_rhs]: the league has [nete - nets + 1] teams, team
    [k] works on element [ie = nets + k] when [ie < nete].  [region ie]
    holds the subviews of element [ie].  The teams run one after another, in
    the order [league_order] of their ranks, a permutation of
    [0 .. nete - nets]; every team finds the captured views as the team
    before it left them.  Teams that run at the same time are not
    described. *)
Definition compute_and_apply_rhs (league_order : list nat)
    (region : nat -> Region) (loc : Locals) : (nat -> Region) * Locals :=
  parallel_for_in league_order
    (fun league_rank '(region, loc) =>
      let ie := (nets (control data) + league_rank)%nat in
      if (ie <? nete (control data))%nat then
        let '(region_ie, loc) := team_body (region ie) loc in
        (fun ie' => if (ie' =? ie)%nat then region_ie else region ie', loc)
      else (region, loc)) (region, loc).

End Team.

(** ** The level indices used by the loops of [compute_and_apply_rhs]

    Every view that a loop of [compute_and_apply_rhs] indexes by its level
    variable, with the extent of that dimension in the declaration of the
    view. *)
Inductive LevelView : Type :=
| v_p | v_dp3d_ie_n0 | v_U_ie_n0 | v_V_ie_n0 | v_T_ie_n0
| v_grad_p | v_vgrad_p | v_vdp | v_div_vdp | v_vort | v_T_v | v_kappa_star
| v_omega_p | v_Qdp
| v_scalars_3d (F : Scalars3D) | v_scalars_4d_np1 | v_scalars_4d_nm1
| v_eta_dot_dpdn | v_eta_dot_dpdn_ie
| v_vtens1 | v_vtens2 | v_ttens | v_T_vadv | v_v_vadv.

Definition extent (v : LevelView) : nat :=
  match v with
  | v_eta_dot_dpdn | v_eta_dot_dpdn_ie => NUM_LEV_P
  | _ => NUM_LEV
  end.

(** Lines 116-124, iteration [ilev]. *)
Definition pressure_accesses (ilev : nat) : list (LevelView * nat) :=
  [(v_p, (ilev + 1)%nat); (v_p, ilev); (v_dp3d_ie_n0, ilev);
   (v_dp3d_ie_n0, (ilev + 1)%nat)].

(** Lines 128-150, iteration [ilev]. *)
Definition divergence_accesses (ilev : nat) : list (LevelView * nat) :=
  [(v_p, ilev); (v_grad_p, ilev); (v_U_ie_n0, ilev); (v_V_ie_n0, ilev);
   (v_vgrad_p, ilev); (v_vdp, ilev); (v_dp3d_ie_n0, ilev);
   (v_scalars_3d UN0, ilev); (v_scalars_3d VN0, ilev);
   (v_div_vdp, ilev); (v_vort, ilev)].

(** Lines 152-174, iteration [ilev]. *)
Definition temperature_accesses (qn0 : Z) (ilev : nat) : list (LevelView * nat) :=
  if (qn0 =? -1)%Z then
    [(v_T_v, ilev); (v_T_ie_n0, ilev); (v_kappa_star, ilev)]
  else
    [(v_Qdp, ilev); (v_dp3d_ie_n0, ilev); (v_T_v, ilev); (v_T_ie_n0, ilev);
     (v_kappa_star, ilev)].

(** Lines 181-188, iteration [ilev]. *)
Definition accumulate_accesses (ilev : nat) : list (LevelView * nat) :=
  [(v_eta_dot_dpdn, ilev); (v_eta_dot_dpdn_ie, ilev);
   (v_scalars_3d OMEGA_P, ilev); (v_omega_p, ilev)].

(** Lines 192-231, iteration [ilev]. *)
Definition tendency_accesses (ilev : nat) : list (LevelView * nat) :=
  [(v_U_ie_n0, ilev); (v_V_ie_n0, ilev); (v_scalars_3d PHI, ilev);
   (v_scalars_3d PECND, ilev); (v_T_ie_n0, ilev); (v_T_v, ilev); (v_p, ilev);
   (v_grad_p, ilev); (v_v_vadv, ilev); (v_vort, ilev); (v_vtens1, ilev);
   (v_vtens2, ilev); (v_T_vadv, ilev); (v_kappa_star, ilev);
   (v_omega_p, ilev); (v_ttens, ilev)].

(** Lines 235-244, iteration [ilev]. *)
Definition leapfrog_accesses (ilev : nat) : list (LevelView * nat) :=
  [(v_scalars_4d_np1, ilev); (v_scalars_4d_nm1, ilev); (v_vtens1, ilev);
   (v_ttens, ilev); (v_div_vdp, ilev)].

(** The level indices used by the level loops of the team lambda, in
    program order. *)
Definition level_accesses (qn0 : Z) : list (LevelView * nat) :=
  flat_map pressure_accesses (seq 0 (NUM_LEV - 1))
  ++ flat_map divergence_accesses (seq 0 NUM_LEV)
  ++ flat_map (temperature_accesses qn0) (seq 0 NUM_LEV)
  ++ flat_map accumulate_accesses (seq 0 accumulate_levels)
  ++ flat_map tendency_accesses (seq 0 tendency_levels)
  ++ flat_map leapfrog_accesses (seq 0 leapfrog_levels).

(** An access is in bounds when its level index is below the extent. *)
Definition in_bounds (a : LevelView * nat) : bool :=
  (snd a <? extent (fst a))%nat.

End Kernels.

End Basic.

(** * The two implementations side by side *)

Module Paths.

Section Correspondence.
Variables NP NUM_LEV : nat.

(** The sphere operators take views of one element: [Real[2][NP][NP]],
    [Real[NP][NP]] and [Real[2][2][NP][NP]].  [divergence_reads_element d]
    says that, on the points of the element, the result of [d] depends on
    these entries alone. *)
Definition divergence_reads_element
    (divergence_sphere : View3 -> View2 -> View4 -> View2) : Prop :=
  forall (v v' : View3) (m m' : View2) (d d' : View4),
    (forall h a b, (h < 2)%nat -> (a < NP)%nat -> (b < NP)%nat ->
       v h a b = v' h a b) ->
    (forall a b, (a < NP)%nat -> (b < NP)%nat -> m a b = m' a b) ->
    (forall x y a b, (x < 2)%nat -> (y < 2)%nat -> (a < NP)%nat -> (b < NP)%nat ->
       d x y a b = d' x y a b) ->
    forall a b, (a < NP)%nat -> (b < NP)%nat ->
      divergence_sphere v m d a b = divergence_sphere v' m' d' a b.

(** The element that the functor [f] of kokkos_scratch works on holds the
    same input as the subviews [rb] of kokkos_basic under [data]: the three
    time levels of the prognostic fields, the metric fields and the scalars
    of the run, entry by entry. *)
Definition same_element (data : Basic.TestData) (rb : Basic.Region)
    (f : Scratch.update_state) : Prop :=
  let rs := Scratch.m_region f in
  let c := Basic.control data in
  (forall l i j, (l < NUM_LEV)%nat -> (i < NP)%nat -> (j < NP)%nat ->
     Scratch.U_current rs l i j = Basic.scalars_4d rb (Basic.n0 c) Basic.U l i j /\
     Scratch.V_current rs l i j = Basic.scalars_4d rb (Basic.n0 c) Basic.V l i j /\
     Scratch.T_current rs l i j = Basic.scalars_4d rb (Basic.n0 c) Basic.T l i j /\
     Scratch.DP3D_current rs l i j
     = Basic.scalars_4d rb (Basic.n0 c) Basic.DP3D l i j /\
     Scratch.U_previous rs l i j = Basic.scalars_4d rb (Basic.nm1 c) Basic.U l i j /\
     Scratch.V_previous rs l i j = Basic.scalars_4d rb (Basic.nm1 c) Basic.V l i j /\
     Scratch.T_previous rs l i j = Basic.scalars_4d rb (Basic.nm1 c) Basic.T l i j /\
     Scratch.DP3D_previous rs l i j
     = Basic.scalars_4d rb (Basic.nm1 c) Basic.DP3D l i j) /\
  (forall i j, (i < NP)%nat -> (j < NP)%nat ->
     Scratch.METDET rs i j = Basic.scalars_2d rb Basic.METDET i j /\
     Scratch.SPHEREMP rs i j = Basic.scalars_2d rb Basic.SPHEREMP i j /\
     Scratch.FCOR rs i j = Basic.scalars_2d rb Basic.FCOR i j /\
     Scratch.PHIS rs i j = Basic.scalars_2d rb Basic.PHIS i j) /\
  (forall x y i j, (x < 2)%nat -> (y < 2)%nat -> (i < NP)%nat -> (j < NP)%nat ->
     Scratch.DINV rs x y i j = Basic.tensors_2d rb Basic.DINV x y i j /\
     Scratch.D rs x y i j = Basic.tensors_2d rb Basic.D x y i j) /\
  Scratch.dt2 (Scratch.m_data f) = Basic.dt2 c /\
  Scratch.qn0 (Scratch.m_data f) = Basic.qn0 c.

End Correspondence.

End Paths.

(** * A small element: one point, three levels

    [NP = 1] and [NUM_LEV = 3]; every field is constant over the element. *)

Module Example.

Definition NP : nat := 1.
Definition NUM_LEV : nat := 3.

Definition Rgas : Real := 1.
Definition Rwater_vapor : Real := 2.
Definition kappa : Real := 1.
Definition eta_ave_w : Real := 1.

Definition const2 (x : Real) : View2 := fun _ _ => x.
Definition const3 (x : Real) : View3 := fun _ _ _ => x.
Definition const4 (x : Real) : View4 := fun _ _ _ _ => x.

(** Operators that stand for those of sphere_operators.hpp: the gradient of
    every field is zero, the divergence is [metdet * (v0 + v1)] and the
    vorticity is zero. *)
Definition gradient_sphere (s : View2) (dinv : View4) : View3 := const3 0.
Definition gradient_sphere_update (s : View2) (dinv : View4) (g : View3) : View3 := g.
Definition divergence_sphere (v : View3) (metdet : View2) (dinv : View4) : View2 :=
  fun i j => metdet i j * (v 0%nat i j + v 1%nat i j).
Definition vorticity_sphere (u v metdet : View2) (d : View4) : View2 := const2 0.

Definition uninit2 : View2 := const2 0.
Definition uninit3 : View3 := const3 0.
Definition uninit4 : View4 := const4 0.

(** The element as kokkos_scratch holds it.  The views behind the
    [_update] accessors of [ETA_DPDN] start with the content [5]. *)
Definition region : Scratch.Region :=
  Scratch.Build_Region
    (const3 1) (const3 1) (const3 1) (const3 1)      (* current U V T DP3D *)
    (const3 1) (const3 1) (const3 1) (const3 1)      (* previous *)
    (const3 0) (const3 0) (const3 0) (const3 0)      (* future *)
    (const4 1) (const4 1)                            (* DINV D *)
    (const2 1) (const2 1) (const2 0) (const2 0)      (* METDET SPHEREMP FCOR PHIS *)
    (const3 0) (const3 0)                            (* PHI PHI_update *)
    (const3 0)                                       (* PECND *)
    (const3 0) (const3 0) (const3 0) (const3 0)      (* DERIVED_UN0 DERIVED_VN0 *)
    (const3 0) (const3 0)                            (* OMEGA_P *)
    (const3 0) (const3 5)                            (* ETA_DPDN *)
    (fun _ _ => const3 0).                           (* QDP *)

Definition control : Scratch.Control :=
  Scratch.Build_Control 1 1 (-1) (fun _ => 0.5) 1
    (const3 0) (const3 0) (const3 0) (const3 0) (const4 0).

Definition functor : Scratch.update_state :=
  Scratch.Build_update_state control region.

Definition operator_call : Scratch.update_state -> Scratch.update_state :=
  Scratch.operator_call NP NUM_LEV Rgas Rwater_vapor kappa eta_ave_w
    gradient_sphere gradient_sphere_update divergence_sphere vorticity_sphere
    uninit2 uninit3 uninit4.

(** The same element as kokkos_basic holds it: time level 0 is [n0], 1 is
    [np1] and 2 is [nm1]. *)
Definition data : Basic.TestData :=
  Basic.Build_TestData
    (Basic.Build_Control 0 1 0 1 2 (-1) 1)
    (Basic.Build_HVCoord (fun _ => 0.5) 1)
    (Basic.Build_Constants Rgas Rwater_vapor kappa eta_ave_w).

Definition basic_region : Basic.Region :=
  Basic.Build_Region
    (fun F => match F with
              | Basic.METDET | Basic.SPHEREMP => const2 1
              | Basic.FCOR | Basic.PHIS => const2 0
              end)
    (fun _ => const4 1)
    (fun _ => const3 0)
    (fun tl _ => match tl with
                 | 1%nat => const3 0
                 | _ => const3 1
                 end)
    (fun _ _ => const3 0)
    (const3 0).

Definition locals : Basic.Locals :=
  Basic.Build_Locals (const3 0) (const2 0) (const3 0) (const4 0) (const3 0)
    (const3 0) (const3 0) (const3 0) (const3 0) (const3 0) (const4 0) (const3 0).

(** A team of one thread. *)
Definition pressure_order : list nat := seq 0 (NUM_LEV - 1).

Definition team_body : Basic.Region -> Basic.Locals -> Basic.Region * Basic.Locals :=
  Basic.team_body NP NUM_LEV gradient_sphere divergence_sphere vorticity_sphere
    uninit2 uninit3 pressure_order data.

End Example.

(** * More of kokkos_scratch: the energy view and the vertical advection *)

Module ScratchExtra.
Import Scratch.

Section Kernels.

Variables NP NUM_LEV : nat.
Variable uninit2 : View2.

(** The local view [Ephi] of [compute_energy_grad] when
    [gradient_sphere_update] is called: the point loop of
    [Scratch.compute_energy_grad], on its own. *)
Definition compute_energy_grad_Ephi (f : update_state) (ilev : nat) : View2 :=
  let r := m_region f in
  let Ephi : View2 := uninit2 in
  parallel_for (NP * NP) (fun idx Ephi =>
    let igp := (idx / NP)%nat in
    let jgp := (idx mod NP)%nat in
    let Ephi := set2 Ephi 0 0 (U_current r ilev igp jgp) in
    let Ephi := set2 Ephi 0 1 (V_current r ilev igp jgp) in
    set2 Ephi igp jgp
      (0.5 * (Ephi 0%nat 0%nat * Ephi 0%nat 0%nat
              + Ephi 0%nat 1%nat * Ephi 0%nat 1%nat)
       + PHI_update r ilev igp jgp
       + PECND r ilev igp jgp)) Ephi.

(** The bodies of the three point loops of [preq_vertadv], on
    [(T_vadv, v_vadv)]: the loop of the top level [k_0], the one of a level
    [k] between [k_0] and [k_f], and the loop of the bottom level [k_f]. *)
Definition preq_vertadv_top (T : View3) (v : View4) (eta_dp_deta rpdel : View3)
    (k_0 j i : nat) (t : View3 * View4) : View3 * View4 :=
  let '(T_vadv, v_vadv) := t in
  let facp := 0.5 * rpdel k_0 j i * eta_dp_deta (k_0 + 1)%nat j i in
  let T_vadv := set3 T_vadv k_0 j i (facp * (T (k_0 + 1)%nat j i - T k_0 j i)) in
  let v_vadv :=
    for_loop 0 2 (fun h v_vadv =>
      set4 v_vadv k_0 h j i (facp * (v (k_0 + 1)%nat h j i - v k_0 h j i)))
      v_vadv in
  (T_vadv, v_vadv).

Definition preq_vertadv_mid (T : View3) (v : View4) (eta_dp_deta rpdel : View3)
    (k j i : nat) (t : View3 * View4) : View3 * View4 :=
  let '(T_vadv, v_vadv) := t in
  let facp := 0.5 * rpdel k j i * eta_dp_deta (k + 1)%nat j i in
  let facm := 0.5 * rpdel k j i * eta_dp_deta k j i in
  let T_vadv := set3 T_vadv k j i
    (facp * (T (k + 1)%nat j i - T k j i)
     + facm * (T k j i - T (k - 1)%nat j i)) in
  let v_vadv :=
    for_loop 0 2 (fun h v_vadv =>
      set4 v_vadv k h j i
        (facp * (v (k + 1)%nat h j i - v k h j i)
         + facm * (v k h j i - v (k - 1)%nat h j i))) v_vadv in
  (T_vadv, v_vadv).

Definition preq_vertadv_bottom (T : View3) (v : View4) (eta_dp_deta rpdel : View3)
    (k_f j i : nat) (t : View3 * View4) : View3 * View4 :=
  let '(T_vadv, v_vadv) := t in
  let facm := 0.5 * rpdel k_f j i * eta_dp_deta k_f j i in
  let T_vadv := set3 T_vadv k_f j i (facm * (T k_f j i - T (k_f - 1)%nat j i)) in
  let v_vadv :=
    for_loop 0 2 (fun h v_vadv =>
      set4 v_vadv k_f h j i (facm * (v k_f h j i - v (k_f - 1)%nat h j i)))
      v_vadv in
  (T_vadv, v_vadv).

(** [preq_vertadv]: computes the vertical advection of T and v, on
    [(T_vadv, v_vadv)].  The views are indexed [(k, j, i)] and
    [(k, h, j, i)].  [k_f - 1] is a level of the column when
    [2 <= NUM_LEV]. *)
Definition preq_vertadv (T : View3) (v : View4) (eta_dp_deta rpdel : View3)
    (T_vadv : View3) (v_vadv : View4) : View3 * View4 :=
  let k_0 := 0%nat in
  let t :=
    for_loop 0 NP (fun j t =>
      for_loop 0 NP (fun i t =>
        preq_vertadv_top T v eta_dp_deta rpdel k_0 j i t) t)
      (T_vadv, v_vadv) in
  let k_f := (NUM_LEV - 1)%nat in
  let t :=
    for_loop (k_0 + 1) k_f (fun k t =>
      for_loop 0 NP (fun j t =>
        for_loop 0 NP (fun i t =>
          preq_vertadv_mid T v eta_dp_deta rpdel k j i t) t) t) t in
  for_loop 0 NP (fun j t =>
    for_loop 0 NP (fun i t =>
      preq_vertadv_bottom T v eta_dp_deta rpdel k_f j i t) t) t.

End Kernels.

(** The vertical advection of a column [x] of [N] levels in closed form:
    with [facp = 0.5 * rpdel l * eta (l + 1)] and
    [facm = 0.5 * rpdel l * eta l], the difference to the level below
    weighted by [facp], except at the bottom level, plus the difference to
    the level above weighted by [facm], except at the top level. *)
Definition vertical_advection (N : nat) (x eta rpdel : nat -> Real) (l : nat)
    : Real :=
  let facp := 0.5 * rpdel l * eta (l + 1)%nat in
  let facm := 0.5 * rpdel l * eta l in
  if (l =? 0)%nat then facp * (x (l + 1)%nat - x l)
  else if (l =? N - 1)%nat then facm * (x l - x (l - 1)%nat)
  else facp * (x (l + 1)%nat - x l) + facm * (x l - x (l - 1)%nat).

End ScratchExtra.

(** * More of kokkos_basic: the settings of a run and the reported norms *)

Module BasicExtra.
Import Basic.

(** The data of a run whose control holds [qn0 = q] and is otherwise that
    of [data]. *)
Definition with_qn0 (data : TestData) (q : Z) : TestData :=
  Build_TestData
    (Build_Control (nets (control data)) (nete (control data))
       (n0 (control data)) (np1 (control data)) (nm1 (control data)) q
       (dt2 (control data)))
    (hvcoord data) (constants data).

Section Kernels.

Variables NP NUM_LEV : nat.

(** [print_results_2norm]: the three numbers it prints, [||v||_2],
    [||T||_2] and [||dp||_2].  [region ie] holds the subviews of element
    [ie], so that [scalars_4d(ie, np1, F, ilev, igp, jgp)] is
    [scalars_4d (region ie) np1 F ilev igp jgp]. *)
Definition print_results_2norm (data : TestData) (region : nat -> Region)
    : Real * Real * Real :=
  (* Input parameters *)
  let nets := nets (control data) in
  let nete := nete (control data) in
  let np1 := np1 (control data) in
  let '(vnorm, tnorm, dpnorm) :=
    for_loop nets nete (fun ie t =>
      for_loop 0 NUM_LEV (fun ilev t =>
        for_loop 0 NP (fun igp t =>
          for_loop 0 NP (fun jgp '(vnorm, tnorm, dpnorm) =>
            let vnorm := vnorm + scalars_4d (region ie) np1 U ilev igp jgp ^ 2 in
            let vnorm := vnorm + scalars_4d (region ie) np1 V ilev igp jgp ^ 2 in
            let tnorm := tnorm + scalars_4d (region ie) np1 T ilev igp jgp ^ 2 in
            let dpnorm := dpnorm + scalars_4d (region ie) np1 DP3D ilev igp jgp ^ 2 in
            (vnorm, tnorm, dpnorm)) t) t) t) (0, 0, 0) in
  (sqrt vnorm, sqrt tnorm, sqrt dpnorm).

(** The sum of [g ie ilev igp jgp] over the elements and the points that
    [print_results_2norm] visits. *)
Definition sum_entries (data : TestData) (g : nat -> nat -> nat -> nat -> Real) : Real :=
  sum_levels (fun ie =>
    sum_levels (fun ilev =>
      sum_levels (fun igp =>
        sum_levels (fun jgp => g ie ilev igp jgp) 0 NP) 0 NP) 0 NUM_LEV)
    (nets (control data)) (nete (control data) - nets (control data)).

End Kernels.

End BasicExtra.

(** * The driver: the command line of main.cpp

    [main] of kokkos_basic/main.cpp and of basic/main.cpp read the number of
    elements from the command line in the same way.  A C string is modelled
    by a [string] (the characters before the terminating NUL), a pointer
    into it by the suffix that starts there, and a null pointer by
    [None]. *)

Module Main.
Import Ascii String.
Local Open Scope string_scope.

(** ** The functions of the C library that [main] calls *)

(** [isdigit (c)] *)
Definition isdigit (c : ascii) : bool :=
  (48 <=? nat_of_ascii c)%nat && (nat_of_ascii c <=? 57)%nat.

(** [isspace (c)] in the C locale: space, and [\t \n \v \f \r]. *)
Definition isspace (c : ascii) : bool :=
  (nat_of_ascii c =? 32)%nat
  || ((9 <=? nat_of_ascii c)%nat && (nat_of_ascii c <=? 13)%nat).

(** [strncmp (s1, s2, n)]: the order of the first [n] characters of the two
    strings; the comparison stops at the end of a string.  [Eq] is the
    result [0]. *)
Fixpoint strncmp (s1 s2 : string) (n : nat) {struct n} : comparison :=
  match n with
  | O => Eq
  | S n' =>
      match s1, s2 with
      | EmptyString, EmptyString => Eq
      | EmptyString, String _ _ => Lt
      | String _ _, EmptyString => Gt
      | String c1 r1, String c2 r2 =>
          match Nat.compare (nat_of_ascii c1) (nat_of_ascii c2) with
          | Eq => strncmp r1 r2 n'
          | o => o
          end
      end
  end.

(** [strchr (s, c)], for a character [c] other than NUL: the suffix of [s]
    that starts at the first [c], or the null pointer. *)
Fixpoint strchr (s : string) (c : ascii) : option string :=
  match s with
  | EmptyString => None
  | String c' rest => if Ascii.eqb c' c then Some s else strchr rest c
  end.

(** [p + 1], for a pointer [p] into a string. *)
Definition next (p : string) : string :=
  match p with
  | EmptyString => EmptyString
  | String _ rest => rest
  end.

Section Int.

(** The largest [int] (limits.h). *)
Variable INT_MAX : Z.

Fixpoint skip_spaces (s : string) : string :=
  match s with
  | String c rest => if isspace c then skip_spaces rest else s
  | EmptyString => s
  end.

(** The value of the leading digits of [s], after [acc]. *)
Fixpoint digits_value (acc : Z) (s : string) : Z :=
  match s with
  | String c rest =>
      if isdigit c
      then digits_value (10 * acc + (Z.of_nat (nat_of_ascii c) - 48)) rest
      else acc
  | EmptyString => acc
  end.

(** [std::atoi (s)]: white space, an optional sign and the leading digits.
    [None] when the value is not an [int]: the behaviour is then
    undefined. *)
Definition atoi (s : string) : option Z :=
  let s := skip_spaces s in
  let '(negative, s) :=
    match s with
    | String "-" rest => (true, rest)
    | String "+" rest => (false, rest)
    | _ => (false, s)
    end in
  let n := digits_value 0 s in
  let v := if negative then (- n)%Z else n in
  if ((- INT_MAX - 1 <=? v) && (v <=? INT_MAX))%Z then Some v else None.

(** ** main.cpp *)

(** [is_unsigned_int] *)
Fixpoint is_unsigned_int (str : string) : bool :=
  match str with
  | EmptyString => true
  | String c rest => if negb (isdigit c) then false else is_unsigned_int rest
  end.

(** What the first part of [main] decides: the program exits with a code,
    or goes on to the computation with [num_elems] elements, or has called
    [is_unsigned_int] on the null pointer plus one or [atoi] on a number
    that is not an [int]. *)
Inductive Outcome : Type :=
| Exit (code : Z)
| Run (num_elems : Z)
| Undefined.

(** The [while (iarg<argc)] loop, on the arguments from [argv[iarg]] on. *)
Fixpoint argument_loop (args : list string) (num_elems : Z) : Outcome :=
  match args with
  | nil => Run num_elems
  | arg :: rest =>
      match strncmp arg "--tinman-num-elems=" 18 with
      | Eq =>
          match strchr arg "=" with
          | None => Undefined
          | Some p =>
              let number := next p in
              if negb (is_unsigned_int number) then Exit 1
              else
                match atoi number with
                | Some n => argument_loop rest n
                | None => Undefined
                end
          end
      | _ =>
          match strncmp arg "--tinman-help" 13 with
          | Eq => Exit 0
          | _ => argument_loop rest num_elems
          end
      end
  end.

(** [main], up to the check of [num_elems]: [argv] holds the [argc]
    strings of the command line, the name of the program first. *)
Definition main (argv : list string) : Outcome :=
  let num_elems := 10%Z in
  let parsed :=
    if (1 <? List.length argv)%nat then argument_loop (List.tl argv) num_elems
    else Run num_elems in
  match parsed with
  | Run num_elems => if (num_elems <? 1)%Z then Exit 1 else Run num_elems
  | o => o
  end.

End Int.

(** An argument that the loop of [main] passes over: it starts neither
    like the option of the number of elements nor like the help option. *)
Definition ignored (arg : string) : bool :=
  match strncmp arg "--tinman-num-elems=" 18, strncmp arg "--tinman-help" 13 with
  | Eq, _ | _, Eq => false
  | _, _ => true
  end.

(** The option of the number of elements: between the first eighteen
    characters and the first [=] there may be anything. *)
Definition num_elems_option (junk number : string) : string :=
  "--tinman-num-elems" ++ junk ++ "=" ++ number.

(** The decimal numeral of [n]. *)
Definition decimal (n : nat) : string :=
  DecimalString.NilEmpty.string_of_uint (Nat.to_uint n).

End Main.

(** * Utility.hpp (level_vectorized_ppscan)

    The views of Utility.hpp have a leading run-time extent and entries of
    type [Real] or [Scalar], a vector of [VECTOR_SIZE] reals.  A view is
    modelled by a function of the tuple of its indices, the lane of a
    [Scalar] entry being the last index: [v(ie, igp, jgp, ilev)[lane]] is
    [v [ie; igp; jgp; ilev; lane]]. *)

Module Utility.

Definition Index := list nat.
Definition View := Index -> Real.

Fixpoint index_eqb (a b : Index) : bool :=
  match a, b with
  | nil, nil => true
  | x :: a', y :: b' => (x =? y)%nat && index_eqb a' b'
  | _, _ => false
  end.

(** [v(idx) = x] *)
Definition set (v : View) (idx : Index) (x : Real) : View :=
  fun idx' => if index_eqb idx' idx then x else v idx'.

(** [for (k = lo; k < hi && cond; ++k) body(k)], the condition being on
    the state. *)
Fixpoint run_while {St : Type} (ks : list nat) (cond : St -> bool)
    (body : nat -> St -> St) (s : St) : St :=
  match ks with
  | nil => s
  | k :: ks' => if cond s then run_while ks' cond body (body k s) else s
  end.

Definition for_loop_while {St : Type} (lo hi : nat) (cond : St -> bool)
    (body : nat -> St -> St) (s : St) : St :=
  run_while (seq lo (hi - lo)) cond body s.

(** [p] holds for some [k < n]. *)
Definition any (n : nat) (p : nat -> bool) : bool := existsb p (seq 0 n).

Section Kernels.

(** Compile-time extents (Types.hpp): [NUM_LEV] is the number of vector
    levels. *)
Variables NP NUM_LEV NUM_PHYSICAL_LEV NUM_TIME_LEVELS VECTOR_SIZE : nat.

(** [sync_to_host], from [Scalar * [NUM_TIME_LEVELS][NP][NP][NUM_LEV]] to
    [Real * [NUM_TIME_LEVELS][NUM_PHYSICAL_LEV][NP][NP]]: the new content of
    [dest].  [num_elems] is [source.extent_int(0)]; the mirror of [source]
    holds what [source] holds.  The pair of counters [(vector_level, level)]
    is the state of the loop over [vector_level]. *)
Definition sync_to_host_time_levels (num_elems : nat) (source dest : View) : View :=
  for_loop 0 num_elems (fun ie dest =>
    for_loop 0 NUM_TIME_LEVELS (fun time dest =>
      snd
        (for_loop 0 NUM_LEV (fun vector_level t =>
           for_loop_while 0 VECTOR_SIZE
             (fun '(level, _) => (level <? NUM_PHYSICAL_LEV)%nat)
             (fun vector '(level, dest) =>
                let dest :=
                  for_loop 0 NP (fun igp dest =>
                    for_loop 0 NP (fun jgp dest =>
                      set dest [ie; time; level; igp; jgp]
                        (source [ie; time; igp; jgp; vector_level; vector]))
                      dest) dest in
                ((level + 1)%nat, dest)) t)
           (0%nat, dest))) dest) dest.

(** [sync_to_host], from [Scalar * [NP][NP][NUM_LEV]] to
    [Real * [NUM_PHYSICAL_LEV][NP][NP]]. *)
Definition sync_to_host (num_elems : nat) (source dest : View) : View :=
  for_loop 0 num_elems (fun ie dest =>
    snd
      (for_loop 0 NUM_LEV (fun vector_level t =>
         for_loop 0 VECTOR_SIZE (fun vector '(level, dest) =>
           let dest :=
             for_loop 0 NP (fun igp dest =>
               for_loop 0 NP (fun jgp dest =>
                 set dest [ie; level; igp; jgp]
                   (source [ie; igp; jgp; vector_level; vector])) dest) dest in
           ((level + 1)%nat, dest)) t)
         (0%nat, dest))) dest.

(** [v(ie, level, igp, jgp)] read from a host view
    [Real * [NUM_PHYSICAL_LEV][NP][NP]].  The view has no entry at a level
    at or past [NUM_PHYSICAL_LEV]: what the code reads at such an index is
    whatever lies in memory behind the row, [beyond]. *)
Definition host_entry (beyond v : View) (idx : Index) : Real :=
  match idx with
  | [ie; level; igp; jgp] =>
      if (level <? NUM_PHYSICAL_LEV)%nat then v idx else beyond idx
  | _ => v idx
  end.

(** [sync_to_device], from [Real * [NUM_PHYSICAL_LEV][NP][NP]] to
    [Scalar * [NP][NP][NUM_LEV]]: the new content of [dest], which is the
    content of [dest_mirror] after the loops.  [num_elems] is
    [source.extent_int(0)] and [dest_mirror] what the mirror of [dest]
    holds when it is created.  The counter [level] runs up to
    [NUM_LEV * VECTOR_SIZE], whatever the extent of [source] is. *)
Definition sync_to_device (beyond : View) (num_elems : nat)
    (source dest_mirror : View) : View :=
  for_loop 0 num_elems (fun ie dest_mirror =>
    snd
      (for_loop 0 NUM_LEV (fun vector_level t =>
         for_loop 0 VECTOR_SIZE (fun vector '(level, dest_mirror) =>
           let dest_mirror :=
             for_loop 0 NP (fun igp dest_mirror =>
               for_loop 0 NP (fun jgp dest_mirror =>
                 set dest_mirror [ie; igp; jgp; vector_level; vector]
                   (host_entry beyond source [ie; level; igp; jgp]))
                 dest_mirror) dest_mirror in
           ((level + 1)%nat, dest_mirror)) t)
         (0%nat, dest_mirror))) dest_mirror.

End Kernels.

(** ** Numbers *)

(** [min (val_1, val_2)] *)
Definition min (val_1 val_2 : Real) : Real :=
  if Rlt_dec val_1 val_2 then val_1 else val_2.

(** [min (val, pack...)], for a pack [val_2, pack'...] of one value or
    more: the overload with two arguments ends the recursion. *)
Fixpoint min_pack (val val_2 : Real) (pack : list Real) : Real :=
  match pack with
  | nil => min val val_2
  | val_3 :: pack' =>
      if Rlt_dec val (min_pack val_2 val_3 pack') then val
      else min_pack val_2 val_3 pack'
  end.

(** [frobenius_norm] of a view of reals, [data] being its entries in
    memory order: the Kahan summation on [(norm, c)]. *)
Definition frobenius_norm (data : list Real) : Real :=
  let '(norm, c) :=
    fold_left (fun '(norm, c) x =>
      let y := x * x - c in
      let temp := norm + y in
      let c := (temp - norm) - y in
      let norm := temp in
      (norm, c)) data (0, 0) in
  sqrt norm.

(** The sum of the squares of the entries. *)
Definition sum_squares (data : list Real) : Real :=
  fold_right (fun x s => x * x + s) 0 data.

(** [compare_answers] *)
Definition compare_answers (target computed relative_coeff : Real) : Real :=
  let denom := 1.0 in
  let denom :=
    if Rlt_dec 0.0 relative_coeff
    then if Req_dec_T target 0.0 then denom else relative_coeff * Rabs target
    else denom in
  Rabs (target - computed) / denom.

(** ** Host_View_Iterator, compiled with assertions

    [index_type] and [difference_type] are [int].  A member function ends
    in a value, in a failed assertion, or in undefined behaviour when a sum,
    a difference or a product of [int]s is outside the range of [int]. *)

Inductive Outcome (A : Type) : Type :=
| Value (a : A)
| Assertion_failed
| Undefined.

Arguments Value {A} a.
Arguments Assertion_failed {A}.
Arguments Undefined {A}.

Definition bind {A B : Type} (x : Outcome A) (k : A -> Outcome B) : Outcome B :=
  match x with
  | Value a => k a
  | Assertion_failed => Assertion_failed
  | Undefined => Undefined
  end.

Local Notation "x <- e ;; k" := (bind e (fun x => k))
  (at level 200, e at level 100, k at level 200, right associativity).

(** [assert(b)] *)
Definition assert (b : bool) : Outcome unit :=
  if b then Value tt else Assertion_failed.

(** [m_extent] is [m_view.extent_int(0)] and [is_scalar_view] says whether
    the entries of the view are [Scalar]s. *)
Record Host_View_Iterator : Type := Build_Host_View_Iterator {
  m_view : View;
  m_extent : Z;
  is_scalar_view : bool;
  m_index : Z }.

Section Iterator.

(** [INT_MAX] of limits.h; [INT_MIN] is [- INT_MAX - 1]. *)
Variable INT_MAX : Z.
Variable VECTOR_SIZE : Z.

Definition in_int (x : Z) : bool :=
  ((- INT_MAX - 1 <=? x) && (x <=? INT_MAX))%Z.

(** The result of an arithmetic operation on [int]s whose exact value is
    [x]. *)
Definition int (x : Z) : Outcome Z :=
  if in_int x then Value x else Undefined.

Definition max_index (view_extent : Z) (scalar : bool) : Outcome Z :=
  if scalar then int (view_extent * VECTOR_SIZE) else Value view_extent.

(** [Host_View_Iterator(view, index)] *)
Definition make (view : View) (extent : Z) (scalar : bool) (index : Z)
    : Outcome Host_View_Iterator :=
  max <- max_index extent scalar ;;
  _ <- assert (index <=? max)%Z ;;
  Value (Build_Host_View_Iterator view extent scalar index).

Definition start (view : View) (extent : Z) (scalar : bool)
    : Outcome Host_View_Iterator :=
  make view extent scalar 0.

(** [end] *)
Definition end_ (view : View) (extent : Z) (scalar : bool)
    : Outcome Host_View_Iterator :=
  max <- max_index extent scalar ;;
  make view extent scalar max.

Definition with_index (it : Host_View_Iterator) (index : Z) : Host_View_Iterator :=
  Build_Host_View_Iterator (m_view it) (m_extent it) (is_scalar_view it) index.

(** [max_index(m_view)] *)
Definition limit (it : Host_View_Iterator) : Outcome Z :=
  max_index (m_extent it) (is_scalar_view it).

(** [operator++()] *)
Definition increment (it : Host_View_Iterator) : Outcome Host_View_Iterator :=
  next <- int (m_index it + 1) ;;
  max <- limit it ;;
  _ <- assert (next <=? max)%Z ;;
  Value (with_index it next).

(** [operator+(offset)] *)
Definition plus (it : Host_View_Iterator) (offset : Z)
    : Outcome Host_View_Iterator :=
  sum <- int (m_index it + offset) ;;
  max <- limit it ;;
  _ <- assert (sum <=? max)%Z ;;
  Value (with_index it sum).

(** [operator--()] *)
Definition decrement (it : Host_View_Iterator) : Outcome Host_View_Iterator :=
  _ <- assert (0 <? m_index it)%Z ;;
  previous <- int (m_index it - 1) ;;
  Value (with_index it previous).

(** [operator-(distance)] *)
Definition minus (it : Host_View_Iterator) (distance : Z)
    : Outcome Host_View_Iterator :=
  _ <- assert (distance <=? m_index it)%Z ;;
  sum <- int (m_index it + distance) ;;
  max <- limit it ;;
  _ <- assert (sum <=? max)%Z ;;
  difference <- int (m_index it - distance) ;;
  make (m_view it) (m_extent it) (is_scalar_view it) difference.

End Iterator.

End Utility.

(** * More small inputs *)

Module ExampleExtra.

(** An element with two points in a row whose velocity differs from point
    to point: [U = 3 + 2 i + 2 j] and [V = 1 + i + j]. *)
Definition region : Scratch.Region :=
  Scratch.Build_Region
    (fun _ i j => 3 + 2 * INR i + 2 * INR j) (fun _ i j => 1 + INR i + INR j)
    (Example.const3 1) (Example.const3 1)
    (Example.const3 1) (Example.const3 1) (Example.const3 1) (Example.const3 1)
    (Example.const3 0) (Example.const3 0) (Example.const3 0) (Example.const3 0)
    (Example.const4 1) (Example.const4 1)
    (Example.const2 1) (Example.const2 1) (Example.const2 0) (Example.const2 0)
    (Example.const3 0) (Example.const3 0)
    (Example.const3 0)
    (Example.const3 0) (Example.const3 0) (Example.const3 0) (Example.const3 0)
    (Example.const3 0) (Example.const3 0)
    (Example.const3 0) (Example.const3 5)
    (fun _ _ => Example.const3 0).

Definition functor : Scratch.update_state :=
  Scratch.Build_update_state Example.control region.

(** The element of [Example] with layers of no thickness: [DP3D = 0] at
    the current time level.  Its tracer field is zero. *)
Definition flat_region : Scratch.Region :=
  Scratch.Build_Region
    (Example.const3 1) (Example.const3 1) (Example.const3 1) (Example.const3 0)
    (Example.const3 1) (Example.const3 1) (Example.const3 1) (Example.const3 1)
    (Example.const3 0) (Example.const3 0) (Example.const3 0) (Example.const3 0)
    (Example.const4 1) (Example.const4 1)
    (Example.const2 1) (Example.const2 1) (Example.const2 0) (Example.const2 0)
    (Example.const3 0) (Example.const3 0)
    (Example.const3 0)
    (Example.const3 0) (Example.const3 0) (Example.const3 0) (Example.const3 0)
    (Example.const3 0) (Example.const3 0)
    (Example.const3 0) (Example.const3 5)
    (fun _ _ => Example.const3 0).

Definition flat_functor : Scratch.update_state :=
  Scratch.Build_update_state Example.control flat_region.

(** A field that holds the index of the level. *)
Definition level_field : View3 := fun k _ _ => INR k.

(** A flux through the top and the bottom interface of a column of three
    levels only. *)
Definition boundary_flux : View3 :=
  fun k _ _ => if (k =? 0)%nat || (k =? 3)%nat then 7 else 0.

(** [INT_MAX] of a 32 bit [int]. *)
Definition INT_MAX : Z := 2147483647.

(** A host view that holds the index of its level, and a device view that
    holds ten times the index of the vector level plus the index of the
    lane. *)
Definition host_levels : Utility.View :=
  fun idx => match idx with
             | [_; level; _; _] => INR level
             | _ => 0
             end.
Definition device_lanes : Utility.View :=
  fun idx => match idx with
             | [_; _; _; vector_level; vector] => 10 * INR vector_level + INR vector
             | _ => 0
             end.

(** An iterator at the second of the four entries of a view of reals. *)
Definition iterator : Utility.Host_View_Iterator :=
  Utility.Build_Host_View_Iterator (fun _ => 0) 4 false 1.

End ExampleExtra.
(** ** Reading a view after a write *)

Lemma set2_same (v : View2) i j x : set2 v i j x i j = x.
Proof. unfold set2. now rewrite !Nat.eqb_refl. Qed.

Lemma set2_other (v : View2) i j x i' j' :
  (i', j') <> (i, j) -> set2 v i j x i' j' = v i' j'.
Proof.
  intros H. unfold set2.
  destruct (Nat.eqb_spec i' i) as [->|]; [|reflexivity].
  destruct (Nat.eqb_spec j' j) as [->|]; [|reflexivity].
  now elim H.
Qed.

Lemma set3_same (v : View3) l i j x : set3 v l i j x l i j = x.
Proof. unfold set3. rewrite Nat.eqb_refl. apply set2_same. Qed.

Lemma set3_other_level (v : View3) l i j x l' :
  l' <> l -> set3 v l i j x l' = v l'.
Proof. intros H. unfold set3. now destruct (Nat.eqb_spec l' l). Qed.

Lemma set3_other_point (v : View3) l i j x l' i' j' :
  (i', j') <> (i, j) -> set3 v l i j x l' i' j' = v l' i' j'.
Proof.
  intros H. unfold set3. destruct (Nat.eqb l' l); [|reflexivity].
  now apply set2_other.
Qed.

Lemma set3_other (v : View3) l i j x l' i' j' :
  (l', i', j') <> (l, i, j) -> set3 v l i j x l' i' j' = v l' i' j'.
Proof.
  intros H. destruct (Nat.eq_dec l' l) as [->|Hl].
  - apply set3_other_point. intros E. inversion E; subst. now elim H.
  - now rewrite set3_other_level.
Qed.

Lemma set4_same (v : View4) a b i j x : set4 v a b i j x a b i j = x.
Proof. unfold set4. rewrite Nat.eqb_refl. apply set3_same. Qed.

Lemma set4_other (v : View4) a b i j x a' b' i' j' :
  (a', b', i', j') <> (a, b, i, j) -> set4 v a b i j x a' b' i' j' = v a' b' i' j'.
Proof.
  intros H. unfold set4. destruct (Nat.eqb_spec a' a) as [->|]; [|reflexivity].
  apply set3_other. intros E. inversion E; subst. now elim H.
Qed.

Lemma set4_other_level (v : View4) a b i j x a' :
  a' <> a -> set4 v a b i j x a' = v a'.
Proof. intros H. unfold set4. now destruct (Nat.eqb_spec a' a). Qed.

Lemma put2_same (v : View3) l s : put2 v l s l = s.
Proof. unfold put2. now rewrite Nat.eqb_refl. Qed.

Lemma put2_other (v : View3) l s l' : l' <> l -> put2 v l s l' = v l'.
Proof. intros H. unfold put2. now destruct (Nat.eqb_spec l' l). Qed.

Lemma put3_same (v : View4) l s : put3 v l s l = s.
Proof. unfold put3. now rewrite Nat.eqb_refl. Qed.

Lemma put3_other (v : View4) l s l' : l' <> l -> put3 v l s l' = v l'.
Proof. intros H. unfold put3. now destruct (Nat.eqb_spec l' l). Qed.

(** ** Reasoning about loops *)

Section LoopRules.
Context {St : Type}.

Lemma for_loop_empty lo hi (body : nat -> St -> St) s :
  (hi <= lo)%nat -> for_loop lo hi body s = s.
Proof.
  intros H. unfold for_loop.
  replace (hi - lo)%nat with 0%nat by lia. reflexivity.
Qed.

Lemma for_loop_snoc lo hi (body : nat -> St -> St) s :
  (lo <= hi)%nat ->
  for_loop lo (S hi) body s = body hi (for_loop lo hi body s).
Proof.
  intros H. unfold for_loop.
  replace (S hi - lo)%nat with (S (hi - lo)) by lia.
  rewrite seq_S, fold_left_app. cbn [fold_left].
  now replace (lo + (hi - lo))%nat with hi by lia.
Qed.

Lemma for_loop_first lo hi (body : nat -> St -> St) s :
  (lo < hi)%nat ->
  for_loop lo hi body s = for_loop (S lo) hi body (body lo s).
Proof.
  intros H. unfold for_loop.
  replace (hi - lo)%nat with (S (hi - S lo)) by lia.
  reflexivity.
Qed.

(** Invariant rule for an upward loop. *)
Lemma for_loop_ind (P : nat -> St -> Prop) lo hi (body : nat -> St -> St) s :
  (lo <= hi)%nat ->
  P lo s ->
  (forall k t, (lo <= k < hi)%nat -> P k t -> P (S k) (body k t)) ->
  P hi (for_loop lo hi body s).
Proof.
  intros Hle H0 Hstep. induction hi as [|hi IH].
  - replace lo with 0%nat in * by lia. exact H0.
  - destruct (Nat.eq_dec lo (S hi)) as [->|Hne].
    + now rewrite for_loop_empty by lia.
    + rewrite for_loop_snoc by lia. apply Hstep; [lia|].
      apply IH; [lia|]. intros k t Hk. apply Hstep. lia.
Qed.

Lemma for_loop_down_empty hi lo (body : nat -> St -> St) s :
  (hi <= lo)%nat -> for_loop_down hi lo body s = s.
Proof.
  intros H. unfold for_loop_down.
  replace (hi - lo)%nat with 0%nat by lia. reflexivity.
Qed.

Lemma for_loop_down_first hi lo (body : nat -> St -> St) s :
  (lo <= hi)%nat ->
  for_loop_down (S hi) lo body s = for_loop_down hi lo body (body (S hi) s).
Proof.
  intros H. unfold for_loop_down.
  replace (S hi - lo)%nat with (S (hi - lo)) by lia.
  rewrite seq_S, rev_app_distr. cbn [rev app fold_left].
  now replace (S lo + (hi - lo))%nat with (S hi) by lia.
Qed.

(** Invariant rule for a downward loop: [P k] holds when the levels
    above [k] have been processed. *)
Lemma for_loop_down_ind (P : nat -> St -> Prop) hi lo (body : nat -> St -> St) s :
  (lo <= hi)%nat ->
  P hi s ->
  (forall k t, (lo < k <= hi)%nat -> P k t -> P (pred k) (body k t)) ->
  P lo (for_loop_down hi lo body s).
Proof.
  intros Hle H0 Hstep. revert s H0. induction hi as [|hi IH]; intros s H0.
  - replace lo with 0%nat in * by lia. exact H0.
  - destruct (Nat.eq_dec lo (S hi)) as [->|Hne].
    + now rewrite for_loop_down_empty by lia.
    + rewrite for_loop_down_first by lia. apply IH; [lia| |].
      * intros k t Hk. apply Hstep. lia.
      * apply (Hstep (S hi) s); [lia|exact H0].
Qed.

(** A quantity that no iteration changes is not changed by the loop. *)
Lemma for_loop_frame {A : Type} (g : St -> A) lo hi (body : nat -> St -> St) s :
  (forall k t, (lo <= k < hi)%nat -> g (body k t) = g t) ->
  g (for_loop lo hi body s) = g s.
Proof.
  intros H. destruct (Nat.le_gt_cases lo hi) as [Hle|Hgt].
  - apply (for_loop_ind (fun _ t => g t = g s)); auto.
    intros k t Hk Ht. now rewrite H.
  - now rewrite for_loop_empty by lia.
Qed.

Lemma for_loop_down_frame {A : Type} (g : St -> A) hi lo (body : nat -> St -> St) s :
  (forall k t, (lo < k <= hi)%nat -> g (body k t) = g t) ->
  g (for_loop_down hi lo body s) = g s.
Proof.
  intros H. destruct (Nat.le_gt_cases lo hi) as [Hle|Hgt].
  - apply (for_loop_down_ind (fun _ t => g t = g s)); auto.
    intros k t Hk Ht. now rewrite H.
  - now rewrite for_loop_down_empty by lia.
Qed.

Lemma parallel_for_frame {A : Type} (g : St -> A) n (body : nat -> St -> St) s :
  (forall k t, (k < n)%nat -> g (body k t) = g t) ->
  g (parallel_for n body s) = g s.
Proof. intros H. apply for_loop_frame. intros k t Hk. apply H. lia. Qed.

(** Independent iterations: iteration [k] is the only one that changes the
    observation [obs k], and what it stores there, [f k], is not disturbed
    by the other iterations. *)
Lemma parallel_for_obs {A : Type} (obs f : nat -> St -> A) n (body : nat -> St -> St) :
  (forall k k' t, (k < n)%nat -> (k' < n)%nat -> k' <> k -> obs k' (body k t) = obs k' t) ->
  (forall k t, (k < n)%nat -> obs k (body k t) = f k t) ->
  (forall k k' t, (k < n)%nat -> (k' < n)%nat -> k' <> k -> f k (body k' t) = f k t) ->
  forall s k, (k < n)%nat -> obs k (parallel_for n body s) = f k s.
Proof.
  intros H1 H2 H3 s.
  assert (I : forall m, (m <= n)%nat ->
     forall k, (k < n)%nat ->
       (k < m -> obs k (for_loop 0 m body s) = f k s)%nat /\
       (m <= k -> f k (for_loop 0 m body s) = f k s)%nat).
  { induction m as [|m IH]; intros Hm k Hk.
    - rewrite for_loop_empty by lia. split; [lia|reflexivity].
    - rewrite for_loop_snoc by lia.
      destruct (IH ltac:(lia) k Hk) as [IHa IHb]. split; intros Hkm.
      + destruct (Nat.eq_dec k m) as [->|Hne].
        * rewrite H2 by lia. apply IHb. lia.
        * rewrite H1 by lia. apply IHa. lia.
      + rewrite H3 by lia. apply IHb. lia. }
  intros k Hk. unfold parallel_for. now apply (I n (Nat.le_refl n) k Hk).
Qed.

(** The order [0, 1, ..., n - 1] is the one of [parallel_for]. *)
Lemma parallel_for_in_seq n (body : nat -> St -> St) s :
  parallel_for_in (seq 0 n) body s = parallel_for n body s.
Proof.
  unfold parallel_for_in, parallel_for, for_loop. now rewrite Nat.sub_0_r.
Qed.

(** The order [n, n - 1, ..., 0] starts with iteration [n]. *)
Lemma parallel_for_in_rev_S n (body : nat -> St -> St) s :
  parallel_for_in (rev (seq 0 (S n))) body s
  = parallel_for_in (rev (seq 0 n)) body (body n s).
Proof.
  unfold parallel_for_in. rewrite seq_S, rev_app_distr. reflexivity.
Qed.

(** What no iteration changes is kept, whatever the order. *)
Lemma parallel_for_in_frame {A : Type} (obs : St -> A) order (body : nat -> St -> St) :
  (forall k t, obs (body k t) = obs t) ->
  forall s, obs (parallel_for_in order body s) = obs s.
Proof.
  intros H. unfold parallel_for_in.
  induction order as [|k order IH]; intros s; [reflexivity|].
  cbn [fold_left]. now rewrite IH.
Qed.
End LoopRules.

Lemma point_of_index_aux (M a b : nat) :
  (b < M)%nat -> ((a * M + b) / M = a /\ (a * M + b) mod M = b)%nat.
Proof.
  intros H. split.
  - rewrite Nat.div_add_l by lia. rewrite Nat.div_small by lia. lia.
  - rewrite Nat.add_comm, Nat.Div0.mod_add. now apply Nat.mod_small.
Qed.

Lemma for_loop_split {St : Type} lo mid hi (body : nat -> St -> St) s :
  (lo <= mid <= hi)%nat ->
  for_loop lo hi body s = for_loop mid hi body (for_loop lo mid body s).
Proof.
  intros H. unfold for_loop.
  replace (hi - lo)%nat with ((mid - lo) + (hi - mid))%nat by lia.
  rewrite seq_app, fold_left_app.
  now replace (lo + (mid - lo))%nat with mid by lia.
Qed.

Lemma for_loop_shift {St : Type} d lo hi (body : nat -> St -> St) s :
  for_loop (d + lo) (d + hi) body s = for_loop lo hi (fun k => body (d + k)%nat) s.
Proof.
  unfold for_loop. replace (d + hi - (d + lo))%nat with (hi - lo)%nat by lia.
  generalize (hi - lo)%nat as n. intros n. revert lo s.
  induction n as [|n IH]; intros lo s; [reflexivity|].
  cbn [seq fold_left]. rewrite <- IH. now replace (S (d + lo)) with (d + S lo)%nat by lia.
Qed.

Lemma for_loop_ext {St : Type} lo hi (body body' : nat -> St -> St) s :
  (forall k t, (lo <= k < hi)%nat -> body k t = body' k t) ->
  for_loop lo hi body s = for_loop lo hi body' s.
Proof.
  intros H. destruct (Nat.le_gt_cases lo hi) as [Hle|Hgt].
  - apply (for_loop_ind (fun k t => t = for_loop lo k body' s)); trivial.
    + now rewrite for_loop_empty.
    + intros k t Hk ->. rewrite for_loop_snoc by lia. now apply H.
  - now rewrite !for_loop_empty by lia.
Qed.

(** Two nested loops over [N] rows and [M] columns are one loop over the
    flattened index. *)
Lemma nested_loop_flat {St : Type} N M (body : nat -> nat -> St -> St) s :
  for_loop 0 N (fun a t => for_loop 0 M (fun b t => body a b t) t) s
  = for_loop 0 (N * M) (fun idx => body (idx / M)%nat (idx mod M)%nat) s.
Proof.
  induction N as [|N IH].
  - reflexivity.
  - rewrite for_loop_snoc by lia. rewrite IH.
    rewrite (for_loop_split 0 (N * M) (S N * M)) by lia.
    set (flat := fun idx => body (idx / M)%nat (idx mod M)%nat).
    set (X := for_loop 0 (N * M) flat s).
    replace (S N * M)%nat with (N * M + M)%nat by lia.
    pose proof (for_loop_shift (N * M) 0 M flat X) as E.
    rewrite Nat.add_0_r in E. rewrite E.
    apply for_loop_ext. intros k t Hk. unfold flat.
    destruct (point_of_index_aux M N k ltac:(lia)) as [-> ->]. reflexivity.
Qed.

(** ** The flattened point index [idx -> (idx / NP, idx % NP)] *)

Lemma point_of_index (NP i j : nat) :
  (j < NP)%nat -> ((i * NP + j) / NP = i /\ (i * NP + j) mod NP = j)%nat.
Proof.
  intros H. split.
  - rewrite Nat.div_add_l by lia. rewrite Nat.div_small by lia. lia.
  - rewrite Nat.add_comm, Nat.Div0.mod_add. now apply Nat.mod_small.
Qed.

Lemma index_in_range (NP i j : nat) :
  (i < NP)%nat -> (j < NP)%nat -> (i * NP + j < NP * NP)%nat.
Proof. intros Hi Hj. nia. Qed.

Lemma point_in_range (NP idx : nat) :
  (idx < NP * NP)%nat -> (idx / NP < NP /\ idx mod NP < NP)%nat.
Proof.
  intros H. assert (0 < NP)%nat by nia. split.
  - apply Nat.Div0.div_lt_upper_bound. lia.
  - apply Nat.mod_upper_bound. lia.
Qed.

Lemma point_injective (NP k k' : nat) :
  ((k' / NP)%nat, (k' mod NP)%nat) = ((k / NP)%nat, (k mod NP)%nat) -> k' = k.
Proof.
  intros E. inversion E as [[E1 E2]].
  rewrite (Nat.div_mod_eq k' NP), (Nat.div_mod_eq k NP). now rewrite E1, E2.
Qed.

(** A loop over the [NP * NP] points of a level whose iterations are
    independent.  [a] is [idx / NP] and [b] is [idx % NP]; the sources name
    them [igp, jgp] in most loops and [jgp, igp] in the omega loops. *)
Lemma points_loop_obs {St A : Type} (NP : nat) (obs f : nat -> nat -> St -> A)
    (body : nat -> nat -> St -> St) :
  (forall a b a' b' t, (a < NP)%nat -> (b < NP)%nat -> (a' < NP)%nat -> (b' < NP)%nat ->
      (a', b') <> (a, b) -> obs a' b' (body a b t) = obs a' b' t) ->
  (forall a b t, (a < NP)%nat -> (b < NP)%nat -> obs a b (body a b t) = f a b t) ->
  (forall a b a' b' t, (a < NP)%nat -> (b < NP)%nat -> (a' < NP)%nat -> (b' < NP)%nat ->
      (a', b') <> (a, b) -> f a b (body a' b' t) = f a b t) ->
  forall s a b, (a < NP)%nat -> (b < NP)%nat ->
    obs a b (parallel_for (NP * NP) (fun idx => body (idx / NP)%nat (idx mod NP)%nat) s)
    = f a b s.
Proof.
  intros H1 H2 H3 s a b Ha Hb.
  destruct (point_of_index NP a b Hb) as [Ea Eb].
  pose proof (parallel_for_obs
    (fun k t => obs (k / NP)%nat (k mod NP)%nat t)
    (fun k t => f (k / NP)%nat (k mod NP)%nat t)
    (NP * NP) (fun idx => body (idx / NP)%nat (idx mod NP)%nat)) as L.
  cbv beta in L.
  specialize (L ltac:(
    intros k k' t Hk Hk' Hne;
    destruct (point_in_range NP k Hk), (point_in_range NP k' Hk');
    apply H1; auto; intros E; apply Hne; now apply (point_injective NP)) ltac:(
    intros k t Hk; destruct (point_in_range NP k Hk); now apply H2) ltac:(
    intros k k' t Hk Hk' Hne;
    destruct (point_in_range NP k Hk), (point_in_range NP k' Hk');
    apply H3; auto; intros E; apply Hne; symmetry; now apply (point_injective NP))
    s (a * NP + b)%nat (index_in_range NP a b Ha Hb)).
  now rewrite Ea, Eb in L.
Qed.


(** Two loops whose bodies keep a relation between their states. *)
Lemma for_loop_sim {St St' : Type} (R : St -> St' -> Prop) lo hi
    (body : nat -> St -> St) (body' : nat -> St' -> St') s s' :
  R s s' ->
  (forall k t t', (lo <= k < hi)%nat -> R t t' -> R (body k t) (body' k t')) ->
  R (for_loop lo hi body s) (for_loop lo hi body' s').
Proof.
  intros H0 Hstep. unfold for_loop.
  assert (Hin : forall k, In k (seq lo (hi - lo)) -> (lo <= k < hi)%nat).
  { intros k Hk. apply in_seq in Hk. lia. }
  revert s s' H0. induction (seq lo (hi - lo)) as [|k ks IH]; intros s s' H0.
  - exact H0.
  - cbn [fold_left]. apply IH.
    + intros k' Hk'. apply Hin. now right.
    + apply Hstep; [apply Hin; now left | exact H0].
Qed.

(** A loop commutes with a map that its body commutes with. *)
Lemma for_loop_commute {St : Type} (h : St -> St) lo hi
    (body body' : nat -> St -> St) s :
  (forall k t, (lo <= k < hi)%nat -> body k (h t) = h (body' k t)) ->
  for_loop lo hi body (h s) = h (for_loop lo hi body' s).
Proof.
  intros H. apply (for_loop_sim (fun t t' => t = h t')); [reflexivity|].
  intros k t t' Hk ->. now apply H.
Qed.

(** A point loop that stores [val igp jgp] at level [l] of one view. *)
Lemma level_loop_spec (NP l : nat) (val : nat -> nat -> View3 -> Real) (v : View3) :
  (forall a b a' b' t x, (a', b') <> (a, b) ->
     val a b (set3 t l a' b' x) = val a b t) ->
  let v' := parallel_for (NP * NP) (fun idx t =>
              let igp := (idx / NP)%nat in
              let jgp := (idx mod NP)%nat in
              set3 t l igp jgp (val igp jgp t)) v in
  (forall i j, (i < NP)%nat -> (j < NP)%nat -> v' l i j = val i j v) /\
  (forall l' i j, l' <> l -> v' l' i j = v l' i j) /\
  (forall i j, ~ (i < NP /\ j < NP)%nat -> v' l i j = v l i j).
Proof.
  intros Hval v'. split; [|split].
  - intros i j Hi Hj. unfold v'.
    apply (points_loop_obs NP (fun a b (t : View3) => t l a b) val
             (fun a b t => set3 t l a b (val a b t))); trivial.
    + intros a b a' b' t _ _ _ _ Hne. now apply set3_other_point.
    + intros a b t _ _. apply set3_same.
    + intros a b a' b' t _ _ _ _ Hne. now apply Hval.
  - intros l' i j Hl. unfold v'.
    apply (parallel_for_frame (fun t : View3 => t l' i j)).
    intros k t Hk. cbv zeta. now rewrite set3_other_level.
  - intros i j Hout. unfold v'.
    apply (parallel_for_frame (fun t : View3 => t l i j)).
    intros k t Hk. cbv zeta. apply set3_other_point.
    destruct (point_in_range NP k Hk). intros E. inversion E; subst.
    apply Hout. now split.
Qed.

(** A point loop does not reach a point outside the [NP * NP] grid. *)
Lemma point_loop_outside (NP k i j : nat) :
  (k < NP * NP)%nat -> ~ (i < NP /\ j < NP)%nat ->
  (i, j) <> ((k / NP)%nat, (k mod NP)%nat).
Proof.
  intros Hk Hout E. destruct (point_in_range NP k Hk). inversion E; subst.
  apply Hout. now split.
Qed.

Lemma point_cases (NP i j : nat) :
  {(i < NP /\ j < NP)%nat} + {~ (i < NP /\ j < NP)%nat}.
Proof.
  destruct (lt_dec i NP) as [Hi|Hi]; [destruct (lt_dec j NP) as [Hj|Hj]|];
    [left; now split | right; intros [_ H]; now apply Hj
    | right; intros [H _]; now apply Hi].
Qed.

(** The literals of the sources. *)
Lemma half_twice (x : R) : 2.0 * (0.5 * x) = x.
Proof. lra. Qed.

(** Splitting the pairs a loop body binds with [let '(a, b) := ...]. *)
Ltac destruct_pairs :=
  repeat match goal with
         | |- context [match ?x with pair _ _ => _ end] => destruct x
         end.

(** [ring] over [Real]. *)
Ltac as_R :=
  match goal with |- @eq _ ?a ?b => change (@eq R a b) end.

Ltac real_ring := as_R; unfold Rdiv; ring.

(** ** The scans in closed form *)

Lemma sum_levels_ext g g' lo n :
  (forall k, (lo <= k < lo + n)%nat -> g k = g' k) ->
  sum_levels g lo n = sum_levels g' lo n.
Proof.
  revert lo. induction n as [|n IH]; intros lo H; [reflexivity|].
  cbn [sum_levels]. rewrite (H lo) by lia. f_equal. apply IH.
  intros k Hk. apply H. lia.
Qed.

Lemma sum_levels_snoc g lo n :
  sum_levels g lo (S n) = sum_levels g lo n + g (lo + n)%nat.
Proof.
  revert lo. induction n as [|n IH]; intros lo.
  - cbn [sum_levels]. rewrite Nat.add_0_r. lra.
  - cbn [sum_levels] in *. rewrite IH.
    replace (S lo + n)%nat with (lo + S n)%nat by lia. lra.
Qed.

Lemma omega_scan_first vgrad_p p div :
  omega_scan vgrad_p p div 0
  = vgrad_p 0%nat / p 0%nat - 0.5 / p 0%nat * div 0%nat.
Proof. unfold omega_scan. cbn [sum_levels]. lra. Qed.


(** The half and the whole hydrostatic increment of the sources:
    [hkk = 0.5 * dp / p] and [hkl = 2.0 * hkk]. *)
Lemma hkl_whole (x d p : R) : x * (2.0 * (0.5 * d / p)) = x * (d / p).
Proof. unfold Rdiv. generalize (/ p). intros ip. lra. Qed.

Lemma hkk_half (x d p : R) : x * (0.5 * d / p) = 0.5 * (x * (d / p)).
Proof. unfold Rdiv. generalize (/ p). intros ip. lra. Qed.

(** * Facts about the scratch-memory implementation *)

Module ScratchFacts.
Import Scratch ScratchFrame.

Section Facts.

Set Default Proof Using "Type".

Variables NP NUM_LEV : nat.
Variables Rgas Rwater_vapor kappa eta_ave_w : Real.
Variable gradient_sphere : View2 -> View4 -> View3.
Variable gradient_sphere_update : View2 -> View4 -> View3 -> View3.
Variable divergence_sphere : View3 -> View2 -> View4 -> View2.
Variable vorticity_sphere : View2 -> View2 -> View2 -> View4 -> View2.
Variable uninit2 : View2.
Variable uninit3 : View3.
Variable uninit4 : View4.

Local Abbreviation compute_velocity_grad_buf :=
  (compute_velocity_grad_buf NP Rgas gradient_sphere gradient_sphere_update uninit2).
Local Abbreviation compute_velocity :=
  (compute_velocity NP Rgas gradient_sphere gradient_sphere_update
     vorticity_sphere uninit2).
Local Abbreviation compute_eta_dpdn := (compute_eta_dpdn NP eta_ave_w).
Local Abbreviation compute_velocity_eta_dpdn :=
  (compute_velocity_eta_dpdn NP NUM_LEV Rgas eta_ave_w gradient_sphere
     gradient_sphere_update vorticity_sphere uninit2).
Local Abbreviation lev_term := (lev_term Rgas).
Local Abbreviation preq_hydrostatic_column := (preq_hydrostatic_column NUM_LEV Rgas).
Local Abbreviation preq_hydrostatic := (preq_hydrostatic NP NUM_LEV Rgas).
Local Abbreviation preq_omega_ps_init := (preq_omega_ps_init NP gradient_sphere).
Local Abbreviation preq_omega_ps_loop_level := (preq_omega_ps_loop_level NP gradient_sphere).
Local Abbreviation preq_omega_ps_loop := (preq_omega_ps_loop NP NUM_LEV gradient_sphere).
Local Abbreviation preq_omega_ps_tail_point := (preq_omega_ps_tail_point NUM_LEV).
Local Abbreviation preq_omega_ps_tail := (preq_omega_ps_tail NP NUM_LEV gradient_sphere).
Local Abbreviation preq_omega_ps_scan :=
  (preq_omega_ps_scan NP NUM_LEV gradient_sphere uninit2 uninit3).
Local Abbreviation preq_omega_ps :=
  (preq_omega_ps NP NUM_LEV gradient_sphere uninit2 uninit3).
Local Abbreviation compute_pressure := (compute_pressure NP NUM_LEV).
Local Abbreviation compute_scan_properties :=
  (compute_scan_properties NP NUM_LEV Rgas gradient_sphere uninit2 uninit3).
Local Abbreviation compute_temperature_no_tracers_helper :=
  (compute_temperature_no_tracers_helper NP).
Local Abbreviation compute_temperature_tracers_helper :=
  (compute_temperature_tracers_helper NP Rgas Rwater_vapor).
Local Abbreviation virtual_temperature := (virtual_temperature Rgas Rwater_vapor).
Local Abbreviation compute_div_vdp_point := (compute_div_vdp_point eta_ave_w).
Local Abbreviation compute_div_vdp := (compute_div_vdp NP eta_ave_w divergence_sphere).
Local Abbreviation compute_temperature_div_vdp :=
  (compute_temperature_div_vdp NP NUM_LEV Rgas Rwater_vapor eta_ave_w divergence_sphere).
Local Abbreviation ttens := (ttens kappa).
Local Abbreviation compute_stuff_point := (compute_stuff_point kappa eta_ave_w).
Local Abbreviation compute_stuff_level :=
  (compute_stuff_level NP kappa eta_ave_w gradient_sphere).
Local Abbreviation compute_stuff := (compute_stuff NP NUM_LEV kappa eta_ave_w gradient_sphere).
Local Abbreviation init_const_cache := (init_const_cache NP).
Local Abbreviation operator_call :=
  (operator_call NP NUM_LEV Rgas Rwater_vapor kappa eta_ave_w gradient_sphere
     gradient_sphere_update divergence_sphere vorticity_sphere uninit2 uninit3 uninit4).

(** ** Write sets *)

Lemma blank_field {A : Type} (proj : update_state -> A)
    (blank : update_state -> update_state) (f f' : update_state) :
  (forall g, proj (blank g) = proj g) -> blank f' = blank f -> proj f' = proj f.
Proof. intros H E. now rewrite <- (H f'), E, H. Qed.

Lemma compute_velocity_writes f ilev c_dinv :
  blank_velocity_eta_dpdn (compute_velocity f ilev c_dinv) = blank_velocity_eta_dpdn f.
Proof. unfold Scratch.compute_velocity. destruct_pairs. reflexivity. Qed.

Lemma compute_eta_dpdn_writes f ilev :
  blank_velocity_eta_dpdn (compute_eta_dpdn f ilev) = blank_velocity_eta_dpdn f.
Proof. reflexivity. Qed.

Lemma compute_velocity_eta_dpdn_writes f c_dinv :
  blank_velocity_eta_dpdn (compute_velocity_eta_dpdn f c_dinv) = blank_velocity_eta_dpdn f.
Proof.
  unfold Scratch.compute_velocity_eta_dpdn. apply parallel_for_frame.
  intros k t _. cbv zeta.
  now rewrite compute_eta_dpdn_writes, compute_velocity_writes.
Qed.

Lemma compute_stuff_level_writes f ilev c_dinv :
  blank_stuff (compute_stuff_level f ilev c_dinv) = blank_stuff f.
Proof. unfold Scratch.compute_stuff_level. destruct_pairs. reflexivity. Qed.

Lemma compute_stuff_writes f c_dinv :
  blank_stuff (compute_stuff f c_dinv) = blank_stuff f.
Proof.
  unfold Scratch.compute_stuff. apply parallel_for_frame.
  intros k t _. apply compute_stuff_level_writes.
Qed.

Lemma compute_pressure_writes f :
  blank_scan_properties (compute_pressure f) = blank_scan_properties f.
Proof. reflexivity. Qed.

Lemma preq_hydrostatic_writes f :
  blank_scan_properties (preq_hydrostatic f) = blank_scan_properties f.
Proof. reflexivity. Qed.

Lemma preq_omega_ps_init_writes f c_dinv grad_p suml :
  blank_scan_properties (fst (fst (preq_omega_ps_init f c_dinv grad_p suml)))
  = blank_scan_properties f.
Proof. unfold Scratch.preq_omega_ps_init. destruct_pairs. reflexivity. Qed.

Lemma preq_omega_ps_loop_writes f c_dinv grad_p suml :
  blank_scan_properties (fst (fst (preq_omega_ps_loop f c_dinv grad_p suml)))
  = blank_scan_properties f.
Proof. unfold Scratch.preq_omega_ps_loop. destruct_pairs. reflexivity. Qed.

Lemma preq_omega_ps_tail_writes f c_dinv grad_p suml :
  blank_scan_properties (fst (fst (preq_omega_ps_tail f c_dinv grad_p suml)))
  = blank_scan_properties f.
Proof. unfold Scratch.preq_omega_ps_tail. destruct_pairs. reflexivity. Qed.

Lemma preq_omega_ps_writes f c_dinv :
  blank_scan_properties (preq_omega_ps f c_dinv) = blank_scan_properties f.
Proof.
  unfold Scratch.preq_omega_ps, Scratch.preq_omega_ps_scan.
  pose proof (preq_omega_ps_init_writes f c_dinv uninit3 uninit2) as E1.
  destruct (preq_omega_ps_init f c_dinv uninit3 uninit2) as [[f1 g1] s1].
  pose proof (preq_omega_ps_loop_writes f1 c_dinv g1 s1) as E2.
  destruct (preq_omega_ps_loop f1 c_dinv g1 s1) as [[f2 g2] s2].
  rewrite preq_omega_ps_tail_writes. cbn [fst] in E1, E2. now rewrite E2.
Qed.

Lemma preq_omega_ps_writes_omega_p f c_dinv :
  blank_omega_p (preq_omega_ps f c_dinv) = blank_omega_p f.
Proof.
  unfold Scratch.preq_omega_ps, Scratch.preq_omega_ps_scan.
  assert (E1 : blank_omega_p (fst (fst (preq_omega_ps_init f c_dinv uninit3 uninit2)))
               = blank_omega_p f).
  { unfold Scratch.preq_omega_ps_init. destruct_pairs. reflexivity. }
  destruct (preq_omega_ps_init f c_dinv uninit3 uninit2) as [[f1 g1] s1].
  assert (E2 : blank_omega_p (fst (fst (preq_omega_ps_loop f1 c_dinv g1 s1)))
               = blank_omega_p f1).
  { unfold Scratch.preq_omega_ps_loop. destruct_pairs. reflexivity. }
  destruct (preq_omega_ps_loop f1 c_dinv g1 s1) as [[f2 g2] s2].
  assert (E3 : blank_omega_p (fst (fst (preq_omega_ps_tail f2 c_dinv g2 s2)))
               = blank_omega_p f2).
  { unfold Scratch.preq_omega_ps_tail. destruct_pairs. reflexivity. }
  cbn [fst] in E1, E2. now rewrite E3, E2.
Qed.

Lemma compute_scan_properties_writes f c_dinv :
  blank_scan_properties (compute_scan_properties f c_dinv) = blank_scan_properties f.
Proof.
  unfold Scratch.compute_scan_properties. cbv zeta.
  now rewrite preq_omega_ps_writes, preq_hydrostatic_writes, compute_pressure_writes.
Qed.

Lemma compute_div_vdp_writes f ilev c_dinv :
  blank_temperature_div_vdp (compute_div_vdp f ilev c_dinv) = blank_temperature_div_vdp f.
Proof. unfold Scratch.compute_div_vdp. destruct_pairs. reflexivity. Qed.

Lemma compute_temperature_div_vdp_writes f c_dinv :
  blank_temperature_div_vdp (compute_temperature_div_vdp f c_dinv)
  = blank_temperature_div_vdp f.
Proof.
  unfold Scratch.compute_temperature_div_vdp.
  destruct (qn0 (m_data f) =? -1)%Z; apply parallel_for_frame;
    intros k t _; cbv zeta; now rewrite compute_div_vdp_writes.
Qed.

(** ** compute_pressure *)

Lemma compute_pressure_region f : m_region (compute_pressure f) = m_region f.
Proof. reflexivity. Qed.

Lemma compute_pressure_top f i j :
  (i < NP)%nat -> (j < NP)%nat ->
  pressure (m_data (compute_pressure f)) 0%nat i j
  = hybrid_a (m_data f) 0%nat * ps0 (m_data f)
    + 0.5 * DP3D_current (m_region f) 0%nat i j.
Proof.
  intros Hi Hj. unfold Scratch.compute_pressure.
  cbn [m_data on_data pressure set_pressure].
  rewrite (for_loop_frame (fun t : View3 => t 0%nat i j)).
  - now apply (level_loop_spec NP 0 (fun igp jgp _ =>
      hybrid_a (m_data f) 0%nat * ps0 (m_data f)
      + 0.5 * DP3D_current (m_region f) 0%nat igp jgp)).
  - intros k t Hk.
    apply (level_loop_spec NP k (fun igp jgp (t : View3) =>
      t (k - 1)%nat igp jgp
      + 0.5 * (DP3D_current (m_region f) (k - 1)%nat igp jgp
               + DP3D_current (m_region f) k igp jgp))); [|lia].
    intros a b a' b' t0 x _. rewrite set3_other_level; [reflexivity|lia].
Qed.

Lemma compute_pressure_step f l i j :
  (1 <= l < NUM_LEV)%nat -> (i < NP)%nat -> (j < NP)%nat ->
  pressure (m_data (compute_pressure f)) l i j
  = pressure (m_data (compute_pressure f)) (l - 1)%nat i j
    + 0.5 * (DP3D_current (m_region f) (l - 1)%nat i j
             + DP3D_current (m_region f) l i j).
Proof.
  intros Hl Hi Hj. unfold Scratch.compute_pressure.
  cbn [m_data on_data pressure set_pressure].
  set (dp := DP3D_current (m_region f)).
  set (p0 := parallel_for (NP * NP) _ (pressure (m_data f))).
  set (body := fun (ilev : nat) (pressure : View3) =>
                 parallel_for (NP * NP) _ pressure).
  enough (I : forall hi, (1 <= hi)%nat ->
            forall l, (1 <= l < hi)%nat ->
              for_loop 1 hi body p0 l i j
              = for_loop 1 hi body p0 (l - 1)%nat i j
                + 0.5 * (dp (l - 1)%nat i j + dp l i j)).
  { apply I; lia. }
  assert (Hbody : forall k t, (1 <= k)%nat ->
     (body k t k i j = t (k - 1)%nat i j + 0.5 * (dp (k - 1)%nat i j + dp k i j)) /\
     (forall l', l' <> k -> body k t l' i j = t l' i j)).
  { intros k t Hk.
    pose proof (level_loop_spec NP k (fun igp jgp (t : View3) =>
      t (k - 1)%nat igp jgp
      + 0.5 * (dp (k - 1)%nat igp jgp + dp k igp jgp)) t) as L.
    cbv zeta in L. destruct L as (La & Lb & _).
    { intros a b a' b' t0 x _. rewrite set3_other_level; [reflexivity|lia]. }
    split; [now apply La | intros l' Hl'; now apply Lb]. }
  induction hi as [|hi IH]; [lia|]. intros Hhi l0 Hl0.
  destruct (Nat.eq_dec hi 0) as [->|Hne]; [lia|].
  rewrite for_loop_snoc by lia.
  destruct (Hbody hi (for_loop 1 hi body p0) ltac:(lia)) as [Ha Hb].
  destruct (Nat.eq_dec l0 hi) as [->|Hlt].
  - rewrite Ha. rewrite (Hb (hi - 1)%nat) by lia. reflexivity.
  - rewrite !Hb by lia. apply IH; lia.
Qed.

(** ** compute_velocity and compute_eta_dpdn *)

Lemma compute_eta_dpdn_level f ilev :
  let eta' := ETA_DPDN_update (m_region (compute_eta_dpdn f ilev)) in
  (forall i j, (i < NP)%nat -> (j < NP)%nat ->
     eta' ilev i j = ETA_DPDN (m_region f) ilev i j + eta_ave_w * 0) /\
  (forall l i j, l <> ilev -> eta' l i j = ETA_DPDN_update (m_region f) l i j) /\
  (forall i j, ~ (i < NP /\ j < NP)%nat ->
     eta' ilev i j = ETA_DPDN_update (m_region f) ilev i j).
Proof.
  apply (level_loop_spec NP ilev
    (fun igp jgp _ => ETA_DPDN (m_region f) ilev igp jgp + eta_ave_w * 0)).
  reflexivity.
Qed.

Lemma compute_eta_dpdn_region_fields f ilev :
  U_future (m_region (compute_eta_dpdn f ilev)) = U_future (m_region f) /\
  V_future (m_region (compute_eta_dpdn f ilev)) = V_future (m_region f).
Proof. split; reflexivity. Qed.

Lemma compute_velocity_eta_field f ilev c_dinv :
  ETA_DPDN_update (m_region (compute_velocity f ilev c_dinv))
  = ETA_DPDN_update (m_region f).
Proof. unfold Scratch.compute_velocity. destruct_pairs. reflexivity. Qed.

(** The vorticity view of [compute_velocity] once the Coriolis term is
    added. *)
Local Abbreviation vort_fcor f ilev :=
  (fun a b : nat =>
     vorticity_sphere (U_current (m_region f) ilev) (V_current (m_region f) ilev)
       (METDET (m_region f)) (D (m_region f)) a b
     + FCOR (m_region f) a b).

Lemma compute_velocity_point_loop f ilev grad_buf (vort0 : View2) (U0 V0 : View3) i j :
  (i < NP)%nat -> (j < NP)%nat ->
  let t' := parallel_for (NP * NP) (fun idx t =>
              let igp := (idx / NP)%nat in
              let jgp := (idx mod NP)%nat in
              compute_velocity_point f ilev grad_buf igp jgp t) (vort0, U0, V0) in
  let vort := fun a b => vort0 a b + FCOR (m_region f) a b in
  snd (fst t') ilev i j
  = SPHEREMP (m_region f) i j
    * (U_previous (m_region f) ilev i j
       + dt2 (m_data f) * vtens1 f ilev grad_buf vort i j) /\
  snd t' ilev i j
  = SPHEREMP (m_region f) i j
    * (V_previous (m_region f) ilev i j
       + dt2 (m_data f) * vtens2 f ilev grad_buf vort i j).
Proof.
  intros Hi Hj t' vort.
  pose proof (points_loop_obs NP
    (fun a b (t : View2 * View3 * View3) =>
       (fst (fst t) a b, snd (fst t) ilev a b, snd t ilev a b))
    (fun a b (t : View2 * View3 * View3) =>
       let v := fst (fst t) a b + FCOR (m_region f) a b in
       (v,
        SPHEREMP (m_region f) a b
        * (U_previous (m_region f) ilev a b
           + dt2 (m_data f)
             * (V_current (m_region f) ilev a b * v - grad_buf 0%nat a b)),
        SPHEREMP (m_region f) a b
        * (V_previous (m_region f) ilev a b
           + dt2 (m_data f)
             * ((- U_current (m_region f) ilev a b) * v - grad_buf 1%nat a b))))
    (compute_velocity_point f ilev grad_buf)) as L.
  specialize (L ltac:(
    intros a b a' b' [[vo U] V] _ _ _ _ Hne; cbn [compute_velocity_point fst snd];
    now rewrite set2_other, !set3_other_point by assumption) ltac:(
    intros a b [[vo U] V] _ _; cbn [compute_velocity_point fst snd];
    unfold vtens1, vtens2; now rewrite !set2_same, !set3_same) ltac:(
    intros a b a' b' [[vo U] V] _ _ _ _ Hne; cbn [compute_velocity_point fst snd];
    cbv zeta; rewrite set2_other; [reflexivity|congruence])
    (vort0, U0, V0) i j Hi Hj).
  cbv zeta in L. injection L as _ LU LV. split; [exact LU|exact LV].
Qed.

Lemma compute_velocity_point_frame f ilev grad_buf (t0 : View2 * View3 * View3) l i j :
  l <> ilev \/ ~ (i < NP /\ j < NP)%nat ->
  let t' := parallel_for (NP * NP) (fun idx t =>
              let igp := (idx / NP)%nat in
              let jgp := (idx mod NP)%nat in
              compute_velocity_point f ilev grad_buf igp jgp t) t0 in
  snd (fst t') l i j = snd (fst t0) l i j /\ snd t' l i j = snd t0 l i j.
Proof.
  intros Hout t'.
  split; unfold t';
    [apply (parallel_for_frame (fun t : View2 * View3 * View3 => snd (fst t) l i j))
    |apply (parallel_for_frame (fun t : View2 * View3 * View3 => snd t l i j))];
    intros k [[vo U] V] Hk; cbn [compute_velocity_point fst snd]; cbv zeta;
    (destruct Hout as [Hl|Hp];
     [now rewrite set3_other_level
     |apply set3_other_point; now apply point_loop_outside]).
Qed.

(** [compute_velocity] at level [ilev]: what it stores in [U_future] and
    [V_future] at that level, and that it leaves the other levels alone. *)
Lemma compute_velocity_level f ilev c_dinv i j :
  (i < NP)%nat -> (j < NP)%nat ->
  let f' := compute_velocity f ilev c_dinv in
  let grad_buf := compute_velocity_grad_buf f ilev c_dinv in
  U_future (m_region f') ilev i j
  = SPHEREMP (m_region f) i j
    * (U_previous (m_region f) ilev i j
       + dt2 (m_data f) * vtens1 f ilev grad_buf (vort_fcor f ilev) i j) /\
  V_future (m_region f') ilev i j
  = SPHEREMP (m_region f) i j
    * (V_previous (m_region f) ilev i j
       + dt2 (m_data f) * vtens2 f ilev grad_buf (vort_fcor f ilev) i j).
Proof.
  intros Hi Hj f' grad_buf.
  pose proof (compute_velocity_point_loop f ilev grad_buf
    (vorticity_sphere (U_current (m_region f) ilev) (V_current (m_region f) ilev)
       (METDET (m_region f)) (D (m_region f)))
    (U_future (m_region f)) (V_future (m_region f)) i j Hi Hj) as L.
  cbv zeta in L. unfold f', Scratch.compute_velocity. fold grad_buf.
  destruct (parallel_for _ _ _) as [[vo U] V]. exact L.
Qed.

Lemma compute_velocity_other f ilev c_dinv l i j :
  l <> ilev \/ ~ (i < NP /\ j < NP)%nat ->
  let f' := compute_velocity f ilev c_dinv in
  U_future (m_region f') l i j = U_future (m_region f) l i j /\
  V_future (m_region f') l i j = V_future (m_region f) l i j.
Proof.
  intros Hout f'.
  pose proof (compute_velocity_point_frame f ilev
    (compute_velocity_grad_buf f ilev c_dinv)
    (vorticity_sphere (U_current (m_region f) ilev) (V_current (m_region f) ilev)
       (METDET (m_region f)) (D (m_region f)),
     U_future (m_region f), V_future (m_region f)) l i j Hout) as L.
  cbv zeta in L. unfold f', Scratch.compute_velocity.
  destruct (parallel_for _ _ _) as [[vo U] V]. exact L.
Qed.

(** One iteration of [compute_velocity_eta_dpdn]. *)
Local Abbreviation velocity_eta_step c_dinv :=
  (fun (ilev : nat) (t : update_state) =>
     compute_eta_dpdn (compute_velocity t ilev c_dinv) ilev).

Lemma velocity_eta_step_other c_dinv k t l i j :
  l <> k \/ ~ (i < NP /\ j < NP)%nat ->
  U_future (m_region (velocity_eta_step c_dinv k t)) l i j
  = U_future (m_region t) l i j /\
  V_future (m_region (velocity_eta_step c_dinv k t)) l i j
  = V_future (m_region t) l i j /\
  ETA_DPDN_update (m_region (velocity_eta_step c_dinv k t)) l i j
  = ETA_DPDN_update (m_region t) l i j.
Proof.
  intros Hout.
  destruct (compute_velocity_other t k c_dinv l i j Hout) as [HU HV].
  destruct (compute_eta_dpdn_level (compute_velocity t k c_dinv) k) as (_ & E2 & E3).
  cbv zeta in HU, HV, E2, E3.
  split; [exact HU|split; [exact HV|]].
  rewrite <- (compute_velocity_eta_field t k c_dinv).
  destruct Hout as [Hl|Hp]; [now apply E2|].
  destruct (Nat.eq_dec l k) as [->|Hl]; [now apply E3|now apply E2].
Qed.

(** [compute_velocity_eta_dpdn]: the levels [0 .. NUM_LEV-1] of [U_future],
    [V_future] and [ETA_DPDN_update]. *)
Lemma compute_velocity_eta_dpdn_levels f c_dinv l i j :
  (l < NUM_LEV)%nat -> (i < NP)%nat -> (j < NP)%nat ->
  let f' := compute_velocity_eta_dpdn f c_dinv in
  let grad_buf := compute_velocity_grad_buf f l c_dinv in
  U_future (m_region f') l i j
  = SPHEREMP (m_region f) i j
    * (U_previous (m_region f) l i j
       + dt2 (m_data f) * vtens1 f l grad_buf (vort_fcor f l) i j) /\
  V_future (m_region f') l i j
  = SPHEREMP (m_region f) i j
    * (V_previous (m_region f) l i j
       + dt2 (m_data f) * vtens2 f l grad_buf (vort_fcor f l) i j) /\
  ETA_DPDN_update (m_region f') l i j
  = ETA_DPDN (m_region f) l i j + eta_ave_w * 0.
Proof.
  intros Hl Hi Hj f' grad_buf.
  set (F := fun k (t : update_state) =>
       (SPHEREMP (m_region t) i j
        * (U_previous (m_region t) k i j
           + dt2 (m_data t)
             * vtens1 t k (compute_velocity_grad_buf t k c_dinv) (vort_fcor t k) i j),
        SPHEREMP (m_region t) i j
        * (V_previous (m_region t) k i j
           + dt2 (m_data t)
             * vtens2 t k (compute_velocity_grad_buf t k c_dinv) (vort_fcor t k) i j),
        ETA_DPDN (m_region t) k i j + eta_ave_w * 0)).
  pose proof (parallel_for_obs
    (fun k (t : update_state) =>
       (U_future (m_region t) k i j, V_future (m_region t) k i j,
        ETA_DPDN_update (m_region t) k i j))
    F NUM_LEV (velocity_eta_step c_dinv)) as L.
  cbv beta in L.
  specialize (L ltac:(
    intros k k' t _ _ Hne;
    destruct (velocity_eta_step_other c_dinv k t k' i j (or_introl Hne))
      as (-> & -> & ->); reflexivity) ltac:(
    intros k t _; unfold F;
    destruct (compute_velocity_level t k c_dinv i j Hi Hj) as [HU HV];
    destruct (compute_eta_dpdn_level (compute_velocity t k c_dinv) k) as (E1 & _ & _);
    cbv zeta in HU, HV, E1; rewrite (E1 i j Hi Hj);
    change (U_future (m_region (compute_eta_dpdn (compute_velocity t k c_dinv) k)))
      with (U_future (m_region (compute_velocity t k c_dinv)));
    change (V_future (m_region (compute_eta_dpdn (compute_velocity t k c_dinv) k)))
      with (V_future (m_region (compute_velocity t k c_dinv)));
    rewrite HU, HV;
    now rewrite (blank_field (fun g => ETA_DPDN (m_region g) k i j)
                   blank_velocity_eta_dpdn t (compute_velocity t k c_dinv)
                   (fun _ => eq_refl) (compute_velocity_writes t k c_dinv))) ltac:(
    intros k k' t _ _ _;
    apply (blank_field (F k) blank_velocity_eta_dpdn);
    [intros g; reflexivity
    |now rewrite compute_eta_dpdn_writes, compute_velocity_writes])
    f l Hl).
  unfold F in L.
  injection L as LU LV LE. repeat split; assumption.
Qed.

Lemma compute_velocity_eta_dpdn_other f c_dinv l i j :
  (NUM_LEV <= l)%nat \/ ~ (i < NP /\ j < NP)%nat ->
  let f' := compute_velocity_eta_dpdn f c_dinv in
  U_future (m_region f') l i j = U_future (m_region f) l i j /\
  V_future (m_region f') l i j = V_future (m_region f) l i j /\
  ETA_DPDN_update (m_region f') l i j = ETA_DPDN_update (m_region f) l i j.
Proof.
  intros Hout f'. unfold f', Scratch.compute_velocity_eta_dpdn.
  apply (for_loop_ind (fun _ t =>
    U_future (m_region t) l i j = U_future (m_region f) l i j /\
    V_future (m_region t) l i j = V_future (m_region f) l i j /\
    ETA_DPDN_update (m_region t) l i j = ETA_DPDN_update (m_region f) l i j));
    [lia|auto|].
  intros k t Hk (HU & HV & HE).
  destruct (velocity_eta_step_other c_dinv k t l i j) as (-> & -> & ->);
    [destruct Hout; [left; lia|now right]|auto].
Qed.

(** ** compute_stuff *)

Lemma compute_stuff_point_loop f ilev grad_tmp (t0 : View3 * View3 * View3) i j :
  (i < NP)%nat -> (j < NP)%nat ->
  let t' := parallel_for (NP * NP) (fun idx t =>
              let igp := (idx / NP)%nat in
              let jgp := (idx mod NP)%nat in
              compute_stuff_point f ilev grad_tmp igp jgp t) t0 in
  fst (fst t') ilev i j
  = OMEGA_P (m_region f) ilev i j + eta_ave_w * omega_p (m_data f) ilev i j /\
  snd (fst t') ilev i j
  = SPHEREMP (m_region f) i j
    * (T_previous (m_region f) ilev i j
       + dt2 (m_data f) * ttens f ilev grad_tmp i j) /\
  snd t' ilev i j
  = SPHEREMP (m_region f) i j
    * (DP3D_previous (m_region f) ilev i j
       - dt2 (m_data f) * div_vdp (m_data f) ilev i j).
Proof.
  intros Hi Hj t'.
  pose proof (points_loop_obs NP
    (fun a b (t : View3 * View3 * View3) =>
       (fst (fst t) ilev a b, snd (fst t) ilev a b, snd t ilev a b))
    (fun a b (_ : View3 * View3 * View3) =>
       (OMEGA_P (m_region f) ilev a b + eta_ave_w * omega_p (m_data f) ilev a b,
        SPHEREMP (m_region f) a b
        * (T_previous (m_region f) ilev a b
           + dt2 (m_data f) * ttens f ilev grad_tmp a b),
        SPHEREMP (m_region f) a b
        * (DP3D_previous (m_region f) ilev a b
           - dt2 (m_data f) * div_vdp (m_data f) ilev a b)))
    (compute_stuff_point f ilev grad_tmp)) as L.
  specialize (L ltac:(
    intros a b a' b' [[O T] P] _ _ _ _ Hne; cbn [Scratch.compute_stuff_point fst snd];
    now rewrite !set3_other_point by assumption) ltac:(
    intros a b [[O T] P] _ _; cbn [Scratch.compute_stuff_point fst snd];
    now rewrite !set3_same) ltac:(reflexivity) t0 i j Hi Hj).
  cbv zeta in L. injection L as LO LT LP. repeat split; assumption.
Qed.

Lemma compute_stuff_point_frame f ilev grad_tmp (t0 : View3 * View3 * View3) l i j :
  l <> ilev \/ ~ (i < NP /\ j < NP)%nat ->
  let t' := parallel_for (NP * NP) (fun idx t =>
              let igp := (idx / NP)%nat in
              let jgp := (idx mod NP)%nat in
              compute_stuff_point f ilev grad_tmp igp jgp t) t0 in
  fst (fst t') l i j = fst (fst t0) l i j /\
  snd (fst t') l i j = snd (fst t0) l i j /\
  snd t' l i j = snd t0 l i j.
Proof.
  intros Hout t'.
  repeat split; unfold t';
    [apply (parallel_for_frame (fun t : View3 * View3 * View3 => fst (fst t) l i j))
    |apply (parallel_for_frame (fun t : View3 * View3 * View3 => snd (fst t) l i j))
    |apply (parallel_for_frame (fun t : View3 * View3 * View3 => snd t l i j))];
    intros k [[O T] P] Hk; cbn [Scratch.compute_stuff_point fst snd]; cbv zeta;
    (destruct Hout as [Hl|Hp];
     [now rewrite set3_other_level
     |apply set3_other_point; now apply point_loop_outside]).
Qed.

Lemma compute_stuff_level_spec f ilev c_dinv i j :
  (i < NP)%nat -> (j < NP)%nat ->
  let f' := compute_stuff_level f ilev c_dinv in
  let grad_tmp := gradient_sphere (T_current (m_region f) ilev) c_dinv in
  OMEGA_P_update (m_region f') ilev i j
  = OMEGA_P (m_region f) ilev i j + eta_ave_w * omega_p (m_data f) ilev i j /\
  T_future (m_region f') ilev i j
  = SPHEREMP (m_region f) i j
    * (T_previous (m_region f) ilev i j
       + dt2 (m_data f) * ttens f ilev grad_tmp i j) /\
  DP3D_future (m_region f') ilev i j
  = SPHEREMP (m_region f) i j
    * (DP3D_previous (m_region f) ilev i j
       - dt2 (m_data f) * div_vdp (m_data f) ilev i j).
Proof.
  intros Hi Hj f' grad_tmp.
  pose proof (compute_stuff_point_loop f ilev grad_tmp
    (OMEGA_P_update (m_region f), T_future (m_region f), DP3D_future (m_region f))
    i j Hi Hj) as L.
  cbv zeta in L. unfold f', Scratch.compute_stuff_level. fold grad_tmp.
  destruct (parallel_for _ _ _) as [[O T] P]. exact L.
Qed.

Lemma compute_stuff_level_other f ilev c_dinv l i j :
  l <> ilev \/ ~ (i < NP /\ j < NP)%nat ->
  let f' := compute_stuff_level f ilev c_dinv in
  OMEGA_P_update (m_region f') l i j = OMEGA_P_update (m_region f) l i j /\
  T_future (m_region f') l i j = T_future (m_region f) l i j /\
  DP3D_future (m_region f') l i j = DP3D_future (m_region f) l i j.
Proof.
  intros Hout f'.
  pose proof (compute_stuff_point_frame f ilev
    (gradient_sphere (T_current (m_region f) ilev) c_dinv)
    (OMEGA_P_update (m_region f), T_future (m_region f), DP3D_future (m_region f))
    l i j Hout) as L.
  cbv zeta in L. unfold f', Scratch.compute_stuff_level.
  destruct (parallel_for _ _ _) as [[O T] P]. exact L.
Qed.

(** [compute_stuff]: the levels [0 .. NUM_LEV-1] of [OMEGA_P_update],
    [T_future] and [DP3D_future]. *)
Lemma compute_stuff_levels f c_dinv l i j :
  (l < NUM_LEV)%nat -> (i < NP)%nat -> (j < NP)%nat ->
  let f' := compute_stuff f c_dinv in
  let grad_tmp := gradient_sphere (T_current (m_region f) l) c_dinv in
  OMEGA_P_update (m_region f') l i j
  = OMEGA_P (m_region f) l i j + eta_ave_w * omega_p (m_data f) l i j /\
  T_future (m_region f') l i j
  = SPHEREMP (m_region f) i j
    * (T_previous (m_region f) l i j + dt2 (m_data f) * ttens f l grad_tmp i j) /\
  DP3D_future (m_region f') l i j
  = SPHEREMP (m_region f) i j
    * (DP3D_previous (m_region f) l i j
       - dt2 (m_data f) * div_vdp (m_data f) l i j).
Proof.
  intros Hl Hi Hj f' grad_tmp.
  set (F := fun k (t : update_state) =>
    (OMEGA_P (m_region t) k i j + eta_ave_w * omega_p (m_data t) k i j,
     SPHEREMP (m_region t) i j
     * (T_previous (m_region t) k i j
        + dt2 (m_data t)
          * ttens t k (gradient_sphere (T_current (m_region t) k) c_dinv) i j),
     SPHEREMP (m_region t) i j
     * (DP3D_previous (m_region t) k i j
        - dt2 (m_data t) * div_vdp (m_data t) k i j))).
  pose proof (parallel_for_obs
    (fun k (t : update_state) =>
       (OMEGA_P_update (m_region t) k i j, T_future (m_region t) k i j,
        DP3D_future (m_region t) k i j))
    F NUM_LEV (fun ilev t => compute_stuff_level t ilev c_dinv)) as L.
  cbv beta in L.
  specialize (L ltac:(
    intros k k' t _ _ Hne;
    destruct (compute_stuff_level_other t k c_dinv k' i j (or_introl Hne))
      as (-> & -> & ->); reflexivity) ltac:(
    intros k t _; unfold F;
    destruct (compute_stuff_level_spec t k c_dinv i j Hi Hj) as (-> & -> & ->);
    reflexivity) ltac:(
    intros k k' t _ _ _;
    apply (blank_field (F k) blank_stuff);
    [intros g; reflexivity|apply compute_stuff_level_writes])
    f l Hl).
  unfold F in L. injection L as LO LT LP. repeat split; assumption.
Qed.

Lemma compute_stuff_other f c_dinv l i j :
  (NUM_LEV <= l)%nat \/ ~ (i < NP /\ j < NP)%nat ->
  let f' := compute_stuff f c_dinv in
  OMEGA_P_update (m_region f') l i j = OMEGA_P_update (m_region f) l i j /\
  T_future (m_region f') l i j = T_future (m_region f) l i j /\
  DP3D_future (m_region f') l i j = DP3D_future (m_region f) l i j.
Proof.
  intros Hout f'. unfold f', Scratch.compute_stuff.
  apply (for_loop_ind (fun _ t =>
    OMEGA_P_update (m_region t) l i j = OMEGA_P_update (m_region f) l i j /\
    T_future (m_region t) l i j = T_future (m_region f) l i j /\
    DP3D_future (m_region t) l i j = DP3D_future (m_region f) l i j));
    [lia|auto|].
  intros k t Hk (HO & HT & HP).
  destruct (compute_stuff_level_other t k c_dinv l i j) as (-> & -> & ->);
    [destruct Hout; [left; lia|now right]|auto].
Qed.

(** ** preq_hydrostatic *)

Lemma preq_hydrostatic_column_spec f i j phi l :
  (2 <= NUM_LEV)%nat -> (l < NUM_LEV)%nat ->
  preq_hydrostatic_column f i j phi l i j
  = hydrostatic_scan (PHIS (m_region f) i j) (fun k => lev_term f k i j) NUM_LEV l.
Proof.
  intros HN Hl. unfold Scratch.preq_hydrostatic_column, hydrostatic_scan.
  set (inc := fun k => lev_term f k i j).
  set (phi1 := set3 phi (NUM_LEV - 1) i j _).
  match goal with |- context [for_loop_down _ _ ?b _] => set (body := b) end.
  assert (P : fst (for_loop_down (NUM_LEV - 2) 0 body (inc (NUM_LEV - 1)%nat, phi1))
              = sum_levels inc 1 (NUM_LEV - 1 - 0) /\
              forall l', (0 < l' < NUM_LEV)%nat ->
                snd (for_loop_down (NUM_LEV - 2) 0 body (inc (NUM_LEV - 1)%nat, phi1))
                  l' i j
                = PHIS (m_region f) i j
                  + sum_levels inc (S l') (NUM_LEV - 1 - l') + 0.5 * inc l').
  { apply (for_loop_down_ind (fun k t =>
      fst t = sum_levels inc (S k) (NUM_LEV - 1 - k) /\
      forall l', (k < l' < NUM_LEV)%nat ->
        snd t l' i j
        = PHIS (m_region f) i j
          + sum_levels inc (S l') (NUM_LEV - 1 - l') + 0.5 * inc l')); [lia| |].
    - cbn [fst snd]. split.
      + replace (S (NUM_LEV - 2)) with (NUM_LEV - 1)%nat by lia.
        replace (NUM_LEV - 1 - (NUM_LEV - 2))%nat with 1%nat by lia.
        cbn [sum_levels]. lra.
      + intros l' Hl'. replace l' with (NUM_LEV - 1)%nat by lia.
        unfold phi1. rewrite set3_same.
        replace (NUM_LEV - 1 - (NUM_LEV - 1))%nat with 0%nat by lia.
        cbn [sum_levels]. fold (inc (NUM_LEV - 1)%nat). lra.
    - intros k [phii phi2] Hk [Hs Hp]. cbn [fst snd] in Hs, Hp.
      unfold body. cbn [fst snd]. split.
      + replace (S (pred k)) with k by lia.
        replace (NUM_LEV - 1 - pred k)%nat with (S (NUM_LEV - 1 - k)) by lia.
        cbn [sum_levels]. rewrite Hs. fold (inc k). lra.
      + intros l' Hl'. destruct (Nat.eq_dec l' k) as [->|Hne].
        * rewrite set3_same, Hs. fold (inc k). lra.
        * rewrite set3_other_level by assumption. apply Hp. lia. }
  destruct (for_loop_down _ _ _ _) as [phii phi2]. cbn [fst snd] in P.
  destruct P as [Hs Hp]. destruct (Nat.eq_dec l 0) as [->|Hne].
  - rewrite set3_same, Hs. subst inc.
    cbv beta zeta delta [Scratch.lev_term]. real_ring.
  - rewrite set3_other_level by assumption. apply Hp. lia.
Qed.

Lemma preq_hydrostatic_column_other f i j phi l i' j' :
  (1 <= NUM_LEV)%nat ->
  (i', j') <> (i, j) \/ (NUM_LEV <= l)%nat ->
  preq_hydrostatic_column f i j phi l i' j' = phi l i' j'.
Proof.
  intros HN Hout. unfold Scratch.preq_hydrostatic_column.
  assert (Hset : forall (v : View3) k x, (k < NUM_LEV)%nat ->
            set3 v k i j x l i' j' = v l i' j').
  { intros v k x Hk. destruct Hout as [Hp|Hl].
    - now apply set3_other_point.
    - rewrite set3_other_level; [reflexivity|lia]. }
  match goal with |- context [for_loop_down _ _ ?b _] => set (body := b) end.
  set (phi1 := set3 phi (NUM_LEV - 1) i j _).
  assert (F : snd (for_loop_down (NUM_LEV - 2) 0 body
                     (Scratch.lev_term Rgas f (NUM_LEV - 1) i j, phi1)) l i' j'
              = phi l i' j').
  { rewrite (for_loop_down_frame (fun t : Real * View3 => snd t l i' j')).
    - cbn [snd]. unfold phi1. apply Hset. lia.
    - intros k [phii phi2] Hk. unfold body. cbn [snd]. apply Hset. lia. }
  destruct (for_loop_down _ _ _ _) as [phii phi2]. cbn [snd] in F.
  rewrite Hset by lia. exact F.
Qed.

(** [preq_hydrostatic] stores [hydrostatic_phi] at every level of every
    column. *)
Lemma preq_hydrostatic_levels f l i j :
  (2 <= NUM_LEV)%nat -> (l < NUM_LEV)%nat -> (i < NP)%nat -> (j < NP)%nat ->
  PHI_update (m_region (preq_hydrostatic f)) l i j
  = hydrostatic_scan (PHIS (m_region f) i j) (fun k => lev_term f k i j) NUM_LEV l.
Proof.
  intros HN Hl Hi Hj. unfold Scratch.preq_hydrostatic.
  cbn [m_region on_region PHI_update set_PHI_update].
  rewrite (nested_loop_flat NP NP (fun igp jgp t => preq_hydrostatic_column f igp jgp t)).
  apply (points_loop_obs NP (fun a b (t : View3) => t l a b)
           (fun a b _ => hydrostatic_scan (PHIS (m_region f) a b)
                           (fun k => lev_term f k a b) NUM_LEV l)
           (fun a b t => preq_hydrostatic_column f a b t)); trivial.
  - intros a b a' b' t _ _ _ _ Hne.
    apply preq_hydrostatic_column_other; [lia|now left].
  - intros a b t _ _. now apply preq_hydrostatic_column_spec.
Qed.

Lemma preq_hydrostatic_other f l i j :
  (1 <= NUM_LEV)%nat ->
  (NUM_LEV <= l)%nat \/ ~ (i < NP /\ j < NP)%nat ->
  PHI_update (m_region (preq_hydrostatic f)) l i j = PHI_update (m_region f) l i j.
Proof.
  intros HN Hout. unfold Scratch.preq_hydrostatic.
  cbn [m_region on_region PHI_update set_PHI_update].
  apply (for_loop_frame (fun t : View3 => t l i j)). intros a t Ha.
  apply (for_loop_frame (fun t : View3 => t l i j)). intros b t' Hb.
  apply preq_hydrostatic_column_other; [assumption|].
  destruct Hout as [Hl|Hp]; [now right|left].
  intros E. inversion E; subst. apply Hp. lia.
Qed.

(** ** preq_omega_ps *)








(** ** compute_temperature_div_vdp *)

Lemma compute_div_vdp_point_loop f ilev (t0 : View3 * View3 * View3) i j :
  (i < NP)%nat -> (j < NP)%nat ->
  let r := m_region f in
  let t' := parallel_for (NP * NP) (fun idx t =>
              let igp := (idx / NP)%nat in
              let jgp := (idx mod NP)%nat in
              compute_div_vdp_point f ilev igp jgp t) t0 in
  fst (fst t') 0%nat i j = U_current r ilev i j * DP3D_current r ilev i j /\
  fst (fst t') 1%nat i j = V_current r ilev i j * DP3D_current r ilev i j /\
  snd (fst t') ilev i j
  = DERIVED_UN0 r ilev i j
    + eta_ave_w * (U_current r ilev i j * DP3D_current r ilev i j) /\
  snd t' ilev i j
  = DERIVED_VN0 r ilev i j
    + eta_ave_w * (V_current r ilev i j * DP3D_current r ilev i j).
Proof.
  intros Hi Hj r t'.
  pose proof (points_loop_obs NP
    (fun a b (t : View3 * View3 * View3) =>
       (fst (fst t) 0%nat a b, fst (fst t) 1%nat a b,
        snd (fst t) ilev a b, snd t ilev a b))
    (fun a b (_ : View3 * View3 * View3) =>
       (U_current r ilev a b * DP3D_current r ilev a b,
        V_current r ilev a b * DP3D_current r ilev a b,
        DERIVED_UN0 r ilev a b
        + eta_ave_w * (U_current r ilev a b * DP3D_current r ilev a b),
        DERIVED_VN0 r ilev a b
        + eta_ave_w * (V_current r ilev a b * DP3D_current r ilev a b)))
    (compute_div_vdp_point f ilev)) as L.
  specialize (L ltac:(
    intros a b a' b' [[vdp un0] vn0] _ _ _ _ Hne;
    cbn [Scratch.compute_div_vdp_point fst snd]; cbv zeta;
    now rewrite !set3_other_point by assumption) ltac:(
    intros a b [[vdp un0] vn0] _ _;
    cbn [Scratch.compute_div_vdp_point fst snd]; cbv zeta;
    rewrite !set3_same; rewrite (set3_other_level _ 1 a b _ 0) by lia;
    now rewrite set3_same) ltac:(reflexivity) t0 i j Hi Hj).
  cbv zeta in L. injection L as L1 L2 L3 L4. repeat split; assumption.
Qed.

Lemma compute_div_vdp_point_frame f ilev (t0 : View3 * View3 * View3) l :
  l <> ilev ->
  let t' := parallel_for (NP * NP) (fun idx t =>
              let igp := (idx / NP)%nat in
              let jgp := (idx mod NP)%nat in
              compute_div_vdp_point f ilev igp jgp t) t0 in
  snd (fst t') l = snd (fst t0) l /\ snd t' l = snd t0 l.
Proof.
  intros Hl t'. split; unfold t';
    [apply (parallel_for_frame (fun t : View3 * View3 * View3 => snd (fst t) l))
    |apply (parallel_for_frame (fun t : View3 * View3 * View3 => snd t l))];
    intros k [[vdp un0] vn0] _; cbn [Scratch.compute_div_vdp_point fst snd];
    cbv zeta; now rewrite set3_other_level.
Qed.

(** [compute_div_vdp] at level [ilev]: the flux [vdp] it leaves in
    [vector_buf], and the divergence of that flux in [div_vdp]. *)
Lemma compute_div_vdp_level f ilev c_dinv :
  let f' := compute_div_vdp f ilev c_dinv in
  let r := m_region f in
  div_vdp (m_data f') ilev
  = divergence_sphere (vector_buf (m_data f') ilev) (METDET r) c_dinv /\
  (forall i j, (i < NP)%nat -> (j < NP)%nat ->
     vector_buf (m_data f') ilev 0%nat i j
     = U_current r ilev i j * DP3D_current r ilev i j /\
     vector_buf (m_data f') ilev 1%nat i j
     = V_current r ilev i j * DP3D_current r ilev i j /\
     DERIVED_UN0_update (m_region f') ilev i j
     = DERIVED_UN0 r ilev i j
       + eta_ave_w * (U_current r ilev i j * DP3D_current r ilev i j) /\
     DERIVED_VN0_update (m_region f') ilev i j
     = DERIVED_VN0 r ilev i j
       + eta_ave_w * (V_current r ilev i j * DP3D_current r ilev i j)) /\
  (forall l, l <> ilev ->
     div_vdp (m_data f') l = div_vdp (m_data f) l /\
     vector_buf (m_data f') l = vector_buf (m_data f) l /\
     DERIVED_UN0_update (m_region f') l = DERIVED_UN0_update (m_region f) l /\
     DERIVED_VN0_update (m_region f') l = DERIVED_VN0_update (m_region f) l) /\
  T_v (m_data f') = T_v (m_data f).
Proof.
  intros f' r. unfold f', Scratch.compute_div_vdp. fold r.
  pose proof (compute_div_vdp_point_loop f ilev
    (vector_buf (m_data f) ilev, DERIVED_UN0_update r, DERIVED_VN0_update r)) as L.
  pose proof (compute_div_vdp_point_frame f ilev
    (vector_buf (m_data f) ilev, DERIVED_UN0_update r, DERIVED_VN0_update r)) as Fr.
  cbv zeta in L, Fr. fold r in L.
  destruct (parallel_for _ _ _) as [[vdp un0] vn0]. cbn [fst snd] in L, Fr.
  cbn [m_data m_region div_vdp vector_buf set_div_vdp set_vector_buf T_v
       DERIVED_UN0_update DERIVED_VN0_update set_DERIVED_UN0_update
       set_DERIVED_VN0_update].
  rewrite put2_same, put3_same. split; [reflexivity|split; [|split]].
  - intros i j Hi Hj. apply (L i j Hi Hj).
  - intros l Hl. rewrite put2_other, put3_other by assumption.
    destruct (Fr l Hl) as [F1 F2]. auto.
  - reflexivity.
Qed.

(** The virtual temperature each helper stores at a point of its level. *)
Lemma compute_temperature_no_tracers_helper_level f ilev :
  let f' := compute_temperature_no_tracers_helper f ilev in
  f' = on_data f (fun d => set_T_v d (T_v (m_data f'))) /\
  (forall i j, (i < NP)%nat -> (j < NP)%nat ->
     T_v (m_data f') ilev i j = T_current (m_region f) ilev i j) /\
  (forall l i j, l <> ilev -> T_v (m_data f') l i j = T_v (m_data f) l i j).
Proof.
  intros f'. split; [reflexivity|].
  destruct (level_loop_spec NP ilev
    (fun igp jgp _ => T_current (m_region f) ilev igp jgp) (T_v (m_data f)))
    as (L1 & L2 & _); [reflexivity|].
  split; assumption.
Qed.

Lemma compute_temperature_tracers_helper_level f ilev :
  let f' := compute_temperature_tracers_helper f ilev in
  f' = on_data f (fun d => set_T_v d (T_v (m_data f'))) /\
  (forall i j, (i < NP)%nat -> (j < NP)%nat ->
     T_v (m_data f') ilev i j
     = T_current (m_region f) ilev i j
       * (1.0 + (Rwater_vapor / Rgas - 1.0)
                * (QDP (m_region f) 0%nat (qn0 (m_data f)) ilev i j
                   / DP3D_current (m_region f) ilev i j))) /\
  (forall l i j, l <> ilev -> T_v (m_data f') l i j = T_v (m_data f) l i j).
Proof.
  intros f'. split; [reflexivity|].
  destruct (level_loop_spec NP ilev
    (fun igp jgp _ =>
       T_current (m_region f) ilev igp jgp
       * (1.0 + (Rwater_vapor / Rgas - 1.0)
                * (QDP (m_region f) 0%nat (qn0 (m_data f)) ilev igp jgp
                   / DP3D_current (m_region f) ilev igp jgp)))
    (T_v (m_data f))) as (L1 & L2 & _); [reflexivity|].
  split; assumption.
Qed.

(** One iteration of [compute_temperature_div_vdp], for either helper. *)
Lemma temperature_div_vdp_step (helper : update_state -> nat -> update_state)
    (tv : update_state -> nat -> nat -> nat -> Real) c_dinv t k :
  (let t' := helper t k in
   t' = on_data t (fun d => set_T_v d (T_v (m_data t'))) /\
   (forall i j, (i < NP)%nat -> (j < NP)%nat ->
      T_v (m_data t') k i j = tv t k i j) /\
   (forall l i j, l <> k -> T_v (m_data t') l i j = T_v (m_data t) l i j)) ->
    let t' := compute_div_vdp (helper t k) k c_dinv in
    let r := m_region t in
    blank_temperature_div_vdp t' = blank_temperature_div_vdp t /\
    div_vdp (m_data t') k
    = divergence_sphere (vector_buf (m_data t') k) (METDET r) c_dinv /\
    (forall i j, (i < NP)%nat -> (j < NP)%nat ->
       vector_buf (m_data t') k 0%nat i j
       = U_current r k i j * DP3D_current r k i j /\
       vector_buf (m_data t') k 1%nat i j
       = V_current r k i j * DP3D_current r k i j /\
       T_v (m_data t') k i j = tv t k i j /\
       DERIVED_UN0_update (m_region t') k i j
       = DERIVED_UN0 r k i j
         + eta_ave_w * (U_current r k i j * DP3D_current r k i j) /\
       DERIVED_VN0_update (m_region t') k i j
       = DERIVED_VN0 r k i j
         + eta_ave_w * (V_current r k i j * DP3D_current r k i j)) /\
    (forall l, l <> k ->
       div_vdp (m_data t') l = div_vdp (m_data t) l /\
       vector_buf (m_data t') l = vector_buf (m_data t) l /\
       DERIVED_UN0_update (m_region t') l = DERIVED_UN0_update (m_region t) l /\
       DERIVED_VN0_update (m_region t') l = DERIVED_VN0_update (m_region t) l /\
       forall i j, T_v (m_data t') l i j = T_v (m_data t) l i j).
Proof.
  intros Hhelper t' r.
  destruct Hhelper as (Hshape & Hk & Hother). cbv zeta in Hshape, Hk, Hother.
  destruct (compute_div_vdp_level (helper t k) k c_dinv) as (D1 & D2 & D3 & D4).
  cbv zeta in D1, D2, D3, D4. fold t' in D1, D2, D3, D4.
  assert (Hr : m_region (helper t k) = m_region t) by (now rewrite Hshape).
  assert (Hd : forall l, div_vdp (m_data (helper t k)) l = div_vdp (m_data t) l)
    by (now rewrite Hshape).
  assert (Hv : forall l, vector_buf (m_data (helper t k)) l = vector_buf (m_data t) l)
    by (now rewrite Hshape).
  rewrite Hr in D1, D2, D3. fold r in D1, D2.
  split; [|split; [exact D1|split; [|]]].
  - unfold t'. rewrite compute_div_vdp_writes. now rewrite Hshape.
  - intros i j Hi Hj. destruct (D2 i j Hi Hj) as (E1 & E2 & E3 & E4).
    rewrite D4, Hk by assumption. repeat split; assumption.
  - intros l Hl. destruct (D3 l Hl) as (E1 & E2 & E3 & E4).
    rewrite E1, E2, E3, E4, Hd, Hv. repeat split.
    intros i j. rewrite D4. now apply Hother.
Qed.

(** [compute_temperature_div_vdp]: for every level, the virtual temperature,
    the flux [vdp] left in [vector_buf], its divergence in [div_vdp], and the
    two accumulated fluxes. *)
Lemma compute_temperature_div_vdp_levels f c_dinv l :
  (l < NUM_LEV)%nat ->
  let f' := compute_temperature_div_vdp f c_dinv in
  let r := m_region f in
  div_vdp (m_data f') l
  = divergence_sphere (vector_buf (m_data f') l) (METDET r) c_dinv /\
  (forall i j, (i < NP)%nat -> (j < NP)%nat ->
     vector_buf (m_data f') l 0%nat i j
     = U_current r l i j * DP3D_current r l i j /\
     vector_buf (m_data f') l 1%nat i j
     = V_current r l i j * DP3D_current r l i j /\
     T_v (m_data f') l i j = virtual_temperature f l i j /\
     DERIVED_UN0_update (m_region f') l i j
     = DERIVED_UN0 r l i j
       + eta_ave_w * (U_current r l i j * DP3D_current r l i j) /\
     DERIVED_VN0_update (m_region f') l i j
     = DERIVED_VN0 r l i j
       + eta_ave_w * (V_current r l i j * DP3D_current r l i j)).
Proof.
  intros Hl f' r.
  set (tv := fun (t : update_state) k i j => virtual_temperature t k i j).
  assert (Htv : forall t, blank_temperature_div_vdp t = blank_temperature_div_vdp f ->
                          tv t = tv f).
  { intros t E. apply (blank_field tv blank_temperature_div_vdp); [|exact E].
    intros g. reflexivity. }
  assert (G : forall helper,
    (forall t k,
       blank_temperature_div_vdp t = blank_temperature_div_vdp f ->
       let t' := helper t k in
       t' = on_data t (fun d => set_T_v d (T_v (m_data t'))) /\
       (forall i j, (i < NP)%nat -> (j < NP)%nat ->
          T_v (m_data t') k i j = tv t k i j) /\
       (forall l i j, l <> k -> T_v (m_data t') l i j = T_v (m_data t) l i j)) ->
    let g := parallel_for NUM_LEV
               (fun ilev t => compute_div_vdp (helper t ilev) ilev c_dinv) f in
    div_vdp (m_data g) l
    = divergence_sphere (vector_buf (m_data g) l) (METDET r) c_dinv /\
    (forall i j, (i < NP)%nat -> (j < NP)%nat ->
       vector_buf (m_data g) l 0%nat i j
       = U_current r l i j * DP3D_current r l i j /\
       vector_buf (m_data g) l 1%nat i j
       = V_current r l i j * DP3D_current r l i j /\
       T_v (m_data g) l i j = tv f l i j /\
       DERIVED_UN0_update (m_region g) l i j
       = DERIVED_UN0 r l i j
         + eta_ave_w * (U_current r l i j * DP3D_current r l i j) /\
       DERIVED_VN0_update (m_region g) l i j
       = DERIVED_VN0 r l i j
         + eta_ave_w * (V_current r l i j * DP3D_current r l i j))).
  { intros helper Hhelper g.
    assert (I : forall hi, (hi <= NUM_LEV)%nat ->
      let g := for_loop 0 hi
                 (fun ilev t => compute_div_vdp (helper t ilev) ilev c_dinv) f in
      blank_temperature_div_vdp g = blank_temperature_div_vdp f /\
      forall l, (l < hi)%nat ->
        div_vdp (m_data g) l
        = divergence_sphere (vector_buf (m_data g) l) (METDET r) c_dinv /\
        (forall i j, (i < NP)%nat -> (j < NP)%nat ->
           vector_buf (m_data g) l 0%nat i j
           = U_current r l i j * DP3D_current r l i j /\
           vector_buf (m_data g) l 1%nat i j
           = V_current r l i j * DP3D_current r l i j /\
           T_v (m_data g) l i j = tv f l i j /\
           DERIVED_UN0_update (m_region g) l i j
           = DERIVED_UN0 r l i j
             + eta_ave_w * (U_current r l i j * DP3D_current r l i j) /\
           DERIVED_VN0_update (m_region g) l i j
           = DERIVED_VN0 r l i j
             + eta_ave_w * (V_current r l i j * DP3D_current r l i j))).
    { induction hi as [|hi IH]; intros Hhi; cbv zeta.
      - rewrite for_loop_empty by lia. split; [reflexivity|lia].
      - rewrite for_loop_snoc by lia.
        destruct (IH ltac:(lia)) as [IHb IHl]. cbv zeta in IHb, IHl.
        set (t := for_loop 0 hi _ f) in *.
        destruct (temperature_div_vdp_step helper tv c_dinv t hi
                    (Hhelper t hi IHb)) as (S1 & S2 & S3 & S4).
        cbv zeta in S1, S2, S3, S4.
        rewrite (Htv t IHb) in S3.
        rewrite
          (blank_field (fun g => U_current (m_region g)) blank_temperature_div_vdp f t
             (fun _ => eq_refl) IHb),
          (blank_field (fun g => V_current (m_region g)) blank_temperature_div_vdp f t
             (fun _ => eq_refl) IHb),
          (blank_field (fun g => DP3D_current (m_region g)) blank_temperature_div_vdp f t
             (fun _ => eq_refl) IHb),
          (blank_field (fun g => DERIVED_UN0 (m_region g)) blank_temperature_div_vdp f t
             (fun _ => eq_refl) IHb),
          (blank_field (fun g => DERIVED_VN0 (m_region g)) blank_temperature_div_vdp f t
             (fun _ => eq_refl) IHb)
          in S3.
        rewrite
          (blank_field (fun g => METDET (m_region g)) blank_temperature_div_vdp f t
             (fun _ => eq_refl) IHb)
          in S2.
        split; [now rewrite S1|].
        intros l0 Hl0. destruct (Nat.eq_dec l0 hi) as [->|Hne].
        + split; [exact S2|exact S3].
        + destruct (S4 l0 Hne) as (E1 & E2 & E3 & E4 & E5).
          destruct (IHl l0 ltac:(lia)) as [J1 J2].
          rewrite E1, E2, E3, E4. split; [exact J1|].
          intros i j Hi Hj. rewrite E5. apply (J2 i j Hi Hj). }
    destruct (I NUM_LEV (Nat.le_refl _)) as [_ IL]. apply (IL l Hl). }
  unfold f', Scratch.compute_temperature_div_vdp.
  change (virtual_temperature f l) with (tv f l).
  destruct (qn0 (m_data f) =? -1)%Z eqn:Eq.
  - apply (G (fun t k => compute_temperature_no_tracers_helper t k)).
    intros t k Et.
    destruct (compute_temperature_no_tracers_helper_level t k) as (A1 & A2 & A3).
    cbv zeta in A1, A2, A3 |- *. split; [exact A1|split; [|exact A3]].
    intros i j Hi Hj. rewrite (A2 i j Hi Hj).
    unfold tv, Scratch.virtual_temperature.
    rewrite (blank_field (fun g => qn0 (m_data g)) blank_temperature_div_vdp f t
               (fun _ => eq_refl) Et).
    now rewrite Eq.
  - apply (G (fun t k => compute_temperature_tracers_helper t k)).
    intros t k Et.
    destruct (compute_temperature_tracers_helper_level t k) as (A1 & A2 & A3).
    cbv zeta in A1, A2, A3 |- *. split; [exact A1|split; [|exact A3]].
    intros i j Hi Hj. rewrite (A2 i j Hi Hj).
    unfold tv, Scratch.virtual_temperature.
    rewrite (blank_field (fun g => qn0 (m_data g)) blank_temperature_div_vdp f t
               (fun _ => eq_refl) Et).
    now rewrite Eq.
Qed.

(** ** init_const_cache *)

Lemma init_const_cache_spec f c_dinv a b i j :
  (a < 2)%nat -> (b < 2)%nat -> (i < NP)%nat -> (j < NP)%nat ->
  init_const_cache f c_dinv a b i j = DINV (m_region f) a b i j.
Proof.
  intros Ha Hb Hi Hj. unfold Scratch.init_const_cache.
  apply (points_loop_obs NP (fun x y (t : View4) => t a b x y)
           (fun x y _ => DINV (m_region f) a b x y)
           (fun hgp igp c =>
              for_loop 0 2 (fun jgp c =>
                for_loop 0 2 (fun kgp c =>
                  set4 c jgp kgp hgp igp (DINV (m_region f) jgp kgp hgp igp)) c) c));
    trivial.
  - intros x y x' y' t _ _ _ _ Hne. unfold for_loop. cbn [Nat.sub seq fold_left].
    rewrite !set4_other; [reflexivity|congruence..].
  - intros x y t _ _. unfold for_loop. cbn [Nat.sub seq fold_left].
    assert (Hab : (a = 0 \/ a = 1)%nat /\ (b = 0 \/ b = 1)%nat) by lia.
    destruct Hab as [[-> | ->] [-> | ->]];
      repeat first [rewrite set4_same; reflexivity | rewrite set4_other by congruence].
Qed.

(** ** operator(): the states between the stages *)

(** The functor when the velocity stage starts, and when [compute_stuff]
    starts. *)
Local Abbreviation c_dinv_of f := (init_const_cache f uninit4).
Local Abbreviation after_temperature f :=
  (compute_temperature_div_vdp f (c_dinv_of f)).
Local Abbreviation after_scan f :=
  (compute_scan_properties (after_temperature f) (c_dinv_of f)).
Local Abbreviation after_velocity f :=
  (compute_velocity_eta_dpdn (after_scan f) (c_dinv_of f)).

Lemma operator_call_stages f :
  operator_call f = compute_stuff (after_velocity f) (c_dinv_of f).
Proof. reflexivity. Qed.

(** Frames of the three prefixes of [operator()]. *)
Lemma after_scan_blank f :
  blank_scan_properties (blank_temperature_div_vdp (after_scan f))
  = blank_scan_properties (blank_temperature_div_vdp f).
Proof.
  change (blank_scan_properties (blank_temperature_div_vdp (after_scan f)))
    with (blank_temperature_div_vdp (blank_scan_properties (after_scan f))).
  rewrite compute_scan_properties_writes.
  change (blank_temperature_div_vdp (blank_scan_properties (after_temperature f)))
    with (blank_scan_properties (blank_temperature_div_vdp (after_temperature f))).
  now rewrite compute_temperature_div_vdp_writes.
Qed.

Lemma after_velocity_blank f :
  blank_velocity_eta_dpdn
    (blank_scan_properties (blank_temperature_div_vdp (after_velocity f)))
  = blank_velocity_eta_dpdn
      (blank_scan_properties (blank_temperature_div_vdp f)).
Proof.
  change (blank_velocity_eta_dpdn
            (blank_scan_properties (blank_temperature_div_vdp (after_velocity f))))
    with (blank_scan_properties
            (blank_temperature_div_vdp
               (blank_velocity_eta_dpdn (after_velocity f)))).
  rewrite compute_velocity_eta_dpdn_writes.
  change (blank_scan_properties
            (blank_temperature_div_vdp (blank_velocity_eta_dpdn (after_scan f))))
    with (blank_velocity_eta_dpdn
            (blank_scan_properties (blank_temperature_div_vdp (after_scan f)))).
  now rewrite after_scan_blank.
Qed.

(** [operator()] writes nothing but the views of its four write sets. *)
Lemma operator_call_writes f :
  blank_operator_call (operator_call f) = blank_operator_call f.
Proof.
  rewrite operator_call_stages. unfold blank_operator_call.
  change (blank_stuff
            (blank_velocity_eta_dpdn
               (blank_scan_properties
                  (blank_temperature_div_vdp
                     (compute_stuff (after_velocity f) (c_dinv_of f))))))
    with (blank_velocity_eta_dpdn
            (blank_scan_properties
               (blank_temperature_div_vdp
                  (blank_stuff (compute_stuff (after_velocity f) (c_dinv_of f)))))).
  rewrite compute_stuff_writes.
  change (blank_velocity_eta_dpdn
            (blank_scan_properties
               (blank_temperature_div_vdp (blank_stuff (after_velocity f)))))
    with (blank_stuff
            (blank_velocity_eta_dpdn
               (blank_scan_properties
                  (blank_temperature_div_vdp (after_velocity f))))).
  now rewrite after_velocity_blank.
Qed.

(** Reading a field that a mask keeps, across a step that writes only what
    the mask blanks. *)
Ltac keep_field proj blank E :=
  let H := fresh "K" in
  pose proof (blank_field proj blank _ _ (fun _ => eq_refl) E) as H;
  cbv beta in H; rewrite ?H; clear H.

Lemma after_velocity_writes f :
  blank_velocity_eta_dpdn (after_velocity f) = blank_velocity_eta_dpdn (after_scan f).
Proof. apply compute_velocity_eta_dpdn_writes. Qed.

Lemma after_scan_writes f :
  blank_scan_properties (after_scan f) = blank_scan_properties (after_temperature f).
Proof. apply compute_scan_properties_writes. Qed.

Lemma ttens_after_velocity f l g i j :
  ttens (after_velocity f) l g i j = ttens (after_scan f) l g i j.
Proof.
  pose proof (after_velocity_writes f) as E.
  unfold Scratch.ttens.
  keep_field (fun g => T_v (m_data g)) blank_velocity_eta_dpdn E.
  keep_field (fun g => omega_p (m_data g)) blank_velocity_eta_dpdn E.
  keep_field (fun g => U_current (m_region g)) blank_velocity_eta_dpdn E.
  keep_field (fun g => V_current (m_region g)) blank_velocity_eta_dpdn E.
  reflexivity.
Qed.

(** The future slots and the accumulators after [operator()], at a point of
    the element: every one is the value its stage stored. *)
Lemma operator_call_levels f l i j :
  (l < NUM_LEV)%nat -> (i < NP)%nat -> (j < NP)%nat ->
  let c := c_dinv_of f in
  let f1 := after_temperature f in
  let f2 := after_scan f in
  let r := m_region f in
  let d := m_data f in
  let r' := m_region (operator_call f) in
  U_future r' l i j
  = SPHEREMP r i j
    * (U_previous r l i j
       + dt2 d * vtens1 f2 l (compute_velocity_grad_buf f2 l c) (vort_fcor f2 l) i j) /\
  V_future r' l i j
  = SPHEREMP r i j
    * (V_previous r l i j
       + dt2 d * vtens2 f2 l (compute_velocity_grad_buf f2 l c) (vort_fcor f2 l) i j) /\
  T_future r' l i j
  = SPHEREMP r i j
    * (T_previous r l i j
       + dt2 d * ttens f2 l (gradient_sphere (T_current r l) c) i j) /\
  DP3D_future r' l i j
  = SPHEREMP r i j * (DP3D_previous r l i j - dt2 d * div_vdp (m_data f1) l i j) /\
  OMEGA_P_update r' l i j
  = OMEGA_P r l i j + eta_ave_w * omega_p (m_data f2) l i j /\
  ETA_DPDN_update r' l i j = ETA_DPDN r l i j + eta_ave_w * 0 /\
  DERIVED_UN0_update r' l i j
  = DERIVED_UN0 r l i j + eta_ave_w * (U_current r l i j * DP3D_current r l i j) /\
  DERIVED_VN0_update r' l i j
  = DERIVED_VN0 r l i j + eta_ave_w * (V_current r l i j * DP3D_current r l i j).
Proof.
  intros Hl Hi Hj c f1 f2 r d r'. subst c f1 f2 r d.
  pose proof (after_velocity_blank f) as E3.
  pose proof (after_scan_blank f) as E2.
  pose proof (after_velocity_writes f) as W3.
  pose proof (after_scan_writes f) as W2.
  pose proof (compute_stuff_writes (after_velocity f) (c_dinv_of f)) as W4.
  destruct (compute_stuff_levels (after_velocity f) (c_dinv_of f) l i j Hl Hi Hj)
    as (HO & HT & HD).
  destruct (compute_velocity_eta_dpdn_levels (after_scan f) (c_dinv_of f) l i j Hl Hi Hj)
    as (HU & HV & HE).
  destruct (compute_temperature_div_vdp_levels f (c_dinv_of f) l Hl) as (_ & H1).
  destruct (H1 i j Hi Hj) as (_ & _ & _ & HUN & HVN).
  set (mask3 := fun g => blank_velocity_eta_dpdn
                  (blank_scan_properties (blank_temperature_div_vdp g))) in E3.
  set (mask2 := fun g => blank_scan_properties (blank_temperature_div_vdp g)) in E2.
  change (mask3 (after_velocity f) = mask3 f) in E3.
  change (mask2 (after_scan f) = mask2 f) in E2.
  subst r'. rewrite operator_call_stages.
  repeat split.
  - keep_field (fun g => U_future (m_region g)) blank_stuff W4.
    etransitivity; [exact HU|].
    keep_field (fun g => SPHEREMP (m_region g)) mask2 E2.
    keep_field (fun g => U_previous (m_region g)) mask2 E2.
    keep_field (fun g => dt2 (m_data g)) mask2 E2.
    reflexivity.
  - keep_field (fun g => V_future (m_region g)) blank_stuff W4.
    etransitivity; [exact HV|].
    keep_field (fun g => SPHEREMP (m_region g)) mask2 E2.
    keep_field (fun g => V_previous (m_region g)) mask2 E2.
    keep_field (fun g => dt2 (m_data g)) mask2 E2.
    reflexivity.
  - etransitivity; [exact HT|].
    rewrite ttens_after_velocity.
    keep_field (fun g => SPHEREMP (m_region g)) mask3 E3.
    keep_field (fun g => T_previous (m_region g)) mask3 E3.
    keep_field (fun g => T_current (m_region g)) mask3 E3.
    keep_field (fun g => dt2 (m_data g)) mask3 E3.
    reflexivity.
  - etransitivity; [exact HD|].
    keep_field (fun g => SPHEREMP (m_region g)) mask3 E3.
    keep_field (fun g => DP3D_previous (m_region g)) mask3 E3.
    keep_field (fun g => dt2 (m_data g)) mask3 E3.
    keep_field (fun g => div_vdp (m_data g)) blank_velocity_eta_dpdn W3.
    keep_field (fun g => div_vdp (m_data g)) blank_scan_properties W2.
    reflexivity.
  - etransitivity; [exact HO|].
    keep_field (fun g => OMEGA_P (m_region g)) mask3 E3.
    keep_field (fun g => omega_p (m_data g)) blank_velocity_eta_dpdn W3.
    reflexivity.
  - keep_field (fun g => ETA_DPDN_update (m_region g)) blank_stuff W4.
    etransitivity; [exact HE|].
    keep_field (fun g => ETA_DPDN (m_region g)) mask2 E2.
    reflexivity.
  - keep_field (fun g => DERIVED_UN0_update (m_region g)) blank_stuff W4.
    keep_field (fun g => DERIVED_UN0_update (m_region g)) blank_velocity_eta_dpdn W3.
    keep_field (fun g => DERIVED_UN0_update (m_region g)) blank_scan_properties W2.
    exact HUN.
  - keep_field (fun g => DERIVED_VN0_update (m_region g)) blank_stuff W4.
    keep_field (fun g => DERIVED_VN0_update (m_region g)) blank_velocity_eta_dpdn W3.
    keep_field (fun g => DERIVED_VN0_update (m_region g)) blank_scan_properties W2.
    exact HVN.
Qed.

(** The geopotential after [operator()] is the one [preq_hydrostatic]
    stored: no later stage writes [PHI_update]. *)
Lemma operator_call_phi f l i j :
  (2 <= NUM_LEV)%nat -> (l < NUM_LEV)%nat -> (i < NP)%nat -> (j < NP)%nat ->
  let fp := compute_pressure (after_temperature f) in
  PHI_update (m_region (operator_call f)) l i j
  = hydrostatic_scan (PHIS (m_region f) i j) (fun k => lev_term fp k i j) NUM_LEV l.
Proof.
  intros HN Hl Hi Hj fp. subst fp.
  pose proof (after_velocity_writes f) as W3.
  pose proof (compute_stuff_writes (after_velocity f) (c_dinv_of f)) as W4.
  pose proof (compute_temperature_div_vdp_writes f (c_dinv_of f)) as W1.
  rewrite operator_call_stages.
  keep_field (fun g => PHI_update (m_region g)) blank_stuff W4.
  keep_field (fun g => PHI_update (m_region g)) blank_velocity_eta_dpdn W3.
  unfold Scratch.compute_scan_properties.
  pose proof (preq_omega_ps_writes_omega_p
                (preq_hydrostatic (compute_pressure (after_temperature f)))
                (c_dinv_of f)) as Wo.
  keep_field (fun g => PHI_update (m_region g)) blank_omega_p Wo.
  rewrite preq_hydrostatic_levels by trivial.
  rewrite compute_pressure_region.
  keep_field (fun g => PHIS (m_region g)) blank_temperature_div_vdp W1.
  reflexivity.
Qed.

(** Level [NUM_LEV], the last interface, of [ETA_DPDN_update] is not
    written. *)
Lemma operator_call_eta_last f l i j :
  (NUM_LEV <= l)%nat \/ ~ (i < NP /\ j < NP)%nat ->
  ETA_DPDN_update (m_region (operator_call f)) l i j
  = ETA_DPDN_update (m_region f) l i j.
Proof.
  intros Hl.
  pose proof (after_scan_blank f) as E2.
  pose proof (compute_stuff_writes (after_velocity f) (c_dinv_of f)) as W4.
  set (mask2 := fun g => blank_scan_properties (blank_temperature_div_vdp g)) in E2.
  change (mask2 (after_scan f) = mask2 f) in E2.
  rewrite operator_call_stages.
  keep_field (fun g => ETA_DPDN_update (m_region g)) blank_stuff W4.
  destruct (compute_velocity_eta_dpdn_other (after_scan f) (c_dinv_of f) l i j Hl)
    as (_ & _ & HE).
  etransitivity; [exact HE|].
  keep_field (fun g => ETA_DPDN_update (m_region g)) mask2 E2.
  reflexivity.
Qed.

(** ** The pressure column *)

Lemma compute_pressure_positive f i j :
  (i < NP)%nat -> (j < NP)%nat ->
  0 <= hybrid_a (m_data f) 0%nat * ps0 (m_data f) ->
  (forall l, (l < NUM_LEV)%nat -> 0 < DP3D_current (m_region f) l i j) ->
  forall l, (l < NUM_LEV)%nat -> 0 < pressure (m_data (compute_pressure f)) l i j.
Proof.
  intros Hi Hj Ha Hdp l. induction l as [|l IH]; intros Hl.
  - rewrite compute_pressure_top by trivial.
    pose proof (Hdp 0%nat Hl). lra.
  - rewrite compute_pressure_step by (trivial; lia).
    replace (S l - 1)%nat with l by lia.
    pose proof (IH ltac:(lia)). pose proof (Hdp l ltac:(lia)).
    pose proof (Hdp (S l) Hl). lra.
Qed.

Lemma compute_pressure_increasing f i j :
  (i < NP)%nat -> (j < NP)%nat ->
  (forall l, (l < NUM_LEV)%nat -> 0 < DP3D_current (m_region f) l i j) ->
  forall l l', (l < l')%nat -> (l' < NUM_LEV)%nat ->
    pressure (m_data (compute_pressure f)) l i j
    < pressure (m_data (compute_pressure f)) l' i j.
Proof.
  intros Hi Hj Hdp l l' Hlt. induction Hlt as [|m Hm IH]; intros Hl'.
  - rewrite (compute_pressure_step f (S l)) by (trivial; lia).
    replace (S l - 1)%nat with l by lia.
    pose proof (Hdp l ltac:(lia)). pose proof (Hdp (S l) Hl'). lra.
  - rewrite (compute_pressure_step f (S m)) by (trivial; lia).
    replace (S m - 1)%nat with m by lia.
    pose proof (IH ltac:(lia)).
    pose proof (Hdp m ltac:(lia)). pose proof (Hdp (S m) Hl'). lra.
Qed.

Lemma compute_pressure_uniform f i j c :
  (i < NP)%nat -> (j < NP)%nat ->
  (forall l, (l < NUM_LEV)%nat -> DP3D_current (m_region f) l i j = c) ->
  forall l, (l < NUM_LEV)%nat ->
    pressure (m_data (compute_pressure f)) l i j
    = hybrid_a (m_data f) 0%nat * ps0 (m_data f) + c * (INR l + 0.5).
Proof.
  intros Hi Hj Hdp l. induction l as [|l IH]; intros Hl.
  - rewrite compute_pressure_top by trivial. rewrite (Hdp 0%nat Hl).
    cbn [INR]. lra.
  - rewrite compute_pressure_step by (trivial; lia).
    replace (S l - 1)%nat with l by lia.
    rewrite IH by lia. rewrite (Hdp l) by lia. rewrite (Hdp (S l) Hl).
    rewrite S_INR. lra.
Qed.

(** ** Where [qn0] is read

    Only [compute_temperature_div_vdp] and the tracers helper read [qn0]:
    every other stage commutes with [with_qn0]. *)

Lemma compute_div_vdp_qn0 g q ilev c_dinv :
  compute_div_vdp (with_qn0 g q) ilev c_dinv
  = with_qn0 (compute_div_vdp g ilev c_dinv) q.
Proof.
  unfold Scratch.compute_div_vdp. cbv zeta.
  change (compute_div_vdp_point (with_qn0 g q)) with (compute_div_vdp_point g).
  change (m_region (with_qn0 g q)) with (m_region g).
  change (vector_buf (m_data (with_qn0 g q))) with (vector_buf (m_data g)).
  destruct_pairs. reflexivity.
Qed.

Lemma compute_temperature_no_tracers_helper_qn0 g q ilev :
  compute_temperature_no_tracers_helper (with_qn0 g q) ilev
  = with_qn0 (compute_temperature_no_tracers_helper g ilev) q.
Proof. reflexivity. Qed.

Lemma compute_pressure_qn0 g q :
  compute_pressure (with_qn0 g q) = with_qn0 (compute_pressure g) q.
Proof. reflexivity. Qed.

Lemma preq_hydrostatic_qn0 g q :
  preq_hydrostatic (with_qn0 g q) = with_qn0 (preq_hydrostatic g) q.
Proof. reflexivity. Qed.

Lemma compute_eta_dpdn_qn0 g q ilev :
  compute_eta_dpdn (with_qn0 g q) ilev = with_qn0 (compute_eta_dpdn g ilev) q.
Proof. reflexivity. Qed.

Lemma preq_omega_ps_qn0 g q c_dinv :
  preq_omega_ps (with_qn0 g q) c_dinv = with_qn0 (preq_omega_ps g c_dinv) q.
Proof.
  unfold Scratch.preq_omega_ps, Scratch.preq_omega_ps_scan. cbv zeta.
  assert (E1 : forall gp sm,
             preq_omega_ps_init (with_qn0 g q) c_dinv gp sm
             = (with_qn0 (fst (fst (preq_omega_ps_init g c_dinv gp sm))) q,
                snd (fst (preq_omega_ps_init g c_dinv gp sm)),
                snd (preq_omega_ps_init g c_dinv gp sm))).
  { intros gp sm. unfold Scratch.preq_omega_ps_init. cbv zeta.
    change (preq_omega_ps_init_point (with_qn0 g q))
      with (preq_omega_ps_init_point g).
    change (omega_p (m_data (with_qn0 g q))) with (omega_p (m_data g)).
    change (pressure (m_data (with_qn0 g q))) with (pressure (m_data g)).
    destruct_pairs. reflexivity. }
  assert (E2 : forall g gp sm,
             preq_omega_ps_loop (with_qn0 g q) c_dinv gp sm
             = (with_qn0 (fst (fst (preq_omega_ps_loop g c_dinv gp sm))) q,
                snd (fst (preq_omega_ps_loop g c_dinv gp sm)),
                snd (preq_omega_ps_loop g c_dinv gp sm))).
  { intros g0 gp sm. unfold Scratch.preq_omega_ps_loop. cbv zeta.
    change (preq_omega_ps_loop_level (with_qn0 g0 q))
      with (preq_omega_ps_loop_level g0).
    change (omega_p (m_data (with_qn0 g0 q))) with (omega_p (m_data g0)).
    change (pressure (m_data (with_qn0 g0 q))) with (pressure (m_data g0)).
    destruct_pairs. reflexivity. }
  assert (E3 : forall g gp sm,
             preq_omega_ps_tail (with_qn0 g q) c_dinv gp sm
             = (with_qn0 (fst (fst (preq_omega_ps_tail g c_dinv gp sm))) q,
                snd (fst (preq_omega_ps_tail g c_dinv gp sm)),
                snd (preq_omega_ps_tail g c_dinv gp sm))).
  { intros g0 gp sm. unfold Scratch.preq_omega_ps_tail. cbv zeta.
    change (preq_omega_ps_tail_point (with_qn0 g0 q))
      with (preq_omega_ps_tail_point g0).
    change (omega_p (m_data (with_qn0 g0 q))) with (omega_p (m_data g0)).
    change (pressure (m_data (with_qn0 g0 q))) with (pressure (m_data g0)).
    destruct_pairs. reflexivity. }
  rewrite E1.
  destruct (preq_omega_ps_init g c_dinv uninit3 uninit2) as [[f1 g1] s1].
  cbn [fst snd]. rewrite E2.
  destruct (preq_omega_ps_loop f1 c_dinv g1 s1) as [[f2 g2] s2].
  cbn [fst snd]. rewrite E3. reflexivity.
Qed.

Lemma compute_scan_properties_qn0 g q c_dinv :
  compute_scan_properties (with_qn0 g q) c_dinv
  = with_qn0 (compute_scan_properties g c_dinv) q.
Proof.
  unfold Scratch.compute_scan_properties. cbv zeta.
  now rewrite compute_pressure_qn0, preq_hydrostatic_qn0, preq_omega_ps_qn0.
Qed.

Lemma compute_velocity_qn0 g q ilev c_dinv :
  compute_velocity (with_qn0 g q) ilev c_dinv
  = with_qn0 (compute_velocity g ilev c_dinv) q.
Proof.
  unfold Scratch.compute_velocity. cbv zeta.
  change (compute_velocity_grad_buf (with_qn0 g q))
    with (compute_velocity_grad_buf g).
  change (compute_velocity_point (with_qn0 g q)) with (compute_velocity_point g).
  change (m_region (with_qn0 g q)) with (m_region g).
  destruct_pairs. reflexivity.
Qed.

Lemma compute_velocity_eta_dpdn_qn0 g q c_dinv :
  compute_velocity_eta_dpdn (with_qn0 g q) c_dinv
  = with_qn0 (compute_velocity_eta_dpdn g c_dinv) q.
Proof.
  unfold Scratch.compute_velocity_eta_dpdn, parallel_for.
  apply (for_loop_commute (fun t => with_qn0 t q)).
  intros k t _. cbv zeta. now rewrite compute_velocity_qn0, compute_eta_dpdn_qn0.
Qed.

Lemma compute_stuff_level_qn0 g q ilev c_dinv :
  compute_stuff_level (with_qn0 g q) ilev c_dinv
  = with_qn0 (compute_stuff_level g ilev c_dinv) q.
Proof.
  unfold Scratch.compute_stuff_level. cbv zeta.
  change (compute_stuff_point (with_qn0 g q)) with (compute_stuff_point g).
  change (m_region (with_qn0 g q)) with (m_region g).
  destruct_pairs. reflexivity.
Qed.

Lemma compute_stuff_qn0 g q c_dinv :
  compute_stuff (with_qn0 g q) c_dinv = with_qn0 (compute_stuff g c_dinv) q.
Proof.
  unfold Scratch.compute_stuff, parallel_for.
  apply (for_loop_commute (fun t => with_qn0 t q)).
  intros k t _. apply compute_stuff_level_qn0.
Qed.

(** With a tracer field of zeros the tracers helper stores what the helper
    without tracers stores. *)
Lemma compute_temperature_tracers_helper_zero g q ilev :
  (forall l i j, QDP (m_region g) 0%nat q l i j = 0) ->
  compute_temperature_tracers_helper (with_qn0 g q) ilev
  = with_qn0 (compute_temperature_no_tracers_helper g ilev) q.
Proof.
  intros HQ.
  unfold Scratch.compute_temperature_tracers_helper,
    Scratch.compute_temperature_no_tracers_helper. cbv zeta.
  change (m_region (with_qn0 g q)) with (m_region g).
  change (qn0 (m_data (with_qn0 g q))) with q.
  change (T_v (m_data (with_qn0 g q))) with (T_v (m_data g)).
  unfold parallel_for.
  rewrite (for_loop_ext 0 (NP * NP) _
             (fun idx (T_v : View3) =>
                set3 T_v ilev (idx / NP) (idx mod NP)
                  (T_current (m_region g) ilev (idx / NP)%nat (idx mod NP)%nat))).
  - reflexivity.
  - intros k t _. f_equal. rewrite HQ. as_R. unfold Rdiv.
    rewrite Rmult_0_l, Rmult_0_r. lra.
Qed.

Lemma compute_temperature_div_vdp_zero_tracers f q c_dinv :
  q <> (-1)%Z ->
  (forall l i j, QDP (m_region f) 0%nat q l i j = 0) ->
  compute_temperature_div_vdp (with_qn0 f q) c_dinv
  = with_qn0 (compute_temperature_div_vdp (with_qn0 f (-1)) c_dinv) q.
Proof.
  intros Hq HQ. unfold Scratch.compute_temperature_div_vdp.
  change (qn0 (m_data (with_qn0 f q))) with q.
  change (qn0 (m_data (with_qn0 f (-1)))) with (-1)%Z.
  destruct (Z.eqb_spec q (-1)) as [E|_]; [contradiction|].
  cbn [Z.eqb]. unfold parallel_for.
  pose (R := fun t t' : update_state =>
               t = with_qn0 t' q /\
               blank_temperature_div_vdp t' = blank_temperature_div_vdp (with_qn0 f (-1))).
  enough (HR : R (for_loop 0 NUM_LEV
                    (fun ilev f0 =>
                       compute_div_vdp (compute_temperature_tracers_helper f0 ilev)
                         ilev c_dinv) (with_qn0 f q))
                 (for_loop 0 NUM_LEV
                    (fun ilev f0 =>
                       compute_div_vdp (compute_temperature_no_tracers_helper f0 ilev)
                         ilev c_dinv) (with_qn0 f (-1)))) by apply HR.
  apply for_loop_sim.
  - split; reflexivity.
  - intros k t t' _ [-> Ht']. split.
    + rewrite compute_temperature_tracers_helper_zero.
      * apply compute_div_vdp_qn0.
      * intros l i j.
        pose proof (blank_field (fun g => QDP (m_region g))
                      blank_temperature_div_vdp _ _ (fun _ => eq_refl) Ht') as K.
        cbv beta in K. rewrite K. apply HQ.
    + rewrite compute_div_vdp_writes. exact Ht'.
Qed.

(** [operator()] with [qn0 = q] on a state without tracers is [operator()]
    with [qn0 = -1], up to the value of [qn0] that [m_data] holds. *)
Lemma operator_call_zero_tracers f q :
  q <> (-1)%Z ->
  (forall l i j, QDP (m_region f) 0%nat q l i j = 0) ->
  operator_call (with_qn0 f q) = with_qn0 (operator_call (with_qn0 f (-1))) q.
Proof.
  intros Hq HQ. unfold Scratch.operator_call. cbv zeta.
  change (init_const_cache (with_qn0 f q) uninit4) with (c_dinv_of f).
  change (init_const_cache (with_qn0 f (-1)) uninit4) with (c_dinv_of f).
  rewrite compute_temperature_div_vdp_zero_tracers by trivial.
  now rewrite compute_scan_properties_qn0, compute_velocity_eta_dpdn_qn0,
    compute_stuff_qn0.
Qed.

(** The virtual temperature that [operator()] leaves in [T_v]. *)
Lemma operator_call_T_v f l i j :
  (l < NUM_LEV)%nat -> (i < NP)%nat -> (j < NP)%nat ->
  T_v (m_data (operator_call f)) l i j = virtual_temperature f l i j.
Proof.
  intros Hl Hi Hj.
  pose proof (after_velocity_writes f) as W3.
  pose proof (after_scan_writes f) as W2.
  pose proof (compute_stuff_writes (after_velocity f) (c_dinv_of f)) as W4.
  rewrite operator_call_stages.
  keep_field (fun g => T_v (m_data g)) blank_stuff W4.
  keep_field (fun g => T_v (m_data g)) blank_velocity_eta_dpdn W3.
  keep_field (fun g => T_v (m_data g)) blank_scan_properties W2.
  destruct (compute_temperature_div_vdp_levels f (c_dinv_of f) l Hl) as (_ & H1).
  destruct (H1 i j Hi Hj) as (_ & _ & HT & _). exact HT.
Qed.

Lemma virtual_temperature_no_tracers f l i j :
  virtual_temperature (with_qn0 f (-1)) l i j = T_current (m_region f) l i j.
Proof. reflexivity. Qed.

Lemma virtual_temperature_zero_tracers f q l i j :
  QDP (m_region f) 0%nat q l i j = 0 ->
  virtual_temperature (with_qn0 f q) l i j = T_current (m_region f) l i j.
Proof.
  intros HQ. unfold Scratch.virtual_temperature.
  change (qn0 (m_data (with_qn0 f q))) with q.
  change (m_region (with_qn0 f q)) with (m_region f).
  destruct (q =? -1)%Z; [reflexivity|].
  cbv zeta. rewrite HQ. as_R. unfold Rdiv. rewrite Rmult_0_l, Rmult_0_r. lra.
Qed.

(** Where [DP3D_current] is not zero the quotient of the helper is a real
    number, and so is what the helper stores. *)
Lemma stored_virtual_temperature_defined f l i j :
  DP3D_current (m_region f) l i j <> 0 ->
  Scratch.stored_virtual_temperature Rgas Rwater_vapor f l i j
  = Some (virtual_temperature f l i j).
Proof.
  intros Hdp. unfold Scratch.stored_virtual_temperature, Scratch.virtual_temperature.
  destruct (qn0 (m_data f) =? -1)%Z; [reflexivity|].
  unfold quotient. destruct (Req_dec_T _ 0) as [E|_]; [now elim Hdp|reflexivity].
Qed.

(** Where it is zero, the helper of the run with tracers stores none. *)
Lemma stored_virtual_temperature_undefined f l i j :
  qn0 (m_data f) <> (-1)%Z -> DP3D_current (m_region f) l i j = 0 ->
  Scratch.stored_virtual_temperature Rgas Rwater_vapor f l i j = None.
Proof.
  intros Hq Hdp. unfold Scratch.stored_virtual_temperature.
  destruct (Z.eqb_spec (qn0 (m_data f)) (-1)) as [E|_]; [now elim Hq|].
  unfold quotient. destruct (Req_dec_T _ 0) as [_|N]; [reflexivity|now elim N].
Qed.

End Facts.
End ScratchFacts.

(** * Facts about the flat team/vector implementation *)

Module BasicFacts.
Import Basic.

Section Facts.

Set Default Proof Using "Type".

Variables NP NUM_LEV : nat.
Variable gradient_sphere : View2 -> View4 -> View3.
Variable divergence_sphere : View3 -> View2 -> View4 -> View2.
Variable vorticity_sphere : View2 -> View2 -> View2 -> View4 -> View2.
Variable uninit2 : View2.
Variable uninit3 : View3.
Variable pressure_order : list nat.

Local Abbreviation preq_hydrostatic_team := (preq_hydrostatic_team NP NUM_LEV uninit3).
Local Abbreviation preq_hydrostatic := (preq_hydrostatic NP NUM_LEV uninit3).
Local Abbreviation preq_omega_ps_tail_point := (preq_omega_ps_tail_point NUM_LEV).
Local Abbreviation preq_omega_ps_team := (preq_omega_ps_team NP NUM_LEV uninit2).
Local Abbreviation preq_omega_ps := (preq_omega_ps NP NUM_LEV uninit2).
Local Abbreviation team_pressure := (team_pressure NP).
Local Abbreviation team_divergence :=
  (team_divergence NP NUM_LEV gradient_sphere divergence_sphere vorticity_sphere).
Local Abbreviation team_temperature := (team_temperature NP NUM_LEV).
Local Abbreviation team_accumulate := (team_accumulate NP NUM_LEV).
Local Abbreviation team_tendency := (team_tendency NP NUM_LEV gradient_sphere).
Local Abbreviation team_leapfrog := (team_leapfrog NP NUM_LEV).
Local Abbreviation team_body :=
  (team_body NP NUM_LEV gradient_sphere divergence_sphere vorticity_sphere
     uninit2 uninit3 pressure_order).

(** ** The pressure loop, lines 108-124 *)

(** Level 0 is written before the level loop, and no iteration of the
    level loop writes it. *)
Lemma team_pressure_top order data region p0 i j :
  (i < NP)%nat -> (j < NP)%nat ->
  team_pressure order data region p0 0%nat i j
  = hyai (hvcoord data) 0%nat * ps0 (hvcoord data)
    + 0.5 * scalars_4d region (n0 (control data)) DP3D 0%nat i j.
Proof.
  intros Hi Hj. unfold Basic.team_pressure. cbv zeta.
  rewrite (parallel_for_in_frame (fun t : View3 => t 0%nat i j)).
  - rewrite (nested_loop_flat NP NP
               (fun igp jgp (p : View3) =>
                  set3 p 0 igp jgp
                    (hyai (hvcoord data) 0%nat * ps0 (hvcoord data)
                     + 0.5 * scalars_4d region (n0 (control data)) DP3D 0%nat igp jgp))).
    now apply (level_loop_spec NP 0 (fun igp jgp _ =>
      hyai (hvcoord data) 0%nat * ps0 (hvcoord data)
      + 0.5 * scalars_4d region (n0 (control data)) DP3D 0%nat igp jgp)).
  - intros k t.
    apply (parallel_for_frame (fun t : View3 => t 0%nat i j)).
    intros k' t' _. cbv zeta. rewrite set3_other_level; [reflexivity|lia].
Qed.

(** Iteration [k] of the level loop: it stores level [k + 1], computed from
    level [k] as the iteration finds it, and nothing else. *)
Lemma team_pressure_iteration (dp : View3) k (t : View3) i j :
  (i < NP)%nat -> (j < NP)%nat ->
  let t' :=
    parallel_for (NP * NP) (fun idx (p : View3) =>
      let igp := (idx / NP)%nat in
      let jgp := (idx mod NP)%nat in
      set3 p (k + 1) igp jgp
        (p k igp jgp + 0.5 * dp k igp jgp + 0.5 * dp (k + 1)%nat igp jgp)) t in
  t' (k + 1)%nat i j = t k i j + 0.5 * dp k i j + 0.5 * dp (k + 1)%nat i j /\
  (forall l', l' <> (k + 1)%nat -> t' l' i j = t l' i j).
Proof.
  intros Hi Hj.
  pose proof (level_loop_spec NP (k + 1) (fun igp jgp (t : View3) =>
    t k igp jgp + 0.5 * dp k igp jgp + 0.5 * dp (k + 1)%nat igp jgp) t) as L.
  cbv zeta in L. destruct L as (La & Lb & _).
  { intros a b a' b' t0 x _. rewrite set3_other_level; [reflexivity|lia]. }
  cbv zeta. split; [now apply La | intros l' Hl'; now apply Lb].
Qed.

(** The iterations run by increasing level. *)
Lemma team_pressure_step data region p0 l i j :
  (1 <= l < NUM_LEV)%nat -> (i < NP)%nat -> (j < NP)%nat ->
  team_pressure (seq 0 (NUM_LEV - 1)) data region p0 l i j
  = team_pressure (seq 0 (NUM_LEV - 1)) data region p0 (l - 1)%nat i j
    + 0.5 * scalars_4d region (n0 (control data)) DP3D (l - 1)%nat i j
    + 0.5 * scalars_4d region (n0 (control data)) DP3D l i j.
Proof.
  intros Hl Hi Hj. unfold Basic.team_pressure. cbv zeta.
  rewrite parallel_for_in_seq.
  set (dp := scalars_4d region (n0 (control data)) DP3D).
  set (pa := for_loop 0 NP _ p0).
  set (body := fun (ilev : nat) (p : View3) => parallel_for (NP * NP) _ p).
  unfold parallel_for.
  enough (I : forall hi l, (1 <= l <= hi)%nat ->
              for_loop 0 hi body pa l i j
              = for_loop 0 hi body pa (l - 1)%nat i j
                + 0.5 * dp (l - 1)%nat i j + 0.5 * dp l i j).
  { apply I; lia. }
  assert (Hbody : forall k t,
     (body k t (k + 1)%nat i j
      = t k i j + 0.5 * dp k i j + 0.5 * dp (k + 1)%nat i j) /\
     (forall l', l' <> (k + 1)%nat -> body k t l' i j = t l' i j)).
  { intros k t. exact (team_pressure_iteration dp k t i j Hi Hj). }
  clear Hl. induction hi as [|hi IH]; [lia|]. intros l0 Hl0.
  rewrite for_loop_snoc by lia.
  destruct (Hbody hi (for_loop 0 hi body pa)) as [Ha Hb].
  destruct (Nat.eq_dec l0 (hi + 1)) as [->|Hlt].
  - rewrite Ha. replace (hi + 1 - 1)%nat with hi by lia.
    rewrite (Hb hi) by lia. reflexivity.
  - rewrite !Hb by lia. apply IH; lia.
Qed.

Lemma team_pressure_uniform data region p0 i j c :
  (i < NP)%nat -> (j < NP)%nat ->
  (forall l, (l < NUM_LEV)%nat ->
     scalars_4d region (n0 (control data)) DP3D l i j = c) ->
  forall l, (l < NUM_LEV)%nat ->
    team_pressure (seq 0 (NUM_LEV - 1)) data region p0 l i j
    = hyai (hvcoord data) 0%nat * ps0 (hvcoord data) + c * (INR l + 0.5).
Proof.
  intros Hi Hj Hdp l. induction l as [|l IH]; intros Hl.
  - rewrite team_pressure_top by trivial. rewrite (Hdp 0%nat Hl).
    cbn [INR]. lra.
  - rewrite team_pressure_step by (trivial; lia).
    replace (S l - 1)%nat with l by lia.
    rewrite IH by lia. rewrite (Hdp l) by lia. rewrite (Hdp (S l) Hl).
    rewrite S_INR. lra.
Qed.

(** The iterations run by decreasing level: each of them finds the level
    it reads as it was before the level loop. *)
Lemma team_pressure_decreasing data region p0 l i j :
  (2 <= l < NUM_LEV)%nat -> (i < NP)%nat -> (j < NP)%nat ->
  team_pressure (rev (seq 0 (NUM_LEV - 1))) data region p0 l i j
  = p0 (l - 1)%nat i j
    + 0.5 * scalars_4d region (n0 (control data)) DP3D (l - 1)%nat i j
    + 0.5 * scalars_4d region (n0 (control data)) DP3D l i j.
Proof.
  intros Hl Hi Hj. unfold Basic.team_pressure. cbv zeta.
  set (dp := scalars_4d region (n0 (control data)) DP3D).
  set (pa := for_loop 0 NP _ p0).
  set (body := fun (ilev : nat) (p : View3) => parallel_for (NP * NP) _ p).
  assert (Hpa : pa (l - 1)%nat i j = p0 (l - 1)%nat i j).
  { unfold pa.
    apply (for_loop_frame (fun t : View3 => t (l - 1)%nat i j)).
    intros a t _. apply (for_loop_frame (fun t : View3 => t (l - 1)%nat i j)).
    intros b t' _. rewrite set3_other_level; [reflexivity|lia]. }
  rewrite <- Hpa.
  assert (Hbody : forall k t,
     (body k t (k + 1)%nat i j
      = t k i j + 0.5 * dp k i j + 0.5 * dp (k + 1)%nat i j) /\
     (forall l', l' <> (k + 1)%nat -> body k t l' i j = t l' i j)).
  { intros k t. exact (team_pressure_iteration dp k t i j Hi Hj). }
  enough (I : forall n s,
            (forall l, (1 <= l <= n)%nat ->
               parallel_for_in (rev (seq 0 n)) body s l i j
               = s (l - 1)%nat i j + 0.5 * dp (l - 1)%nat i j + 0.5 * dp l i j) /\
            (forall l, (n < l)%nat ->
               parallel_for_in (rev (seq 0 n)) body s l i j = s l i j)).
  { apply I. lia. }
  clear Hl Hpa. induction n as [|n IH]; intros s.
  - split; [intros; lia | reflexivity].
  - rewrite parallel_for_in_rev_S.
    destruct (IH (body n s)) as [IHa IHb].
    destruct (Hbody n s) as [Ha Hb]. split.
    + intros l0 Hl0. destruct (Nat.eq_dec l0 (S n)) as [->|Hne].
      * rewrite IHb by lia. replace (S n) with (n + 1)%nat by lia.
        rewrite Ha. now replace (n + 1 - 1)%nat with n by lia.
      * rewrite IHa by lia. rewrite Hb by lia. reflexivity.
    + intros l0 Hl0. rewrite IHb by lia. apply Hb. lia.
Qed.

(** ** preq_hydrostatic

    Both overloads run their level loop while [ilev > 1]: with three levels
    or more, level 1 of [phi] and of the local array [phii] is never
    written, and level 0 of [phi] is computed from [phii[1]]. *)

Lemma preq_hydrostatic_team_level_1 phis T_v p dp Rgas phi i j :
  (3 <= NUM_LEV)%nat ->
  preq_hydrostatic_team phis T_v p dp Rgas phi 1%nat i j = phi 1%nat i j.
Proof.
  intros HN. unfold Basic.preq_hydrostatic_team. cbv zeta.
  match goal with
  | |- context [parallel_for ?n ?b ?s] =>
      pose proof (parallel_for_frame
                    (fun t : View3 * View3 => snd t 1%nat i j) n b s) as F
  end.
  destruct (parallel_for _ _ _) as [a b]. cbn [snd] in F. apply F. clear F.
  intros k [phii0 phi0] Hk. cbv zeta.
  match goal with
  | |- context [for_loop_down ?hi ?lo ?b ?s] =>
      pose proof (for_loop_down_frame
                    (fun t : View3 * View3 => snd t 1%nat i j) hi lo b s) as G
  end.
  destruct (for_loop_down _ _ _ _) as [a' b']. cbn [snd] in *.
  rewrite set3_other_level by lia. rewrite G.
  - rewrite set3_other_level by lia. reflexivity.
  - intros k' [x y] Hk'. cbn [snd]. rewrite set3_other_level by lia. reflexivity.
Qed.

Lemma point_swapped_injective (k k' : nat) :
  ((k' mod NP)%nat, (k' / NP)%nat) = ((k mod NP)%nat, (k / NP)%nat) -> k' = k.
Proof.
  intros E. apply (point_injective NP). inversion E. congruence.
Qed.

Lemma preq_hydrostatic_team_level_0 phis T_v p dp Rgas phi i j :
  (3 <= NUM_LEV)%nat -> (i < NP)%nat -> (j < NP)%nat ->
  preq_hydrostatic_team phis T_v p dp Rgas phi 0%nat i j
  = phis i j + uninit3 1%nat i j
    + Rgas * T_v 0%nat i j * (0.5 * dp 0%nat i j / p 0%nat i j).
Proof.
  intros HN Hi Hj. unfold Basic.preq_hydrostatic_team. cbv zeta.
  match goal with
  | |- context [parallel_for ?n ?b ?s] => set (body := b); set (s0 := s)
  end.
  assert (Hc : forall k (t : View3 * View3),
             (forall a b, fst (body k t) 1%nat a b = fst t 1%nat a b) /\
             (snd (body k t) 0%nat (k mod NP)%nat (k / NP)%nat
              = phis (k mod NP)%nat (k / NP)%nat
                + fst t 1%nat (k mod NP)%nat (k / NP)%nat
                + Rgas * T_v 0%nat (k mod NP)%nat (k / NP)%nat
                  * (0.5 * dp 0%nat (k mod NP)%nat (k / NP)%nat
                     / p 0%nat (k mod NP)%nat (k / NP)%nat)) /\
             (forall l a b, (a, b) <> ((k mod NP)%nat, (k / NP)%nat) ->
                snd (body k t) l a b = snd t l a b)).
  { intros k [phii0 phi0]. unfold body. cbv zeta.
    match goal with
    | |- context [for_loop_down ?hi ?lo ?bd ?s] =>
        set (inner := bd); set (s1 := s)
    end.
    assert (G1 : fst (for_loop_down (NUM_LEV - 2) 1 inner s1) 1%nat = fst s1 1%nat).
    { apply (for_loop_down_frame (fun t : View3 * View3 => fst t 1%nat)).
      intros k' [x y] Hk'. unfold inner. cbn [fst].
      rewrite set3_other_level by lia. reflexivity. }
    assert (G2 : forall l a b, (a, b) <> ((k mod NP)%nat, (k / NP)%nat) ->
              snd (for_loop_down (NUM_LEV - 2) 1 inner s1) l a b = snd s1 l a b).
    { intros l a b Hne.
      apply (for_loop_down_frame (fun t : View3 * View3 => snd t l a b)).
      intros k' [x y] Hk'. unfold inner. cbn [snd].
      now rewrite set3_other_point. }
    destruct (for_loop_down _ _ _ _) as [a' b']. unfold s1 in *.
    cbn [fst snd] in *.
    assert (E1 : a' 1%nat = phii0 1%nat).
    { rewrite G1. rewrite set3_other_level by lia. reflexivity. }
    split; [|split].
    - intros a b. now rewrite E1.
    - rewrite set3_same. now rewrite E1.
    - intros l a b Hne. rewrite set3_other_point by trivial.
      rewrite G2 by trivial. now rewrite set3_other_point. }
  pose proof (parallel_for_obs
                (fun k (t : View3 * View3) => snd t 0%nat (k mod NP)%nat (k / NP)%nat)
                (fun k (t : View3 * View3) =>
                   phis (k mod NP)%nat (k / NP)%nat
                   + fst t 1%nat (k mod NP)%nat (k / NP)%nat
                   + Rgas * T_v 0%nat (k mod NP)%nat (k / NP)%nat
                     * (0.5 * dp 0%nat (k mod NP)%nat (k / NP)%nat
                        / p 0%nat (k mod NP)%nat (k / NP)%nat))
                (NP * NP) body) as O.
  cbv beta in O.
  specialize (O ltac:(intros k k' t _ _ Hne; apply Hc; intros E;
                      apply Hne, point_swapped_injective, E)).
  specialize (O ltac:(intros k t _; apply Hc)).
  specialize (O ltac:(intros k k' t _ _ _;
                      now rewrite (proj1 (Hc k' t)))).
  specialize (O s0 (j * NP + i)%nat (index_in_range NP j i Hj Hi)).
  destruct (point_of_index NP j i Hi) as [-> ->] in O.
  destruct (parallel_for _ _ _) as [a b]. exact O.
Qed.

(** The serial overload: one iteration of the loop over [jgp]. *)
Lemma preq_hydrostatic_level_1_frame phis T_v p dp Rgas (t0 : View3 * View3) a b :
  (3 <= NUM_LEV)%nat ->
  let t' :=
    for_loop 0 NP (fun jgp '(phii, phi) =>
      let '(phii, phi) :=
        for_loop 0 NP (fun igp '(phii, phi) =>
          let hkk := 0.5 * dp (NUM_LEV - 1)%nat igp jgp / p (NUM_LEV - 1)%nat igp jgp in
          let hkl := 2.0 * hkk in
          let phii := set3 phii (NUM_LEV - 1) igp jgp
                        (Rgas * T_v (NUM_LEV - 1)%nat igp jgp * hkl) in
          let phi := set3 phi (NUM_LEV - 1) igp jgp
                       (phis igp jgp + Rgas * T_v (NUM_LEV - 1)%nat igp jgp * hkk) in
          (phii, phi)) (phii, phi) in
      let '(phii, phi) :=
        for_loop_down (NUM_LEV - 2) 1 (fun ilev '(phii, phi) =>
          for_loop 0 NP (fun igp '(phii, phi) =>
            let hkk := 0.5 * dp ilev igp jgp / p ilev igp jgp in
            let hkl := 2.0 * hkk in
            let phii := set3 phii ilev igp jgp
                          (phii (ilev + 1)%nat igp jgp
                           + Rgas * T_v ilev igp jgp * hkl) in
            let phi := set3 phi ilev igp jgp
                         (phis igp jgp + phii (ilev + 1)%nat igp jgp
                          + Rgas * T_v ilev igp jgp * hkk) in
            (phii, phi)) (phii, phi)) (phii, phi) in
      for_loop 0 NP (fun igp '(phii, phi) =>
        let hkk := 0.5 * dp 0%nat igp jgp / p 0%nat igp jgp in
        let phi := set3 phi 0 igp jgp
                     (phis igp jgp + phii 1%nat igp jgp
                      + Rgas * T_v 0%nat igp jgp * hkk) in
        (phii, phi)) (phii, phi)) t0 in
  fst t' 1%nat a b = fst t0 1%nat a b /\ snd t' 1%nat a b = snd t0 1%nat a b.
Proof.
  intros HN t'. subst t'.
  set (g := fun t : View3 * View3 => (fst t 1%nat a b, snd t 1%nat a b)).
  enough (E : forall x y : View3 * View3, g x = g y ->
                fst x 1%nat a b = fst y 1%nat a b /\ snd x 1%nat a b = snd y 1%nat a b).
  { apply E. apply (for_loop_frame g). intros jgp [phii0 phi0] _.
    match goal with
    | |- context [for_loop 0 NP ?bd (phii0, phi0)] =>
        assert (F1 : g (for_loop 0 NP bd (phii0, phi0)) = g (phii0, phi0))
    end.
    { apply (for_loop_frame g). intros igp [x y] _. unfold g. cbn [fst snd].
      rewrite !set3_other_level by lia. reflexivity. }
    destruct (for_loop 0 NP _ (phii0, phi0)) as [phii1 phi1].
    match goal with
    | |- context [for_loop_down ?hi ?lo ?bd (phii1, phi1)] =>
        assert (F2 : g (for_loop_down hi lo bd (phii1, phi1)) = g (phii1, phi1))
    end.
    { apply (for_loop_down_frame g). intros ilev [x0 y0] Hl.
      apply (for_loop_frame g). intros igp [x y] _. unfold g. cbn [fst snd].
      rewrite !set3_other_level by lia. reflexivity. }
    destruct (for_loop_down _ _ _ (phii1, phi1)) as [phii2 phi2].
    rewrite <- F1, <- F2.
    apply (for_loop_frame g). intros igp [x y] _. unfold g. cbn [fst snd].
    rewrite !set3_other_level by lia. reflexivity. }
  intros x y E. unfold g in E. now inversion E.
Qed.

Lemma preq_hydrostatic_level_1 phis T_v p dp Rgas phi i j :
  (3 <= NUM_LEV)%nat ->
  preq_hydrostatic phis T_v p dp Rgas phi 1%nat i j = phi 1%nat i j.
Proof.
  intros HN. unfold Basic.preq_hydrostatic. cbv zeta.
  pose proof (preq_hydrostatic_level_1_frame phis T_v p dp Rgas (uninit3, phi) i j HN)
    as F.
  cbv zeta in F. destruct (for_loop 0 NP _ _) as [a b]. apply F.
Qed.

(** ** preq_omega_ps *)

Lemma preq_omega_ps_init_point_spec p vg dv i j (t : View2 * View3) :
  let t' := preq_omega_ps_init_point p vg dv i j t in
  fst t' i j = dv 0%nat i j /\
  snd t' 0%nat i j = vg 0%nat i j / p 0%nat i j - 0.5 / p 0%nat i j * dv 0%nat i j /\
  (forall a b, (a, b) <> (i, j) -> fst t' a b = fst t a b) /\
  (forall l a b, (l, a, b) <> (0%nat, i, j) -> snd t' l a b = snd t l a b).
Proof.
  destruct t as [suml omega]. cbn [Basic.preq_omega_ps_init_point fst snd].
  repeat split.
  - apply set2_same.
  - apply set3_same.
  - intros a b H. now apply set2_other.
  - intros l a b H. now apply set3_other.
Qed.

Lemma preq_omega_ps_loop_point_spec p vg dv k i j (t : View2 * View3) :
  let t' := preq_omega_ps_loop_point p vg dv k i j t in
  fst t' i j = fst t i j + dv k i j /\
  snd t' k i j
  = vg k i j / p k i j - 2.0 * (0.5 / p k i j) * fst t i j
    - 0.5 / p k i j * dv k i j /\
  (forall a b, (a, b) <> (i, j) -> fst t' a b = fst t a b) /\
  (forall l a b, (l, a, b) <> (k, i, j) -> snd t' l a b = snd t l a b).
Proof.
  destruct t as [suml omega]. cbn [Basic.preq_omega_ps_loop_point fst snd].
  repeat split.
  - apply set2_same.
  - apply set3_same.
  - intros a b H. now apply set2_other.
  - intros l a b H. now apply set3_other.
Qed.

Lemma preq_omega_ps_tail_point_spec p vg dv i j (t : View2 * View3) :
  let t' := preq_omega_ps_tail_point p vg dv i j t in
  let k := (NUM_LEV - 1)%nat in
  fst t' = fst t /\
  snd t' k i j
  = vg k i j / p k i j - 2.0 * (0.5 / p k i j) * fst t i j
    - 0.5 / p k i j * dv k i j /\
  (forall l a b, (l, a, b) <> (k, i, j) -> snd t' l a b = snd t l a b).
Proof.
  destruct t as [suml omega]. cbn [Basic.preq_omega_ps_tail_point fst snd].
  repeat split.
  - apply set3_same.
  - intros l a b H. now apply set3_other.
Qed.

(** A loop over [igp] at a fixed [jgp] whose body works on the point
    [(igp, jgp)] alone. *)
Lemma row_loop_obs {St A : Type} (obs f : nat -> St -> A) (body : nat -> St -> St) :
  (forall a a' t, (a < NP)%nat -> (a' < NP)%nat -> a' <> a ->
     obs a' (body a t) = obs a' t) ->
  (forall a t, (a < NP)%nat -> obs a (body a t) = f a t) ->
  (forall a a' t, (a < NP)%nat -> (a' < NP)%nat -> a' <> a ->
     f a (body a' t) = f a t) ->
  forall s a, (a < NP)%nat -> obs a (for_loop 0 NP body s) = f a s.
Proof. intros H1 H2 H3. apply (parallel_for_obs obs f NP body); trivial. Qed.

Lemma pair_neq_fst {A B : Type} (a a' : A) (b b' : B) : a' <> a -> (a', b') <> (a, b).
Proof. intros H E. apply H. now inversion E. Qed.

Lemma pair_neq_snd {A B : Type} (a a' : A) (b b' : B) : b' <> b -> (a', b') <> (a, b).
Proof. intros H E. apply H. now inversion E. Qed.

Lemma preq_omega_ps_init_row p vg dv j (t : View2 * View3) :
  let t' := for_loop 0 NP (fun igp t => preq_omega_ps_init_point p vg dv igp j t) t in
  (forall i, (i < NP)%nat ->
     fst t' i j = dv 0%nat i j /\
     snd t' 0%nat i j
     = vg 0%nat i j / p 0%nat i j - 0.5 / p 0%nat i j * dv 0%nat i j) /\
  (forall a b, b <> j -> fst t' a b = fst t a b) /\
  (forall l a b, b <> j \/ l <> 0%nat -> snd t' l a b = snd t l a b).
Proof.
  intros t'. subst t'. split; [|split].
  - intros i Hi.
    pose proof (row_loop_obs
      (fun a (t : View2 * View3) => (fst t a j, snd t 0%nat a j))
      (fun a (_ : View2 * View3) =>
         (dv 0%nat a j, vg 0%nat a j / p 0%nat a j - 0.5 / p 0%nat a j * dv 0%nat a j))
      (fun igp t => preq_omega_ps_init_point p vg dv igp j t)) as O.
    cbv beta in O.
    assert (E : forall x y : Real * Real, x = y -> fst x = fst y /\ snd x = snd y)
      by (intros x y ->; now split).
    apply (E (_, _) (_, _)). apply O; trivial.
    + intros a a' t0 _ _ Hne.
      destruct (preq_omega_ps_init_point_spec p vg dv a j t0) as (_ & _ & F1 & F2).
      rewrite F1 by now apply pair_neq_fst.
      rewrite F2; [reflexivity|]. intros X; inversion X; congruence.
    + intros a t0 _.
      destruct (preq_omega_ps_init_point_spec p vg dv a j t0) as (S1 & S2 & _).
      now rewrite S1, S2.
  - intros a b Hb. apply (for_loop_frame (fun t : View2 * View3 => fst t a b)).
    intros k t0 _.
    destruct (preq_omega_ps_init_point_spec p vg dv k j t0) as (_ & _ & F1 & _).
    apply F1. now apply pair_neq_snd.
  - intros l a b Hb. apply (for_loop_frame (fun t : View2 * View3 => snd t l a b)).
    intros k t0 _.
    destruct (preq_omega_ps_init_point_spec p vg dv k j t0) as (_ & _ & _ & F2).
    apply F2. intros X; inversion X; subst; destruct Hb; congruence.
Qed.

Lemma preq_omega_ps_loop_row p vg dv k j (t : View2 * View3) :
  let t' := for_loop 0 NP (fun igp t => preq_omega_ps_loop_point p vg dv k igp j t) t in
  (forall i, (i < NP)%nat ->
     fst t' i j = fst t i j + dv k i j /\
     snd t' k i j
     = vg k i j / p k i j - 2.0 * (0.5 / p k i j) * fst t i j
       - 0.5 / p k i j * dv k i j) /\
  (forall a b, b <> j -> fst t' a b = fst t a b) /\
  (forall l a b, b <> j \/ l <> k -> snd t' l a b = snd t l a b).
Proof.
  intros t'. subst t'. split; [|split].
  - intros i Hi.
    pose proof (row_loop_obs
      (fun a (t : View2 * View3) => (fst t a j, snd t k a j))
      (fun a (t : View2 * View3) =>
         (fst t a j + dv k a j,
          vg k a j / p k a j - 2.0 * (0.5 / p k a j) * fst t a j
          - 0.5 / p k a j * dv k a j))
      (fun igp t => preq_omega_ps_loop_point p vg dv k igp j t)) as O.
    cbv beta in O.
    assert (E : forall x y : Real * Real, x = y -> fst x = fst y /\ snd x = snd y)
      by (intros x y ->; now split).
    apply (E (_, _) (_, _)). apply O; trivial.
    + intros a a' t0 _ _ Hne.
      destruct (preq_omega_ps_loop_point_spec p vg dv k a j t0) as (_ & _ & F1 & F2).
      rewrite F1 by now apply pair_neq_fst.
      rewrite F2; [reflexivity|]. intros X; inversion X; congruence.
    + intros a t0 _.
      destruct (preq_omega_ps_loop_point_spec p vg dv k a j t0) as (S1 & S2 & _).
      now rewrite S1, S2.
    + intros a a' t0 _ _ Hne.
      destruct (preq_omega_ps_loop_point_spec p vg dv k a' j t0) as (_ & _ & F1 & _).
      rewrite F1; [reflexivity|]. apply pair_neq_fst. congruence.
  - intros a b Hb. apply (for_loop_frame (fun t : View2 * View3 => fst t a b)).
    intros k0 t0 _.
    destruct (preq_omega_ps_loop_point_spec p vg dv k k0 j t0) as (_ & _ & F1 & _).
    apply F1. now apply pair_neq_snd.
  - intros l a b Hb. apply (for_loop_frame (fun t : View2 * View3 => snd t l a b)).
    intros k0 t0 _.
    destruct (preq_omega_ps_loop_point_spec p vg dv k k0 j t0) as (_ & _ & _ & F2).
    apply F2. intros X; inversion X; subst; destruct Hb; congruence.
Qed.

Lemma preq_omega_ps_tail_row p vg dv j (t : View2 * View3) :
  let t' := for_loop 0 NP (fun igp t => preq_omega_ps_tail_point p vg dv igp j t) t in
  let k := (NUM_LEV - 1)%nat in
  (forall i, (i < NP)%nat ->
     snd t' k i j
     = vg k i j / p k i j - 2.0 * (0.5 / p k i j) * fst t i j
       - 0.5 / p k i j * dv k i j) /\
  fst t' = fst t /\
  (forall l a b, b <> j \/ l <> k -> snd t' l a b = snd t l a b).
Proof.
  intros t' k. subst t' k. split; [|split].
  - intros i Hi.
    apply (row_loop_obs
      (fun a (t : View2 * View3) => snd t (NUM_LEV - 1)%nat a j)
      (fun a (t : View2 * View3) =>
         vg (NUM_LEV - 1)%nat a j / p (NUM_LEV - 1)%nat a j
         - 2.0 * (0.5 / p (NUM_LEV - 1)%nat a j) * fst t a j
         - 0.5 / p (NUM_LEV - 1)%nat a j * dv (NUM_LEV - 1)%nat a j)
      (fun igp t => preq_omega_ps_tail_point p vg dv igp j t)); trivial.
    + intros a a' t0 _ _ Hne.
      destruct (preq_omega_ps_tail_point_spec p vg dv a j t0) as (_ & _ & F2).
      apply F2. intros X; inversion X; congruence.
    + intros a t0 _.
      destruct (preq_omega_ps_tail_point_spec p vg dv a j t0) as (_ & S2 & _).
      exact S2.
    + intros a a' t0 _ _ Hne.
      destruct (preq_omega_ps_tail_point_spec p vg dv a' j t0) as (F1 & _).
      now rewrite F1.
  - apply (for_loop_frame (fun t : View2 * View3 => fst t)).
    intros k0 t0 _.
    destruct (preq_omega_ps_tail_point_spec p vg dv k0 j t0) as (F1 & _).
    exact F1.
  - intros l a b Hb. apply (for_loop_frame (fun t : View2 * View3 => snd t l a b)).
    intros k0 t0 _.
    destruct (preq_omega_ps_tail_point_spec p vg dv k0 j t0) as (_ & _ & F2).
    apply F2. intros X; inversion X; subst; destruct Hb; congruence.
Qed.

(** The serial overload computes the scan [omega_scan] in every column. *)
Lemma preq_omega_ps_serial_levels p vg dv omega l i j :
  (2 <= NUM_LEV)%nat -> (l < NUM_LEV)%nat -> (i < NP)%nat -> (j < NP)%nat ->
  preq_omega_ps p vg dv omega l i j
  = omega_scan (fun k => vg k i j) (fun k => p k i j) (fun k => dv k i j) l.
Proof.
  intros HN Hl Hi Hj. unfold Basic.preq_omega_ps. cbv zeta.
  match goal with
  | |- context [for_loop 0 NP ?bd ?s] => set (body := bd); set (s0 := s)
  end.
  set (scan := fun a b k =>
         omega_scan (fun k => vg k a b) (fun k => p k a b) (fun k => dv k a b) k).
  assert (Hiter : forall jgp (t : View2 * View3),
            (forall l a b, b <> jgp -> snd (body jgp t) l a b = snd t l a b) /\
            (forall l a, (l < NUM_LEV)%nat -> (a < NP)%nat ->
               snd (body jgp t) l a jgp = scan a jgp l)).
  { intros jgp t. unfold body.
    destruct (preq_omega_ps_init_row p vg dv jgp t) as (I1 & _ & I3).
    set (t1 := for_loop 0 NP
                 (fun igp t => preq_omega_ps_init_point p vg dv igp jgp t) t) in *.
    assert (L : (forall l a b, b <> jgp ->
                   snd (for_loop 1 (NUM_LEV - 1)
                          (fun ilev t =>
                             for_loop 0 NP
                               (fun igp t =>
                                  preq_omega_ps_loop_point p vg dv ilev igp jgp t) t)
                          t1) l a b = snd t l a b) /\
                (forall a, (a < NP)%nat ->
                   fst (for_loop 1 (NUM_LEV - 1)
                          (fun ilev t =>
                             for_loop 0 NP
                               (fun igp t =>
                                  preq_omega_ps_loop_point p vg dv ilev igp jgp t) t)
                          t1) a jgp
                   = sum_levels (fun k => dv k a jgp) 0 (NUM_LEV - 1) /\
                   forall l, (l < NUM_LEV - 1)%nat ->
                     snd (for_loop 1 (NUM_LEV - 1)
                            (fun ilev t =>
                               for_loop 0 NP
                                 (fun igp t =>
                                    preq_omega_ps_loop_point p vg dv ilev igp jgp t) t)
                            t1) l a jgp = scan a jgp l)).
    { apply (for_loop_ind
               (fun m (x : View2 * View3) =>
                  (forall l a b, b <> jgp -> snd x l a b = snd t l a b) /\
                  (forall a, (a < NP)%nat ->
                     fst x a jgp = sum_levels (fun k => dv k a jgp) 0 m /\
                     forall l, (l < m)%nat -> snd x l a jgp = scan a jgp l))).
      - lia.
      - split.
        + intros l0 a b Hb. apply I3. now left.
        + intros a Ha. destruct (I1 a Ha) as [S1 S2]. split.
          * rewrite S1. cbn [sum_levels]. lra.
          * intros l0 Hl0. assert (l0 = 0%nat) as -> by lia.
            rewrite S2. unfold scan. now rewrite omega_scan_first.
      - intros k x Hk (Fx & Cx). cbv beta.
        destruct (preq_omega_ps_loop_row p vg dv k jgp x) as (R1 & _ & R3).
        split.
        + intros l0 a b Hb. rewrite R3 by now left. now apply Fx.
        + intros a Ha. destruct (R1 a Ha) as [S1 S2].
          destruct (Cx a Ha) as [C1 C2]. split.
          * rewrite S1, C1. now rewrite sum_levels_snoc.
          * intros l0 Hl0. destruct (Nat.eq_dec l0 k) as [->|Hne].
            -- rewrite S2, C1. reflexivity.
            -- rewrite R3 by now right. apply C2. lia. }
    set (t2 := for_loop 1 (NUM_LEV - 1) _ t1) in *.
    destruct L as (L1 & L2).
    destruct (preq_omega_ps_tail_row p vg dv jgp t2) as (T1 & _ & T3).
    split.
    - intros l0 a b Hb. rewrite T3 by now left. now apply L1.
    - intros l0 a Hl0 Ha. destruct (L2 a Ha) as [C1 C2].
      destruct (Nat.eq_dec l0 (NUM_LEV - 1)) as [->|Hne].
      + rewrite T1 by trivial. rewrite C1. reflexivity.
      + rewrite T3 by now right. apply C2. lia. }
  pose proof (parallel_for_obs
                (fun b (t : View2 * View3) => snd t l i b)
                (fun b (_ : View2 * View3) => scan i b l) NP body) as O.
  cbv beta in O.
  specialize (O ltac:(intros k k' t _ _ Hne; now apply Hiter)).
  specialize (O ltac:(intros k t _; now apply Hiter)).
  specialize (O ltac:(reflexivity) s0 j Hj).
  unfold parallel_for in O.
  destruct (for_loop 0 NP body s0) as [a b]. exact O.
Qed.

(** ** The leapfrog loop, lines 235-244 *)

Lemma Scalars4D_eqb_refl F : Scalars4D_eqb F F = true.
Proof. now destruct F. Qed.

Lemma Scalars4D_eqb_neq F F' : F' <> F -> Scalars4D_eqb F' F = false.
Proof. destruct F, F'; intros H; try reflexivity; now contradiction H. Qed.

Lemma set_4d_same s tl F l i j x : set_4d s tl F l i j x tl F l i j = x.
Proof.
  unfold set_4d. rewrite Nat.eqb_refl, Scalars4D_eqb_refl. apply set3_same.
Qed.

Lemma set_4d_other_field s tl F l i j x tl' F' :
  F' <> F -> set_4d s tl F l i j x tl' F' = s tl' F'.
Proof.
  intros H. unfold set_4d. rewrite (Scalars4D_eqb_neq _ _ H).
  now rewrite andb_false_r.
Qed.

Lemma set_4d_other s tl F l i j x tl' F' l' i' j' :
  (tl', l', i', j') <> (tl, l, i, j) ->
  set_4d s tl F l i j x tl' F' l' i' j' = s tl' F' l' i' j'.
Proof.
  intros H. unfold set_4d.
  destruct (Nat.eqb_spec tl' tl) as [->|Hne]; [|reflexivity].
  destruct (Scalars4D_eqb F' F); [|reflexivity]. cbn [andb].
  apply set3_other. intros E. apply H. inversion E. reflexivity.
Qed.

Lemma team_leapfrog_point_spec data region vt1 tt dv l i j s4d :
  let s' := team_leapfrog_point data region vt1 tt dv l i j s4d in
  let np1 := np1 (control data) in
  let nm1 := nm1 (control data) in
  let dt2 := dt2 (control data) in
  let sph := scalars_2d region SPHEREMP i j in
  (s' np1 U l i j = sph * (s4d nm1 U l i j + dt2 * vt1 l i j) /\
   s' np1 V l i j = sph * (s4d nm1 V l i j + dt2 * vt1 l i j) /\
   s' np1 T l i j = sph * (s4d nm1 T l i j + dt2 * tt l i j) /\
   s' np1 DP3D l i j = sph * (s4d nm1 DP3D l i j + dt2 * dv l i j)) /\
  (forall tl F l' a b, (tl, l', a, b) <> (np1, l, i, j) ->
     s' tl F l' a b = s4d tl F l' a b).
Proof.
  cbv zeta. unfold Basic.team_leapfrog_point. split; [repeat split|].
  - rewrite !(set_4d_other_field _ _ _ _ _ _ _ _ U) by discriminate.
    apply set_4d_same.
  - rewrite !(set_4d_other_field _ _ _ _ _ _ _ _ V) by discriminate.
    rewrite set_4d_same.
    now rewrite !(set_4d_other_field _ _ _ _ _ _ _ _ V) by discriminate.
  - rewrite !(set_4d_other_field _ _ _ _ _ _ _ _ T) by discriminate.
    rewrite set_4d_same.
    now rewrite !(set_4d_other_field _ _ _ _ _ _ _ _ T) by discriminate.
  - rewrite set_4d_same.
    now rewrite !(set_4d_other_field _ _ _ _ _ _ _ _ DP3D) by discriminate.
  - intros tl F l' a b H. now rewrite !set_4d_other by trivial.
Qed.

(** What the leapfrog loop leaves in the slot [np1]: [U] and [V] are both
    advanced with [vtens1], and [DP3D] with [+ dt2 * div_vdp]. *)
Lemma team_leapfrog_levels data region vt1 tt dv s4d l i j :
  (l < NUM_LEV)%nat -> (i < NP)%nat -> (j < NP)%nat ->
  let s' := team_leapfrog data region vt1 tt dv s4d in
  let np1 := np1 (control data) in
  let nm1 := nm1 (control data) in
  let dt2 := dt2 (control data) in
  let sph := scalars_2d region SPHEREMP i j in
  s' np1 U l i j = sph * (s4d nm1 U l i j + dt2 * vt1 l i j) /\
  s' np1 V l i j = sph * (s4d nm1 V l i j + dt2 * vt1 l i j) /\
  s' np1 T l i j = sph * (s4d nm1 T l i j + dt2 * tt l i j) /\
  s' np1 DP3D l i j = sph * (s4d nm1 DP3D l i j + dt2 * dv l i j).
Proof.
  intros Hl Hi Hj. cbv zeta. unfold Basic.team_leapfrog, Basic.leapfrog_levels.
  set (np1 := np1 (control data)). set (nm1 := nm1 (control data)).
  set (dt2 := dt2 (control data)).
  set (obs := fun l a b (t : nat -> Scalars4D -> View3) =>
                (t np1 U l a b, t np1 V l a b, t np1 T l a b, t np1 DP3D l a b)).
  set (val := fun l a b (t : nat -> Scalars4D -> View3) =>
                (scalars_2d region SPHEREMP a b
                 * (t nm1 U l a b + dt2 * vt1 l a b),
                 scalars_2d region SPHEREMP a b
                 * (t nm1 V l a b + dt2 * vt1 l a b),
                 scalars_2d region SPHEREMP a b
                 * (t nm1 T l a b + dt2 * tt l a b),
                 scalars_2d region SPHEREMP a b
                 * (t nm1 DP3D l a b + dt2 * dv l a b))).
  enough (E : obs l i j
                (parallel_for NUM_LEV
                   (fun ilev s4d =>
                      parallel_for (NP * NP)
                        (fun idx s4d =>
                           team_leapfrog_point data region vt1 tt dv ilev
                             (idx / NP) (idx mod NP) s4d) s4d) s4d)
              = val l i j s4d).
  { unfold obs, val in E. inversion E. repeat split; assumption. }
  assert (Hpt : forall k a b t,
            obs k a b (team_leapfrog_point data region vt1 tt dv k a b t)
            = val k a b t).
  { intros k a b t.
    destruct (team_leapfrog_point_spec data region vt1 tt dv k a b t)
      as ((H1 & H2 & H3 & H4) & _).
    unfold obs, val. fold np1 nm1 dt2 in H1, H2, H3, H4.
    now rewrite H1, H2, H3, H4. }
  assert (Hfr : forall k a b t tl F l' a' b',
            (tl, l', a', b') <> (np1, k, a, b) ->
            team_leapfrog_point data region vt1 tt dv k a b t tl F l' a' b'
            = t tl F l' a' b').
  { intros k a b t.
    destruct (team_leapfrog_point_spec data region vt1 tt dv k a b t) as (_ & H).
    exact H. }
  assert (Hlevel_fr : forall k t tl F l' a' b', l' <> k ->
            parallel_for (NP * NP)
              (fun idx s4d =>
                 team_leapfrog_point data region vt1 tt dv k
                   (idx / NP) (idx mod NP) s4d) t tl F l' a' b'
            = t tl F l' a' b').
  { intros k t tl F l' a' b' Hne.
    apply (parallel_for_frame (fun t : nat -> Scalars4D -> View3 => t tl F l' a' b')).
    intros idx t0 _. apply Hfr. intros X. inversion X. congruence. }
  apply (parallel_for_obs (fun k t => obs k i j t) (fun k t => val k i j t)
           NUM_LEV); trivial.
  - intros k k' t _ _ Hne. unfold obs. now rewrite !Hlevel_fr by trivial.
  - intros k t _.
    apply (points_loop_obs NP (fun a b t => obs k a b t) (fun a b t => val k a b t)
             (fun a b t => team_leapfrog_point data region vt1 tt dv k a b t));
      trivial.
    + intros a b a' b' t0 _ _ _ _ Hne. unfold obs.
      rewrite !Hfr; [reflexivity|..]; intros X; inversion X; congruence.
    + intros a b a' b' t0 _ _ _ _ Hne. unfold val.
      rewrite !Hfr; [reflexivity|..]; intros X; inversion X; congruence.
  - intros k k' t _ _ Hne. unfold val. now rewrite !Hlevel_fr by (intros X; congruence).
Qed.

(** ** The divergence stage, lines 128-150 *)

Lemma team_divergence_point_vdp data region gp k i j
    (t : View3 * View4 * (Scalars3D -> View3)) :
  let vdp' := snd (fst (team_divergence_point data region gp k i j t)) in
  let n0 := n0 (control data) in
  vdp' k 0%nat i j
  = scalars_4d region n0 U k i j * scalars_4d region n0 DP3D k i j /\
  vdp' k 1%nat i j
  = scalars_4d region n0 V k i j * scalars_4d region n0 DP3D k i j /\
  (forall l, l <> k -> vdp' l = snd (fst t) l) /\
  (forall h a b, (a, b) <> (i, j) -> vdp' k h a b = snd (fst t) k h a b).
Proof.
  destruct t as [[vg vdp] s3d]. cbn [Basic.team_divergence_point fst snd].
  repeat split.
  - rewrite set4_other by (intros X; inversion X). apply set4_same.
  - apply set4_same.
  - intros l Hl. now rewrite !set4_other_level.
  - intros h a b H. rewrite !set4_other; [reflexivity|..];
      intros X; inversion X; subst; now elim H.
Qed.

Lemma team_divergence_point_loop_vdp data region gp k
    (t : View3 * View4 * (Scalars3D -> View3)) :
  let vdp' :=
    snd (fst (parallel_for (NP * NP) (fun idx t =>
                team_divergence_point data region gp k (idx / NP) (idx mod NP) t)
                t)) in
  let n0 := n0 (control data) in
  (forall i j, (i < NP)%nat -> (j < NP)%nat ->
     vdp' k 0%nat i j
     = scalars_4d region n0 U k i j * scalars_4d region n0 DP3D k i j /\
     vdp' k 1%nat i j
     = scalars_4d region n0 V k i j * scalars_4d region n0 DP3D k i j) /\
  (forall l, l <> k -> vdp' l = snd (fst t) l).
Proof.
  cbv zeta. split.
  - intros i j Hi Hj.
    pose proof (points_loop_obs NP
      (fun a b (t : View3 * View4 * (Scalars3D -> View3)) =>
         (snd (fst t) k 0%nat a b, snd (fst t) k 1%nat a b))
      (fun a b (_ : View3 * View4 * (Scalars3D -> View3)) =>
         (scalars_4d region (n0 (control data)) U k a b
          * scalars_4d region (n0 (control data)) DP3D k a b,
          scalars_4d region (n0 (control data)) V k a b
          * scalars_4d region (n0 (control data)) DP3D k a b))
      (fun a b t => team_divergence_point data region gp k a b t)) as O.
    cbv beta in O.
    assert (E : forall x y : Real * Real, x = y -> fst x = fst y /\ snd x = snd y)
      by (intros x y ->; now split).
    apply (E (_, _) (_, _)). apply O; trivial.
    + intros a b a' b' t0 _ _ _ _ Hne.
      destruct (team_divergence_point_vdp data region gp k a b t0)
        as (_ & _ & _ & F).
      now rewrite !F.
    + intros a b t0 _ _.
      destruct (team_divergence_point_vdp data region gp k a b t0)
        as (S1 & S2 & _).
      now rewrite S1, S2.
  - intros l Hl.
    apply (parallel_for_frame
             (fun t : View3 * View4 * (Scalars3D -> View3) => snd (fst t) l)).
    intros idx t0 _.
    destruct (team_divergence_point_vdp data region gp k (idx / NP) (idx mod NP) t0)
      as (_ & _ & F & _).
    now apply F.
Qed.

(** After the divergence stage, [div_vdp] at a level is the divergence of
    [vdp] at that level, and [vdp] holds [v * dp3d] at the points of the
    element. *)
Lemma team_divergence_levels data region p
    (t : View4 * View3 * View4 * (Scalars3D -> View3) * View3 * View3) l :
  (l < NUM_LEV)%nat ->
  let t' := team_divergence data region p t in
  let vdp' := snd (fst (fst (fst t'))) in
  let div_vdp' := snd (fst t') in
  let n0 := n0 (control data) in
  div_vdp' l
  = divergence_sphere (vdp' l) (scalars_2d region METDET) (tensors_2d region DINV) /\
  (forall i j, (i < NP)%nat -> (j < NP)%nat ->
     vdp' l 0%nat i j
     = scalars_4d region n0 U l i j * scalars_4d region n0 DP3D l i j /\
     vdp' l 1%nat i j
     = scalars_4d region n0 V l i j * scalars_4d region n0 DP3D l i j).
Proof.
  intros Hl. cbv zeta. unfold Basic.team_divergence, parallel_for at 1 2 3.
  revert l Hl.
  apply (for_loop_ind
           (fun m (x : View4 * View3 * View4 * (Scalars3D -> View3) * View3 * View3) =>
              forall l, (l < m)%nat ->
                snd (fst x) l
                = divergence_sphere (snd (fst (fst (fst x))) l)
                    (scalars_2d region METDET) (tensors_2d region DINV) /\
                (forall i j, (i < NP)%nat -> (j < NP)%nat ->
                   snd (fst (fst (fst x))) l 0%nat i j
                   = scalars_4d region (n0 (control data)) U l i j
                     * scalars_4d region (n0 (control data)) DP3D l i j /\
                   snd (fst (fst (fst x))) l 1%nat i j
                   = scalars_4d region (n0 (control data)) V l i j
                     * scalars_4d region (n0 (control data)) DP3D l i j))).
  - lia.
  - intros l Hl. lia.
  - intros k [[[[[gp vg] vdp] s3d] dv] vo] Hk IH l Hl. cbv beta zeta.
    cbn [fst snd] in IH.
    pose proof (team_divergence_point_loop_vdp data region
                  (put3 gp k (gradient_sphere (p k) (tensors_2d region DINV)))
                  k (vg, vdp, s3d)) as L.
    cbv zeta in L.
    destruct (parallel_for (NP * NP) _ (vg, vdp, s3d)) as [[vg' vdp'] s3d'].
    cbn [fst snd] in *. destruct L as (L1 & L2).
    destruct (Nat.eq_dec l k) as [->|Hne].
    + rewrite put2_same. split; [reflexivity|]. exact L1.
    + rewrite put2_other by trivial. rewrite (L2 l Hne). apply IH. lia.
Qed.

(** ** The accumulation loop, lines 181-188 *)

Lemma Scalars3D_eqb_refl F : Scalars3D_eqb F F = true.
Proof. now destruct F. Qed.

Lemma set_3d_same s F l i j x : set_3d s F l i j x F l i j = x.
Proof. unfold set_3d. rewrite Scalars3D_eqb_refl. apply set3_same. Qed.

Lemma set_3d_other s F l i j x F' l' i' j' :
  (l', i', j') <> (l, i, j) -> set_3d s F l i j x F' l' i' j' = s F' l' i' j'.
Proof.
  intros H. unfold set_3d. destruct (Scalars3D_eqb F' F); [|reflexivity].
  now apply set3_other.
Qed.

(** The loop runs over [NUM_LEV_P] levels and accumulates at each of them. *)
Lemma team_accumulate_levels data eta_ie om
    (t : View3 * (Scalars3D -> View3)) l i j :
  (l < NUM_LEV_P NUM_LEV)%nat -> (i < NP)%nat -> (j < NP)%nat ->
  let t' := team_accumulate data eta_ie om t in
  fst t' l i j = fst t l i j + eta_ave_w (constants data) * eta_ie l i j /\
  snd t' OMEGA_P l i j
  = snd t OMEGA_P l i j + eta_ave_w (constants data) * om l i j.
Proof.
  intros Hl Hi Hj. cbv zeta. unfold Basic.team_accumulate, Basic.accumulate_levels.
  set (obs := fun l a b (t : View3 * (Scalars3D -> View3)) =>
                (fst t l a b, snd t OMEGA_P l a b)).
  set (val := fun l a b (t : View3 * (Scalars3D -> View3)) =>
                (fst t l a b + eta_ave_w (constants data) * eta_ie l a b,
                 snd t OMEGA_P l a b + eta_ave_w (constants data) * om l a b)).
  set (point := fun k a b (t : View3 * (Scalars3D -> View3)) =>
                  let '(eta_dot_dpdn, s3d) := t in
                  (set3 eta_dot_dpdn k a b
                     (eta_dot_dpdn k a b
                      + eta_ave_w (constants data) * eta_ie k a b),
                   set_3d s3d OMEGA_P k a b
                     (s3d OMEGA_P k a b + eta_ave_w (constants data) * om k a b))).
  enough (E : obs l i j
                (parallel_for (NUM_LEV_P NUM_LEV)
                   (fun ilev t =>
                      parallel_for (NP * NP)
                        (fun idx t => point ilev (idx / NP)%nat (idx mod NP)%nat t) t)
                   t)
              = val l i j t).
  { unfold obs, val in E. inversion E. split; reflexivity. }
  assert (Hpt : forall k a b t, obs k a b (point k a b t) = val k a b t).
  { intros k a b [e s3]. unfold obs, val, point. cbn [fst snd].
    now rewrite set3_same, set_3d_same. }
  assert (Hfr : forall k a b t l' a' b', (l', a', b') <> (k, a, b) ->
            obs l' a' b' (point k a b t) = obs l' a' b' t).
  { intros k a b [e s3] l' a' b' Hne. unfold obs, point. cbn [fst snd].
    now rewrite set3_other, set_3d_other by trivial. }
  assert (Hlevel_fr : forall k t l' a' b', l' <> k ->
            obs l' a' b'
              (parallel_for (NP * NP)
                 (fun idx t => point k (idx / NP)%nat (idx mod NP)%nat t) t)
            = obs l' a' b' t).
  { intros k t0 l' a' b' Hne. apply (parallel_for_frame (obs l' a' b')).
    intros idx t1 _. apply Hfr. intros X. inversion X. congruence. }
  apply (parallel_for_obs (fun k t => obs k i j t) (fun k t => val k i j t)
           (NUM_LEV_P NUM_LEV)); trivial.
  - intros k k' t0 _ _ Hne. now apply Hlevel_fr.
  - intros k t0 _.
    apply (points_loop_obs NP (fun a b t => obs k a b t) (fun a b t => val k a b t)
             (fun a b t => point k a b t)); trivial.
    + intros a b a' b' t1 _ _ _ _ Hne. apply Hfr. intros X. inversion X. congruence.
    + intros a b a' b' t1 _ _ _ _ Hne.
      change (val k a b (point k a' b' t1)) with
        (let o := obs k a b (point k a' b' t1) in
         (fst o + eta_ave_w (constants data) * eta_ie k a b,
          snd o + eta_ave_w (constants data) * om k a b)).
      rewrite Hfr by (intros X; inversion X; congruence). reflexivity.
  - intros k k' t0 _ _ Hne.
    change (val k i j (parallel_for (NP * NP)
              (fun idx t => point k' (idx / NP)%nat (idx mod NP)%nat t) t0)) with
      (let o := obs k i j (parallel_for (NP * NP)
                  (fun idx t => point k' (idx / NP)%nat (idx mod NP)%nat t) t0) in
       (fst o + eta_ave_w (constants data) * eta_ie k i j,
        snd o + eta_ave_w (constants data) * om k i j)).
    rewrite Hlevel_fr by congruence. reflexivity.
Qed.

(** ** The team lambda as a whole *)

(** The future slot after the team lambda.  [U] and [V] receive the same
    increment, and [DP3D] is advanced with [+ dt2 * div_vdp], where
    [div_vdp] is the divergence of [v * dp3d] that the lambda leaves in its
    captured view. *)
Lemma team_body_future data region loc l i j :
  (l < NUM_LEV)%nat -> (i < NP)%nat -> (j < NP)%nat ->
  let r' := fst (team_body data region loc) in
  let loc' := snd (team_body data region loc) in
  let n0 := n0 (control data) in
  let np1 := np1 (control data) in
  let nm1 := nm1 (control data) in
  let dt2 := dt2 (control data) in
  let sph := scalars_2d region SPHEREMP i j in
  scalars_4d r' np1 U l i j - sph * scalars_4d region nm1 U l i j
  = scalars_4d r' np1 V l i j - sph * scalars_4d region nm1 V l i j /\
  scalars_4d r' np1 DP3D l i j
  = sph * (scalars_4d region nm1 DP3D l i j + dt2 * div_vdp loc' l i j) /\
  div_vdp loc' l
  = divergence_sphere (vdp loc' l) (scalars_2d region METDET)
      (tensors_2d region DINV) /\
  (forall a b, (a < NP)%nat -> (b < NP)%nat ->
     vdp loc' l 0%nat a b
     = scalars_4d region n0 U l a b * scalars_4d region n0 DP3D l a b /\
     vdp loc' l 1%nat a b
     = scalars_4d region n0 V l a b * scalars_4d region n0 DP3D l a b).
Proof.
  intros Hl Hi Hj. cbv zeta. unfold Basic.team_body. cbv zeta.
  pose proof (team_divergence_levels data region
                (team_pressure pressure_order data region (p loc))
                (grad_p loc, vgrad_p loc, vdp loc, scalars_3d region,
                 div_vdp loc, vort loc) l Hl) as Hd.
  cbv zeta in Hd.
  destruct (team_divergence data region _ _) as [[[[[gp vg] vd] s3d] dv] vo].
  cbn [fst snd] in Hd. destruct Hd as (Hd1 & Hd2).
  destruct (team_temperature data region _) as [tv ks].
  destruct (team_accumulate data _ _ _) as [eta s3d'].
  cbn [fst snd scalars_4d div_vdp vdp].
  match goal with
  | |- context [team_leapfrog data region ?vt ?tt dv ?s] =>
      destruct (team_leapfrog_levels data region vt tt dv s l i j Hl Hi Hj)
        as (HU & HV & _ & HD)
  end.
  repeat split.
  - rewrite HU, HV. as_R. ring.
  - exact HD.
  - exact Hd1.
  - now apply Hd2.
  - now apply Hd2.
Qed.

(** [eta_dot_dpdn] after the team lambda: accumulated at every one of the
    [NUM_LEV_P] interface levels. *)
Lemma team_body_eta_dot_dpdn data region loc l i j :
  (l < NUM_LEV_P NUM_LEV)%nat -> (i < NP)%nat -> (j < NP)%nat ->
  eta_dot_dpdn (fst (team_body data region loc)) l i j
  = eta_dot_dpdn region l i j
    + eta_ave_w (constants data) * eta_dot_dpdn_ie loc l i j.
Proof.
  intros Hl Hi Hj. unfold Basic.team_body. cbv zeta.
  destruct (team_divergence data region _ _) as [[[[[gp vg] vd] s3d] dv] vo].
  destruct (team_temperature data region _) as [tv ks].
  match goal with
  | |- context [team_accumulate data ?e ?o ?t] =>
      destruct (team_accumulate_levels data e o t l i j Hl Hi Hj) as (HE & _)
  end.
  destruct (team_accumulate data _ _ _) as [eta s3d'].
  cbn [fst snd eta_dot_dpdn] in *. exact HE.
Qed.

(** ** preq_omega_ps, the overload that takes the team

    One iteration of the loop over the points is the scan of one column. *)
Lemma preq_omega_ps_team_column p vg dv i j (t : View2 * View3) :
  (2 <= NUM_LEV)%nat ->
  let t' :=
    preq_omega_ps_tail_point p vg dv i j
      (for_loop 1 (NUM_LEV - 1)
         (fun ilev t => preq_omega_ps_loop_point p vg dv ilev i j t)
         (preq_omega_ps_init_point p vg dv i j t)) in
  (forall l, (l < NUM_LEV)%nat ->
     snd t' l i j
     = omega_scan (fun k => vg k i j) (fun k => p k i j) (fun k => dv k i j) l) /\
  (forall l a b, (a, b) <> (i, j) -> snd t' l a b = snd t l a b).
Proof.
  intros HN t'. subst t'.
  set (scan := omega_scan (fun k => vg k i j) (fun k => p k i j) (fun k => dv k i j)).
  destruct (preq_omega_ps_init_point_spec p vg dv i j t) as (I1 & I2 & _ & I4).
  set (t1 := preq_omega_ps_init_point p vg dv i j t) in *.
  assert (L : (forall l a b, (a, b) <> (i, j) ->
                 snd (for_loop 1 (NUM_LEV - 1)
                        (fun ilev t => preq_omega_ps_loop_point p vg dv ilev i j t) t1)
                   l a b = snd t l a b) /\
              fst (for_loop 1 (NUM_LEV - 1)
                     (fun ilev t => preq_omega_ps_loop_point p vg dv ilev i j t) t1) i j
              = sum_levels (fun k => dv k i j) 0 (NUM_LEV - 1) /\
              (forall l, (l < NUM_LEV - 1)%nat ->
                 snd (for_loop 1 (NUM_LEV - 1)
                        (fun ilev t => preq_omega_ps_loop_point p vg dv ilev i j t) t1)
                   l i j = scan l)).
  { apply (for_loop_ind
             (fun m (x : View2 * View3) =>
                (forall l a b, (a, b) <> (i, j) -> snd x l a b = snd t l a b) /\
                fst x i j = sum_levels (fun k => dv k i j) 0 m /\
                (forall l, (l < m)%nat -> snd x l i j = scan l))).
    - lia.
    - split; [|split].
      + intros l a b Hne. apply I4. intros X. inversion X. subst. now apply Hne.
      + rewrite I1. cbn [sum_levels]. lra.
      + intros l Hl. assert (l = 0%nat) as -> by lia.
        rewrite I2. unfold scan. now rewrite omega_scan_first.
    - intros k x Hk (Fx & Sx & Cx). cbv beta.
      destruct (preq_omega_ps_loop_point_spec p vg dv k i j x) as (S1 & S2 & _ & F2).
      split; [|split].
      + intros l a b Hne. rewrite F2; [now apply Fx|].
        intros X. inversion X. subst. now apply Hne.
      + rewrite S1, Sx. now rewrite sum_levels_snoc.
      + intros l Hl. destruct (Nat.eq_dec l k) as [->|Hne].
        * rewrite S2, Sx. reflexivity.
        * rewrite F2 by (intros X; inversion X; congruence). apply Cx. lia. }
  set (t2 := for_loop 1 (NUM_LEV - 1) _ t1) in *.
  destruct L as (L1 & L2 & L3).
  destruct (preq_omega_ps_tail_point_spec p vg dv i j t2) as (_ & T2 & T3).
  split.
  - intros l Hl. destruct (Nat.eq_dec l (NUM_LEV - 1)) as [->|Hne].
    + rewrite T2, L2. reflexivity.
    + rewrite T3 by (intros X; inversion X; congruence). apply L3. lia.
  - intros l a b Hne. rewrite T3; [now apply L1|].
    intros X. inversion X. subst. now apply Hne.
Qed.

Lemma preq_omega_ps_team_levels p vg dv omega l i j :
  (2 <= NUM_LEV)%nat -> (l < NUM_LEV)%nat -> (i < NP)%nat -> (j < NP)%nat ->
  preq_omega_ps_team p vg dv omega l i j
  = omega_scan (fun k => vg k i j) (fun k => p k i j) (fun k => dv k i j) l.
Proof.
  intros HN Hl Hi Hj. unfold Basic.preq_omega_ps_team. cbv zeta.
  match goal with
  | |- context [parallel_for (NP * NP) ?bd ?s] => set (body := bd); set (s0 := s)
  end.
  pose proof (parallel_for_obs
                (fun k (t : View2 * View3) => snd t l (k mod NP)%nat (k / NP)%nat)
                (fun k (_ : View2 * View3) =>
                   omega_scan (fun m => vg m (k mod NP)%nat (k / NP)%nat)
                     (fun m => p m (k mod NP)%nat (k / NP)%nat)
                     (fun m => dv m (k mod NP)%nat (k / NP)%nat) l)
                (NP * NP) body) as O.
  cbv beta in O.
  specialize (O ltac:(intros k k' t _ _ Hne; unfold body;
                      apply (preq_omega_ps_team_column p vg dv _ _ t HN);
                      intros E; apply Hne, point_swapped_injective, E)).
  specialize (O ltac:(intros k t _; unfold body;
                      now apply (preq_omega_ps_team_column p vg dv _ _ t HN))).
  specialize (O ltac:(reflexivity) s0 (j * NP + i)%nat (index_in_range NP j i Hj Hi)).
  destruct (point_of_index NP j i Hi) as [E1 E2]. rewrite E1, E2 in O.
  destruct (parallel_for _ _ _) as [a b]. exact O.
Qed.

(** ** preq_hydrostatic, the levels that the team overload gets right

    The levels [l >= 2] hold the hydrostatic scan; with [NUM_LEV = 2] the
    level loop is empty and both levels hold it. *)
Lemma preq_hydrostatic_team_levels phis T_v p dp Rg phi l i j :
  (2 <= NUM_LEV)%nat -> (l < NUM_LEV)%nat -> (2 <= l)%nat \/ NUM_LEV = 2%nat ->
  (i < NP)%nat -> (j < NP)%nat ->
  preq_hydrostatic_team phis T_v p dp Rg phi l i j
  = hydrostatic_scan (phis i j)
      (fun k => Rg * T_v k i j * (dp k i j / p k i j)) NUM_LEV l.
Proof.
  intros HN Hl Hok Hi Hj. unfold Basic.preq_hydrostatic_team. cbv zeta.
  match goal with
  | |- context [parallel_for ?n ?b ?s] => set (body := b); set (s0 := s)
  end.
  set (scan := fun a b =>
         hydrostatic_scan (phis a b)
           (fun k => Rg * T_v k a b * (dp k a b / p k a b)) NUM_LEV l).
  assert (Hc : forall k (t : View3 * View3),
             snd (body k t) l (k mod NP)%nat (k / NP)%nat
             = scan (k mod NP)%nat (k / NP)%nat /\
             (forall a b, (a, b) <> ((k mod NP)%nat, (k / NP)%nat) ->
                snd (body k t) l a b = snd t l a b)).
  { intros k [phii0 phi0]. unfold body. cbv zeta.
    set (a := (k mod NP)%nat). set (b := (k / NP)%nat).
    set (inc := fun m => Rg * T_v m a b * (dp m a b / p m a b)).
    assert (Ehkl : forall m,
              Rg * T_v m a b * (2.0 * (0.5 * dp m a b / p m a b)) = inc m)
      by (intros m; unfold inc; apply hkl_whole).
    assert (Ehkk : forall m,
              Rg * T_v m a b * (0.5 * dp m a b / p m a b) = 0.5 * inc m)
      by (intros m; unfold inc; apply hkk_half).
    match goal with
    | |- context [for_loop_down ?hi ?lo ?bd ?s] =>
        set (inner := bd); set (s1 := s)
    end.
    assert (G2 : forall a' b', (a', b') <> (a, b) ->
              snd (for_loop_down (NUM_LEV - 2) 1 inner s1) l a' b' = snd s1 l a' b').
    { intros a' b' Hne.
      apply (for_loop_down_frame (fun t : View3 * View3 => snd t l a' b')).
      intros k' [x y] Hk'. unfold inner. cbn [snd].
      now rewrite set3_other_point. }
    assert (G1 : forall l', (1 < l' < NUM_LEV)%nat ->
              fst (for_loop_down (NUM_LEV - 2) 1 inner s1) l' a b
              = sum_levels inc l' (NUM_LEV - l') /\
              snd (for_loop_down (NUM_LEV - 2) 1 inner s1) l' a b
              = phis a b + sum_levels inc (S l') (NUM_LEV - 1 - l') + 0.5 * inc l').
    { destruct (Nat.eq_dec NUM_LEV 2) as [E2|N3].
      - intros l' Hl'. lia.
      - apply (for_loop_down_ind (fun m (t : View3 * View3) =>
          forall l', (m < l' < NUM_LEV)%nat ->
            fst t l' a b = sum_levels inc l' (NUM_LEV - l') /\
            snd t l' a b
            = phis a b + sum_levels inc (S l') (NUM_LEV - 1 - l') + 0.5 * inc l'));
          [lia| |].
        + intros l' Hl'. assert (l' = (NUM_LEV - 1)%nat) as -> by lia.
          unfold s1. cbn [fst snd]. rewrite !set3_same.
          replace (NUM_LEV - (NUM_LEV - 1))%nat with 1%nat by lia.
          replace (NUM_LEV - 1 - (NUM_LEV - 1))%nat with 0%nat by lia.
          cbn [sum_levels]. rewrite (Ehkl (NUM_LEV - 1)%nat), (Ehkk (NUM_LEV - 1)%nat).
          split; as_R; lra.
        + intros m [x y] Hm IH l' Hl'. unfold inner. cbn [fst snd].
          destruct (Nat.eq_dec l' m) as [->|Hne].
          * rewrite !set3_same.
            rewrite (set3_other_level x m) by lia.
            destruct (IH (m + 1)%nat ltac:(lia)) as [F _]. cbn [fst] in F.
            rewrite F.
            replace (NUM_LEV - m)%nat with (S (NUM_LEV - (m + 1))) by lia.
            replace (S m) with (m + 1)%nat by lia.
            replace (NUM_LEV - 1 - m)%nat with (NUM_LEV - (m + 1))%nat by lia.
            cbn [sum_levels]. replace (S m) with (m + 1)%nat by lia.
            rewrite (Ehkl m), (Ehkk m). split; as_R; lra.
          * rewrite !set3_other_level by assumption.
            apply (IH l'). lia. }
    destruct (for_loop_down _ _ _ _) as [a' b'] eqn:EL.
    cbn [fst snd] in G1, G2.
    split.
    - unfold scan, hydrostatic_scan. fold a b. fold inc. cbn [snd].
      destruct Hok as [H2|E2].
      + rewrite set3_other_level by lia.
        destruct (G1 l ltac:(lia)) as [_ G]. exact G.
      + (* two levels: the level loop is empty *)
        assert (EE : (a', b') = s1).
        { rewrite <- EL. apply for_loop_down_empty. lia. }
        inversion EE. subst a' b'. clear EE.
        destruct (Nat.eq_dec l 0) as [->|Hne].
        * rewrite set3_same. rewrite E2. cbn [Nat.sub sum_levels].
          rewrite set3_same. rewrite (Ehkl 1%nat), (Ehkk 0%nat). fold (inc 0%nat). as_R. lra.
        * assert (l = 1%nat) as -> by lia.
          rewrite set3_other_level by lia.
          rewrite E2. cbn [Nat.sub]. rewrite set3_same.
          cbn [sum_levels]. rewrite (Ehkk 1%nat). fold (inc 1%nat). as_R. lra.
    - intros a0 b0 Hne. cbn [snd]. rewrite set3_other_point by trivial.
      rewrite G2 by trivial. unfold s1. cbn [snd].
      now rewrite set3_other_point. }
  pose proof (parallel_for_obs
                (fun k (t : View3 * View3) => snd t l (k mod NP)%nat (k / NP)%nat)
                (fun k (_ : View3 * View3) => scan (k mod NP)%nat (k / NP)%nat)
                (NP * NP) body) as O.
  cbv beta in O.
  specialize (O ltac:(intros k k' t _ _ Hne; apply Hc; intros E;
                      apply Hne, point_swapped_injective, E)).
  specialize (O ltac:(intros k t _; apply Hc)).
  specialize (O ltac:(reflexivity) s0 (j * NP + i)%nat (index_in_range NP j i Hj Hi)).
  destruct (point_of_index NP j i Hi) as [E1 E2]. rewrite E1, E2 in O.
  destruct (parallel_for _ _ _) as [x y]. exact O.
Qed.

End Facts.
End BasicFacts.

(** * Facts about the rest of kokkos_basic *)

Module BasicExtraFacts.
Import Basic BasicExtra.

Section Facts.

Set Default Proof Using "Type".

Variables NP NUM_LEV : nat.
Variable gradient_sphere : View2 -> View4 -> View3.
Variable divergence_sphere : View3 -> View2 -> View4 -> View2.
Variable vorticity_sphere : View2 -> View2 -> View2 -> View4 -> View2.
Variable uninit2 : View2.
Variable uninit3 : View3.
Variable pressure_order : list nat.

Local Abbreviation team_temperature := (team_temperature NP NUM_LEV).
Local Abbreviation team_body :=
  (team_body NP NUM_LEV gradient_sphere divergence_sphere vorticity_sphere
     uninit2 uninit3 pressure_order).
Local Abbreviation compute_and_apply_rhs :=
  (compute_and_apply_rhs NP NUM_LEV gradient_sphere divergence_sphere
     vorticity_sphere uninit2 uninit3 pressure_order).

(** ** The league loop *)

(** With an empty range of elements no team does anything. *)
Lemma league_empty data league_order region loc :
  nets (control data) = nete (control data) ->
  compute_and_apply_rhs data league_order region loc = (region, loc).
Proof.
  intros E. unfold Basic.compute_and_apply_rhs.
  apply (parallel_for_in_frame (fun t : (nat -> Region) * Locals => t)).
  intros k [r lc].
  destruct (Nat.ltb_spec (nets (control data) + k) (nete (control data)));
    [lia|reflexivity].
Qed.

(** The teams of [ranks], each of them once, one after another. *)
Lemma league_in_order data ranks :
  NoDup ranks ->
  forall region loc,
  let r' := fst (compute_and_apply_rhs data ranks region loc) in
  (forall ie,
     (forall k, In k ranks -> (nets (control data) + k < nete (control data))%nat ->
        ie <> (nets (control data) + k)%nat) ->
     r' ie = region ie) /\
  (forall k, In k ranks -> (nets (control data) + k < nete (control data))%nat ->
     exists loc_ie,
       r' (nets (control data) + k)%nat
       = fst (team_body data (region (nets (control data) + k)%nat) loc_ie)).
Proof.
  set (a := nets (control data)). set (b := nete (control data)).
  induction ranks as [|k ranks IH]; intros ND region loc.
  - split; [reflexivity | intros k []].
  - inversion ND as [|? ? Hk ND']; subst.
    unfold Basic.compute_and_apply_rhs, parallel_for_in. cbn [fold_left].
    fold a b.
    destruct (Nat.ltb_spec (a + k) b) as [Hlt|Hge].
    + destruct (Basic.team_body _ _ _ _ _ _ _ _ data (region (a + k)%nat) loc)
        as [rie lc'] eqn:ET.
      set (region1 := fun ie' => if (ie' =? a + k)%nat then rie else region ie').
      destruct (IH ND' region1 lc') as [IH1 IH2].
      unfold Basic.compute_and_apply_rhs, parallel_for_in in IH1, IH2.
      fold a b in IH1, IH2. cbv zeta in IH1, IH2. cbv zeta. split.
      * intros ie Hie. rewrite IH1.
        -- unfold region1. destruct (Nat.eqb_spec ie (a + k)) as [->|]; [|reflexivity].
           now elim (Hie k (or_introl eq_refl) Hlt).
        -- intros k' Hk' Hlt'. apply Hie; [now right|exact Hlt'].
      * intros k' [<-|Hin] Hlt'.
        -- exists loc. rewrite IH1.
           ++ unfold region1. rewrite Nat.eqb_refl. now rewrite ET.
           ++ intros k' Hk' _ E.
              assert (k' = k) by lia. subst k'. contradiction.
        -- destruct (IH2 k' Hin Hlt') as [loc_ie E]. exists loc_ie.
           rewrite E. unfold region1.
           destruct (Nat.eqb_spec (a + k') (a + k)) as [E'|]; [|reflexivity].
           assert (k' = k) by lia. subst k'. contradiction.
    + destruct (IH ND' region loc) as [IH1 IH2].
      unfold Basic.compute_and_apply_rhs, parallel_for_in in IH1, IH2.
      fold a b in IH1, IH2. cbv zeta in IH1, IH2. cbv zeta. split.
      * intros ie Hie. apply IH1.
        intros k' Hk' Hlt'. apply Hie; [now right|exact Hlt'].
      * intros k' [<-|Hin] Hlt'; [lia|]. now apply IH2.
Qed.

Lemma league_elements data league_order region loc :
  (nets (control data) <= nete (control data))%nat ->
  NoDup league_order ->
  (forall k, In k league_order
             <-> (k < nete (control data) - nets (control data) + 1)%nat) ->
  let r' := fst (compute_and_apply_rhs data league_order region loc) in
  (forall ie, ~ (nets (control data) <= ie < nete (control data))%nat ->
     r' ie = region ie) /\
  (forall ie, (nets (control data) <= ie < nete (control data))%nat ->
     exists loc_ie, r' ie = fst (team_body data (region ie) loc_ie)).
Proof.
  intros Hle ND Hin r'.
  destruct (league_in_order data league_order ND region loc) as [I1 I2].
  split.
  - intros ie Hie. apply I1. intros k _ Hlt E. lia.
  - intros ie Hie.
    replace ie with (nets (control data) + (ie - nets (control data)))%nat by lia.
    apply I2; [apply Hin|]; lia.
Qed.

(** ** The virtual temperature, lines 152-174 *)

Lemma team_temperature_levels data region (t : View3 * View3) l i j :
  (l < NUM_LEV)%nat -> (i < NP)%nat -> (j < NP)%nat ->
  let q := qn0 (control data) in
  let T_n0 := scalars_4d region (n0 (control data)) T in
  let dp_n0 := scalars_4d region (n0 (control data)) DP3D in
  fst (team_temperature data region t) l i j
  = (if (q =? -1)%Z then T_n0 l i j
     else T_n0 l i j
          * (1.0 + (Rwater_vapor (constants data) / Rgas (constants data) - 1.0)
                   * (Qdp region q 1%nat l i j / dp_n0 l i j))) /\
  snd (team_temperature data region t) l i j = kappa (constants data).
Proof.
  intros Hl Hi Hj q T_n0 dp_n0.
  set (val := if (q =? -1)%Z then T_n0 l i j
              else T_n0 l i j
                   * (1.0 + (Rwater_vapor (constants data) / Rgas (constants data) - 1.0)
                            * (Qdp region q 1%nat l i j / dp_n0 l i j))).
  pose (obs := fun (k : nat) (a b : nat) (t : View3 * View3) =>
                 (fst t k a b, snd t k a b)).
  assert (G : obs l i j (team_temperature data region t)
              = (val, kappa (constants data))).
  { unfold Basic.team_temperature. fold q. unfold val.
    destruct (q =? -1)%Z.
    - apply (parallel_for_obs (fun k t => obs k i j t)
               (fun k _ => (T_n0 k i j, kappa (constants data)))); trivial.
      + intros k k' s Hk Hk' Hne.
        apply (parallel_for_frame (fun t : View3 * View3 => obs k' i j t)).
        intros idx [x y] _. unfold obs. cbn [fst snd].
        now rewrite !set3_other_level.
      + intros k s Hk.
        apply (points_loop_obs NP (fun a b (t : View3 * View3) => obs k a b t)
                 (fun a b _ => (T_n0 k a b, kappa (constants data)))
                 (fun a b '(T_v, kappa_star) =>
                    (set3 T_v k a b (T_n0 k a b),
                     set3 kappa_star k a b (kappa (constants data))))); trivial.
        * intros a b a' b' [x y] _ _ _ _ Hne. unfold obs. cbn [fst snd].
          now rewrite !set3_other_point.
        * intros a b [x y] _ _. unfold obs. cbn [fst snd].
          now rewrite !set3_same.
    - apply (parallel_for_obs (fun k t => obs k i j t)
               (fun k _ =>
                  (T_n0 k i j
                   * (1.0 + (Rwater_vapor (constants data) / Rgas (constants data) - 1.0)
                            * (Qdp region q 1%nat k i j / dp_n0 k i j)),
                   kappa (constants data)))); trivial.
      + intros k k' s Hk Hk' Hne.
        apply (parallel_for_frame (fun t : View3 * View3 => obs k' i j t)).
        intros idx [x y] _. unfold obs. cbn [fst snd].
        now rewrite !set3_other_level.
      + intros k s Hk.
        apply (points_loop_obs NP (fun a b (t : View3 * View3) => obs k a b t)
                 (fun a b _ =>
                    (T_n0 k a b
                     * (1.0 + (Rwater_vapor (constants data) / Rgas (constants data)
                               - 1.0)
                              * (Qdp region q 1%nat k a b / dp_n0 k a b)),
                     kappa (constants data)))
                 (fun a b '(T_v, kappa_star) =>
                    (set3 T_v k a b
                       (T_n0 k a b
                        * (1.0 + (Rwater_vapor (constants data)
                                  / Rgas (constants data) - 1.0)
                                 * (Qdp region q 1%nat k a b / dp_n0 k a b))),
                     set3 kappa_star k a b (kappa (constants data))))); trivial.
        * intros a b a' b' [x y] _ _ _ _ Hne. unfold obs. cbn [fst snd].
          now rewrite !set3_other_point.
        * intros a b [x y] _ _. unfold obs. cbn [fst snd].
          now rewrite !set3_same. }
  unfold obs in G. inversion G as [[G1 G2]]. rewrite G1, G2. split; reflexivity.
Qed.

(** With a tracer field that is zero everywhere, the stage does not depend
    on [qn0]. *)
Lemma team_temperature_zero_tracers data region (t : View3 * View3) q :
  (forall l i j, Qdp region q 1%nat l i j = 0) ->
  team_temperature (with_qn0 data q) region t
  = team_temperature (with_qn0 data (-1)) region t.
Proof.
  intros HQ. unfold Basic.team_temperature. cbn [with_qn0 control qn0 n0 constants].
  destruct (Z.eqb_spec q (-1)) as [->|Hq]; [reflexivity|].
  change (-1 =? -1)%Z with true. cbv iota.
  unfold parallel_for.
  apply for_loop_ext. intros k s _.
  apply for_loop_ext. intros idx [x y] _.
  rewrite HQ. f_equal. f_equal. as_R. unfold Rdiv. rewrite Rmult_0_l. lra.
Qed.

Lemma team_body_zero_tracers data region loc q :
  (forall l i j, Qdp region q 1%nat l i j = 0) ->
  team_body (with_qn0 data q) region loc
  = team_body (with_qn0 data (-1)) region loc.
Proof.
  intros HQ. unfold Basic.team_body.
  rewrite (team_temperature_zero_tracers data region _ q HQ).
  reflexivity.
Qed.

(** ** The geopotential after the team lambda *)

Lemma team_divergence_keeps_PHI data region p
    (t : View4 * View3 * View4 * (Scalars3D -> View3) * View3 * View3) :
  snd (fst (fst (Basic.team_divergence NP NUM_LEV gradient_sphere divergence_sphere
                   vorticity_sphere data region p t))) PHI
  = snd (fst (fst t)) PHI.
Proof.
  unfold Basic.team_divergence.
  apply (parallel_for_frame
           (fun x : View4 * View3 * View4 * (Scalars3D -> View3) * View3 * View3 =>
              snd (fst (fst x)) PHI)).
  intros k [[[[[gp vg] vdp] s3d] dv] vo] Hk. cbv beta zeta iota.
  pose proof (parallel_for_frame
                (fun x : View3 * View4 * (Scalars3D -> View3) => snd x PHI)
                (NP * NP)
                (fun idx t =>
                   Basic.team_divergence_point data region
                     (put3 gp k (gradient_sphere (p k) (tensors_2d region DINV)))
                     k (idx / NP)%nat (idx mod NP)%nat t)
                (vg, vdp, s3d)) as L.
  cbv beta in L.
  destruct (parallel_for (NP * NP) _ (vg, vdp, s3d)) as [[vg' vdp'] s3d'].
  cbn [fst snd] in *. apply L.
  intros idx [[x y] z] _. reflexivity.
Qed.

Lemma team_accumulate_keeps_PHI data eta_ie om (t : View3 * (Scalars3D -> View3)) :
  snd (Basic.team_accumulate NP NUM_LEV data eta_ie om t) PHI = snd t PHI.
Proof.
  unfold Basic.team_accumulate.
  apply (parallel_for_frame (fun x : View3 * (Scalars3D -> View3) => snd x PHI)).
  intros k s _.
  apply (parallel_for_frame (fun x : View3 * (Scalars3D -> View3) => snd x PHI)).
  intros idx [x y] _. reflexivity.
Qed.

Lemma team_body_PHI data region loc :
  let r' := fst (team_body data region loc) in
  let loc' := snd (team_body data region loc) in
  scalars_3d r' PHI
  = Basic.preq_hydrostatic_team NP NUM_LEV uninit3 (scalars_2d region PHIS)
      (T_v loc') (p loc') (scalars_4d region (n0 (control data)) DP3D)
      (Rgas (constants data)) (scalars_3d region PHI).
Proof.
  cbv zeta. unfold Basic.team_body. cbv zeta.
  pose proof (team_divergence_keeps_PHI data region
                (Basic.team_pressure NP pressure_order data region (p loc))
                (grad_p loc, vgrad_p loc, vdp loc, scalars_3d region,
                 div_vdp loc, vort loc)) as Hd.
  destruct (Basic.team_divergence _ _ _ _ _ data region _ _)
    as [[[[[gp vg] vd] s3d] dv] vo].
  cbn [fst snd] in Hd.
  destruct (Basic.team_temperature _ _ data region _) as [tv ks].
  match goal with
  | |- context [Basic.team_accumulate NP NUM_LEV data ?e ?o ?t] =>
      pose proof (team_accumulate_keeps_PHI data e o t) as Ha
  end.
  destruct (Basic.team_accumulate _ _ data _ _ _) as [eta s3d'].
  cbn [fst snd scalars_3d T_v p] in *. rewrite Ha.
  unfold put_3d. cbn [Scalars3D_eqb]. now rewrite Hd.
Qed.

(** ** preq_hydrostatic, the serial overload *)

(** A loop over [igp] at a fixed [jgp] that writes level [k] of both views
    from the levels of [phii] other than [k]. *)
Lemma hydrostatic_row_pass (k j : nat) (xi xp : nat -> View3 -> Real)
    (body : nat -> View3 * View3 -> View3 * View3) :
  (forall a t,
     body a t = (set3 (fst t) k a j (xi a (fst t)), set3 (snd t) k a j (xp a (fst t)))) ->
  (forall a a' v x, xi a (set3 v k a' j x) = xi a v /\ xp a (set3 v k a' j x) = xp a v) ->
  forall t,
  let t' := for_loop 0 NP body t in
  (forall i, (i < NP)%nat ->
     fst t' k i j = xi i (fst t) /\ snd t' k i j = xp i (fst t)) /\
  (forall l a b, l <> k \/ b <> j ->
     fst t' l a b = fst t l a b /\ snd t' l a b = snd t l a b).
Proof.
  intros Hb Hx t t'. unfold t'. split.
  - intros i Hi.
    pose proof (BasicFacts.row_loop_obs NP
      (fun a (s : View3 * View3) => (fst s k a j, snd s k a j))
      (fun a (s : View3 * View3) => (xi a (fst s), xp a (fst s))) body) as O.
    cbv beta in O.
    assert (E : forall x y : Real * Real, x = y -> fst x = fst y /\ snd x = snd y)
      by (intros x y ->; now split).
    apply (E (_, _) (_, _)). apply O; trivial.
    + intros a a' s _ _ Hne. rewrite Hb. cbn [fst snd].
      rewrite !set3_other_point; trivial; intros X; inversion X; congruence.
    + intros a s _. rewrite Hb. cbn [fst snd]. now rewrite !set3_same.
    + intros a a' s _ _ Hne. rewrite Hb. cbn [fst snd].
      destruct (Hx a a' (fst s) (xi a' (fst s))) as [-> ->]. reflexivity.
  - intros l a b Hl.
    pose proof (for_loop_frame (fun s : View3 * View3 => (fst s l a b, snd s l a b))
                  0 NP body t) as F.
    cbv beta in F.
    assert (E : forall x y : Real * Real, x = y -> fst x = fst y /\ snd x = snd y)
      by (intros x y ->; now split).
    apply (E (_, _) (_, _)). apply F.
    intros a0 s _. rewrite Hb. cbn [fst snd].
    rewrite !set3_other; trivial; intros X; inversion X; destruct Hl; congruence.
Qed.

(** The loop over [igp] that writes level 0 of [phi]. *)
Lemma hydrostatic_row_pass_0 (j : nat) (xp : nat -> View3 -> Real)
    (body : nat -> View3 * View3 -> View3 * View3) :
  (forall a t, body a t = (fst t, set3 (snd t) 0 a j (xp a (fst t)))) ->
  forall t,
  let t' := for_loop 0 NP body t in
  fst t' = fst t /\
  (forall i, (i < NP)%nat -> snd t' 0%nat i j = xp i (fst t)) /\
  (forall l a b, l <> 0%nat \/ b <> j -> snd t' l a b = snd t l a b).
Proof.
  intros Hb t t'. unfold t'.
  assert (F : forall s, fst (for_loop 0 NP body s) = fst s).
  { intros s. apply (for_loop_frame (fun s : View3 * View3 => fst s)).
    intros a s' _. now rewrite Hb. }
  split; [apply F|]. split.
  - intros i Hi.
    apply (BasicFacts.row_loop_obs NP
      (fun a (s : View3 * View3) => snd s 0%nat a j)
      (fun a (s : View3 * View3) => xp a (fst s)) body); trivial.
    + intros a a' s _ _ Hne. rewrite Hb. cbn [snd].
      rewrite set3_other_point; trivial; intros X; inversion X; congruence.
    + intros a s _. rewrite Hb. cbn [snd]. now rewrite set3_same.
    + intros a a' s _ _ Hne. now rewrite Hb.
  - intros l a b Hl.
    apply (for_loop_frame (fun s : View3 * View3 => snd s l a b)).
    intros a0 s _. rewrite Hb. cbn [snd].
    rewrite set3_other; trivial; intros X; inversion X; destruct Hl; congruence.
Qed.

Lemma preq_hydrostatic_serial_levels phis T_v p dp Rg phi l i j :
  (2 <= NUM_LEV)%nat -> (l < NUM_LEV)%nat -> (i < NP)%nat -> (j < NP)%nat ->
  let phi' := Basic.preq_hydrostatic NP NUM_LEV uninit3 phis T_v p dp Rg phi in
  ((2 <= l)%nat \/ NUM_LEV = 2%nat ->
   phi' l i j
   = hydrostatic_scan (phis i j)
       (fun k => Rg * T_v k i j * (dp k i j / p k i j)) NUM_LEV l) /\
  ((3 <= NUM_LEV)%nat ->
   phi' 0%nat i j
   = phis i j + uninit3 1%nat i j
     + Rg * T_v 0%nat i j * (0.5 * dp 0%nat i j / p 0%nat i j)).
Proof.
  intros HN Hl Hi Hj phi'. unfold phi', Basic.preq_hydrostatic. cbv zeta.
  match goal with
  | |- context [for_loop 0 NP ?bd ?s] => set (row := bd); set (s0 := s)
  end.
  pose (inc := fun a b k => Rg * T_v k a b * (dp k a b / p k a b)).
  assert (Ehkl : forall a b m,
            Rg * T_v m a b * (2.0 * (0.5 * dp m a b / p m a b)) = inc a b m)
    by (intros a b m; unfold inc; apply hkl_whole).
  assert (Ehkk : forall a b m,
            Rg * T_v m a b * (0.5 * dp m a b / p m a b) = 0.5 * inc a b m)
    by (intros a b m; unfold inc; apply hkk_half).
  (* one iteration of the loop over [jgp] *)
  assert (Row : forall b t0,
    let t' := row b t0 in
    (forall a m, (a < NP)%nat -> (Nat.min 2 (NUM_LEV - 1) <= m < NUM_LEV)%nat ->
       fst t' m a b = sum_levels (inc a b) m (NUM_LEV - m) /\
       snd t' m a b = hydrostatic_scan (phis a b) (inc a b) NUM_LEV m) /\
    (forall a, (a < NP)%nat ->
       snd t' 0%nat a b
       = phis a b + fst t' 1%nat a b
         + Rg * T_v 0%nat a b * (0.5 * dp 0%nat a b / p 0%nat a b)) /\
    (forall m a b', b' <> b ->
       fst t' m a b' = fst t0 m a b' /\ snd t' m a b' = snd t0 m a b') /\
    ((3 <= NUM_LEV)%nat -> forall a b', fst t' 1%nat a b' = fst t0 1%nat a b')).
  { intros b [phii0 phi0]. unfold row. cbv zeta.
    (* the bottom level *)
    match goal with
    | |- context [for_loop 0 NP ?bd (phii0, phi0)] =>
        pose proof (hydrostatic_row_pass (NUM_LEV - 1) b
          (fun a _ => Rg * T_v (NUM_LEV - 1)%nat a b
                      * (2.0 * (0.5 * dp (NUM_LEV - 1)%nat a b
                                / p (NUM_LEV - 1)%nat a b)))
          (fun a _ => phis a b
                      + Rg * T_v (NUM_LEV - 1)%nat a b
                        * (0.5 * dp (NUM_LEV - 1)%nat a b / p (NUM_LEV - 1)%nat a b))
          bd ltac:(intros a [x y]; reflexivity) ltac:(intros; now split)
          (phii0, phi0)) as [A1 A2];
        cbv zeta in A1, A2;
        destruct (for_loop 0 NP bd (phii0, phi0)) as [phii1 phi1]
    end.
    cbn [fst snd] in A1, A2.
    (* the levels above it *)
    match goal with
    | |- context [for_loop_down ?hi ?lo ?bd (phii1, phi1)] =>
        set (levels := bd);
        assert (B : let t := for_loop_down hi lo levels (phii1, phi1) in
          (forall a m, (a < NP)%nat -> (Nat.min 2 (NUM_LEV - 1) <= m < NUM_LEV)%nat ->
             fst t m a b = sum_levels (inc a b) m (NUM_LEV - m) /\
             snd t m a b = hydrostatic_scan (phis a b) (inc a b) NUM_LEV m) /\
          (forall m a b', b' <> b \/ (m < Nat.min 2 (NUM_LEV - 1))%nat ->
             fst t m a b' = fst (phii1, phi1) m a b' /\
             snd t m a b' = snd (phii1, phi1) m a b'))
    end.
    { assert (Base : forall a m, (a < NP)%nat -> (NUM_LEV - 2 < m < NUM_LEV)%nat ->
                fst (phii1, phi1) m a b = sum_levels (inc a b) m (NUM_LEV - m) /\
                snd (phii1, phi1) m a b
                = hydrostatic_scan (phis a b) (inc a b) NUM_LEV m).
      { intros a m Ha Hm. assert (m = (NUM_LEV - 1)%nat) as -> by lia.
        cbn [fst snd]. destruct (A1 a Ha) as [-> ->]. unfold hydrostatic_scan.
        replace (NUM_LEV - (NUM_LEV - 1))%nat with 1%nat by lia.
        replace (NUM_LEV - 1 - (NUM_LEV - 1))%nat with 0%nat by lia.
        cbn [sum_levels]. rewrite Ehkl, Ehkk. split; as_R; lra. }
      destruct (Nat.eq_dec NUM_LEV 2) as [E2|N2].
      - cbv zeta. rewrite for_loop_down_empty by lia. split.
        + intros a m Ha Hm. apply Base; trivial. lia.
        + intros m a b' _. split; reflexivity.
      - cbv zeta.
        assert (H : (fun k (t : View3 * View3) =>
                    (forall a m, (a < NP)%nat -> (k < m < NUM_LEV)%nat ->
                       fst t m a b = sum_levels (inc a b) m (NUM_LEV - m) /\
                       snd t m a b
                       = hydrostatic_scan (phis a b) (inc a b) NUM_LEV m) /\
                    (forall m a b', b' <> b \/ (m <= k)%nat ->
                       fst t m a b' = fst (phii1, phi1) m a b' /\
                       snd t m a b' = snd (phii1, phi1) m a b'))
                  1%nat (for_loop_down (NUM_LEV - 2) 1 levels (phii1, phi1))).
        2:{ cbv beta in H. destruct H as [H1 H2]. split.
            - intros a m Ha Hm. apply H1; trivial. lia.
            - intros m a b' Hm. apply H2. destruct Hm; [now left | right; lia]. }
        apply for_loop_down_ind; [lia | | ].
        + split; [exact Base | intros; split; reflexivity].
        + intros k [x y] Hk [I1 I2]. unfold levels.
          pose proof (hydrostatic_row_pass k b
            (fun a v => v (k + 1)%nat a b
                        + Rg * T_v k a b * (2.0 * (0.5 * dp k a b / p k a b)))
            (fun a v => phis a b + v (k + 1)%nat a b
                        + Rg * T_v k a b * (0.5 * dp k a b / p k a b))
            (fun igp '(phii, phi) =>
               let hkk := 0.5 * dp k igp b / p k igp b in
               let hkl := 2.0 * hkk in
               let phii := set3 phii k igp b
                             (phii (k + 1)%nat igp b + Rg * T_v k igp b * hkl) in
               let phi := set3 phi k igp b
                            (phis igp b + phii (k + 1)%nat igp b
                             + Rg * T_v k igp b * hkk) in
               (phii, phi))
            ltac:(intros a [x' y']; cbv zeta; cbn [fst snd];
                  rewrite (set3_other_level x' k a b _ (k + 1)) by lia; reflexivity)
            ltac:(intros a a' v z; cbv beta;
                  rewrite !(set3_other_level v k a' b z (k + 1)) by lia; now split)
            (x, y)) as [P1 P2].
          cbv zeta in P1, P2.
          destruct (for_loop 0 NP _ (x, y)) as [x1 y1].
          cbn [fst snd] in *. split.
          * intros a m Ha Hm. destruct (Nat.eq_dec m k) as [->|Hne].
            -- destruct (P1 a Ha) as [-> ->].
               destruct (I1 a (k + 1)%nat Ha ltac:(lia)) as [-> _].
               unfold hydrostatic_scan.
               replace (NUM_LEV - k)%nat with (S (NUM_LEV - (k + 1))) by lia.
               replace (NUM_LEV - 1 - k)%nat with (NUM_LEV - (k + 1))%nat by lia.
               cbn [sum_levels]. replace (S k) with (k + 1)%nat by lia.
               rewrite Ehkl, Ehkk. split; as_R; lra.
            -- destruct (P2 m a b (or_introl Hne)) as [-> ->].
               apply I1; trivial. lia.
          * intros m a b' Hm.
            destruct (P2 m a b') as [-> ->];
              [destruct Hm; [now right | left; lia] |].
            apply I2. destruct Hm; [now left | right; lia]. }
    cbv zeta in B. destruct B as [B1 B2].
    destruct (for_loop_down _ _ levels (phii1, phi1)) as [phii2 phi2].
    cbn [fst snd] in B1, B2.
    (* level 0 *)
    match goal with
    | |- context [for_loop 0 NP ?bd (phii2, phi2)] =>
        pose proof (hydrostatic_row_pass_0 b
          (fun a v => phis a b + v 1%nat a b
                      + Rg * T_v 0%nat a b * (0.5 * dp 0%nat a b / p 0%nat a b))
          bd ltac:(intros a [x y]; reflexivity) (phii2, phi2)) as HC;
        cbv zeta in HC;
        match type of HC with
        | fst ?X = _ /\ _ =>
            change (for_loop 0 NP bd (phii2, phi2)) with X; set (tC := X) in *
        end;
        destruct HC as (C0 & C1 & C2);
        clearbody tC; destruct tC as [phii3 phi3]
    end.
    cbn [fst snd] in *. subst phii3.
    split; [|split; [|split]].
    - intros a m Ha Hm. rewrite C2 by (left; lia). now apply B1.
    - intros a Ha. now apply C1.
    - intros m a b' Hb'.
      destruct (B2 m a b' (or_introl Hb')) as [-> E2].
      destruct (A2 m a b' (or_intror Hb')) as [-> E1].
      split; [reflexivity|].
      rewrite C2 by now right. now rewrite E2.
    - intros H3 a b'.
      destruct (B2 1%nat a b') as [-> _]; [right; lia|].
      destruct (A2 1%nat a b') as [-> _]; [left; lia|]. reflexivity. }
  clearbody row.
  (* the loop over [jgp] *)
  assert (I : forall n, (n <= NP)%nat ->
    let t := for_loop 0 n row s0 in
    (forall a b m, (a < NP)%nat -> (b < n)%nat ->
       (Nat.min 2 (NUM_LEV - 1) <= m < NUM_LEV)%nat ->
       snd t m a b = hydrostatic_scan (phis a b) (inc a b) NUM_LEV m) /\
    (forall a b, (a < NP)%nat -> (b < n)%nat ->
       snd t 0%nat a b
       = phis a b + fst t 1%nat a b
         + Rg * T_v 0%nat a b * (0.5 * dp 0%nat a b / p 0%nat a b)) /\
    (forall a b, (a < NP)%nat -> (b < n)%nat -> NUM_LEV = 2%nat ->
       fst t 1%nat a b = sum_levels (inc a b) 1 (NUM_LEV - 1)) /\
    ((3 <= NUM_LEV)%nat -> forall a b, fst t 1%nat a b = uninit3 1%nat a b)).
  { induction n as [|n IH]; intros Hn; cbv zeta.
    - rewrite for_loop_empty by lia.
      repeat split; intros; try lia; reflexivity.
    - rewrite for_loop_snoc by lia.
      destruct (IH ltac:(lia)) as (I1 & I2 & I3 & I4).
      destruct (Row n (for_loop 0 n row s0)) as (R1 & R2 & R3 & R4).
      split; [|split; [|split]].
      + intros a b m Ha Hb Hm. destruct (Nat.eq_dec b n) as [->|Hne].
        * now apply R1.
        * destruct (R3 m a b Hne) as [_ ->]. apply I1; trivial. lia.
      + intros a b Ha Hb. destruct (Nat.eq_dec b n) as [->|Hne].
        * now apply R2.
        * destruct (R3 0%nat a b Hne) as [_ ->].
          destruct (R3 1%nat a b Hne) as [-> _]. apply I2; trivial. lia.
      + intros a b Ha Hb E2. destruct (Nat.eq_dec b n) as [->|Hne].
        * destruct (R1 a 1%nat Ha ltac:(lia)) as [-> _]. reflexivity.
        * destruct (R3 1%nat a b Hne) as [-> _]. apply I3; trivial. lia.
      + intros H3 a b. rewrite R4 by trivial. now apply I4. }
  destruct (I NP (Nat.le_refl NP)) as (I1 & I2 & I3 & I4). cbv zeta in *.
  destruct (for_loop 0 NP row s0) as [phiiN phiN]. cbn [fst snd] in *.
  split.
  - intros Hok.
    destruct (Nat.eq_dec l 0) as [->|Hl0].
    + destruct Hok as [Hok|E2]; [lia|].
      rewrite I2 by trivial. rewrite I3 by trivial.
      unfold hydrostatic_scan. rewrite E2. cbn [Nat.sub sum_levels].
      rewrite Ehkk. unfold inc. as_R. lra.
    + apply I1; trivial. lia.
  - intros H3. rewrite I2 by trivial. now rewrite I4.
Qed.

(** ** The reported norms *)

Lemma sum_levels_nonneg g lo n :
  (forall k, (lo <= k < lo + n)%nat -> 0 <= g k) -> 0 <= sum_levels g lo n.
Proof.
  revert lo. induction n as [|n IH]; intros lo H; cbn [sum_levels]; [lra|].
  assert (0 <= g lo) by (apply H; lia).
  assert (0 <= sum_levels g (S lo) n) by (apply IH; intros k Hk; apply H; lia).
  lra.
Qed.

Lemma sum_levels_zero g lo n :
  (forall k, (lo <= k < lo + n)%nat -> 0 <= g k) ->
  sum_levels g lo n = 0 <-> (forall k, (lo <= k < lo + n)%nat -> g k = 0).
Proof.
  revert lo. induction n as [|n IH]; intros lo H; cbn [sum_levels].
  - split; [intros _ k Hk; lia | reflexivity].
  - assert (H0 : 0 <= g lo) by (apply H; lia).
    assert (Hn : forall k, (S lo <= k < S lo + n)%nat -> 0 <= g k)
      by (intros k Hk; apply H; lia).
    pose proof (sum_levels_nonneg g (S lo) n Hn) as Hs.
    split.
    + intros E k Hk. destruct (Nat.eq_dec k lo) as [->|Hne]; [lra|].
      apply (proj1 (IH (S lo) Hn)); [lra | lia].
    + intros E. rewrite (E lo) by lia.
      rewrite (proj2 (IH (S lo) Hn)); [lra|]. intros k Hk. apply E. lia.
Qed.

(** A loop that adds a term to each of three accumulators. *)
Lemma sum_loop3 (f g h : nat -> R) lo hi (body : nat -> R * R * R -> R * R * R) t :
  (forall k t, (lo <= k < hi)%nat ->
     body k t = (fst (fst t) + f k, snd (fst t) + g k, snd t + h k)) ->
  for_loop lo hi body t
  = (fst (fst t) + sum_levels f lo (hi - lo),
     snd (fst t) + sum_levels g lo (hi - lo),
     snd t + sum_levels h lo (hi - lo)).
Proof.
  intros Hb. destruct (Nat.le_gt_cases lo hi) as [Hle|Hgt].
  - apply (for_loop_ind
      (fun k s => s = (fst (fst t) + sum_levels f lo (k - lo),
                       snd (fst t) + sum_levels g lo (k - lo),
                       snd t + sum_levels h lo (k - lo)))); trivial.
    + rewrite Nat.sub_diag. cbn [sum_levels]. destruct t as [[a b] c].
      cbn [fst snd]. f_equal; [f_equal|]; as_R; lra.
    + intros k s Hk ->. rewrite Hb by trivial. cbn [fst snd].
      replace (S k - lo)%nat with (S (k - lo)) by lia.
      rewrite !sum_levels_snoc. replace (lo + (k - lo))%nat with k by lia.
      f_equal; [f_equal|]; as_R; lra.
  - rewrite for_loop_empty by lia. replace (hi - lo)%nat with 0%nat by lia.
    cbn [sum_levels]. destruct t as [[a b] c].
    cbn [fst snd]. f_equal; [f_equal|]; as_R; lra.
Qed.

Lemma sum_entries_nonneg data g :
  (forall ie l i j, 0 <= g ie l i j) -> 0 <= sum_entries NP NUM_LEV data g.
Proof.
  intros H. unfold sum_entries.
  repeat (apply sum_levels_nonneg; intros ? _). apply H.
Qed.

Lemma sum_entries_zero data g :
  (forall ie l i j, 0 <= g ie l i j) ->
  sum_entries NP NUM_LEV data g = 0 <->
  (forall ie l i j,
     (nets (control data) <= ie < nete (control data))%nat ->
     (l < NUM_LEV)%nat -> (i < NP)%nat -> (j < NP)%nat -> g ie l i j = 0).
Proof.
  intros H. unfold sum_entries.
  assert (H1 : forall ie l i lo n k, (lo <= k < lo + n)%nat -> 0 <= g ie l i k)
    by (intros; apply H).
  assert (H2 : forall ie l lo n k, (lo <= k < lo + n)%nat ->
            0 <= sum_levels (fun j => g ie l k j) 0 NP)
    by (intros; apply sum_levels_nonneg; apply H1).
  assert (H3 : forall ie lo n k, (lo <= k < lo + n)%nat ->
            0 <= sum_levels (fun i => sum_levels (fun j => g ie k i j) 0 NP) 0 NP)
    by (intros; apply sum_levels_nonneg; apply H2).
  assert (H4 : forall lo n k, (lo <= k < lo + n)%nat ->
            0 <= sum_levels (fun l =>
                   sum_levels (fun i => sum_levels (fun j => g k l i j) 0 NP) 0 NP)
                   0 NUM_LEV)
    by (intros; apply sum_levels_nonneg; apply H3).
  rewrite (sum_levels_zero _ _ _ (H4 _ _)).
  split.
  - intros E ie l i j Hie Hl Hi Hj.
    specialize (E ie ltac:(lia)). cbv beta in E.
    rewrite (sum_levels_zero _ _ _ (H3 ie _ _)) in E.
    specialize (E l ltac:(lia)). cbv beta in E.
    rewrite (sum_levels_zero _ _ _ (H2 ie l _ _)) in E.
    specialize (E i ltac:(lia)). cbv beta in E.
    rewrite (sum_levels_zero _ _ _ (H1 ie l i _ _)) in E.
    apply E. lia.
  - intros E ie Hie.
    apply (proj2 (sum_levels_zero _ _ _ (H3 ie _ _))). intros l Hl.
    apply (proj2 (sum_levels_zero _ _ _ (H2 ie l _ _))). intros i Hi.
    apply (proj2 (sum_levels_zero _ _ _ (H1 ie l i _ _))). intros j Hj.
    apply E; lia.
Qed.

Lemma print_results_2norm_sums data region :
  let np1 := np1 (control data) in
  print_results_2norm NP NUM_LEV data region
  = (sqrt (sum_entries NP NUM_LEV data (fun ie l i j =>
             scalars_4d (region ie) np1 U l i j ^ 2
             + scalars_4d (region ie) np1 V l i j ^ 2)),
     sqrt (sum_entries NP NUM_LEV data (fun ie l i j => scalars_4d (region ie) np1 T l i j ^ 2)),
     sqrt (sum_entries NP NUM_LEV data (fun ie l i j => scalars_4d (region ie) np1 DP3D l i j ^ 2))).
Proof.
  intros np1'. unfold print_results_2norm. fold np1'.
  match goal with
  | |- context [for_loop ?lo ?hi ?bd ?s] =>
      rewrite (sum_loop3
        (fun ie => sum_levels (fun l => sum_levels (fun i => sum_levels (fun j =>
           scalars_4d (region ie) np1' U l i j ^ 2
           + scalars_4d (region ie) np1' V l i j ^ 2) 0 NP) 0 NP) 0 NUM_LEV)
        (fun ie => sum_levels (fun l => sum_levels (fun i => sum_levels (fun j =>
           scalars_4d (region ie) np1' T l i j ^ 2) 0 NP) 0 NP) 0 NUM_LEV)
        (fun ie => sum_levels (fun l => sum_levels (fun i => sum_levels (fun j =>
           scalars_4d (region ie) np1' DP3D l i j ^ 2) 0 NP) 0 NP) 0 NUM_LEV)
        lo hi bd s)
  end.
  - cbn [fst snd]. unfold sum_entries. rewrite !Rplus_0_l. reflexivity.
  - intros ie t _.
    rewrite (sum_loop3
        (fun l => sum_levels (fun i => sum_levels (fun j =>
           scalars_4d (region ie) np1' U l i j ^ 2
           + scalars_4d (region ie) np1' V l i j ^ 2) 0 NP) 0 NP)
        (fun l => sum_levels (fun i => sum_levels (fun j =>
           scalars_4d (region ie) np1' T l i j ^ 2) 0 NP) 0 NP)
        (fun l => sum_levels (fun i => sum_levels (fun j =>
           scalars_4d (region ie) np1' DP3D l i j ^ 2) 0 NP) 0 NP)).
    + now rewrite Nat.sub_0_r.
    + intros l t1 _.
      rewrite (sum_loop3
        (fun i => sum_levels (fun j =>
           scalars_4d (region ie) np1' U l i j ^ 2
           + scalars_4d (region ie) np1' V l i j ^ 2) 0 NP)
        (fun i => sum_levels (fun j =>
           scalars_4d (region ie) np1' T l i j ^ 2) 0 NP)
        (fun i => sum_levels (fun j =>
           scalars_4d (region ie) np1' DP3D l i j ^ 2) 0 NP)).
      * now rewrite Nat.sub_0_r.
      * intros i t2 _.
        rewrite (sum_loop3
          (fun j => scalars_4d (region ie) np1' U l i j ^ 2
                    + scalars_4d (region ie) np1' V l i j ^ 2)
          (fun j => scalars_4d (region ie) np1' T l i j ^ 2)
          (fun j => scalars_4d (region ie) np1' DP3D l i j ^ 2)).
        -- now rewrite Nat.sub_0_r.
        -- intros j [[a b] c] _. cbn [fst snd].
           now rewrite Rplus_assoc.
Qed.

End Facts.
End BasicExtraFacts.

(** * Facts about the rest of kokkos_scratch *)

Module ScratchExtraFacts.
Import Scratch ScratchExtra.

Section Facts.

Set Default Proof Using "Type".

Variables NP NUM_LEV : nat.
Variable gradient_sphere_update : View2 -> View4 -> View3 -> View3.
Variable uninit2 : View2.

Local Abbreviation compute_energy_grad_Ephi := (compute_energy_grad_Ephi NP uninit2).
Local Abbreviation preq_vertadv := (preq_vertadv NP NUM_LEV).

(** ** The energy view of compute_energy_grad *)

Lemma compute_energy_grad_view f ilev c g :
  Scratch.compute_energy_grad NP gradient_sphere_update uninit2 f ilev c g
  = gradient_sphere_update (compute_energy_grad_Ephi f ilev) c g.
Proof. reflexivity. Qed.

Lemma last_point :
  (0 < NP)%nat ->
  ((NP * NP - 1) / NP = NP - 1 /\ (NP * NP - 1) mod NP = NP - 1)%nat.
Proof.
  intros H.
  replace (NP * NP - 1)%nat with ((NP - 1) * NP + (NP - 1))%nat by nia.
  apply point_of_index. lia.
Qed.

Lemma compute_energy_grad_Ephi_points f ilev :
  (2 <= NP)%nat ->
  let r := m_region f in
  let E := compute_energy_grad_Ephi f ilev in
  E 0%nat 0%nat = U_current r ilev (NP - 1)%nat (NP - 1)%nat /\
  E 0%nat 1%nat = V_current r ilev (NP - 1)%nat (NP - 1)%nat /\
  (forall i j, (i < NP)%nat -> (j < NP)%nat ->
     (i, j) <> (0%nat, 0%nat) -> (i, j) <> (0%nat, 1%nat) ->
     E i j = 0.5 * (U_current r ilev i j * U_current r ilev i j
                    + V_current r ilev i j * V_current r ilev i j)
             + PHI_update r ilev i j + PECND r ilev i j).
Proof.
  intros HNP r E. unfold E, ScratchExtra.compute_energy_grad_Ephi, parallel_for.
  fold r. cbv zeta.
  match goal with
  | |- context [for_loop 0 ?n ?bd ?s] => set (body := bd); set (s0 := s)
  end.
  pose (energy := fun i j : nat =>
    0.5 * (U_current r ilev i j * U_current r ilev i j
           + V_current r ilev i j * V_current r ilev i j)
    + PHI_update r ilev i j + PECND r ilev i j).
  assert (B00 : forall k t, (k / NP, k mod NP)%nat <> (0%nat, 0%nat) ->
            (k / NP, k mod NP)%nat <> (0%nat, 1%nat) ->
            body k t 0%nat 0%nat = U_current r ilev (k / NP)%nat (k mod NP)%nat /\
            body k t 0%nat 1%nat = V_current r ilev (k / NP)%nat (k mod NP)%nat).
  { intros k t H0 H1. unfold body. split.
    - rewrite set2_other by (intros X; apply H0; now symmetry).
      rewrite set2_other by discriminate. apply set2_same.
    - rewrite set2_other by (intros X; apply H1; now symmetry).
      apply set2_same. }
  assert (Bpt : forall k t,
            body k t (k / NP)%nat (k mod NP)%nat
            = energy (k / NP)%nat (k mod NP)%nat).
  { intros k t. unfold body. rewrite set2_same.
    rewrite (set2_other _ 0 1 _ 0 0) by discriminate.
    rewrite !set2_same. reflexivity. }
  assert (Bother : forall k t a b, (a, b) <> ((k / NP)%nat, (k mod NP)%nat) ->
            (a, b) <> (0%nat, 0%nat) -> (a, b) <> (0%nat, 1%nat) ->
            body k t a b = t a b).
  { intros k t a b H H0 H1. unfold body. now rewrite !set2_other. }
  assert (I : forall k, (k <= NP * NP)%nat ->
            forall a b, (a < NP)%nat -> (b < NP)%nat -> (a * NP + b < k)%nat ->
              (a, b) <> (0%nat, 0%nat) -> (a, b) <> (0%nat, 1%nat) ->
              for_loop 0 k body s0 a b = energy a b).
  { induction k as [|k IH]; intros Hk a b Ha Hb Hlt H0 H1; [lia|].
    rewrite for_loop_snoc by lia.
    destruct (point_of_index NP a b Hb) as [Ea Eb].
    destruct (Nat.eq_dec (a * NP + b) k) as [<-|Hne].
    - pose proof (Bpt (a * NP + b)%nat (for_loop 0 (a * NP + b) body s0)) as X.
      rewrite Ea, Eb in X. exact X.
    - rewrite Bother; trivial.
      + apply IH; trivial; lia.
      + intros X. apply Hne. apply (point_injective NP).
        rewrite Ea, Eb. exact X. }
  destruct (last_point ltac:(lia)) as [La Lb].
  replace (NP * NP)%nat with (S (NP * NP - 1)) at 1 2 by nia.
  rewrite !for_loop_snoc by lia.
  destruct (B00 (NP * NP - 1)%nat (for_loop 0 (NP * NP - 1) body s0))
    as [X0 X1].
  { rewrite La, Lb. intros X. inversion X. lia. }
  { rewrite La, Lb. intros X. inversion X. lia. }
  rewrite La, Lb in X0, X1. split; [exact X0|]. split; [exact X1|].
  intros i j Hi Hj H0 H1.
  change (for_loop 0 (NP * NP) body s0 i j = energy i j).
  apply I; trivial. nia.
Qed.

(** With one point, the only entry of the view holds the energy. *)
Lemma compute_energy_grad_Ephi_one_point f ilev :
  NP = 1%nat ->
  let r := m_region f in
  compute_energy_grad_Ephi f ilev 0%nat 0%nat
  = 0.5 * (U_current r ilev 0%nat 0%nat * U_current r ilev 0%nat 0%nat
           + V_current r ilev 0%nat 0%nat * V_current r ilev 0%nat 0%nat)
    + PHI_update r ilev 0%nat 0%nat + PECND r ilev 0%nat 0%nat.
Proof.
  intros E r. unfold ScratchExtra.compute_energy_grad_Ephi, parallel_for.
  rewrite E. cbn [Nat.mul Nat.add]. unfold for_loop.
  cbn [Nat.sub seq fold_left Nat.div Nat.modulo Nat.divmod fst snd].
  rewrite set2_same. rewrite (set2_other _ 0 1 _ 0 0) by discriminate.
  rewrite !set2_same. reflexivity.
Qed.

(** ** preq_vertadv *)

(** A pass over the points of level [k] that stores [xT j i] in
    [T_vadv(k, j, i)] and [xV h j i] in [v_vadv(k, h, j, i)]. *)
Lemma vertadv_level_pass (k : nat) (xT : nat -> nat -> Real)
    (xV : nat -> nat -> nat -> Real)
    (body : nat -> nat -> View3 * View4 -> View3 * View4) :
  (forall j i t,
     body j i t
     = (set3 (fst t) k j i (xT j i),
        set4 (set4 (snd t) k 0 j i (xV 0%nat j i)) k 1 j i (xV 1%nat j i))) ->
  forall t,
  let t' := for_loop 0 NP (fun j t => for_loop 0 NP (fun i t => body j i t) t) t in
  (forall j i, (j < NP)%nat -> (i < NP)%nat ->
     fst t' k j i = xT j i /\
     snd t' k 0%nat j i = xV 0%nat j i /\ snd t' k 1%nat j i = xV 1%nat j i) /\
  (forall k', k' <> k -> fst t' k' = fst t k' /\ snd t' k' = snd t k').
Proof.
  intros Hb t t'. unfold t'. rewrite nested_loop_flat. split.
  - intros j i Hj Hi.
    pose proof (points_loop_obs NP
      (fun a b (s : View3 * View4) =>
         (fst s k a b, snd s k 0%nat a b, snd s k 1%nat a b))
      (fun a b _ => (xT a b, xV 0%nat a b, xV 1%nat a b)) body) as L.
    unfold parallel_for in L.
    specialize (L ltac:(
      intros a b a' b' s _ _ _ _ Hne; rewrite Hb; cbn [fst snd];
      rewrite set3_other_point by trivial;
      rewrite !set4_other by (intros X; inversion X; subst; now apply Hne);
      reflexivity) ltac:(
      intros a b s _ _; rewrite Hb; cbn [fst snd];
      rewrite set3_same, set4_same;
      rewrite set4_other by (intros X; inversion X);
      rewrite set4_same; reflexivity) ltac:(reflexivity) t j i Hj Hi).
    inversion L as [[L1 L2 L3]]. rewrite L1, L2, L3. repeat split.
  - intros k' Hk'.
    pose proof (for_loop_frame (fun s : View3 * View4 => (fst s k', snd s k'))
                  0 (NP * NP) (fun idx => body (idx / NP)%nat (idx mod NP)%nat) t) as L.
    cbv beta in L.
    assert (L' : (fst (for_loop 0 (NP * NP)
                         (fun idx => body (idx / NP)%nat (idx mod NP)%nat) t) k',
                  snd (for_loop 0 (NP * NP)
                         (fun idx => body (idx / NP)%nat (idx mod NP)%nat) t) k')
                 = (fst t k', snd t k'));
      [apply L | inversion L' as [[L1 L2]]; now rewrite L1, L2].
    intros idx s _. rewrite Hb. cbn [fst snd].
    rewrite set3_other_level by trivial.
    now rewrite !set4_other_level by trivial.
Qed.

Lemma preq_vertadv_top_shape T v eta rpdel k j i t :
  preq_vertadv_top T v eta rpdel k j i t
  = (set3 (fst t) k j i
       (0.5 * rpdel k j i * eta (k + 1)%nat j i * (T (k + 1)%nat j i - T k j i)),
     set4 (set4 (snd t) k 0 j i
             (0.5 * rpdel k j i * eta (k + 1)%nat j i
              * (v (k + 1)%nat 0%nat j i - v k 0%nat j i))) k 1 j i
       (0.5 * rpdel k j i * eta (k + 1)%nat j i
        * (v (k + 1)%nat 1%nat j i - v k 1%nat j i))).
Proof. destruct t as [x y]. reflexivity. Qed.

Lemma preq_vertadv_mid_shape T v eta rpdel k j i t :
  preq_vertadv_mid T v eta rpdel k j i t
  = (set3 (fst t) k j i
       (0.5 * rpdel k j i * eta (k + 1)%nat j i * (T (k + 1)%nat j i - T k j i)
        + 0.5 * rpdel k j i * eta k j i * (T k j i - T (k - 1)%nat j i)),
     set4 (set4 (snd t) k 0 j i
             (0.5 * rpdel k j i * eta (k + 1)%nat j i
              * (v (k + 1)%nat 0%nat j i - v k 0%nat j i)
              + 0.5 * rpdel k j i * eta k j i
                * (v k 0%nat j i - v (k - 1)%nat 0%nat j i))) k 1 j i
       (0.5 * rpdel k j i * eta (k + 1)%nat j i
        * (v (k + 1)%nat 1%nat j i - v k 1%nat j i)
        + 0.5 * rpdel k j i * eta k j i
          * (v k 1%nat j i - v (k - 1)%nat 1%nat j i))).
Proof. destruct t as [x y]. reflexivity. Qed.

Lemma preq_vertadv_bottom_shape T v eta rpdel k j i t :
  preq_vertadv_bottom T v eta rpdel k j i t
  = (set3 (fst t) k j i
       (0.5 * rpdel k j i * eta k j i * (T k j i - T (k - 1)%nat j i)),
     set4 (set4 (snd t) k 0 j i
             (0.5 * rpdel k j i * eta k j i
              * (v k 0%nat j i - v (k - 1)%nat 0%nat j i))) k 1 j i
       (0.5 * rpdel k j i * eta k j i
        * (v k 1%nat j i - v (k - 1)%nat 1%nat j i))).
Proof. destruct t as [x y]. reflexivity. Qed.

(** What [preq_vertadv] stores at level [l] of a column. *)
Lemma preq_vertadv_levels T v eta rpdel Tv0 vv0 l j i :
  (2 <= NUM_LEV)%nat -> (l < NUM_LEV)%nat -> (j < NP)%nat -> (i < NP)%nat ->
  let t' := preq_vertadv T v eta rpdel Tv0 vv0 in
  let adv x :=
    vertical_advection NUM_LEV x (fun k => eta k j i) (fun k => rpdel k j i) l in
  fst t' l j i = adv (fun k => T k j i) /\
  snd t' l 0%nat j i = adv (fun k => v k 0%nat j i) /\
  snd t' l 1%nat j i = adv (fun k => v k 1%nat j i).
Proof.
  intros HN Hl Hj Hi t' adv. unfold t', ScratchExtra.preq_vertadv. cbv zeta.
  cbn [Nat.add].
  match goal with
  | |- context [for_loop 0 NP ?bb (for_loop 1 ?kf ?bm (for_loop 0 NP ?bt ?s))] =>
      set (top := for_loop 0 NP bt s); set (midb := bm);
      set (mid := for_loop 1 kf midb top)
  end.
  (* the three passes *)
  pose proof (vertadv_level_pass 0
                (fun j i => 0.5 * rpdel 0%nat j i * eta (0 + 1)%nat j i
                            * (T (0 + 1)%nat j i - T 0%nat j i))
                (fun h j i => 0.5 * rpdel 0%nat j i * eta (0 + 1)%nat j i
                              * (v (0 + 1)%nat h j i - v 0%nat h j i))
                (fun j i t => preq_vertadv_top T v eta rpdel 0 j i t)
                (fun j i t => preq_vertadv_top_shape T v eta rpdel 0 j i t)
                (Tv0, vv0)) as [Top1 Top2].
  fold top in Top1, Top2.
  assert (Mid : forall k s,
            let s' := midb k s in
            (forall j i, (j < NP)%nat -> (i < NP)%nat ->
               fst s' k j i
               = 0.5 * rpdel k j i * eta (k + 1)%nat j i * (T (k + 1)%nat j i - T k j i)
                 + 0.5 * rpdel k j i * eta k j i * (T k j i - T (k - 1)%nat j i) /\
               snd s' k 0%nat j i
               = 0.5 * rpdel k j i * eta (k + 1)%nat j i
                 * (v (k + 1)%nat 0%nat j i - v k 0%nat j i)
                 + 0.5 * rpdel k j i * eta k j i
                   * (v k 0%nat j i - v (k - 1)%nat 0%nat j i) /\
               snd s' k 1%nat j i
               = 0.5 * rpdel k j i * eta (k + 1)%nat j i
                 * (v (k + 1)%nat 1%nat j i - v k 1%nat j i)
                 + 0.5 * rpdel k j i * eta k j i
                   * (v k 1%nat j i - v (k - 1)%nat 1%nat j i)) /\
            (forall k', k' <> k -> fst s' k' = fst s k' /\ snd s' k' = snd s k')).
  { intros k s.
    exact (vertadv_level_pass k
             (fun j i =>
                0.5 * rpdel k j i * eta (k + 1)%nat j i * (T (k + 1)%nat j i - T k j i)
                + 0.5 * rpdel k j i * eta k j i * (T k j i - T (k - 1)%nat j i))
             (fun h j i =>
                0.5 * rpdel k j i * eta (k + 1)%nat j i
                * (v (k + 1)%nat h j i - v k h j i)
                + 0.5 * rpdel k j i * eta k j i
                  * (v k h j i - v (k - 1)%nat h j i))
             (fun j i t => preq_vertadv_mid T v eta rpdel k j i t)
             (fun j i t => preq_vertadv_mid_shape T v eta rpdel k j i t) s). }
  pose proof (vertadv_level_pass (NUM_LEV - 1)
                (fun j i =>
                   0.5 * rpdel (NUM_LEV - 1)%nat j i * eta (NUM_LEV - 1)%nat j i
                   * (T (NUM_LEV - 1)%nat j i - T (NUM_LEV - 1 - 1)%nat j i))
                (fun h j i =>
                   0.5 * rpdel (NUM_LEV - 1)%nat j i * eta (NUM_LEV - 1)%nat j i
                   * (v (NUM_LEV - 1)%nat h j i - v (NUM_LEV - 1 - 1)%nat h j i))
                (fun j i t => preq_vertadv_bottom T v eta rpdel (NUM_LEV - 1) j i t)
                (fun j i t => preq_vertadv_bottom_shape T v eta rpdel (NUM_LEV - 1) j i t)
                mid) as [Bot1 Bot2].
  cbv zeta in Bot1, Bot2.
  unfold adv, vertical_advection. cbv beta zeta.
  destruct (Nat.eqb_spec l 0) as [->|Hl0].
  - (* the top level *)
    destruct (Bot2 0%nat ltac:(lia)) as [B1 B2]. rewrite B1, B2.
    assert (M0 : (fst mid 0%nat, snd mid 0%nat) = (fst top 0%nat, snd top 0%nat)).
    { unfold mid.
      apply (for_loop_frame (fun s : View3 * View4 => (fst s 0%nat, snd s 0%nat))).
      intros k s Hk. destruct (Mid k s) as [_ M2].
      destruct (M2 0%nat ltac:(lia)) as [-> ->]. reflexivity. }
    inversion M0 as [[M1 M2]]. rewrite M1, M2.
    destruct (Top1 j i Hj Hi) as (-> & -> & ->). cbn [Nat.add]. repeat split.
  - destruct (Nat.eqb_spec l (NUM_LEV - 1)) as [->|Hlf].
    + (* the bottom level *)
      destruct (Bot1 j i Hj Hi) as (-> & -> & ->). repeat split.
    + (* a level in between *)
      destruct (Bot2 l Hlf) as [B1 B2]. rewrite B1, B2.
      assert (I : forall k, (1 <= k <= NUM_LEV - 1)%nat -> (l < k)%nat ->
                let s := for_loop 1 k midb top in
                fst s l j i
                = 0.5 * rpdel l j i * eta (l + 1)%nat j i * (T (l + 1)%nat j i - T l j i)
                  + 0.5 * rpdel l j i * eta l j i * (T l j i - T (l - 1)%nat j i) /\
                snd s l 0%nat j i
                = 0.5 * rpdel l j i * eta (l + 1)%nat j i
                  * (v (l + 1)%nat 0%nat j i - v l 0%nat j i)
                  + 0.5 * rpdel l j i * eta l j i
                    * (v l 0%nat j i - v (l - 1)%nat 0%nat j i) /\
                snd s l 1%nat j i
                = 0.5 * rpdel l j i * eta (l + 1)%nat j i
                  * (v (l + 1)%nat 1%nat j i - v l 1%nat j i)
                  + 0.5 * rpdel l j i * eta l j i
                    * (v l 1%nat j i - v (l - 1)%nat 1%nat j i)).
      { induction k as [|k IH]; intros Hk Hlk; [lia|]. cbv zeta.
        rewrite for_loop_snoc by lia.
        destruct (Mid k (for_loop 1 k midb top)) as [M1 M2]. cbv zeta in M1, M2.
        destruct (Nat.eq_dec l k) as [->|Hne].
        - exact (M1 j i Hj Hi).
        - destruct (M2 l Hne) as [-> ->]. apply IH; lia. }
      exact (I (NUM_LEV - 1)%nat ltac:(lia) ltac:(lia)).
Qed.

(** The interfaces [0] and [NUM_LEV] of [eta_dp_deta] are not read. *)
Lemma preq_vertadv_interfaces T v eta eta' rpdel Tv0 vv0 :
  (2 <= NUM_LEV)%nat ->
  (forall k j i, (1 <= k <= NUM_LEV - 1)%nat -> (j < NP)%nat -> (i < NP)%nat ->
     eta k j i = eta' k j i) ->
  preq_vertadv T v eta rpdel Tv0 vv0 = preq_vertadv T v eta' rpdel Tv0 vv0.
Proof.
  intros HN He. unfold ScratchExtra.preq_vertadv. cbv zeta. cbn [Nat.add].
  assert (E1 : forall s,
    for_loop 0 NP (fun j t => for_loop 0 NP (fun i t =>
      preq_vertadv_top T v eta rpdel 0 j i t) t) s
    = for_loop 0 NP (fun j t => for_loop 0 NP (fun i t =>
      preq_vertadv_top T v eta' rpdel 0 j i t) t) s).
  { intros s. apply for_loop_ext. intros j t Hj.
    apply for_loop_ext. intros i t1 Hi.
    rewrite !preq_vertadv_top_shape. cbn [Nat.add].
    now rewrite (He 1%nat j i) by lia. }
  assert (E2 : forall s,
    for_loop 1 (NUM_LEV - 1) (fun k t => for_loop 0 NP (fun j t =>
      for_loop 0 NP (fun i t => preq_vertadv_mid T v eta rpdel k j i t) t) t) s
    = for_loop 1 (NUM_LEV - 1) (fun k t => for_loop 0 NP (fun j t =>
      for_loop 0 NP (fun i t => preq_vertadv_mid T v eta' rpdel k j i t) t) t) s).
  { intros s. apply for_loop_ext. intros k t Hk.
    apply for_loop_ext. intros j t1 Hj.
    apply for_loop_ext. intros i t2 Hi.
    rewrite !preq_vertadv_mid_shape.
    now rewrite (He k j i), (He (k + 1)%nat j i) by lia. }
  assert (E3 : forall s,
    for_loop 0 NP (fun j t => for_loop 0 NP (fun i t =>
      preq_vertadv_bottom T v eta rpdel (NUM_LEV - 1) j i t) t) s
    = for_loop 0 NP (fun j t => for_loop 0 NP (fun i t =>
      preq_vertadv_bottom T v eta' rpdel (NUM_LEV - 1) j i t) t) s).
  { intros s. apply for_loop_ext. intros j t Hj.
    apply for_loop_ext. intros i t1 Hi.
    rewrite !preq_vertadv_bottom_shape.
    now rewrite (He (NUM_LEV - 1)%nat j i) by lia. }
  now rewrite E1, E2, E3.
Qed.

(** The advection of a column vanishes when the column is uniform or when
    there is no flux through the interfaces between its levels. *)
Lemma vertical_advection_zero N x eta rpdel l :
  (2 <= N)%nat -> (l < N)%nat ->
  (forall k, (k < N)%nat -> x k = x 0%nat) \/
  (forall k, (1 <= k <= N - 1)%nat -> eta k = 0) ->
  vertical_advection N x eta rpdel l = 0.
Proof.
  intros HN Hl H. unfold vertical_advection. cbv zeta.
  destruct (Nat.eqb_spec l 0) as [->|Hl0];
    [|destruct (Nat.eqb_spec l (N - 1)) as [->|Hlf]].
  - destruct H as [H|H].
    + rewrite (H (0 + 1)%nat) by lia. as_R. lra.
    + rewrite (H (0 + 1)%nat) by lia. as_R. lra.
  - destruct H as [H|H].
    + rewrite (H (N - 1)%nat), (H (N - 1 - 1)%nat) by lia. as_R. lra.
    + rewrite (H (N - 1)%nat) by lia. as_R. lra.
  - destruct H as [H|H].
    + rewrite (H (l + 1)%nat), (H l), (H (l - 1)%nat) by lia. as_R. lra.
    + rewrite (H (l + 1)%nat), (H l) by lia. as_R. lra.
Qed.

End Facts.
End ScratchExtraFacts.

(** * Facts about the command line of main.cpp *)

Module MainFacts.
Import Ascii String Main.
Local Open Scope string_scope.

Lemma strchr_app junk s c :
  strchr junk c = None -> strchr (junk ++ s) c = strchr s c.
Proof.
  induction junk as [|c' junk IH]; intros H; [reflexivity|].
  cbn [strchr append] in *. destruct (Ascii.eqb c' c); [discriminate|].
  now apply IH.
Qed.

Lemma strchr_found s c : strchr (String c s) c = Some (String c s).
Proof. cbn [strchr]. now rewrite Ascii.eqb_refl. Qed.

Lemma strchr_starts s c p : strchr s c = Some p -> exists rest, p = String c rest.
Proof.
  induction s as [|c' s IH]; intros H; [discriminate|].
  cbn [strchr] in H. destruct (Ascii.eqb_spec c' c) as [->|Hne].
  - inversion H. now exists s.
  - now apply IH.
Qed.

(** ** Decimal numerals *)

Lemma is_unsigned_int_numeral d :
  is_unsigned_int (DecimalString.NilEmpty.string_of_uint d) = true.
Proof. induction d; cbn; trivial. Qed.

Lemma digits_value_numeral d a :
  digits_value (Z.of_nat a) (DecimalString.NilEmpty.string_of_uint d)
  = Z.of_nat (Nat.of_uint_acc d a).
Proof.
  revert a. induction d; intros a;
    cbn [DecimalString.NilEmpty.string_of_uint digits_value Nat.of_uint_acc];
    trivial;
    match goal with
    | |- context [isdigit ?c] => change (isdigit c) with true; cbv iota
    end;
    rewrite <- IHd; f_equal; rewrite Nat.tail_mul_spec;
    match goal with
    | |- context [nat_of_ascii ?c] =>
        let v := eval cbv in (nat_of_ascii c) in change (nat_of_ascii c) with v
    end; lia.
Qed.

Lemma skip_spaces_numeral d :
  skip_spaces (DecimalString.NilEmpty.string_of_uint d)
  = DecimalString.NilEmpty.string_of_uint d.
Proof. destruct d; reflexivity. Qed.

Lemma atoi_decimal INT_MAX n :
  (Z.of_nat n <= INT_MAX)%Z -> atoi INT_MAX (decimal n) = Some (Z.of_nat n).
Proof.
  intros H. unfold atoi, decimal. rewrite skip_spaces_numeral.
  assert (E : forall d,
    (let '(negative, s) :=
       match DecimalString.NilEmpty.string_of_uint d with
       | String "-" rest => (true, rest)
       | String "+" rest => (false, rest)
       | _ => (false, DecimalString.NilEmpty.string_of_uint d)
       end in
     let n := digits_value 0 s in
     let v := if negative then (- n)%Z else n in
     if ((- INT_MAX - 1 <=? v) && (v <=? INT_MAX))%Z then Some v else None)
    = (let v := digits_value 0 (DecimalString.NilEmpty.string_of_uint d) in
       if ((- INT_MAX - 1 <=? v) && (v <=? INT_MAX))%Z then Some v else None)).
  { intros d. destruct d; reflexivity. }
  rewrite E. cbv zeta.
  change 0%Z with (Z.of_nat 0). rewrite digits_value_numeral.
  change (Nat.of_uint_acc (Nat.to_uint n) 0) with (Nat.of_uint (Nat.to_uint n)).
  rewrite DecimalNat.Unsigned.of_to.
  destruct (Z.leb_spec (- INT_MAX - 1) (Z.of_nat n)); [|lia].
  destruct (Z.leb_spec (Z.of_nat n) INT_MAX); [|lia].
  reflexivity.
Qed.

(** ** The argument loop *)

Lemma argument_loop_ignored INT_MAX arg rest k :
  ignored arg = true ->
  argument_loop INT_MAX (arg :: rest) k = argument_loop INT_MAX rest k.
Proof.
  unfold ignored. cbn [argument_loop].
  destruct (strncmp arg "--tinman-num-elems=" 18);
    destruct (strncmp arg "--tinman-help" 13); intros H;
    try discriminate; reflexivity.
Qed.

Lemma argument_loop_all_ignored INT_MAX args rest k :
  forallb ignored args = true ->
  argument_loop INT_MAX (args ++ rest)%list k = argument_loop INT_MAX rest k.
Proof.
  induction args as [|a args IH]; intros H; [reflexivity|].
  cbn [forallb] in H. apply andb_prop in H as [Ha Hr].
  cbn [app]. rewrite argument_loop_ignored by trivial. now apply IH.
Qed.

(** The loop goes on after a prefix of the arguments that it has passed. *)
Lemma argument_loop_app INT_MAX args rest k m :
  argument_loop INT_MAX args k = Run m ->
  argument_loop INT_MAX (args ++ rest)%list k = argument_loop INT_MAX rest m.
Proof.
  revert k. induction args as [|a args IH]; intros k H.
  - cbn in H. inversion H. reflexivity.
  - cbn [app argument_loop] in *.
    destruct (strncmp a "--tinman-num-elems=" 18).
    + destruct (strchr a "="); [|discriminate].
      destruct (negb (is_unsigned_int (next s))); [discriminate|].
      destruct (atoi INT_MAX (next s)); [|discriminate]. now apply IH.
    + destruct (strncmp a "--tinman-help" 13); try discriminate; now apply IH.
    + destruct (strncmp a "--tinman-help" 13); try discriminate; now apply IH.
Qed.

Lemma num_elems_option_matches junk number :
  strncmp (num_elems_option junk number) "--tinman-num-elems=" 18 = Eq.
Proof. reflexivity. Qed.

Lemma num_elems_option_number junk number :
  strchr junk "=" = None ->
  strchr (num_elems_option junk number) "=" = Some ("=" ++ number).
Proof.
  intros H. unfold num_elems_option.
  change (strchr (junk ++ "=" ++ number) "=" = Some ("=" ++ number)).
  rewrite strchr_app by trivial. apply strchr_found.
Qed.

Lemma argument_loop_option INT_MAX junk n rest k :
  strchr junk "=" = None -> (Z.of_nat n <= INT_MAX)%Z ->
  argument_loop INT_MAX (num_elems_option junk (decimal n) :: rest) k
  = argument_loop INT_MAX rest (Z.of_nat n).
Proof.
  intros Hj Hn. cbn [argument_loop].
  rewrite num_elems_option_matches, num_elems_option_number by trivial.
  cbn [next append]. unfold decimal at 1. rewrite is_unsigned_int_numeral.
  cbn [negb]. now rewrite atoi_decimal.
Qed.

Lemma main_cons INT_MAX prog args :
  main INT_MAX (prog :: args)
  = match argument_loop INT_MAX args 10 with
    | Run num_elems => if (num_elems <? 1)%Z then Exit 1 else Run num_elems
    | o => o
    end.
Proof.
  unfold main. cbn [List.length List.tl].
  destruct args as [|a args]; [reflexivity|].
  cbn [List.length]. change (1 <? S (S (List.length args)))%nat with true.
  cbv iota. now destruct (argument_loop INT_MAX (a :: args) 10).
Qed.

End MainFacts.

(** * Facts about Utility.hpp *)

Module UtilityFacts.
Import Utility.

Lemma index_eqb_eq a b : index_eqb a b = true <-> a = b.
Proof.
  revert b. induction a as [|x a IH]; intros [|y b]; cbn [index_eqb];
    try (split; [discriminate | intros H; inversion H]); [now split|].
  rewrite andb_true_iff, Nat.eqb_eq, IH. split.
  - intros [-> ->]. reflexivity.
  - intros H. inversion H. now split.
Qed.

Lemma index_eqb_refl a : index_eqb a a = true.
Proof. now apply index_eqb_eq. Qed.

Lemma set_same v idx x : set v idx x idx = x.
Proof. unfold set. now rewrite index_eqb_refl. Qed.

(** ** Loops *)

Lemma run_while_stable {St : Type} ks (cond : St -> bool) (body : nat -> St -> St) s :
  cond s = false -> fold_left (fun s k => if cond s then body k s else s) ks s = s.
Proof.
  intros H. induction ks as [|k ks IH]; [reflexivity|].
  cbn [fold_left]. now rewrite H.
Qed.

(** A loop with a condition on the state is the loop whose body is skipped
    once the condition fails. *)
Lemma for_loop_while_skip {St : Type} lo hi (cond : St -> bool)
    (body : nat -> St -> St) s :
  for_loop_while lo hi cond body s
  = for_loop lo hi (fun k s => if cond s then body k s else s) s.
Proof.
  unfold for_loop_while, for_loop. generalize (seq lo (hi - lo)) as ks.
  intros ks. revert s. induction ks as [|k ks IH]; intros s; [reflexivity|].
  cbn [run_while fold_left]. destruct (cond s) eqn:E.
  - apply IH.
  - symmetry. now apply run_while_stable.
Qed.

Lemma any_S n p : any (S n) p = any n p || p n.
Proof.
  unfold any. rewrite seq_S, existsb_app. cbn [existsb Nat.add].
  now rewrite orb_false_r.
Qed.

Lemma any_true n p : any n p = true <-> exists k, (k < n)%nat /\ p k = true.
Proof.
  unfold any. rewrite existsb_exists. split.
  - intros (k & Hk & Hp). apply in_seq in Hk. exists k. split; [lia|exact Hp].
  - intros (k & Hk & Hp). exists k. split; [apply in_seq; lia|exact Hp].
Qed.

Lemma any_false n p : any n p = false <-> forall k, (k < n)%nat -> p k = false.
Proof.
  split.
  - intros H k Hk. destruct (p k) eqn:E; [|reflexivity].
    assert (any n p = true) by (apply any_true; now exists k). congruence.
  - intros H. destruct (any n p) eqn:E; [|reflexivity].
    apply any_true in E as (k & Hk & Hp). rewrite H in Hp by trivial. discriminate.
Qed.

(** A loop whose iteration [k] stores [val idx] at the indices [idx] of
    [dom k] stores it at the indices of some [dom k]. *)
Lemma write_loop (n : nat) (body : nat -> View -> View)
    (dom : nat -> Index -> bool) (val : Index -> Real) :
  (forall k d idx, (k < n)%nat ->
     body k d idx = if dom k idx then val idx else d idx) ->
  forall d idx,
    for_loop 0 n body d idx
    = if any n (fun k => dom k idx) then val idx else d idx.
Proof.
  intros Hb d idx. induction n as [|n IH]; [reflexivity|].
  rewrite for_loop_snoc by lia. rewrite Hb by lia. rewrite any_S.
  destruct (dom n idx).
  - now rewrite orb_true_r.
  - rewrite orb_false_r. apply IH. intros k d' idx' Hk. apply Hb. lia.
Qed.

Section Facts.

Set Default Proof Using "Type".

Variables NP NUM_LEV NUM_PHYSICAL_LEV NUM_TIME_LEVELS VECTOR_SIZE : nat.

(** The pair of counters [(vector_level, level)]: the two loops over the
    lanes are one loop over [level]. *)
Lemma lanes_loop (W : nat -> nat -> nat -> View -> View) (d : View) :
  snd (for_loop 0 NUM_LEV (fun vector_level t =>
         for_loop 0 VECTOR_SIZE (fun vector '(level, d) =>
           ((level + 1)%nat, W level vector_level vector d)) t) (0%nat, d))
  = for_loop 0 (NUM_LEV * VECTOR_SIZE) (fun level d =>
      W level (level / VECTOR_SIZE)%nat (level mod VECTOR_SIZE)%nat d) d.
Proof.
  destruct (Nat.eq_dec VECTOR_SIZE 0) as [E0|N0].
  { rewrite E0, Nat.mul_0_r. rewrite (for_loop_empty 0 0) by lia.
    apply (for_loop_frame (fun t : nat * View => snd t)).
    intros k t _. now rewrite for_loop_empty by lia. }
  transitivity
    (for_loop 0 (NUM_LEV * VECTOR_SIZE) (fun idx d =>
       W (idx / VECTOR_SIZE * VECTOR_SIZE + idx mod VECTOR_SIZE)%nat
         (idx / VECTOR_SIZE)%nat (idx mod VECTOR_SIZE)%nat d) d).
  - rewrite <- (nested_loop_flat NUM_LEV VECTOR_SIZE
                  (fun vl v d => W (vl * VECTOR_SIZE + v)%nat vl v d)).
    assert (Inner : forall vl L d0,
      for_loop 0 VECTOR_SIZE (fun vector '(level, d) =>
        ((level + 1)%nat, W level vl vector d)) (L, d0)
      = ((L + VECTOR_SIZE)%nat,
         for_loop 0 VECTOR_SIZE (fun v d => W (L + v)%nat vl v d) d0)).
    { intros vl L d0.
      apply (for_loop_ind
        (fun k (t : nat * View) =>
           t = ((L + k)%nat, for_loop 0 k (fun v d => W (L + v)%nat vl v d) d0)));
        [lia | now rewrite Nat.add_0_r | ].
      intros k t Hk ->. rewrite for_loop_snoc by lia.
      f_equal. lia. }
    assert (Outer : forall n, (n <= NUM_LEV)%nat ->
      for_loop 0 n (fun vector_level t =>
        for_loop 0 VECTOR_SIZE (fun vector '(level, d) =>
          ((level + 1)%nat, W level vector_level vector d)) t) (0%nat, d)
      = ((n * VECTOR_SIZE)%nat,
         for_loop 0 n (fun vl d =>
           for_loop 0 VECTOR_SIZE (fun v d =>
             W (vl * VECTOR_SIZE + v)%nat vl v d) d) d)).
    { induction n as [|n IH]; intros Hn; [reflexivity|].
      rewrite !for_loop_snoc by lia. rewrite IH by lia. rewrite Inner.
      f_equal. lia. }
    rewrite Outer by lia. reflexivity.
  - apply for_loop_ext. intros k t _.
    replace (k / VECTOR_SIZE * VECTOR_SIZE + k mod VECTOR_SIZE)%nat with k;
      [reflexivity|].
    pose proof (Nat.div_mod_eq k VECTOR_SIZE). lia.
Qed.

Lemma lanes_loop_guarded (W : nat -> nat -> nat -> View -> View) (d : View) :
  snd (for_loop 0 NUM_LEV (fun vector_level t =>
         for_loop_while 0 VECTOR_SIZE
           (fun '(level, _) => (level <? NUM_PHYSICAL_LEV)%nat)
           (fun vector '(level, d) =>
              ((level + 1)%nat, W level vector_level vector d)) t) (0%nat, d))
  = for_loop 0 (NUM_LEV * VECTOR_SIZE) (fun level d =>
      if (level <? NUM_PHYSICAL_LEV)%nat
      then W level (level / VECTOR_SIZE)%nat (level mod VECTOR_SIZE)%nat d
      else d) d.
Proof.
  destruct (Nat.eq_dec VECTOR_SIZE 0) as [E0|N0].
  { rewrite E0, Nat.mul_0_r. rewrite (for_loop_empty 0 0) by lia.
    apply (for_loop_frame (fun t : nat * View => snd t)).
    intros k t _. reflexivity. }
  transitivity
    (for_loop 0 (NUM_LEV * VECTOR_SIZE) (fun idx d =>
       if (idx / VECTOR_SIZE * VECTOR_SIZE + idx mod VECTOR_SIZE
           <? NUM_PHYSICAL_LEV)%nat
       then W (idx / VECTOR_SIZE * VECTOR_SIZE + idx mod VECTOR_SIZE)%nat
              (idx / VECTOR_SIZE)%nat (idx mod VECTOR_SIZE)%nat d
       else d) d).
  - rewrite <- (nested_loop_flat NUM_LEV VECTOR_SIZE
                  (fun vl v d =>
                     if (vl * VECTOR_SIZE + v <? NUM_PHYSICAL_LEV)%nat
                     then W (vl * VECTOR_SIZE + v)%nat vl v d else d)).
    assert (Inner : forall vl K d0,
      for_loop_while 0 VECTOR_SIZE
        (fun '(level, _) => (level <? NUM_PHYSICAL_LEV)%nat)
        (fun vector '(level, d) => ((level + 1)%nat, W level vl vector d))
        (Nat.min K NUM_PHYSICAL_LEV, d0)
      = (Nat.min (K + VECTOR_SIZE) NUM_PHYSICAL_LEV,
         for_loop 0 VECTOR_SIZE (fun v d =>
           if (K + v <? NUM_PHYSICAL_LEV)%nat then W (K + v)%nat vl v d else d)
           d0)).
    { intros vl K d0. rewrite for_loop_while_skip.
      apply (for_loop_ind
        (fun k (t : nat * View) =>
           t = (Nat.min (K + k) NUM_PHYSICAL_LEV,
                for_loop 0 k (fun v d =>
                  if (K + v <? NUM_PHYSICAL_LEV)%nat then W (K + v)%nat vl v d
                  else d) d0)));
        [lia | now rewrite Nat.add_0_r | ].
      intros k t Hk ->. rewrite for_loop_snoc by lia.
      destruct (Nat.ltb_spec (K + k) NUM_PHYSICAL_LEV) as [Hlt|Hge].
      - destruct (Nat.ltb_spec (Nat.min (K + k) NUM_PHYSICAL_LEV) NUM_PHYSICAL_LEV);
          [|lia].
        replace (Nat.min (K + k) NUM_PHYSICAL_LEV) with (K + k)%nat by lia.
        f_equal. lia.
      - destruct (Nat.ltb_spec (Nat.min (K + k) NUM_PHYSICAL_LEV) NUM_PHYSICAL_LEV);
          [lia|].
        f_equal. lia. }
    assert (Outer : forall n, (n <= NUM_LEV)%nat ->
      for_loop 0 n (fun vector_level t =>
        for_loop_while 0 VECTOR_SIZE
          (fun '(level, _) => (level <? NUM_PHYSICAL_LEV)%nat)
          (fun vector '(level, d) =>
             ((level + 1)%nat, W level vector_level vector d)) t) (0%nat, d)
      = (Nat.min (n * VECTOR_SIZE) NUM_PHYSICAL_LEV,
         for_loop 0 n (fun vl d =>
           for_loop 0 VECTOR_SIZE (fun v d =>
             if (vl * VECTOR_SIZE + v <? NUM_PHYSICAL_LEV)%nat
             then W (vl * VECTOR_SIZE + v)%nat vl v d else d) d) d)).
    { induction n as [|n IH]; intros Hn; [reflexivity|].
      rewrite !for_loop_snoc by lia. rewrite IH by lia. rewrite Inner.
      f_equal. f_equal. lia. }
    rewrite Outer by lia. reflexivity.
  - apply for_loop_ext. intros k t _.
    replace (k / VECTOR_SIZE * VECTOR_SIZE + k mod VECTOR_SIZE)%nat with k;
      [reflexivity|].
    pose proof (Nat.div_mod_eq k VECTOR_SIZE). lia.
Qed.

(** A loop whose body is guarded by [k < m] is the loop up to [m]. *)
Lemma for_loop_guard {St : Type} n m (F : nat -> St -> St) s :
  for_loop 0 n (fun k s => if (k <? m)%nat then F k s else s) s
  = for_loop 0 (Nat.min n m) F s.
Proof.
  rewrite (for_loop_split 0 (Nat.min n m) n) by lia.
  rewrite (for_loop_ext 0 (Nat.min n m) _ F).
  - apply (for_loop_frame (fun s => s)). intros k t Hk.
    destruct (Nat.ltb_spec k m); [lia|reflexivity].
  - intros k t Hk. destruct (Nat.ltb_spec k m); [reflexivity|lia].
Qed.

(** Four nested loops that store [x a b c e] at the index [at_ a b c e]. *)
Lemma write_nest4 (n1 n2 n3 n4 : nat) (at_ : nat -> nat -> nat -> nat -> Index)
    (x : nat -> nat -> nat -> nat -> Real) (val : Index -> Real) :
  (forall a b c e, val (at_ a b c e) = x a b c e) ->
  forall d idx,
    for_loop 0 n1 (fun a d =>
      for_loop 0 n2 (fun b d =>
        for_loop 0 n3 (fun c d =>
          for_loop 0 n4 (fun e d => set d (at_ a b c e) (x a b c e)) d) d) d) d idx
    = if any n1 (fun a => any n2 (fun b => any n3 (fun c => any n4 (fun e =>
           index_eqb idx (at_ a b c e)))))
      then val idx else d idx.
Proof.
  intros Hv d idx. revert d idx.
  apply (write_loop n1 _ (fun a idx => any n2 (fun b => any n3 (fun c =>
           any n4 (fun e => index_eqb idx (at_ a b c e))))) val).
  intros a d idx _. revert d idx.
  apply (write_loop n2 _ (fun b idx => any n3 (fun c =>
           any n4 (fun e => index_eqb idx (at_ a b c e)))) val).
  intros b d idx _. revert d idx.
  apply (write_loop n3 _ (fun c idx =>
           any n4 (fun e => index_eqb idx (at_ a b c e))) val).
  intros c d idx _. revert d idx.
  apply (write_loop n4 _ (fun e idx => index_eqb idx (at_ a b c e)) val).
  intros e d idx _. unfold set.
  destruct (index_eqb idx (at_ a b c e)) eqn:E; [|reflexivity].
  apply index_eqb_eq in E. subst idx. now rewrite Hv.
Qed.

Lemma any4_true n1 n2 n3 n4 (p : nat -> nat -> nat -> nat -> bool) :
  any n1 (fun a => any n2 (fun b => any n3 (fun c => any n4 (fun e => p a b c e))))
  = true <->
  exists a b c e, (a < n1 /\ b < n2 /\ c < n3 /\ e < n4)%nat /\ p a b c e = true.
Proof.
  split.
  - intros H. apply any_true in H as (a & Ha & H).
    apply any_true in H as (b & Hb & H). apply any_true in H as (c & Hc & H).
    apply any_true in H as (e & He & H). exists a, b, c, e. now repeat split.
  - intros (a & b & c & e & (Ha & Hb & Hc & He) & H).
    apply any_true. exists a. split; [exact Ha|].
    apply any_true. exists b. split; [exact Hb|].
    apply any_true. exists c. split; [exact Hc|].
    apply any_true. exists e. now split.
Qed.

(** ** sync_to_host and sync_to_device *)

Lemma sync_to_host_written num_elems source dest idx :
  sync_to_host NP NUM_LEV VECTOR_SIZE num_elems source dest idx
  = if any num_elems (fun ie => any (NUM_LEV * VECTOR_SIZE) (fun level =>
         any NP (fun igp => any NP (fun jgp =>
           index_eqb idx [ie; level; igp; jgp]))))
    then match idx with
         | [ie; level; igp; jgp] =>
             source [ie; igp; jgp; (level / VECTOR_SIZE)%nat;
                     (level mod VECTOR_SIZE)%nat]
         | _ => 0
         end
    else dest idx.
Proof.
  unfold sync_to_host.
  rewrite (for_loop_ext 0 num_elems _
    (fun ie dest =>
       for_loop 0 (NUM_LEV * VECTOR_SIZE) (fun level dest =>
         for_loop 0 NP (fun igp dest =>
           for_loop 0 NP (fun jgp dest =>
             set dest [ie; level; igp; jgp]
               (source [ie; igp; jgp; (level / VECTOR_SIZE)%nat;
                        (level mod VECTOR_SIZE)%nat])) dest) dest) dest)).
  - exact (write_nest4 num_elems (NUM_LEV * VECTOR_SIZE) NP NP
             (fun ie level igp jgp => [ie; level; igp; jgp])
             (fun ie level igp jgp =>
                source [ie; igp; jgp; (level / VECTOR_SIZE)%nat;
                        (level mod VECTOR_SIZE)%nat])
             (fun idx =>
                match idx with
                | [ie; level; igp; jgp] =>
                    source [ie; igp; jgp; (level / VECTOR_SIZE)%nat;
                            (level mod VECTOR_SIZE)%nat]
                | _ => 0
                end)
             (fun _ _ _ _ => eq_refl) dest idx).
  - intros ie d _.
    apply (lanes_loop
             (fun level vl v dest =>
                for_loop 0 NP (fun igp dest =>
                  for_loop 0 NP (fun jgp dest =>
                    set dest [ie; level; igp; jgp] (source [ie; igp; jgp; vl; v]))
                    dest) dest)).
Qed.

Lemma sync_to_device_written beyond num_elems source dest_mirror idx :
  let src := host_entry NUM_PHYSICAL_LEV beyond source in
  sync_to_device NP NUM_LEV NUM_PHYSICAL_LEV VECTOR_SIZE beyond num_elems source
    dest_mirror idx
  = if any num_elems (fun ie => any (NUM_LEV * VECTOR_SIZE) (fun level =>
         any NP (fun igp => any NP (fun jgp =>
           index_eqb idx [ie; igp; jgp; (level / VECTOR_SIZE)%nat;
                          (level mod VECTOR_SIZE)%nat]))))
    then match idx with
         | [ie; igp; jgp; vector_level; vector] =>
             src [ie; (vector_level * VECTOR_SIZE + vector)%nat; igp; jgp]
         | _ => 0
         end
    else dest_mirror idx.
Proof.
  intros src. unfold sync_to_device. fold src.
  rewrite (for_loop_ext 0 num_elems _
    (fun ie dest =>
       for_loop 0 (NUM_LEV * VECTOR_SIZE) (fun level dest =>
         for_loop 0 NP (fun igp dest =>
           for_loop 0 NP (fun jgp dest =>
             set dest [ie; igp; jgp; (level / VECTOR_SIZE)%nat;
                       (level mod VECTOR_SIZE)%nat]
               (src [ie; ((level / VECTOR_SIZE) * VECTOR_SIZE
                             + level mod VECTOR_SIZE)%nat; igp; jgp])) dest)
           dest) dest)).
  - exact (write_nest4 num_elems (NUM_LEV * VECTOR_SIZE) NP NP
             (fun ie level igp jgp =>
                [ie; igp; jgp; (level / VECTOR_SIZE)%nat;
                 (level mod VECTOR_SIZE)%nat])
             (fun ie level igp jgp =>
                src [ie; ((level / VECTOR_SIZE) * VECTOR_SIZE
                             + level mod VECTOR_SIZE)%nat; igp; jgp])
             (fun idx =>
                match idx with
                | [ie; igp; jgp; vector_level; vector] =>
                    src [ie; (vector_level * VECTOR_SIZE + vector)%nat; igp; jgp]
                | _ => 0
                end)
             (fun _ _ _ _ => eq_refl) dest_mirror idx).
  - intros ie d _.
    rewrite (lanes_loop
               (fun level vl v dest =>
                  for_loop 0 NP (fun igp dest =>
                    for_loop 0 NP (fun jgp dest =>
                      set dest [ie; igp; jgp; vl; v] (src [ie; level; igp; jgp]))
                      dest) dest)).
    apply for_loop_ext. intros level t _.
    replace (level / VECTOR_SIZE * VECTOR_SIZE + level mod VECTOR_SIZE)%nat
      with level; [reflexivity|].
    pose proof (Nat.div_mod_eq level VECTOR_SIZE). lia.
Qed.

(** Five nested loops that store [x a b c e g] at the index
    [at_ a b c e g]. *)
Lemma write_nest5 (n1 n2 n3 n4 n5 : nat)
    (at_ : nat -> nat -> nat -> nat -> nat -> Index)
    (x : nat -> nat -> nat -> nat -> nat -> Real) (val : Index -> Real) :
  (forall a b c e g, val (at_ a b c e g) = x a b c e g) ->
  forall d idx,
    for_loop 0 n1 (fun a d =>
      for_loop 0 n2 (fun b d =>
        for_loop 0 n3 (fun c d =>
          for_loop 0 n4 (fun e d =>
            for_loop 0 n5 (fun g d => set d (at_ a b c e g) (x a b c e g)) d) d) d)
        d) d idx
    = if any n1 (fun a => any n2 (fun b => any n3 (fun c => any n4 (fun e =>
           any n5 (fun g => index_eqb idx (at_ a b c e g))))))
      then val idx else d idx.
Proof.
  intros Hv d idx. revert d idx.
  apply (write_loop n1 _ (fun a idx => any n2 (fun b => any n3 (fun c =>
           any n4 (fun e => any n5 (fun g => index_eqb idx (at_ a b c e g))))))
           val).
  intros a d idx _.
  exact (write_nest4 n2 n3 n4 n5 (at_ a) (x a) val (Hv a) d idx).
Qed.

Lemma sync_to_host_time_levels_written num_elems source dest idx :
  sync_to_host_time_levels NP NUM_LEV NUM_PHYSICAL_LEV NUM_TIME_LEVELS VECTOR_SIZE
    num_elems source dest idx
  = if any num_elems (fun ie => any NUM_TIME_LEVELS (fun time =>
         any (Nat.min (NUM_LEV * VECTOR_SIZE) NUM_PHYSICAL_LEV) (fun level =>
           any NP (fun igp => any NP (fun jgp =>
             index_eqb idx [ie; time; level; igp; jgp])))))
    then match idx with
         | [ie; time; level; igp; jgp] =>
             source [ie; time; igp; jgp; (level / VECTOR_SIZE)%nat;
                     (level mod VECTOR_SIZE)%nat]
         | _ => 0
         end
    else dest idx.
Proof.
  unfold sync_to_host_time_levels.
  rewrite (for_loop_ext 0 num_elems _
    (fun ie dest =>
       for_loop 0 NUM_TIME_LEVELS (fun time dest =>
         for_loop 0 (Nat.min (NUM_LEV * VECTOR_SIZE) NUM_PHYSICAL_LEV)
           (fun level dest =>
              for_loop 0 NP (fun igp dest =>
                for_loop 0 NP (fun jgp dest =>
                  set dest [ie; time; level; igp; jgp]
                    (source [ie; time; igp; jgp; (level / VECTOR_SIZE)%nat;
                             (level mod VECTOR_SIZE)%nat])) dest) dest) dest)
         dest)).
  - exact (write_nest5 num_elems NUM_TIME_LEVELS
             (Nat.min (NUM_LEV * VECTOR_SIZE) NUM_PHYSICAL_LEV) NP NP
             (fun ie time level igp jgp => [ie; time; level; igp; jgp])
             (fun ie time level igp jgp =>
                source [ie; time; igp; jgp; (level / VECTOR_SIZE)%nat;
                        (level mod VECTOR_SIZE)%nat])
             (fun idx =>
                match idx with
                | [ie; time; level; igp; jgp] =>
                    source [ie; time; igp; jgp; (level / VECTOR_SIZE)%nat;
                            (level mod VECTOR_SIZE)%nat]
                | _ => 0
                end)
             (fun _ _ _ _ _ => eq_refl) dest idx).
  - intros ie d _. apply for_loop_ext. intros time d' _.
    rewrite (lanes_loop_guarded
               (fun level vl v dest =>
                  for_loop 0 NP (fun igp dest =>
                    for_loop 0 NP (fun jgp dest =>
                      set dest [ie; time; level; igp; jgp]
                        (source [ie; time; igp; jgp; vl; v])) dest) dest)).
    apply for_loop_guard.
Qed.

(** *** What the three functions store *)

Lemma level_lane (level : nat) :
  (level < NUM_LEV * VECTOR_SIZE)%nat ->
  (level / VECTOR_SIZE < NUM_LEV)%nat /\ (level mod VECTOR_SIZE < VECTOR_SIZE)%nat /\
  (level / VECTOR_SIZE * VECTOR_SIZE + level mod VECTOR_SIZE)%nat = level.
Proof.
  intros H. assert (0 < VECTOR_SIZE)%nat by nia. split; [|split].
  - apply Nat.Div0.div_lt_upper_bound. lia.
  - apply Nat.mod_upper_bound. lia.
  - pose proof (Nat.div_mod_eq level VECTOR_SIZE). lia.
Qed.

Lemma sync_to_host_stores num_elems source dest :
  let dest' := sync_to_host NP NUM_LEV VECTOR_SIZE num_elems source dest in
  (forall ie level igp jgp,
     (ie < num_elems)%nat -> (level < NUM_LEV * VECTOR_SIZE)%nat ->
     (igp < NP)%nat -> (jgp < NP)%nat ->
     dest' [ie; level; igp; jgp]
     = source [ie; igp; jgp; (level / VECTOR_SIZE)%nat; (level mod VECTOR_SIZE)%nat]) /\
  (forall idx,
     (forall ie level igp jgp,
        (ie < num_elems)%nat -> (level < NUM_LEV * VECTOR_SIZE)%nat ->
        (igp < NP)%nat -> (jgp < NP)%nat -> idx <> [ie; level; igp; jgp]) ->
     dest' idx = dest idx).
Proof.
  intros dest'. unfold dest'. split.
  - intros ie level igp jgp Hie Hl Hi Hj. rewrite sync_to_host_written.
    match goal with |- (if ?c then _ else _) = _ => assert (E : c = true) end.
    { apply any4_true. exists ie, level, igp, jgp. split; [now repeat split|].
      apply index_eqb_refl. }
    now rewrite E.
  - intros idx Hout. rewrite sync_to_host_written.
    match goal with |- (if ?c then _ else _) = _ => destruct c eqn:E end;
      [|reflexivity].
    apply any4_true in E as (ie & level & igp & jgp & (H1 & H2 & H3 & H4) & E).
    apply index_eqb_eq in E. now elim (Hout ie level igp jgp).
Qed.

Lemma sync_to_device_stores beyond num_elems source dest_mirror :
  let dest' :=
    sync_to_device NP NUM_LEV NUM_PHYSICAL_LEV VECTOR_SIZE beyond num_elems source
      dest_mirror in
  (forall ie igp jgp vector_level vector,
     (ie < num_elems)%nat -> (igp < NP)%nat -> (jgp < NP)%nat ->
     (vector_level < NUM_LEV)%nat -> (vector < VECTOR_SIZE)%nat ->
     dest' [ie; igp; jgp; vector_level; vector]
     = host_entry NUM_PHYSICAL_LEV beyond source
         [ie; (vector_level * VECTOR_SIZE + vector)%nat; igp; jgp]) /\
  (forall idx,
     (forall ie igp jgp vector_level vector,
        (ie < num_elems)%nat -> (igp < NP)%nat -> (jgp < NP)%nat ->
        (vector_level < NUM_LEV)%nat -> (vector < VECTOR_SIZE)%nat ->
        idx <> [ie; igp; jgp; vector_level; vector]) ->
     dest' idx = dest_mirror idx).
Proof.
  intros dest'. unfold dest'. split.
  - intros ie igp jgp vl v Hie Hi Hj Hvl Hv. rewrite sync_to_device_written; cbv zeta.
    match goal with |- (if ?c then _ else _) = _ => assert (E : c = true) end.
    { apply any4_true. exists ie, (vl * VECTOR_SIZE + v)%nat, igp, jgp.
      split; [repeat split; trivial; nia|].
      destruct (point_of_index VECTOR_SIZE vl v Hv) as [-> ->].
      apply index_eqb_refl. }
    now rewrite E.
  - intros idx Hout. rewrite sync_to_device_written; cbv zeta.
    match goal with |- (if ?c then _ else _) = _ => destruct c eqn:E end;
      [|reflexivity].
    apply any4_true in E as (ie & level & igp & jgp & (H1 & H2 & H3 & H4) & E).
    apply index_eqb_eq in E. destruct (level_lane level H2) as (L1 & L2 & _).
    now elim (Hout ie igp jgp (level / VECTOR_SIZE)%nat (level mod VECTOR_SIZE)%nat).
Qed.

Lemma sync_to_host_time_levels_stores num_elems source dest :
  let dest' :=
    sync_to_host_time_levels NP NUM_LEV NUM_PHYSICAL_LEV NUM_TIME_LEVELS VECTOR_SIZE
      num_elems source dest in
  (forall ie time level igp jgp,
     (ie < num_elems)%nat -> (time < NUM_TIME_LEVELS)%nat ->
     (level < NUM_LEV * VECTOR_SIZE)%nat -> (level < NUM_PHYSICAL_LEV)%nat ->
     (igp < NP)%nat -> (jgp < NP)%nat ->
     dest' [ie; time; level; igp; jgp]
     = source [ie; time; igp; jgp; (level / VECTOR_SIZE)%nat;
               (level mod VECTOR_SIZE)%nat]) /\
  (forall idx,
     (forall ie time level igp jgp,
        (ie < num_elems)%nat -> (time < NUM_TIME_LEVELS)%nat ->
        (level < NUM_LEV * VECTOR_SIZE)%nat -> (level < NUM_PHYSICAL_LEV)%nat ->
        (igp < NP)%nat -> (jgp < NP)%nat ->
        idx <> [ie; time; level; igp; jgp]) ->
     dest' idx = dest idx).
Proof.
  intros dest'. unfold dest'. split.
  - intros ie time level igp jgp Hie Ht Hl Hp Hi Hj.
    rewrite sync_to_host_time_levels_written.
    match goal with |- (if ?c then _ else _) = _ => assert (E : c = true) end.
    { apply any_true. exists ie. split; [exact Hie|].
      apply any4_true. exists time, level, igp, jgp.
      split; [repeat split; trivial; lia|]. apply index_eqb_refl. }
    now rewrite E.
  - intros idx Hout. rewrite sync_to_host_time_levels_written.
    match goal with |- (if ?c then _ else _) = _ => destruct c eqn:E end;
      [|reflexivity].
    apply any_true in E as (ie & Hie & E).
    apply any4_true in E as (time & level & igp & jgp & (H1 & H2 & H3 & H4) & E).
    apply index_eqb_eq in E.
    elim (Hout ie time level igp jgp); trivial; lia.
Qed.

End Facts.
End UtilityFacts.

(** * Facts about the numbers and the iterator of Utility.hpp *)

Module UtilityNumbers.
Import Utility.

(** ** min *)

Lemma min_le_both a b : min a b <= a /\ min a b <= b /\ (min a b = a \/ min a b = b).
Proof. unfold min. destruct (Rlt_dec a b); repeat split; try lra; auto. Qed.

(** ** frobenius_norm *)

Lemma kahan_exact data : forall norm,
  fold_left (fun '(norm, c) x =>
    let y := x * x - c in
    let temp := norm + y in
    let c := (temp - norm) - y in
    let norm := temp in
    (norm, c)) data (norm, 0)
  = (norm + sum_squares data, 0).
Proof.
  induction data as [|x data IH]; intros norm; cbn [fold_left sum_squares fold_right].
  - f_equal. lra.
  - cbv zeta.
    replace (norm + (x * x - 0) - norm - (x * x - 0)) with 0 by lra.
    rewrite IH. fold (sum_squares data). f_equal. lra.
Qed.

Lemma sum_squares_nonneg data : 0 <= sum_squares data.
Proof.
  induction data as [|x data IH]; cbn [sum_squares fold_right]; [lra|].
  fold (sum_squares data). nra.
Qed.

Lemma sum_squares_zero data : sum_squares data = 0 <-> Forall (fun x => x = 0) data.
Proof.
  induction data as [|x data IH]; cbn [sum_squares fold_right].
  - split; [constructor | reflexivity].
  - fold (sum_squares data). pose proof (sum_squares_nonneg data) as Hs. split.
    + intros H. constructor; [nra|]. apply IH. nra.
    + intros H. inversion H as [|? ? Hx Hd]; subst.
      apply IH in Hd. rewrite Hd. lra.
Qed.

(** ** compare_answers *)

Lemma compare_answers_denominator target relative_coeff :
  0 < (if Rlt_dec 0.0 relative_coeff
       then if Req_dec_T target 0.0 then 1.0 else relative_coeff * Rabs target
       else 1.0).
Proof.
  destruct (Rlt_dec 0.0 relative_coeff) as [Hr|Hr]; [|lra].
  destruct (Req_dec_T target 0.0) as [Ht|Ht]; [lra|].
  apply Rmult_lt_0_compat; [lra|]. apply Rabs_pos_lt. lra.
Qed.

(** ** Host_View_Iterator *)

Lemma int_value IM x y :
  int IM x = Value y <-> in_int IM x = true /\ y = x.
Proof.
  unfold int. destruct (in_int IM x); split.
  - intros E. inversion E. now split.
  - intros [_ ->]. reflexivity.
  - discriminate.
  - intros [E _]. discriminate.
Qed.

Lemma int_undefined IM x : in_int IM x = false -> int IM x = Undefined.
Proof. intros E. unfold int. now rewrite E. Qed.

Lemma int_in_range IM x : in_int IM x = true -> int IM x = Value x.
Proof. intros E. unfold int. now rewrite E. Qed.

Lemma limit_with_index IM VS it index :
  limit IM VS (with_index it index) = limit IM VS it.
Proof. reflexivity. Qed.

(** [operator-(distance)] ends in a value when its two assertions and
    the one of the constructor hold and neither [m_index + distance] nor
    [m_index - distance] leaves the range of [int]. *)
Lemma minus_value IM VS it d it' :
  minus IM VS it d = Value it' <->
  exists max,
    limit IM VS it = Value max /\
    (d <= m_index it /\ m_index it + d <= max /\ m_index it - d <= max)%Z /\
    in_int IM (m_index it + d) = true /\ in_int IM (m_index it - d) = true /\
    it' = with_index it (m_index it - d)%Z.
Proof.
  unfold minus, make. fold (limit IM VS it).
  unfold Utility.assert, int.
  destruct (Z.leb_spec d (m_index it)) as [H1|H1]; cbn [bind].
  2:{ split; [discriminate|]. intros (max & _ & (? & _) & _). lia. }
  destruct (in_int IM (m_index it + d)) eqn:R1; cbn [bind].
  2:{ split; [discriminate|]. intros (max & _ & _ & ? & _). discriminate. }
  destruct (limit IM VS it) as [max| |] eqn:L; cbn [bind].
  2,3: split; [discriminate|]; intros (max & ? & _); discriminate.
  destruct (Z.leb_spec (m_index it + d) max) as [H2|H2]; cbn [bind].
  2:{ split; [discriminate|]. intros (max' & E & (_ & ? & _) & _).
      inversion E; subst. lia. }
  destruct (in_int IM (m_index it - d)) eqn:R2; cbn [bind].
  2:{ split; [discriminate|]. intros (max' & _ & _ & _ & ? & _). discriminate. }
  destruct (Z.leb_spec (m_index it - d) max) as [H3|H3]; cbn [bind].
  - split.
    + intros E. inversion E. exists max. repeat split; trivial.
    + intros (max' & _ & _ & _ & _ & ->). reflexivity.
  - split; [discriminate|]. intros (max' & E & (_ & _ & ?) & _).
    inversion E; subst. lia.
Qed.

Lemma plus_value IM VS it d it' :
  plus IM VS it d = Value it' <->
  exists max,
    limit IM VS it = Value max /\ (m_index it + d <= max)%Z /\
    in_int IM (m_index it + d) = true /\
    it' = with_index it (m_index it + d)%Z.
Proof.
  unfold plus, Utility.assert, int.
  destruct (in_int IM (m_index it + d)) eqn:R1; cbn [bind].
  2:{ split; [discriminate|]. intros (max & _ & _ & ? & _). discriminate. }
  destruct (limit IM VS it) as [max| |] eqn:L; cbn [bind].
  2,3: split; [discriminate|]; intros (max & ? & _); discriminate.
  destruct (Z.leb_spec (m_index it + d) max) as [H2|H2]; cbn [bind].
  - split.
    + intros E. inversion E. exists max. repeat split; trivial.
    + intros (max' & _ & _ & _ & ->). reflexivity.
  - split; [discriminate|]. intros (max' & E & ? & _). inversion E; subst. lia.
Qed.

End UtilityNumbers.

(** * The properties of the specification *)

Section Claims.

Set Default Proof Using "Type".

Variables NP NUM_LEV : nat.
Variables Rgas Rwater_vapor kappa eta_ave_w : Real.
Variable gradient_sphere : View2 -> View4 -> View3.
Variable gradient_sphere_update : View2 -> View4 -> View3 -> View3.
Variable divergence_sphere : View3 -> View2 -> View4 -> View2.
Variable vorticity_sphere : View2 -> View2 -> View2 -> View4 -> View2.
Variable uninit2 : View2.
Variable uninit3 : View3.
Variable uninit4 : View4.
Variable pressure_order : list nat.

Local Abbreviation operator_call :=
  (Scratch.operator_call NP NUM_LEV Rgas Rwater_vapor kappa eta_ave_w
     gradient_sphere gradient_sphere_update divergence_sphere vorticity_sphere
     uninit2 uninit3 uninit4).
Local Abbreviation vort_fcor f ilev :=
  (fun a b : nat =>
     vorticity_sphere (Scratch.U_current (Scratch.m_region f) ilev)
       (Scratch.V_current (Scratch.m_region f) ilev)
       (Scratch.METDET (Scratch.m_region f)) (Scratch.D (Scratch.m_region f)) a b
     + Scratch.FCOR (Scratch.m_region f) a b).
Local Abbreviation team_body :=
  (Basic.team_body NP NUM_LEV gradient_sphere divergence_sphere vorticity_sphere
     uninit2 uninit3 pressure_order).

(** C1: the pressure of a column.  At every point of an element,
    [compute_pressure] of kokkos_scratch stores
    [hybrid_a0 * ps0 + 0.5 * dp3d[0]] at level 0 and
    [pressure[l-1] + 0.5 * (dp3d[l-1] + dp3d[l])] at every level
    [1 <= l < NUM_LEV]; for a column with [dp3d[l] = c] at every level the
    pressure at level [l] is [hybrid_a0 * ps0 + c * (l + 0.5)].  The pressure
    loop of kokkos_basic stores the same when its team runs the iterations
    of the level loop by increasing level.  That loop is a parallel loop over
    the levels, and its iteration [l - 1] reads the level that iteration
    [l - 2] writes: when the team runs the iterations by decreasing level,
    level 0 is as before, but every level [2 <= l < NUM_LEV] is computed
    from what the view [p] held at level [l - 1] before the call. *)
Theorem pressure_reconstruction
    (f : Scratch.update_state) (data : Basic.TestData) (region : Basic.Region)
    (p0 : View3) (i j : nat) :
  (i < NP)%nat -> (j < NP)%nat ->
  let ps := Scratch.pressure (Scratch.m_data (Scratch.compute_pressure NP NUM_LEV f)) in
  let dps := Scratch.DP3D_current (Scratch.m_region f) in
  let as0 := Scratch.hybrid_a (Scratch.m_data f) 0%nat * Scratch.ps0 (Scratch.m_data f) in
  let pb := Basic.team_pressure NP (seq 0 (NUM_LEV - 1)) data region p0 in
  let pb_down :=
    Basic.team_pressure NP (rev (seq 0 (NUM_LEV - 1))) data region p0 in
  let dpb := Basic.scalars_4d region (Basic.n0 (Basic.control data)) Basic.DP3D in
  let ab0 := Basic.hyai (Basic.hvcoord data) 0%nat * Basic.ps0 (Basic.hvcoord data) in
  (ps 0%nat i j = as0 + 0.5 * dps 0%nat i j /\
   (forall l, (1 <= l < NUM_LEV)%nat ->
      ps l i j = ps (l - 1)%nat i j + 0.5 * (dps (l - 1)%nat i j + dps l i j)) /\
   (forall c, (forall l, (l < NUM_LEV)%nat -> dps l i j = c) ->
      forall l, (l < NUM_LEV)%nat -> ps l i j = as0 + c * (INR l + 0.5))) /\
  (pb 0%nat i j = ab0 + 0.5 * dpb 0%nat i j /\
   (forall l, (1 <= l < NUM_LEV)%nat ->
      pb l i j = pb (l - 1)%nat i j + 0.5 * (dpb (l - 1)%nat i j + dpb l i j)) /\
   (forall c, (forall l, (l < NUM_LEV)%nat -> dpb l i j = c) ->
      forall l, (l < NUM_LEV)%nat -> pb l i j = ab0 + c * (INR l + 0.5))) /\
  (pb_down 0%nat i j = ab0 + 0.5 * dpb 0%nat i j /\
   (forall l, (2 <= l < NUM_LEV)%nat ->
      pb_down l i j
      = p0 (l - 1)%nat i j + 0.5 * (dpb (l - 1)%nat i j + dpb l i j))).
Proof.
  intros Hi Hj ps dps as0 pb pb_down dpb ab0.
  split; [split; [|split]|split; [split; [|split]|split]].
  - now apply ScratchFacts.compute_pressure_top.
  - intros l Hl. now apply ScratchFacts.compute_pressure_step.
  - intros c Hc l Hl. now apply ScratchFacts.compute_pressure_uniform.
  - now apply BasicFacts.team_pressure_top.
  - intros l Hl. unfold pb.
    rewrite BasicFacts.team_pressure_step by trivial. unfold dpb. lra.
  - intros c Hc l Hl. now apply BasicFacts.team_pressure_uniform.
  - now apply BasicFacts.team_pressure_top.
  - intros l Hl. unfold pb_down.
    rewrite BasicFacts.team_pressure_decreasing by trivial. unfold dpb. lra.
Qed.

(** C2: the hydrostatic scan of a column.  With [inc k] the increment
    [Rgas * T_v[k] * (dp3d[k] / pressure[k])], [preq_hydrostatic] of
    kokkos_scratch stores at every level [l < NUM_LEV] the value
    [phis + (inc (l+1) + ... + inc (NUM_LEV-1)) + 0.5 * inc l]: the running
    integral [phii] starts with the whole increment of the bottom level and
    grows by the whole increment of each level above.  Both overloads of
    [preq_hydrostatic] of kokkos_basic stop their level loop above level 1:
    with three levels or more they leave level 1 of [phi] as it was, and the
    overload that [compute_and_apply_rhs] calls computes level 0 from the
    entry [phii[1]] that nothing wrote. *)
Theorem hydrostatic_scan_levels
    (f : Scratch.update_state) (phis : View2) (T_v p dp : View3) (Rg : Real)
    (phi : View3) (l i j : nat) :
  (3 <= NUM_LEV)%nat -> (l < NUM_LEV)%nat -> (i < NP)%nat -> (j < NP)%nat ->
  Scratch.PHI_update (Scratch.m_region (Scratch.preq_hydrostatic NP NUM_LEV Rgas f))
    l i j
  = hydrostatic_scan (Scratch.PHIS (Scratch.m_region f) i j)
      (fun k =>
         Rgas * Scratch.T_v (Scratch.m_data f) k i j
         * (Scratch.DP3D_current (Scratch.m_region f) k i j
            / Scratch.pressure (Scratch.m_data f) k i j)) NUM_LEV l /\
  Basic.preq_hydrostatic NP NUM_LEV uninit3 phis T_v p dp Rg phi 1%nat i j
  = phi 1%nat i j /\
  Basic.preq_hydrostatic_team NP NUM_LEV uninit3 phis T_v p dp Rg phi 1%nat i j
  = phi 1%nat i j /\
  Basic.preq_hydrostatic_team NP NUM_LEV uninit3 phis T_v p dp Rg phi 0%nat i j
  = phis i j + uninit3 1%nat i j
    + Rg * T_v 0%nat i j * (0.5 * dp 0%nat i j / p 0%nat i j).
Proof.
  intros HN Hl Hi Hj. repeat split.
  - rewrite ScratchFacts.preq_hydrostatic_levels by (trivial; lia). reflexivity.
  - now apply BasicFacts.preq_hydrostatic_level_1.
  - now apply BasicFacts.preq_hydrostatic_team_level_1.
  - now apply BasicFacts.preq_hydrostatic_team_level_0.
Qed.


(** C4: the leapfrog update.  kokkos_scratch stores
    [spheremp * (previous + dt2 * tendency)] in the future slot of [U], [V],
    [T] and [DP3D], with the tendencies [vtens1], [vtens2], [ttens] and
    [- div_vdp].  The leapfrog loop of kokkos_basic advances [V] with
    [vtens1], the tendency of [U], and [DP3D] with [+ div_vdp]. *)
Theorem leapfrog_update
    (f : Scratch.update_state) (c_dinv : View4)
    (data : Basic.TestData) (region : Basic.Region) (vt1 tt dv : View3)
    (s4d : nat -> Basic.Scalars4D -> View3) (l i j : nat) :
  (l < NUM_LEV)%nat -> (i < NP)%nat -> (j < NP)%nat ->
  let rs := Scratch.m_region f in
  let dts := Scratch.dt2 (Scratch.m_data f) in
  let fv :=
    Scratch.compute_velocity_eta_dpdn NP NUM_LEV Rgas eta_ave_w gradient_sphere
      gradient_sphere_update vorticity_sphere uninit2 f c_dinv in
  let fs := Scratch.compute_stuff NP NUM_LEV kappa eta_ave_w gradient_sphere f c_dinv in
  let grad_buf :=
    Scratch.compute_velocity_grad_buf NP Rgas gradient_sphere gradient_sphere_update
      uninit2 f l c_dinv in
  let grad_tmp := gradient_sphere (Scratch.T_current rs l) c_dinv in
  let s4d' := Basic.team_leapfrog NP NUM_LEV data region vt1 tt dv s4d in
  let np1 := Basic.np1 (Basic.control data) in
  let nm1 := Basic.nm1 (Basic.control data) in
  let dtb := Basic.dt2 (Basic.control data) in
  let sph := Basic.scalars_2d region Basic.SPHEREMP i j in
  (Scratch.U_future (Scratch.m_region fv) l i j
   = Scratch.SPHEREMP rs i j
     * (Scratch.U_previous rs l i j
        + dts * Scratch.vtens1 f l grad_buf (vort_fcor f l) i j) /\
   Scratch.V_future (Scratch.m_region fv) l i j
   = Scratch.SPHEREMP rs i j
     * (Scratch.V_previous rs l i j
        + dts * Scratch.vtens2 f l grad_buf (vort_fcor f l) i j) /\
   Scratch.T_future (Scratch.m_region fs) l i j
   = Scratch.SPHEREMP rs i j
     * (Scratch.T_previous rs l i j + dts * Scratch.ttens kappa f l grad_tmp i j) /\
   Scratch.DP3D_future (Scratch.m_region fs) l i j
   = Scratch.SPHEREMP rs i j
     * (Scratch.DP3D_previous rs l i j
        + dts * - Scratch.div_vdp (Scratch.m_data f) l i j)) /\
  (s4d' np1 Basic.U l i j = sph * (s4d nm1 Basic.U l i j + dtb * vt1 l i j) /\
   s4d' np1 Basic.V l i j = sph * (s4d nm1 Basic.V l i j + dtb * vt1 l i j) /\
   s4d' np1 Basic.T l i j = sph * (s4d nm1 Basic.T l i j + dtb * tt l i j) /\
   s4d' np1 Basic.DP3D l i j = sph * (s4d nm1 Basic.DP3D l i j + dtb * dv l i j)).
Proof.
  intros Hl Hi Hj rs dts fv fs grad_buf grad_tmp s4d' np1 nm1 dtb sph.
  destruct (ScratchFacts.compute_velocity_eta_dpdn_levels NP NUM_LEV Rgas eta_ave_w
              gradient_sphere gradient_sphere_update vorticity_sphere uninit2
              f c_dinv l i j Hl Hi Hj) as (HU & HV & _).
  destruct (ScratchFacts.compute_stuff_levels NP NUM_LEV kappa eta_ave_w
              gradient_sphere f c_dinv l i j Hl Hi Hj) as (_ & HT & HD).
  split; [repeat split|].
  - exact HU.
  - exact HV.
  - exact HT.
  - unfold fs, rs, dts. rewrite HD. as_R. ring.
  - now apply BasicFacts.team_leapfrog_levels.
Qed.

(** C5: the two parallel paths on the same element.  On the same input,
    and for a divergence operator that reads the views of the element only,
    the future slot of [DP3D] after the team lambda of kokkos_basic is
    [spheremp * (previous + dt2 * div)] and after [operator()] of
    kokkos_scratch it is [spheremp * (previous - dt2 * div)], with [div]
    the divergence of [v * dp3d] of the level: the two results differ by
    [2 * spheremp * dt2 * div]. *)
Theorem parallel_paths_DP3D
    (data : Basic.TestData) (rb : Basic.Region) (loc : Basic.Locals)
    (f : Scratch.update_state) (l i j : nat) :
  Paths.divergence_reads_element NP divergence_sphere ->
  Paths.same_element NP NUM_LEV data rb f ->
  (l < NUM_LEV)%nat -> (i < NP)%nat -> (j < NP)%nat ->
  let rs := Scratch.m_region f in
  let vdp : View3 :=
    fun h a b =>
      (if (h =? 0)%nat then Scratch.U_current rs l a b
       else Scratch.V_current rs l a b) * Scratch.DP3D_current rs l a b in
  let div := divergence_sphere vdp (Scratch.METDET rs) (Scratch.DINV rs) i j in
  let sph := Scratch.SPHEREMP rs i j in
  let prev := Scratch.DP3D_previous rs l i j in
  let dt2 := Scratch.dt2 (Scratch.m_data f) in
  let basic_future :=
    Basic.scalars_4d (fst (team_body data rb loc))
      (Basic.np1 (Basic.control data)) Basic.DP3D l i j in
  let scratch_future :=
    Scratch.DP3D_future (Scratch.m_region (operator_call f)) l i j in
  basic_future = sph * (prev + dt2 * div) /\
  scratch_future = sph * (prev - dt2 * div) /\
  basic_future - scratch_future = 2 * sph * dt2 * div.
Proof.
  intros Hdiv Hsame Hl Hi Hj rs vdp div sph prev dt2 basic_future scratch_future.
  destruct Hsame as (H4 & H2 & HT & Hdt & _).
  assert (HS : scratch_future = sph * (prev - dt2 * div)).
  { unfold scratch_future.
    destruct (ScratchFacts.operator_call_levels NP NUM_LEV Rgas Rwater_vapor kappa
                eta_ave_w gradient_sphere gradient_sphere_update divergence_sphere
                vorticity_sphere uninit2 uninit3 uninit4 f l i j Hl Hi Hj)
      as (_ & _ & _ & HD & _).
    rewrite HD. clear HD.
    destruct (ScratchFacts.compute_temperature_div_vdp_levels NP NUM_LEV Rgas
                Rwater_vapor eta_ave_w divergence_sphere f
                (Scratch.init_const_cache NP f uninit4) l Hl) as (Hd & Hv).
    rewrite Hd.
    rewrite (Hdiv _ vdp _ (Scratch.METDET rs) _ (Scratch.DINV rs)); trivial.
    - intros h a b Hh Ha Hb. destruct (Hv a b Ha Hb) as (V0 & V1 & _).
      unfold vdp. destruct h as [|[|h]]; [exact V0 | exact V1 | lia].
    - intros x y a b Hx Hy Ha Hb. now apply ScratchFacts.init_const_cache_spec. }
  assert (HB : basic_future = sph * (prev + dt2 * div)).
  { unfold basic_future.
    destruct (BasicFacts.team_body_future NP NUM_LEV gradient_sphere divergence_sphere
                vorticity_sphere uninit2 uninit3 pressure_order data rb loc l i j Hl Hi Hj)
      as (_ & HD & Hd & Hv).
    rewrite HD, Hd. clear HD Hd.
    rewrite (Hdiv _ vdp _ (Scratch.METDET rs) _ (Scratch.DINV rs)); trivial.
    - destruct (H4 l i j Hl Hi Hj) as (_ & _ & _ & _ & _ & _ & _ & EP).
      destruct (H2 i j Hi Hj) as (_ & ES & _).
      unfold sph, prev, dt2, rs. now rewrite ES, EP, Hdt.
    - intros h a b Hh Ha Hb. destruct (Hv a b Ha Hb) as (V0 & V1).
      destruct (H4 l a b Hl Ha Hb) as (EU & EV & _ & ED & _).
      unfold vdp, rs. rewrite EU, EV, ED.
      destruct h as [|[|h]]; [exact V0 | exact V1 | lia].
    - intros a b Ha Hb. destruct (H2 a b Ha Hb) as (EM & _).
      symmetry. exact EM.
    - intros x y a b Hx Hy Ha Hb. destruct (HT x y a b Hx Hy Ha Hb) as (EI & _).
      symmetry. exact EI. }
  split; [exact HB|]. split; [exact HS|]. rewrite HB, HS. as_R. ring.
Qed.

(** C6: at a point where every [dp3d[l]] is positive and
    [hybrid_a0 * ps0] is not negative, the pressure that [compute_pressure]
    stores is positive at every level and grows strictly with the level
    index; so the pressures that [preq_hydrostatic] and [preq_omega_ps]
    divide by, those of the functor after [compute_pressure] and after
    [preq_hydrostatic], are not zero. *)
Theorem pressure_positive_increasing (f : Scratch.update_state) (i j : nat) :
  (i < NP)%nat -> (j < NP)%nat ->
  0 <= Scratch.hybrid_a (Scratch.m_data f) 0%nat * Scratch.ps0 (Scratch.m_data f) ->
  (forall l, (l < NUM_LEV)%nat ->
     0 < Scratch.DP3D_current (Scratch.m_region f) l i j) ->
  let fp := Scratch.compute_pressure NP NUM_LEV f in
  let fh := Scratch.preq_hydrostatic NP NUM_LEV Rgas fp in
  (forall l, (l < NUM_LEV)%nat -> 0 < Scratch.pressure (Scratch.m_data fp) l i j) /\
  (forall l l', (l < l')%nat -> (l' < NUM_LEV)%nat ->
     Scratch.pressure (Scratch.m_data fp) l i j
     < Scratch.pressure (Scratch.m_data fp) l' i j) /\
  (forall l, (l < NUM_LEV)%nat ->
     Scratch.pressure (Scratch.m_data fp) l i j <> 0 /\
     Scratch.pressure (Scratch.m_data fh) l i j <> 0).
Proof.
  intros Hi Hj Ha Hdp fp fh.
  assert (Hpos : forall l, (l < NUM_LEV)%nat ->
                   0 < Scratch.pressure (Scratch.m_data fp) l i j).
  { now apply ScratchFacts.compute_pressure_positive. }
  split; [exact Hpos|]. split.
  - now apply ScratchFacts.compute_pressure_increasing.
  - intros l Hl. pose proof (Hpos l Hl) as P.
    change (Scratch.pressure (Scratch.m_data fh)) with
      (Scratch.pressure (Scratch.m_data fp)).
    split; intros E; rewrite E in P; lra.
Qed.

(** C7: on a state whose tracer field is zero and whose layers have a
    thickness [DP3D] other than zero, [operator()] run with [qn0 = q],
    [q <> -1], leaves the element and the buffers of the team as
    [operator()] run with [qn0 = -1] leaves them: the quotient
    [QDP / DP3D] is the real number 0, the functors after the two runs
    differ in the value of [qn0] only, their regions are equal, and in both
    runs [T_v] holds the temperature [T]. *)
Theorem zero_tracers_match_no_tracers (f : Scratch.update_state) (q : Z) :
  q <> (-1)%Z ->
  (forall l i j, Scratch.QDP (Scratch.m_region f) 0%nat q l i j = 0) ->
  (forall l i j, (l < NUM_LEV)%nat -> (i < NP)%nat -> (j < NP)%nat ->
     Scratch.DP3D_current (Scratch.m_region f) l i j <> 0) ->
  let with_tracers := operator_call (Scratch.with_qn0 f q) in
  let without := operator_call (Scratch.with_qn0 f (-1)) in
  with_tracers = Scratch.with_qn0 without q /\
  Scratch.m_region with_tracers = Scratch.m_region without /\
  (forall l i j, (l < NUM_LEV)%nat -> (i < NP)%nat -> (j < NP)%nat ->
     quotient (Scratch.QDP (Scratch.m_region f) 0%nat q l i j)
       (Scratch.DP3D_current (Scratch.m_region f) l i j) = Some 0 /\
     Scratch.stored_virtual_temperature Rgas Rwater_vapor (Scratch.with_qn0 f q) l i j
     = Some (Scratch.T_current (Scratch.m_region f) l i j) /\
     Scratch.T_v (Scratch.m_data with_tracers) l i j
     = Scratch.T_current (Scratch.m_region f) l i j /\
     Scratch.T_v (Scratch.m_data without) l i j
     = Scratch.T_current (Scratch.m_region f) l i j).
Proof.
  intros Hq HQ Hdp with_tracers without.
  assert (E : with_tracers = Scratch.with_qn0 without q).
  { now apply ScratchFacts.operator_call_zero_tracers. }
  split; [exact E|]. split; [now rewrite E|].
  intros l i j Hl Hi Hj. split; [|split; [|split]].
  - unfold quotient. destruct (Req_dec_T _ 0) as [Z0|_].
    + now elim (Hdp l i j Hl Hi Hj).
    + rewrite HQ. unfold Rdiv. now rewrite Rmult_0_l.
  - rewrite ScratchFacts.stored_virtual_temperature_defined
      by (apply Hdp; trivial).
    f_equal. now apply ScratchFacts.virtual_temperature_zero_tracers.
  - unfold with_tracers. rewrite ScratchFacts.operator_call_T_v by trivial.
    now apply ScratchFacts.virtual_temperature_zero_tracers.
  - unfold without. rewrite ScratchFacts.operator_call_T_v by trivial.
    apply ScratchFacts.virtual_temperature_no_tracers.
Qed.

(** C8: the accumulation into [eta_dot_dpdn].  kokkos_basic accumulates at
    every one of the [NUM_LEV_P = NUM_LEV + 1] interface levels.
    [operator()] of kokkos_scratch stores [ETA_DPDN + eta_ave_w * 0] at the
    levels [l < NUM_LEV] only: its level loop has [NUM_LEV] iterations, and
    the entry of the last interface, [ETA_DPDN_update(NUM_LEV, ., .)], keeps
    what it held before. *)
Theorem eta_dot_dpdn_accumulation
    (f : Scratch.update_state) (data : Basic.TestData) (region : Basic.Region)
    (loc : Basic.Locals) (i j : nat) :
  (i < NP)%nat -> (j < NP)%nat ->
  let rs := Scratch.m_region f in
  let rs' := Scratch.m_region (operator_call f) in
  let rb' := fst (team_body data region loc) in
  (forall l, (l < NUM_LEV)%nat ->
     Scratch.ETA_DPDN_update rs' l i j = Scratch.ETA_DPDN rs l i j + eta_ave_w * 0) /\
  Scratch.ETA_DPDN_update rs' NUM_LEV i j = Scratch.ETA_DPDN_update rs NUM_LEV i j /\
  (forall l, (l < Basic.NUM_LEV_P NUM_LEV)%nat ->
     Basic.eta_dot_dpdn rb' l i j
     = Basic.eta_dot_dpdn region l i j
       + Basic.eta_ave_w (Basic.constants data) * Basic.eta_dot_dpdn_ie loc l i j).
Proof.
  intros Hi Hj rs rs' rb'. split; [|split].
  - intros l Hl.
    destruct (ScratchFacts.operator_call_levels NP NUM_LEV Rgas Rwater_vapor kappa
                eta_ave_w gradient_sphere gradient_sphere_update divergence_sphere
                vorticity_sphere uninit2 uninit3 uninit4 f l i j Hl Hi Hj)
      as (_ & _ & _ & _ & _ & HE & _).
    exact HE.
  - apply ScratchFacts.operator_call_eta_last. left. lia.
  - intros l Hl. now apply BasicFacts.team_body_eta_dot_dpdn.
Qed.

(** C9: what [operator()] leaves unchanged.  It writes the future slots
    [U], [V], [T], [DP3D], the views behind the accessors
    [DERIVED_UN0_update], [DERIVED_VN0_update], [OMEGA_P_update],
    [ETA_DPDN_update] and [PHI_update], and the buffers of the team;
    the current and previous slots, the metric fields, [PHIS], [PECND], the
    tracers, the views behind the const accessors and the scalars of
    [Control] are after the call what they were before, and
    [compute_and_apply_rhs] leaves an element [ie >= num_elems] alone. *)
Theorem operator_call_frame (f : Scratch.update_state) :
  let r := Scratch.m_region f in
  let d := Scratch.m_data f in
  let r' := Scratch.m_region (operator_call f) in
  let d' := Scratch.m_data (operator_call f) in
  (Scratch.U_current r' = Scratch.U_current r /\
   Scratch.V_current r' = Scratch.V_current r /\
   Scratch.T_current r' = Scratch.T_current r /\
   Scratch.DP3D_current r' = Scratch.DP3D_current r /\
   Scratch.U_previous r' = Scratch.U_previous r /\
   Scratch.V_previous r' = Scratch.V_previous r /\
   Scratch.T_previous r' = Scratch.T_previous r /\
   Scratch.DP3D_previous r' = Scratch.DP3D_previous r) /\
  (Scratch.DINV r' = Scratch.DINV r /\
   Scratch.D r' = Scratch.D r /\
   Scratch.METDET r' = Scratch.METDET r /\
   Scratch.SPHEREMP r' = Scratch.SPHEREMP r /\
   Scratch.FCOR r' = Scratch.FCOR r /\
   Scratch.PHIS r' = Scratch.PHIS r /\
   Scratch.PECND r' = Scratch.PECND r /\
   Scratch.QDP r' = Scratch.QDP r) /\
  (Scratch.PHI r' = Scratch.PHI r /\
   Scratch.DERIVED_UN0 r' = Scratch.DERIVED_UN0 r /\
   Scratch.DERIVED_VN0 r' = Scratch.DERIVED_VN0 r /\
   Scratch.OMEGA_P r' = Scratch.OMEGA_P r /\
   Scratch.ETA_DPDN r' = Scratch.ETA_DPDN r) /\
  (Scratch.num_elems d' = Scratch.num_elems d /\
   Scratch.dt2 d' = Scratch.dt2 d /\
   Scratch.qn0 d' = Scratch.qn0 d /\
   Scratch.hybrid_a d' = Scratch.hybrid_a d /\
   Scratch.ps0 d' = Scratch.ps0 d) /\
  (forall (fs : nat -> Scratch.update_state) (n ie : nat), (n <= ie)%nat ->
     Scratch.compute_and_apply_rhs NP NUM_LEV Rgas Rwater_vapor kappa eta_ave_w
       gradient_sphere gradient_sphere_update divergence_sphere vorticity_sphere
       uninit2 uninit3 uninit4 n fs ie = fs ie).
Proof.
  cbv zeta.
  pose proof (ScratchFacts.operator_call_writes NP NUM_LEV Rgas Rwater_vapor kappa
                eta_ave_w gradient_sphere gradient_sphere_update divergence_sphere
                vorticity_sphere uninit2 uninit3 uninit4 f) as E.
  pose proof (fun A (proj : Scratch.update_state -> A) H =>
                ScratchFacts.blank_field proj ScratchFrame.blank_operator_call
                  _ _ H E) as K.
  repeat split.
  - exact (K _ (fun g => Scratch.U_current (Scratch.m_region g)) (fun _ => eq_refl)).
  - exact (K _ (fun g => Scratch.V_current (Scratch.m_region g)) (fun _ => eq_refl)).
  - exact (K _ (fun g => Scratch.T_current (Scratch.m_region g)) (fun _ => eq_refl)).
  - exact (K _ (fun g => Scratch.DP3D_current (Scratch.m_region g)) (fun _ => eq_refl)).
  - exact (K _ (fun g => Scratch.U_previous (Scratch.m_region g)) (fun _ => eq_refl)).
  - exact (K _ (fun g => Scratch.V_previous (Scratch.m_region g)) (fun _ => eq_refl)).
  - exact (K _ (fun g => Scratch.T_previous (Scratch.m_region g)) (fun _ => eq_refl)).
  - exact (K _ (fun g => Scratch.DP3D_previous (Scratch.m_region g)) (fun _ => eq_refl)).
  - exact (K _ (fun g => Scratch.DINV (Scratch.m_region g)) (fun _ => eq_refl)).
  - exact (K _ (fun g => Scratch.D (Scratch.m_region g)) (fun _ => eq_refl)).
  - exact (K _ (fun g => Scratch.METDET (Scratch.m_region g)) (fun _ => eq_refl)).
  - exact (K _ (fun g => Scratch.SPHEREMP (Scratch.m_region g)) (fun _ => eq_refl)).
  - exact (K _ (fun g => Scratch.FCOR (Scratch.m_region g)) (fun _ => eq_refl)).
  - exact (K _ (fun g => Scratch.PHIS (Scratch.m_region g)) (fun _ => eq_refl)).
  - exact (K _ (fun g => Scratch.PECND (Scratch.m_region g)) (fun _ => eq_refl)).
  - exact (K _ (fun g => Scratch.QDP (Scratch.m_region g)) (fun _ => eq_refl)).
  - exact (K _ (fun g => Scratch.PHI (Scratch.m_region g)) (fun _ => eq_refl)).
  - exact (K _ (fun g => Scratch.DERIVED_UN0 (Scratch.m_region g)) (fun _ => eq_refl)).
  - exact (K _ (fun g => Scratch.DERIVED_VN0 (Scratch.m_region g)) (fun _ => eq_refl)).
  - exact (K _ (fun g => Scratch.OMEGA_P (Scratch.m_region g)) (fun _ => eq_refl)).
  - exact (K _ (fun g => Scratch.ETA_DPDN (Scratch.m_region g)) (fun _ => eq_refl)).
  - exact (K _ (fun g => Scratch.num_elems (Scratch.m_data g)) (fun _ => eq_refl)).
  - exact (K _ (fun g => Scratch.dt2 (Scratch.m_data g)) (fun _ => eq_refl)).
  - exact (K _ (fun g => Scratch.qn0 (Scratch.m_data g)) (fun _ => eq_refl)).
  - exact (K _ (fun g => Scratch.hybrid_a (Scratch.m_data g)) (fun _ => eq_refl)).
  - exact (K _ (fun g => Scratch.ps0 (Scratch.m_data g)) (fun _ => eq_refl)).
  - intros fs n ie Hn. unfold Scratch.compute_and_apply_rhs.
    destruct (Nat.ltb_spec ie n); [lia|reflexivity].
Qed.

(** C10: the level indices of [compute_and_apply_rhs] of kokkos_basic.
    The loops over the pressure, the divergence, the temperature and the
    leapfrog update index every view below its extent.  The accumulation
    loop (line 181) and the tendency loop (line 192) run over [NUM_LEV_P]
    levels: their last iteration indexes views of extent [NUM_LEV], among
    them [omega_p], at level [NUM_LEV]. *)
Theorem level_accesses_in_bounds (qn0 : Z) :
  forallb (Basic.in_bounds NUM_LEV)
    (flat_map Basic.pressure_accesses (seq 0 (NUM_LEV - 1))) = true /\
  forallb (Basic.in_bounds NUM_LEV)
    (flat_map Basic.divergence_accesses (seq 0 NUM_LEV)) = true /\
  forallb (Basic.in_bounds NUM_LEV)
    (flat_map (Basic.temperature_accesses qn0) (seq 0 NUM_LEV)) = true /\
  forallb (Basic.in_bounds NUM_LEV)
    (flat_map Basic.leapfrog_accesses (seq 0 (Basic.leapfrog_levels NUM_LEV))) = true /\
  In (Basic.v_omega_p, NUM_LEV)
    (flat_map Basic.accumulate_accesses (seq 0 (Basic.accumulate_levels NUM_LEV))) /\
  In (Basic.v_omega_p, NUM_LEV)
    (flat_map Basic.tendency_accesses (seq 0 (Basic.tendency_levels NUM_LEV))) /\
  In (Basic.v_omega_p, NUM_LEV) (Basic.level_accesses NUM_LEV qn0) /\
  Basic.in_bounds NUM_LEV (Basic.v_omega_p, NUM_LEV) = false /\
  forallb (Basic.in_bounds NUM_LEV) (Basic.level_accesses NUM_LEV qn0) = false.
Proof.
  assert (Hall : forall (acc : nat -> list (Basic.LevelView * nat)) n,
            (forall k a, (k < n)%nat -> In a (acc k) ->
               Basic.in_bounds NUM_LEV a = true) ->
            forallb (Basic.in_bounds NUM_LEV) (flat_map acc (seq 0 n)) = true).
  { intros acc n H. apply forallb_forall. intros a Ha.
    apply in_flat_map in Ha. destruct Ha as (k & Hk & Hin).
    apply in_seq in Hk. apply (H k); [lia|exact Hin]. }
  assert (Hlast : forall (acc : nat -> list (Basic.LevelView * nat)),
            In (Basic.v_omega_p, NUM_LEV) (acc NUM_LEV) ->
            In (Basic.v_omega_p, NUM_LEV)
              (flat_map acc (seq 0 (Basic.NUM_LEV_P NUM_LEV)))).
  { intros acc H. apply in_flat_map. exists NUM_LEV. split; [|exact H].
    apply in_seq. unfold Basic.NUM_LEV_P. lia. }
  assert (Hacc : In (Basic.v_omega_p, NUM_LEV)
                   (flat_map Basic.accumulate_accesses
                      (seq 0 (Basic.accumulate_levels NUM_LEV)))).
  { apply Hlast. cbn. repeat (first [left; reflexivity | right]). }
  assert (Hten : In (Basic.v_omega_p, NUM_LEV)
                   (flat_map Basic.tendency_accesses
                      (seq 0 (Basic.tendency_levels NUM_LEV)))).
  { apply Hlast. cbn. repeat (first [left; reflexivity | right]). }
  assert (Hin : In (Basic.v_omega_p, NUM_LEV) (Basic.level_accesses NUM_LEV qn0)).
  { unfold Basic.level_accesses. rewrite !in_app_iff.
    right. right. right. left. exact Hacc. }
  assert (Hout : Basic.in_bounds NUM_LEV (Basic.v_omega_p, NUM_LEV) = false).
  { unfold Basic.in_bounds. cbn [fst snd Basic.extent]. apply Nat.ltb_irrefl. }
  repeat split; trivial.
  - apply Hall. intros k a Hk Ha. unfold Basic.in_bounds.
    cbn in Ha. decompose [or] Ha; subst; cbn [fst snd Basic.extent];
      try contradiction; apply Nat.ltb_lt; lia.
  - apply Hall. intros k a Hk Ha. unfold Basic.in_bounds.
    cbn in Ha. decompose [or] Ha; subst; cbn [fst snd Basic.extent];
      try contradiction; apply Nat.ltb_lt; lia.
  - apply Hall. intros k a Hk Ha. unfold Basic.in_bounds, Basic.temperature_accesses in *.
    destruct (qn0 =? -1)%Z; cbn in Ha; decompose [or] Ha; subst;
      cbn [fst snd Basic.extent]; try contradiction; apply Nat.ltb_lt; lia.
  - apply Hall. intros k a Hk Ha. unfold Basic.in_bounds, Basic.leapfrog_levels in *.
    cbn in Ha. decompose [or] Ha; subst; cbn [fst snd Basic.extent];
      try contradiction; apply Nat.ltb_lt; lia.
  - destruct (forallb (Basic.in_bounds NUM_LEV) (Basic.level_accesses NUM_LEV qn0))
      eqn:E; [|reflexivity].
    rewrite forallb_forall in E. rewrite (E _ Hin) in Hout. discriminate.
Qed.

(** ** Further properties of the two implementations *)

Local Abbreviation c_dinv_of f := (Scratch.init_const_cache NP f uninit4).
Local Abbreviation after_temperature f :=
  (Scratch.compute_temperature_div_vdp NP NUM_LEV Rgas Rwater_vapor eta_ave_w
     divergence_sphere f (c_dinv_of f)).
Local Abbreviation after_scan f :=
  (Scratch.compute_scan_properties NP NUM_LEV Rgas gradient_sphere uninit2 uninit3
     (after_temperature f) (c_dinv_of f)).

(** X1: the future slots after the whole of [operator()].  At every level
    and point of the element, [U], [V], [T] and [DP3D] hold
    [spheremp * (previous + dt2 * tendency)], where the tendencies
    [vtens1], [vtens2] and [ttens] are those of the functor after
    [compute_scan_properties], and the tendency of [DP3D] is minus the
    [div_vdp] that [compute_temperature_div_vdp] stored: the stages that
    run later do not overwrite them. *)
Theorem operator_call_future_slots (f : Scratch.update_state) (l i j : nat) :
  (l < NUM_LEV)%nat -> (i < NP)%nat -> (j < NP)%nat ->
  let c := c_dinv_of f in
  let f1 := after_temperature f in
  let f2 := after_scan f in
  let r := Scratch.m_region f in
  let dt2 := Scratch.dt2 (Scratch.m_data f) in
  let r' := Scratch.m_region (operator_call f) in
  let grad_buf :=
    Scratch.compute_velocity_grad_buf NP Rgas gradient_sphere gradient_sphere_update
      uninit2 f2 l c in
  Scratch.U_future r' l i j
  = Scratch.SPHEREMP r i j
    * (Scratch.U_previous r l i j
       + dt2 * Scratch.vtens1 f2 l grad_buf (vort_fcor f2 l) i j) /\
  Scratch.V_future r' l i j
  = Scratch.SPHEREMP r i j
    * (Scratch.V_previous r l i j
       + dt2 * Scratch.vtens2 f2 l grad_buf (vort_fcor f2 l) i j) /\
  Scratch.T_future r' l i j
  = Scratch.SPHEREMP r i j
    * (Scratch.T_previous r l i j
       + dt2 * Scratch.ttens kappa f2 l
                 (gradient_sphere (Scratch.T_current r l) c) i j) /\
  Scratch.DP3D_future r' l i j
  = Scratch.SPHEREMP r i j
    * (Scratch.DP3D_previous r l i j
       - dt2 * Scratch.div_vdp (Scratch.m_data f1) l i j).
Proof.
  intros Hl Hi Hj. cbv zeta.
  destruct (ScratchFacts.operator_call_levels NP NUM_LEV Rgas Rwater_vapor kappa
              eta_ave_w gradient_sphere gradient_sphere_update divergence_sphere
              vorticity_sphere uninit2 uninit3 uninit4 f l i j Hl Hi Hj)
    as (HU & HV & HT & HD & _).
  repeat split; assumption.
Qed.

(** X2: the accumulators after [operator()].  At every level and point of
    the element, [DERIVED_UN0_update] holds
    [DERIVED_UN0 + eta_ave_w * (U * DP3D)], [DERIVED_VN0_update] holds
    [DERIVED_VN0 + eta_ave_w * (V * DP3D)], with the current [U], [V] and
    [DP3D], and [OMEGA_P_update] holds [OMEGA_P + eta_ave_w * omega_p] with
    the [omega_p] of [preq_omega_ps]. *)
Theorem operator_call_accumulators (f : Scratch.update_state) (l i j : nat) :
  (l < NUM_LEV)%nat -> (i < NP)%nat -> (j < NP)%nat ->
  let r := Scratch.m_region f in
  let r' := Scratch.m_region (operator_call f) in
  Scratch.DERIVED_UN0_update r' l i j
  = Scratch.DERIVED_UN0 r l i j
    + eta_ave_w * (Scratch.U_current r l i j * Scratch.DP3D_current r l i j) /\
  Scratch.DERIVED_VN0_update r' l i j
  = Scratch.DERIVED_VN0 r l i j
    + eta_ave_w * (Scratch.V_current r l i j * Scratch.DP3D_current r l i j) /\
  Scratch.OMEGA_P_update r' l i j
  = Scratch.OMEGA_P r l i j
    + eta_ave_w * Scratch.omega_p (Scratch.m_data (after_scan f)) l i j.
Proof.
  intros Hl Hi Hj. cbv zeta.
  destruct (ScratchFacts.operator_call_levels NP NUM_LEV Rgas Rwater_vapor kappa
              eta_ave_w gradient_sphere gradient_sphere_update divergence_sphere
              vorticity_sphere uninit2 uninit3 uninit4 f l i j Hl Hi Hj)
    as (_ & _ & _ & _ & HO & _ & HUN & HVN).
  repeat split; assumption.
Qed.

(** X3: the virtual temperature.  After [operator()], [T_v] holds the
    temperature [T] when [qn0 = -1], and otherwise
    [T * (1 + (Rwater_vapor / Rgas - 1) * Qt)] with
    [Qt = QDP(ie, 0, qn0) / DP3D]. *)
Theorem operator_call_virtual_temperature (f : Scratch.update_state) (l i j : nat) :
  (l < NUM_LEV)%nat -> (i < NP)%nat -> (j < NP)%nat ->
  let r := Scratch.m_region f in
  let qn0 := Scratch.qn0 (Scratch.m_data f) in
  Scratch.T_v (Scratch.m_data (operator_call f)) l i j
  = if (qn0 =? -1)%Z then Scratch.T_current r l i j
    else Scratch.T_current r l i j
         * (1.0 + (Rwater_vapor / Rgas - 1.0)
                  * (Scratch.QDP r 0%nat qn0 l i j / Scratch.DP3D_current r l i j)).
Proof.
  intros Hl Hi Hj. cbv zeta.
  rewrite ScratchFacts.operator_call_T_v by trivial. reflexivity.
Qed.

(** X4: the geopotential after [operator()].  At every level of a column
    of the element, [PHI_update] holds the hydrostatic scan of the
    increments [Rgas * T_v * (DP3D / pressure)], with the virtual
    temperature and the pressure that [operator()] computed before. *)
Theorem operator_call_geopotential (f : Scratch.update_state) (l i j : nat) :
  (2 <= NUM_LEV)%nat -> (l < NUM_LEV)%nat -> (i < NP)%nat -> (j < NP)%nat ->
  let fp := Scratch.compute_pressure NP NUM_LEV (after_temperature f) in
  Scratch.PHI_update (Scratch.m_region (operator_call f)) l i j
  = hydrostatic_scan (Scratch.PHIS (Scratch.m_region f) i j)
      (fun k =>
         Rgas * Scratch.T_v (Scratch.m_data fp) k i j
         * (Scratch.DP3D_current (Scratch.m_region fp) k i j
            / Scratch.pressure (Scratch.m_data fp) k i j)) NUM_LEV l.
Proof.
  intros HN Hl Hi Hj. cbv zeta.
  rewrite ScratchFacts.operator_call_phi by trivial. reflexivity.
Qed.

(** X5: the team lambda of kokkos_basic as a whole.  In the future slot,
    [U] and [V] differ from [spheremp * previous] by the same amount, and
    [DP3D] is [spheremp * (previous + dt2 * div_vdp)] with the [div_vdp]
    that the lambda leaves in its captured view. *)
Theorem team_lambda_future_slots
    (data : Basic.TestData) (region : Basic.Region) (loc : Basic.Locals)
    (l i j : nat) :
  (l < NUM_LEV)%nat -> (i < NP)%nat -> (j < NP)%nat ->
  let r' := fst (team_body data region loc) in
  let loc' := snd (team_body data region loc) in
  let np1 := Basic.np1 (Basic.control data) in
  let nm1 := Basic.nm1 (Basic.control data) in
  let dt2 := Basic.dt2 (Basic.control data) in
  let sph := Basic.scalars_2d region Basic.SPHEREMP i j in
  Basic.scalars_4d r' np1 Basic.U l i j
  - sph * Basic.scalars_4d region nm1 Basic.U l i j
  = Basic.scalars_4d r' np1 Basic.V l i j
    - sph * Basic.scalars_4d region nm1 Basic.V l i j /\
  Basic.scalars_4d r' np1 Basic.DP3D l i j
  = sph * (Basic.scalars_4d region nm1 Basic.DP3D l i j
           + dt2 * Basic.div_vdp loc' l i j).
Proof.
  intros Hl Hi Hj. cbv zeta.
  destruct (BasicFacts.team_body_future NP NUM_LEV gradient_sphere divergence_sphere
              vorticity_sphere uninit2 uninit3 pressure_order data region loc l i j Hl Hi Hj)
    as (HUV & HD & _).
  split; assumption.
Qed.

End Claims.

Lemma pressure_reconstruction_witness :
  (0 < Example.NP)%nat /\
  Scratch.pressure
    (Scratch.m_data (Scratch.compute_pressure Example.NP Example.NUM_LEV Example.functor))
    2%nat 0%nat 0%nat = 0.5 * 1 + 1 * (INR 2 + 0.5) /\
  Basic.team_pressure Example.NP [0; 1]%nat Example.data
    Example.basic_region (Example.const3 0) 2%nat 0%nat 0%nat
  = 0.5 * 1 + 1 * (INR 2 + 0.5) /\
  Basic.team_pressure Example.NP [1; 0]%nat Example.data
    Example.basic_region (Example.const3 0) 2%nat 0%nat 0%nat
  = 0 + 0.5 * (1 + 1).
Proof.
  assert (H : (0 < Example.NP)%nat) by (unfold Example.NP; lia).
  destruct (pressure_reconstruction Example.NP Example.NUM_LEV Example.functor
              Example.data Example.basic_region (Example.const3 0) 0 0 H H)
    as ((_ & _ & S) & (_ & _ & B) & (_ & D)).
  split; [exact H|]. split; [|split].
  - apply (S 1); [reflexivity | unfold Example.NUM_LEV; lia].
  - apply (B 1); [reflexivity | unfold Example.NUM_LEV; lia].
  - apply (D 2%nat). unfold Example.NUM_LEV; lia.
Defined.

Lemma hydrostatic_scan_levels_witness :
  (3 <= Example.NUM_LEV)%nat /\
  Basic.preq_hydrostatic_team Example.NP Example.NUM_LEV Example.uninit3
    (Example.const2 0) (Example.const3 1) (fun l _ _ => INR l + 1)
    (Example.const3 1) Example.Rgas (Example.const3 0) 1%nat 0%nat 0%nat = 0 /\
  hydrostatic_scan 0 (fun k => 1 * 1 * (1 / (INR k + 1))) Example.NUM_LEV 1 = 7 / 12.
Proof.
  assert (H3 : (3 <= Example.NUM_LEV)%nat) by (unfold Example.NUM_LEV; lia).
  assert (H1 : (1 < Example.NUM_LEV)%nat) by (unfold Example.NUM_LEV; lia).
  assert (H0 : (0 < Example.NP)%nat) by (unfold Example.NP; lia).
  split; [exact H3|]. split.
  - exact (proj1 (proj2 (proj2
      (hydrostatic_scan_levels Example.NP Example.NUM_LEV Example.Rgas Example.uninit3
         Example.functor (Example.const2 0) (Example.const3 1)
         (fun l _ _ => INR l + 1) (Example.const3 1) Example.Rgas (Example.const3 0)
         1 0 0 H3 H1 H0 H0)))).
  - cbv -[Rplus Rmult Rdiv Rminus Ropp Rinv IZR Q2R]. lra.
Defined.


Lemma leapfrog_update_witness :
  (0 < Example.NUM_LEV)%nat /\ (0 < Example.NP)%nat /\
  Basic.team_leapfrog Example.NP Example.NUM_LEV Example.data Example.basic_region
    (Example.const3 1) (Example.const3 0) (Example.const3 2)
    (Basic.scalars_4d Example.basic_region) 1%nat Basic.V 0%nat 0%nat 0%nat
  = 1 * (1 + 1 * 1) /\
  Basic.team_leapfrog Example.NP Example.NUM_LEV Example.data Example.basic_region
    (Example.const3 1) (Example.const3 0) (Example.const3 2)
    (Basic.scalars_4d Example.basic_region) 1%nat Basic.DP3D 0%nat 0%nat 0%nat
  = 1 * (1 + 1 * 2).
Proof.
  assert (Hl : (0 < Example.NUM_LEV)%nat) by (unfold Example.NUM_LEV; lia).
  assert (H0 : (0 < Example.NP)%nat) by (unfold Example.NP; lia).
  destruct (leapfrog_update Example.NP Example.NUM_LEV Example.Rgas Example.kappa
              Example.eta_ave_w Example.gradient_sphere Example.gradient_sphere_update
              Example.vorticity_sphere Example.uninit2 Example.functor
              (Example.const4 1) Example.data Example.basic_region
              (Example.const3 1) (Example.const3 0) (Example.const3 2)
              (Basic.scalars_4d Example.basic_region) 0 0 0 Hl H0 H0)
    as (_ & _ & HV & _ & HD).
  split; [exact Hl|]. split; [exact H0|]. split; [exact HV | exact HD].
Defined.

Lemma parallel_paths_DP3D_witness :
  Paths.divergence_reads_element Example.NP Example.divergence_sphere /\
  Paths.same_element Example.NP Example.NUM_LEV Example.data Example.basic_region
    Example.functor /\
  Basic.scalars_4d (fst (Example.team_body Example.basic_region Example.locals))
    1%nat Basic.DP3D 1%nat 0%nat 0%nat = 3 /\
  Scratch.DP3D_future (Scratch.m_region (Example.operator_call Example.functor))
    1%nat 0%nat 0%nat = -1.
Proof.
  assert (Hdiv : Paths.divergence_reads_element Example.NP Example.divergence_sphere).
  { intros v v' m m' d d' Hv Hm Hd a b Ha Hb. unfold Example.divergence_sphere.
    rewrite (Hv 0%nat a b), (Hv 1%nat a b), (Hm a b) by (trivial; lia).
    reflexivity. }
  assert (Hsame : Paths.same_element Example.NP Example.NUM_LEV Example.data
                    Example.basic_region Example.functor).
  { unfold Paths.same_element. cbv zeta. repeat split; reflexivity. }
  assert (Hl : (1 < Example.NUM_LEV)%nat) by (unfold Example.NUM_LEV; lia).
  assert (H0 : (0 < Example.NP)%nat) by (unfold Example.NP; lia).
  destruct (parallel_paths_DP3D Example.NP Example.NUM_LEV Example.Rgas
              Example.Rwater_vapor Example.kappa Example.eta_ave_w
              Example.gradient_sphere Example.gradient_sphere_update
              Example.divergence_sphere Example.vorticity_sphere
              Example.uninit2 Example.uninit3 Example.uninit4
              Example.pressure_order Example.data Example.basic_region Example.locals Example.functor
              1 0 0 Hdiv Hsame Hl H0 H0) as (HB & HS & _).
  split; [exact Hdiv|]. split; [exact Hsame|]. split.
  - etransitivity; [exact HB|].
    cbv -[Rplus Rmult Rdiv Rminus Ropp Rinv IZR Q2R]. lra.
  - etransitivity; [exact HS|].
    cbv -[Rplus Rmult Rdiv Rminus Ropp Rinv IZR Q2R]. lra.
Defined.

Lemma pressure_positive_increasing_witness :
  (0 < Example.NP)%nat /\
  0 < Scratch.pressure
        (Scratch.m_data
           (Scratch.compute_pressure Example.NP Example.NUM_LEV Example.functor))
        0%nat 0%nat 0%nat
    < Scratch.pressure
        (Scratch.m_data
           (Scratch.compute_pressure Example.NP Example.NUM_LEV Example.functor))
        2%nat 0%nat 0%nat.
Proof.
  assert (H0 : (0 < Example.NP)%nat) by (unfold Example.NP; lia).
  assert (Ha : 0 <= Scratch.hybrid_a (Scratch.m_data Example.functor) 0%nat
                    * Scratch.ps0 (Scratch.m_data Example.functor)).
  { cbv -[Rplus Rmult Rdiv Rminus Ropp Rinv IZR Q2R Rle]. lra. }
  assert (Hdp : forall l, (l < Example.NUM_LEV)%nat ->
                  0 < Scratch.DP3D_current (Scratch.m_region Example.functor) l 0%nat 0%nat).
  { intros l _. cbv -[Rplus Rmult Rdiv Rminus Ropp Rinv IZR Q2R Rlt]. lra. }
  destruct (pressure_positive_increasing Example.NP Example.NUM_LEV Example.Rgas
              Example.functor 0 0 H0 H0 Ha Hdp) as (Hpos & Hinc & _).
  split; [exact H0|]. split.
  - apply Hpos. unfold Example.NUM_LEV. lia.
  - apply Hinc; unfold Example.NUM_LEV; lia.
Defined.

Lemma zero_tracers_match_no_tracers_witness :
  Example.operator_call (Scratch.with_qn0 Example.functor 0)
  = Scratch.with_qn0
      (Example.operator_call (Scratch.with_qn0 Example.functor (-1))) 0.
Proof.
  assert (Hq : 0%Z <> (-1)%Z) by discriminate.
  assert (HQ : forall l i j,
             Scratch.QDP (Scratch.m_region Example.functor) 0%nat 0%Z l i j = 0)
    by reflexivity.
  assert (Hdp : forall l i j,
             (l < Example.NUM_LEV)%nat -> (i < Example.NP)%nat ->
             (j < Example.NP)%nat ->
             Scratch.DP3D_current (Scratch.m_region Example.functor) l i j <> 0)
    by (intros l i j _ _ _; exact R1_neq_R0).
  exact (proj1
    (zero_tracers_match_no_tracers Example.NP Example.NUM_LEV Example.Rgas
       Example.Rwater_vapor Example.kappa Example.eta_ave_w Example.gradient_sphere
       Example.gradient_sphere_update Example.divergence_sphere
       Example.vorticity_sphere Example.uninit2 Example.uninit3 Example.uninit4
       Example.functor 0%Z Hq HQ Hdp)).
Defined.

(** With layers of no thickness the two runs differ.  On the element of
    [ExampleExtra.flat_functor] the tracer field is zero and [DP3D] is zero:
    the quotient [QDP / DP3D] of the run with [qn0 = 0] is [0 / 0], so that
    this run stores no real number in [T_v(1, 0, 0)], where the run with
    [qn0 = -1] stores the temperature 1. *)
Lemma zero_tracers_zero_thickness :
  (forall l i j,
     Scratch.QDP (Scratch.m_region ExampleExtra.flat_functor) 0%nat 0%Z l i j = 0) /\
  Scratch.stored_virtual_temperature Example.Rgas Example.Rwater_vapor
    (Scratch.with_qn0 ExampleExtra.flat_functor 0) 1%nat 0%nat 0%nat = None /\
  Scratch.stored_virtual_temperature Example.Rgas Example.Rwater_vapor
    (Scratch.with_qn0 ExampleExtra.flat_functor (-1)) 1%nat 0%nat 0%nat = Some 1.
Proof.
  split; [reflexivity|]. split; [|reflexivity].
  apply ScratchFacts.stored_virtual_temperature_undefined;
    [discriminate | reflexivity].
Qed.

Lemma eta_dot_dpdn_accumulation_witness :
  (0 < Example.NP)%nat /\
  Scratch.ETA_DPDN_update (Scratch.m_region (Example.operator_call Example.functor))
    Example.NUM_LEV 0%nat 0%nat = 5 /\
  Scratch.ETA_DPDN (Scratch.m_region Example.functor) Example.NUM_LEV 0%nat 0%nat
  + Example.eta_ave_w * 0 = 0.
Proof.
  assert (H0 : (0 < Example.NP)%nat) by (unfold Example.NP; lia).
  destruct (eta_dot_dpdn_accumulation Example.NP Example.NUM_LEV Example.Rgas
              Example.Rwater_vapor Example.kappa Example.eta_ave_w
              Example.gradient_sphere Example.gradient_sphere_update
              Example.divergence_sphere Example.vorticity_sphere
              Example.uninit2 Example.uninit3 Example.uninit4
              Example.pressure_order Example.functor Example.data Example.basic_region Example.locals
              0 0 H0 H0) as (_ & HE & _).
  split; [exact H0|]. split.
  - etransitivity; [exact HE|]. reflexivity.
  - cbv -[Rplus Rmult Rdiv Rminus Ropp Rinv IZR Q2R]. lra.
Defined.

(** The geopotential behind [PHI_update] is written: on the element of
    [Example], level 1 goes from 0 to 7/12. *)
Lemma operator_call_writes_PHI :
  Scratch.PHI_update (Scratch.m_region Example.functor) 1%nat 0%nat 0%nat = 0 /\
  Scratch.PHI_update (Scratch.m_region (Example.operator_call Example.functor))
    1%nat 0%nat 0%nat = 7 / 12.
Proof.
  split.
  - reflexivity.
  - cbv -[Rplus Rmult Rdiv Rminus Ropp Rinv IZR Q2R]. lra.
Qed.

Lemma operator_call_future_slots_witness :
  (1 < Example.NUM_LEV)%nat /\ (0 < Example.NP)%nat /\
  Scratch.T_future (Scratch.m_region (Example.operator_call Example.functor))
    1%nat 0%nat 0%nat = - (1 / 2) /\
  Scratch.DP3D_future (Scratch.m_region (Example.operator_call Example.functor))
    1%nat 0%nat 0%nat = -1.
Proof.
  assert (Hl : (1 < Example.NUM_LEV)%nat) by (unfold Example.NUM_LEV; lia).
  assert (H0 : (0 < Example.NP)%nat) by (unfold Example.NP; lia).
  destruct (operator_call_future_slots Example.NP Example.NUM_LEV Example.Rgas
              Example.Rwater_vapor Example.kappa Example.eta_ave_w
              Example.gradient_sphere Example.gradient_sphere_update
              Example.divergence_sphere Example.vorticity_sphere
              Example.uninit2 Example.uninit3 Example.uninit4
              Example.functor 1 0 0 Hl H0 H0) as (_ & _ & HT & HD).
  split; [exact Hl|]. split; [exact H0|]. split.
  - etransitivity; [exact HT|].
    cbv -[Rplus Rmult Rdiv Rminus Ropp Rinv IZR Q2R]. lra.
  - etransitivity; [exact HD|].
    cbv -[Rplus Rmult Rdiv Rminus Ropp Rinv IZR Q2R]. lra.
Defined.

Lemma operator_call_accumulators_witness :
  (1 < Example.NUM_LEV)%nat /\ (0 < Example.NP)%nat /\
  Scratch.DERIVED_UN0_update
    (Scratch.m_region (Example.operator_call Example.functor)) 1%nat 0%nat 0%nat
  = 0 + 1 * (1 * 1).
Proof.
  assert (Hl : (1 < Example.NUM_LEV)%nat) by (unfold Example.NUM_LEV; lia).
  assert (H0 : (0 < Example.NP)%nat) by (unfold Example.NP; lia).
  split; [exact Hl|]. split; [exact H0|].
  exact (proj1
    (operator_call_accumulators Example.NP Example.NUM_LEV Example.Rgas
       Example.Rwater_vapor Example.kappa Example.eta_ave_w
       Example.gradient_sphere Example.gradient_sphere_update
       Example.divergence_sphere Example.vorticity_sphere
       Example.uninit2 Example.uninit3 Example.uninit4
       Example.functor 1 0 0 Hl H0 H0)).
Defined.

Lemma operator_call_virtual_temperature_witness :
  (1 < Example.NUM_LEV)%nat /\ (0 < Example.NP)%nat /\
  Scratch.T_v (Scratch.m_data (Example.operator_call Example.functor))
    1%nat 0%nat 0%nat = 1.
Proof.
  assert (Hl : (1 < Example.NUM_LEV)%nat) by (unfold Example.NUM_LEV; lia).
  assert (H0 : (0 < Example.NP)%nat) by (unfold Example.NP; lia).
  split; [exact Hl|]. split; [exact H0|].
  exact (operator_call_virtual_temperature Example.NP Example.NUM_LEV Example.Rgas
           Example.Rwater_vapor Example.kappa Example.eta_ave_w
           Example.gradient_sphere Example.gradient_sphere_update
           Example.divergence_sphere Example.vorticity_sphere
           Example.uninit2 Example.uninit3 Example.uninit4
           Example.functor 1 0 0 Hl H0 H0).
Defined.

Lemma operator_call_geopotential_witness :
  (2 <= Example.NUM_LEV)%nat /\ (0 < Example.NP)%nat /\
  Scratch.PHI_update (Scratch.m_region (Example.operator_call Example.functor))
    0%nat 0%nat 0%nat = 4 / 3.
Proof.
  assert (HN : (2 <= Example.NUM_LEV)%nat) by (unfold Example.NUM_LEV; lia).
  assert (Hl : (0 < Example.NUM_LEV)%nat) by (unfold Example.NUM_LEV; lia).
  assert (H0 : (0 < Example.NP)%nat) by (unfold Example.NP; lia).
  split; [exact HN|]. split; [exact H0|].
  etransitivity.
  - exact (operator_call_geopotential Example.NP Example.NUM_LEV Example.Rgas
             Example.Rwater_vapor Example.kappa Example.eta_ave_w
             Example.gradient_sphere Example.gradient_sphere_update
             Example.divergence_sphere Example.vorticity_sphere
             Example.uninit2 Example.uninit3 Example.uninit4
             Example.functor 0 0 0 HN Hl H0 H0).
  - cbv -[Rplus Rmult Rdiv Rminus Ropp Rinv IZR Q2R]. lra.
Defined.

Lemma team_lambda_future_slots_witness :
  (1 < Example.NUM_LEV)%nat /\ (0 < Example.NP)%nat /\
  Basic.scalars_4d (fst (Example.team_body Example.basic_region Example.locals))
    1%nat Basic.U 1%nat 0%nat 0%nat - 1 * 1
  = Basic.scalars_4d (fst (Example.team_body Example.basic_region Example.locals))
      1%nat Basic.V 1%nat 0%nat 0%nat - 1 * 1.
Proof.
  assert (Hl : (1 < Example.NUM_LEV)%nat) by (unfold Example.NUM_LEV; lia).
  assert (H0 : (0 < Example.NP)%nat) by (unfold Example.NP; lia).
  split; [exact Hl|]. split; [exact H0|].
  exact (proj1
    (team_lambda_future_slots Example.NP Example.NUM_LEV Example.gradient_sphere
       Example.divergence_sphere Example.vorticity_sphere
       Example.uninit2 Example.uninit3
       Example.pressure_order Example.data Example.basic_region Example.locals 1 0 0 Hl H0 H0)).
Defined.

(** * Properties of Utility.hpp *)

(** X23: [sync_to_host] from [Scalar * [NP][NP][NUM_LEV]] to
    [Real * [NUM_PHYSICAL_LEV][NP][NP]].  For every element, point and
    [level < NUM_LEV * VECTOR_SIZE] it stores lane [level % VECTOR_SIZE] of
    the vector level [level / VECTOR_SIZE] at [dest(ie, level, igp, jgp)],
    and it stores nothing else: the levels it writes are counted by
    [NUM_LEV * VECTOR_SIZE], whatever the extent [NUM_PHYSICAL_LEV] of
    [dest] is. *)
Theorem sync_to_host_stores_every_lane
    (NP NUM_LEV VECTOR_SIZE num_elems : nat) (source dest : Utility.View) :
  let dest' := Utility.sync_to_host NP NUM_LEV VECTOR_SIZE num_elems source dest in
  (forall ie level igp jgp,
     (ie < num_elems)%nat -> (level < NUM_LEV * VECTOR_SIZE)%nat ->
     (igp < NP)%nat -> (jgp < NP)%nat ->
     dest' [ie; level; igp; jgp]
     = source [ie; igp; jgp; (level / VECTOR_SIZE)%nat; (level mod VECTOR_SIZE)%nat]) /\
  (forall idx,
     (forall ie level igp jgp,
        (ie < num_elems)%nat -> (level < NUM_LEV * VECTOR_SIZE)%nat ->
        (igp < NP)%nat -> (jgp < NP)%nat -> idx <> [ie; level; igp; jgp]) ->
     dest' idx = dest idx).
Proof.
  intros dest'. apply UtilityFacts.sync_to_host_stores.
Qed.

(** X24: [sync_to_host] from [Scalar * [NUM_TIME_LEVELS][NP][NP][NUM_LEV]],
    the overload whose lane loop also tests [level < NUM_PHYSICAL_LEV].  It
    stores the levels below both [NUM_LEV * VECTOR_SIZE] and
    [NUM_PHYSICAL_LEV] and nothing else: the lanes that pad the last vector
    level are not copied. *)
Theorem sync_to_host_time_levels_stops_at_physical_levels
    (NP NUM_LEV NUM_PHYSICAL_LEV NUM_TIME_LEVELS VECTOR_SIZE num_elems : nat)
    (source dest : Utility.View) :
  let dest' :=
    Utility.sync_to_host_time_levels NP NUM_LEV NUM_PHYSICAL_LEV NUM_TIME_LEVELS
      VECTOR_SIZE num_elems source dest in
  (forall ie time level igp jgp,
     (ie < num_elems)%nat -> (time < NUM_TIME_LEVELS)%nat ->
     (level < NUM_LEV * VECTOR_SIZE)%nat -> (level < NUM_PHYSICAL_LEV)%nat ->
     (igp < NP)%nat -> (jgp < NP)%nat ->
     dest' [ie; time; level; igp; jgp]
     = source [ie; time; igp; jgp; (level / VECTOR_SIZE)%nat;
               (level mod VECTOR_SIZE)%nat]) /\
  (forall idx,
     (forall ie time level igp jgp,
        (ie < num_elems)%nat -> (time < NUM_TIME_LEVELS)%nat ->
        (level < NUM_LEV * VECTOR_SIZE)%nat -> (level < NUM_PHYSICAL_LEV)%nat ->
        (igp < NP)%nat -> (jgp < NP)%nat ->
        idx <> [ie; time; level; igp; jgp]) ->
     dest' idx = dest idx).
Proof.
  intros dest'. apply UtilityFacts.sync_to_host_time_levels_stores.
Qed.

(** X25: [sync_to_device] and [sync_to_host] undo each other when the
    vector levels hold no padding lanes, [NUM_LEV * VECTOR_SIZE <=
    NUM_PHYSICAL_LEV], so that every level the two functions touch is a
    level of the host view.  A host view sent to the device and brought
    back has its entries at the levels below [NUM_LEV * VECTOR_SIZE] again,
    and a device view brought to the host and sent back has all its lanes
    again. *)
Theorem sync_round_trip
    (NP NUM_LEV NUM_PHYSICAL_LEV VECTOR_SIZE num_elems : nat)
    (beyond host device scratch_1 scratch_2 : Utility.View) :
  (NUM_LEV * VECTOR_SIZE <= NUM_PHYSICAL_LEV)%nat ->
  (forall ie level igp jgp,
     (ie < num_elems)%nat -> (level < NUM_LEV * VECTOR_SIZE)%nat ->
     (igp < NP)%nat -> (jgp < NP)%nat ->
     Utility.sync_to_host NP NUM_LEV VECTOR_SIZE num_elems
       (Utility.sync_to_device NP NUM_LEV NUM_PHYSICAL_LEV VECTOR_SIZE beyond
          num_elems host scratch_1)
       scratch_2 [ie; level; igp; jgp]
     = host [ie; level; igp; jgp]) /\
  (forall ie igp jgp vector_level vector,
     (ie < num_elems)%nat -> (igp < NP)%nat -> (jgp < NP)%nat ->
     (vector_level < NUM_LEV)%nat -> (vector < VECTOR_SIZE)%nat ->
     Utility.sync_to_device NP NUM_LEV NUM_PHYSICAL_LEV VECTOR_SIZE beyond num_elems
       (Utility.sync_to_host NP NUM_LEV VECTOR_SIZE num_elems device scratch_2)
       scratch_1 [ie; igp; jgp; vector_level; vector]
     = device [ie; igp; jgp; vector_level; vector]).
Proof.
  intros Hpad.
  assert (Hin : forall (v : Utility.View) ie level igp jgp,
            (level < NUM_LEV * VECTOR_SIZE)%nat ->
            Utility.host_entry NUM_PHYSICAL_LEV beyond v [ie; level; igp; jgp]
            = v [ie; level; igp; jgp]).
  { intros v ie level igp jgp Hl. unfold Utility.host_entry.
    destruct (Nat.ltb_spec level NUM_PHYSICAL_LEV); [reflexivity|lia]. }
  split.
  - intros ie level igp jgp Hie Hl Hi Hj.
    destruct (UtilityFacts.level_lane NUM_LEV VECTOR_SIZE level Hl) as (L1 & L2 & L3).
    rewrite (proj1 (UtilityFacts.sync_to_host_stores NP NUM_LEV VECTOR_SIZE
                      num_elems _ scratch_2)) by trivial.
    rewrite (proj1 (UtilityFacts.sync_to_device_stores NP NUM_LEV NUM_PHYSICAL_LEV
                      VECTOR_SIZE beyond num_elems host scratch_1)) by trivial.
    rewrite L3. now apply Hin.
  - intros ie igp jgp vl v Hie Hi Hj Hvl Hv.
    rewrite (proj1 (UtilityFacts.sync_to_device_stores NP NUM_LEV NUM_PHYSICAL_LEV
                      VECTOR_SIZE beyond num_elems _ scratch_1)) by trivial.
    rewrite Hin by nia.
    rewrite (proj1 (UtilityFacts.sync_to_host_stores NP NUM_LEV VECTOR_SIZE
                      num_elems device scratch_2)) by (trivial; nia).
    now destruct (point_of_index VECTOR_SIZE vl v Hv) as [-> ->].
Qed.

(** X26: [operator-(distance)] of [Host_View_Iterator], compiled with
    assertions.  Its second assertion is on [m_index + distance]: the
    operator ends in an iterator, at [m_index - distance], only when
    [distance <= m_index] and [|distance|] is at most the room left up to
    [max_index].  From the end of the view it never ends in an iterator for
    a distance other than 0.  When [distance <= m_index] and
    [m_index + distance] is outside the range of [int], its behaviour is
    undefined. *)
Theorem iterator_minus_needs_room
    (INT_MAX VECTOR_SIZE : Z) (it : Utility.Host_View_Iterator) (distance : Z) :
  let result := Utility.minus INT_MAX VECTOR_SIZE it distance in
  (forall it', result = Utility.Value it' ->
     exists max,
       Utility.limit INT_MAX VECTOR_SIZE it = Utility.Value max /\
       Utility.m_index it' = (Utility.m_index it - distance)%Z /\
       (distance <= Utility.m_index it)%Z /\
       (Z.abs distance <= max - Utility.m_index it)%Z) /\
  (Utility.limit INT_MAX VECTOR_SIZE it = Utility.Value (Utility.m_index it) ->
   distance <> 0%Z ->
   result = Utility.Assertion_failed \/ result = Utility.Undefined) /\
  ((distance <= Utility.m_index it)%Z ->
   Utility.in_int INT_MAX (Utility.m_index it + distance) = false ->
   result = Utility.Undefined).
Proof.
  intros result. split; [|split].
  - intros it' H. apply UtilityNumbers.minus_value in H
      as (max & L & (H1 & H2 & H3) & _ & _ & ->).
    exists max. cbn [Utility.with_index Utility.m_index]. repeat split; trivial; lia.
  - intros E Hd. destruct result as [it'| |] eqn:M; [|now left|now right].
    apply UtilityNumbers.minus_value in M as (max & L & (H1 & H2 & H3) & _).
    rewrite E in L. inversion L; subst. lia.
  - intros H1 R. unfold result, Utility.minus, Utility.assert.
    destruct (Z.leb_spec distance (Utility.m_index it)); [|lia].
    cbn [Utility.bind]. now rewrite UtilityNumbers.int_undefined.
Qed.

(** X27: a step forward and the same step back, compiled with assertions.
    After [it + offset] has ended in an iterator, [(it + offset) - offset]
    fails its first assertion when [m_index < 0]; otherwise its behaviour is
    undefined when [m_index + 2 * offset] is outside the range of [int];
    otherwise it is [it] again when [m_index + 2 * offset <= max_index] and
    [m_index <= max_index], and fails an assertion when not. *)
Theorem iterator_plus_then_minus
    (INT_MAX VECTOR_SIZE : Z) (it it_1 : Utility.Host_View_Iterator) (offset max : Z) :
  Utility.in_int INT_MAX (Utility.m_index it) = true ->
  Utility.limit INT_MAX VECTOR_SIZE it = Utility.Value max ->
  Utility.plus INT_MAX VECTOR_SIZE it offset = Utility.Value it_1 ->
  let back := Utility.minus INT_MAX VECTOR_SIZE it_1 offset in
  let twice := (Utility.m_index it + 2 * offset)%Z in
  ((Utility.m_index it < 0)%Z -> back = Utility.Assertion_failed) /\
  ((0 <= Utility.m_index it)%Z -> Utility.in_int INT_MAX twice = false ->
   back = Utility.Undefined) /\
  ((0 <= Utility.m_index it)%Z -> Utility.in_int INT_MAX twice = true ->
   ((twice <= max /\ Utility.m_index it <= max)%Z -> back = Utility.Value it) /\
   (~ (twice <= max /\ Utility.m_index it <= max)%Z ->
    back = Utility.Assertion_failed)).
Proof.
  intros Rm L H back twice.
  apply UtilityNumbers.plus_value in H as (max' & L' & H1 & R1 & ->).
  rewrite L in L'. inversion L'; subst max'. clear L'.
  unfold back, Utility.minus, Utility.make.
  fold (Utility.limit INT_MAX VECTOR_SIZE
          (Utility.with_index it (Utility.m_index it + offset))).
  rewrite UtilityNumbers.limit_with_index, L.
  cbn [Utility.with_index Utility.m_index Utility.m_view Utility.m_extent
       Utility.is_scalar_view].
  replace (Utility.m_index it + offset + offset)%Z with twice by (unfold twice; lia).
  replace (Utility.m_index it + offset - offset)%Z with (Utility.m_index it) by lia.
  unfold Utility.assert. split; [|split].
  - intros Hneg. destruct (Z.leb_spec offset (Utility.m_index it + offset)); [lia|].
    reflexivity.
  - intros Hpos R. destruct (Z.leb_spec offset (Utility.m_index it + offset)); [|lia].
    cbn [Utility.bind]. now rewrite UtilityNumbers.int_undefined.
  - intros Hpos R. destruct (Z.leb_spec offset (Utility.m_index it + offset)); [|lia].
    cbn [Utility.bind]. rewrite (UtilityNumbers.int_in_range _ _ R).
    cbn [Utility.bind]. rewrite (UtilityNumbers.int_in_range _ _ Rm). split.
    + intros [H2 H3].
      destruct (Z.leb_spec twice max); [|lia]. cbn [Utility.bind].
      destruct (Z.leb_spec (Utility.m_index it) max); [|lia]. cbn [Utility.bind].
      f_equal. now destruct it.
    + intros Hn.
      destruct (Z.leb_spec twice max); [|reflexivity]. cbn [Utility.bind].
      destruct (Z.leb_spec (Utility.m_index it) max); [|reflexivity].
      elim Hn. now split.
Qed.

(** X28: [frobenius_norm] of a view of reals.  In exact arithmetic the
    compensation term of the Kahan summation stays zero: the result is the
    square root of the sum of the squares of the entries, and it is zero
    exactly when every entry is zero. *)
Theorem frobenius_norm_exact (data : list Real) :
  Utility.frobenius_norm data = sqrt (Utility.sum_squares data) /\
  (Utility.frobenius_norm data = 0 <-> Forall (fun x => x = 0) data).
Proof.
  assert (E : Utility.frobenius_norm data = sqrt (Utility.sum_squares data)).
  { unfold Utility.frobenius_norm. rewrite UtilityNumbers.kahan_exact.
    now rewrite Rplus_0_l. }
  split; [exact E|]. rewrite E.
  rewrite <- UtilityNumbers.sum_squares_zero. split.
  - apply sqrt_eq_0. apply UtilityNumbers.sum_squares_nonneg.
  - intros ->. apply sqrt_0.
Qed.

(** X29: [compare_answers].  The denominator is positive in every case, so
    the result is never negative and is zero exactly when [computed] equals
    [target]; with a target of zero it is the absolute error. *)
Theorem compare_answers_zero (target computed relative_coeff : Real) :
  0 <= Utility.compare_answers target computed relative_coeff /\
  (Utility.compare_answers target computed relative_coeff = 0 <->
   computed = target) /\
  (target = 0 ->
   Utility.compare_answers target computed relative_coeff = Rabs computed).
Proof.
  unfold Utility.compare_answers. cbv zeta.
  pose proof (UtilityNumbers.compare_answers_denominator target relative_coeff) as Hd.
  set (denom := if Rlt_dec 0.0 relative_coeff
                then if Req_dec_T target 0.0 then 1.0
                     else relative_coeff * Rabs target
                else 1.0) in *.
  split; [|split].
  - apply Rmult_le_pos; [apply Rabs_pos|]. left. now apply Rinv_0_lt_compat.
  - split.
    + intros H. unfold Rdiv in H. apply Rmult_integral in H as [H|H].
      * destruct (Req_dec computed target) as [E|E]; [exact E|].
        assert (0 < Rabs (target - computed)) by (apply Rabs_pos_lt; lra). lra.
      * assert (0 < / denom) by now apply Rinv_0_lt_compat. lra.
    + intros ->. unfold Rdiv. rewrite Rminus_diag, Rabs_R0. lra.
  - intros ->. unfold denom.
    destruct (Rlt_dec 0.0 relative_coeff);
      [destruct (Req_dec_T 0 0.0); [|lra]|];
      unfold Rdiv; rewrite Rminus_0_l, Rabs_Ropp; lra.
Qed.

(** X30: [min] of two values or more.  The result is one of the arguments
    and none of the arguments is smaller. *)
Theorem min_pack_least (val val_2 : Real) (pack : list Real) :
  In (Utility.min_pack val val_2 pack) (val :: val_2 :: pack) /\
  (forall x, In x (val :: val_2 :: pack) -> Utility.min_pack val val_2 pack <= x).
Proof.
  revert val val_2. induction pack as [|val_3 pack IH]; intros val val_2.
  - cbn [Utility.min_pack].
    destruct (UtilityNumbers.min_le_both val val_2) as (H1 & H2 & H3). split.
    + destruct H3 as [-> | ->]; [now left | right; now left].
    + intros x [<-|[<-|[]]]; assumption.
  - cbn [Utility.min_pack]. destruct (IH val_2 val_3) as [I1 I2].
    destruct (Rlt_dec val (Utility.min_pack val_2 val_3 pack)) as [Hlt|Hge].
    + split; [now left|]. intros x [<-|Hx]; [lra|].
      specialize (I2 x Hx). lra.
    + split; [now right|]. intros x [<-|Hx]; [lra|]. now apply I2.
Qed.

(** * Further properties of the code *)

Section Extras.

Set Default Proof Using "Type".

Variables NP NUM_LEV : nat.
Variable gradient_sphere : View2 -> View4 -> View3.
Variable gradient_sphere_update : View2 -> View4 -> View3 -> View3.
Variable divergence_sphere : View3 -> View2 -> View4 -> View2.
Variable vorticity_sphere : View2 -> View2 -> View2 -> View4 -> View2.
Variable uninit2 : View2.
Variable uninit3 : View3.
Variable pressure_order : list nat.

Local Abbreviation team_body :=
  (Basic.team_body NP NUM_LEV gradient_sphere divergence_sphere vorticity_sphere
     uninit2 uninit3 pressure_order).
Local Abbreviation compute_and_apply_rhs :=
  (Basic.compute_and_apply_rhs NP NUM_LEV gradient_sphere divergence_sphere
     vorticity_sphere uninit2 uninit3 pressure_order).

(** X6: the two overloads of [preq_omega_ps] of kokkos_basic.  The overload
    that takes the team scans one column per iteration, the serial one goes
    level by level over a row of points; at every level and point of the
    element both store the same value, the omega scan of the column. *)
Theorem preq_omega_ps_overloads_agree (p vg dv om : View3) (l i j : nat) :
  (2 <= NUM_LEV)%nat -> (l < NUM_LEV)%nat -> (i < NP)%nat -> (j < NP)%nat ->
  Basic.preq_omega_ps_team NP NUM_LEV uninit2 p vg dv om l i j
  = Basic.preq_omega_ps NP NUM_LEV uninit2 p vg dv om l i j /\
  Basic.preq_omega_ps_team NP NUM_LEV uninit2 p vg dv om l i j
  = omega_scan (fun k => vg k i j) (fun k => p k i j) (fun k => dv k i j) l.
Proof.
  intros HN Hl Hi Hj.
  rewrite BasicFacts.preq_omega_ps_team_levels by trivial.
  rewrite BasicFacts.preq_omega_ps_serial_levels by trivial.
  split; reflexivity.
Qed.

(** X7: the levels that [preq_hydrostatic] of kokkos_basic (the overload
    that takes the team) gets right.  With [inc k] the increment
    [Rgas * T_v[k] * (dp[k] / p[k])], every level [l >= 2] of [phi] holds
    [phis + (inc (l+1) + ... + inc (NUM_LEV-1)) + 0.5 * inc l]; with two
    levels the level loop is empty and both levels hold it. *)
Theorem preq_hydrostatic_team_upper_levels
    (phis : View2) (T_v p dp : View3) (Rg : Real) (phi : View3) (l i j : nat) :
  (2 <= NUM_LEV)%nat -> (l < NUM_LEV)%nat -> (2 <= l)%nat \/ NUM_LEV = 2%nat ->
  (i < NP)%nat -> (j < NP)%nat ->
  Basic.preq_hydrostatic_team NP NUM_LEV uninit3 phis T_v p dp Rg phi l i j
  = hydrostatic_scan (phis i j)
      (fun k => Rg * T_v k i j * (dp k i j / p k i j)) NUM_LEV l.
Proof.
  intros HN Hl Hok Hi Hj. now apply BasicFacts.preq_hydrostatic_team_levels.
Qed.

(** X8: the geopotential after the team lambda of kokkos_basic.  With three
    levels or more, [PHI] of the element keeps at level 1 the value it had
    before the call, and holds at every level [l >= 2] the hydrostatic scan
    of the virtual temperature and the pressure that the lambda leaves in
    its captured views [T_v] and [p]. *)
Theorem team_lambda_geopotential
    (data : Basic.TestData) (region : Basic.Region) (loc : Basic.Locals)
    (i j : nat) :
  (3 <= NUM_LEV)%nat -> (i < NP)%nat -> (j < NP)%nat ->
  let r' := fst (team_body data region loc) in
  let loc' := snd (team_body data region loc) in
  let inc k :=
    Basic.Rgas (Basic.constants data) * Basic.T_v loc' k i j
    * (Basic.scalars_4d region (Basic.n0 (Basic.control data)) Basic.DP3D k i j
       / Basic.p loc' k i j) in
  Basic.scalars_3d r' Basic.PHI 1%nat i j
  = Basic.scalars_3d region Basic.PHI 1%nat i j /\
  (forall l, (2 <= l < NUM_LEV)%nat ->
     Basic.scalars_3d r' Basic.PHI l i j
     = hydrostatic_scan (Basic.scalars_2d region Basic.PHIS i j) inc NUM_LEV l).
Proof.
  intros HN Hi Hj r' loc' inc. unfold r'.
  rewrite (BasicExtraFacts.team_body_PHI NP NUM_LEV gradient_sphere divergence_sphere
             vorticity_sphere uninit2 uninit3 pressure_order data region loc).
  split.
  - now apply BasicFacts.preq_hydrostatic_team_level_1.
  - intros l Hl. rewrite BasicFacts.preq_hydrostatic_team_levels; trivial; lia.
Qed.

(** X9: the league loop of [compute_and_apply_rhs] of kokkos_basic, when
    its teams run one after another, in whatever order.  The league has one
    team more than there are elements in [nets, nete): the elements outside
    the range are left as they are, every element of the range is the result
    of one run of the team lambda on the data the element had before the
    call, with the captured views as the team that ran before left them, and
    with an empty range nothing changes. *)
Theorem league_runs_each_element_once
    (data : Basic.TestData) (league_order : list nat)
    (region : nat -> Basic.Region) (loc : Basic.Locals) :
  (Basic.nets (Basic.control data) <= Basic.nete (Basic.control data))%nat ->
  NoDup league_order ->
  (forall k, In k league_order
             <-> (k < Basic.nete (Basic.control data)
                      - Basic.nets (Basic.control data) + 1)%nat) ->
  let nets := Basic.nets (Basic.control data) in
  let nete := Basic.nete (Basic.control data) in
  let r' := fst (compute_and_apply_rhs data league_order region loc) in
  (forall ie, ~ (nets <= ie < nete)%nat -> r' ie = region ie) /\
  (forall ie, (nets <= ie < nete)%nat ->
     exists loc_ie, r' ie = fst (team_body data (region ie) loc_ie)) /\
  (nets = nete -> compute_and_apply_rhs data league_order region loc = (region, loc)).
Proof.
  intros Hle ND Hin nets nete r'.
  destruct (BasicExtraFacts.league_elements NP NUM_LEV gradient_sphere
              divergence_sphere vorticity_sphere uninit2 uninit3 pressure_order
              data league_order region loc Hle ND Hin)
    as [H1 H2].
  split; [exact H1|]. split; [exact H2|].
  intros E. now apply BasicExtraFacts.league_empty.
Qed.

(** X10: the virtual temperature stage of kokkos_basic.  At every level and
    point of the element it stores [T_v = T] when [qn0 = -1] and
    [T_v = T * (1 + (Rwater_vapor / Rgas - 1) * Qdp(qn0, 1) / dp3d)]
    otherwise, and [kappa_star = kappa] in both cases. *)
Theorem team_temperature_stage
    (data : Basic.TestData) (region : Basic.Region) (t : View3 * View3)
    (l i j : nat) :
  (l < NUM_LEV)%nat -> (i < NP)%nat -> (j < NP)%nat ->
  let q := Basic.qn0 (Basic.control data) in
  let T_n0 := Basic.scalars_4d region (Basic.n0 (Basic.control data)) Basic.T in
  let dp_n0 := Basic.scalars_4d region (Basic.n0 (Basic.control data)) Basic.DP3D in
  let c := Basic.constants data in
  fst (Basic.team_temperature NP NUM_LEV data region t) l i j
  = (if (q =? -1)%Z then T_n0 l i j
     else T_n0 l i j
          * (1.0 + (Basic.Rwater_vapor c / Basic.Rgas c - 1.0)
                   * (Basic.Qdp region q 1%nat l i j / dp_n0 l i j))) /\
  snd (Basic.team_temperature NP NUM_LEV data region t) l i j = Basic.kappa c.
Proof.
  intros Hl Hi Hj. now apply BasicExtraFacts.team_temperature_levels.
Qed.

(** X11: the moisture switch of kokkos_basic.  On an element whose tracer
    field [Qdp(qn0, 1)] is zero and whose [DP3D] at the time level [n0] is
    not zero at any level and point, the quotient [Qt] of line 169 is the
    real number 0, and the team lambda run with [qn0 = q] returns the
    element and the captured views that it returns with [qn0 = -1]. *)
Theorem team_lambda_zero_tracers
    (data : Basic.TestData) (region : Basic.Region) (loc : Basic.Locals) (q : Z) :
  (forall l i j, Basic.Qdp region q 1%nat l i j = 0) ->
  (forall l i j, (l < NUM_LEV)%nat -> (i < NP)%nat -> (j < NP)%nat ->
     Basic.scalars_4d region (Basic.n0 (Basic.control data)) Basic.DP3D l i j <> 0) ->
  (forall l i j, (l < NUM_LEV)%nat -> (i < NP)%nat -> (j < NP)%nat ->
     quotient (Basic.Qdp region q 1%nat l i j)
       (Basic.scalars_4d region (Basic.n0 (Basic.control data)) Basic.DP3D l i j)
     = Some 0) /\
  team_body (BasicExtra.with_qn0 data q) region loc
  = team_body (BasicExtra.with_qn0 data (-1)) region loc.
Proof.
  intros HQ Hdp. split.
  - intros l i j Hl Hi Hj. unfold quotient.
    destruct (Req_dec_T _ 0) as [Z0|_].
    + now elim (Hdp l i j Hl Hi Hj).
    + rewrite HQ. unfold Rdiv. now rewrite Rmult_0_l.
  - now apply BasicExtraFacts.team_body_zero_tracers.
Qed.

(** X12: the norms that [print_results_2norm] of kokkos_basic prints.
    [||v||_2] is zero exactly when [U] and [V] vanish in the future slot at
    every level and point of every element of [nets, nete), and likewise
    [||T||_2] for [T] and [||dp||_2] for [DP3D]. *)
Theorem print_results_2norm_zero
    (data : Basic.TestData) (region : nat -> Basic.Region) :
  let norms := BasicExtra.print_results_2norm NP NUM_LEV data region in
  let future F ie l i j :=
    Basic.scalars_4d (region ie) (Basic.np1 (Basic.control data)) F l i j in
  let visited ie l i j :=
    (Basic.nets (Basic.control data) <= ie < Basic.nete (Basic.control data))%nat /\
    (l < NUM_LEV)%nat /\ (i < NP)%nat /\ (j < NP)%nat in
  (fst (fst norms) = 0 <->
   forall ie l i j, visited ie l i j ->
     future Basic.U ie l i j = 0 /\ future Basic.V ie l i j = 0) /\
  (snd (fst norms) = 0 <->
   forall ie l i j, visited ie l i j -> future Basic.T ie l i j = 0) /\
  (snd norms = 0 <->
   forall ie l i j, visited ie l i j -> future Basic.DP3D ie l i j = 0).
Proof.
  intros norms future visited. unfold norms.
  rewrite BasicExtraFacts.print_results_2norm_sums. cbn [fst snd].
  assert (Sq : forall x : R, x ^ 2 = 0 <-> x = 0).
  { intros x. split; intros H; [|rewrite H; lra]. nra. }
  assert (Sq2 : forall x y : R, x ^ 2 + y ^ 2 = 0 <-> x = 0 /\ y = 0).
  { intros x y. split; [intros H; split; nra | intros [-> ->]; lra]. }
  assert (Root : forall x, 0 <= x -> (sqrt x = 0 <-> x = 0)).
  { intros x Hx. split; [now apply sqrt_eq_0 | intros ->; apply sqrt_0]. }
  split; [|split].
  - rewrite Root by (apply BasicExtraFacts.sum_entries_nonneg; intros; nra).
    rewrite BasicExtraFacts.sum_entries_zero by (intros; nra).
    split.
    + intros H ie l i j (Hie & Hl & Hi & Hj). apply Sq2. now apply H.
    + intros H ie l i j Hie Hl Hi Hj. apply Sq2. apply H. repeat split; trivial; lia.
  - rewrite Root by (apply BasicExtraFacts.sum_entries_nonneg; intros; nra).
    rewrite BasicExtraFacts.sum_entries_zero by (intros; nra).
    split.
    + intros H ie l i j (Hie & Hl & Hi & Hj). apply Sq. now apply H.
    + intros H ie l i j Hie Hl Hi Hj. apply Sq. apply H. repeat split; trivial; lia.
  - rewrite Root by (apply BasicExtraFacts.sum_entries_nonneg; intros; nra).
    rewrite BasicExtraFacts.sum_entries_zero by (intros; nra).
    split.
    + intros H ie l i j (Hie & Hl & Hi & Hj). apply Sq. now apply H.
    + intros H ie l i j Hie Hl Hi Hj. apply Sq. apply H. repeat split; trivial; lia.
Qed.

(** X13: the view whose gradient [compute_energy_grad] of kokkos_scratch
    takes.  The point loop keeps the two velocity components of the point
    at hand in the entries [(0, 0)] and [(0, 1)] of the view: with two
    points or more in a row, these two entries end up with [U] and [V] of
    the last point, and every other entry with the energy
    [0.5 * (U^2 + V^2) + PHI + PECND] of its point. *)
Theorem energy_view_holds_velocity
    (f : Scratch.update_state) (ilev : nat) (c_dinv : View4) (Ephi_grad : View3) :
  (2 <= NP)%nat ->
  let r := Scratch.m_region f in
  let Ephi := ScratchExtra.compute_energy_grad_Ephi NP uninit2 f ilev in
  Scratch.compute_energy_grad NP gradient_sphere_update uninit2 f ilev c_dinv Ephi_grad
  = gradient_sphere_update Ephi c_dinv Ephi_grad /\
  Ephi 0%nat 0%nat = Scratch.U_current r ilev (NP - 1)%nat (NP - 1)%nat /\
  Ephi 0%nat 1%nat = Scratch.V_current r ilev (NP - 1)%nat (NP - 1)%nat /\
  (forall i j, (i < NP)%nat -> (j < NP)%nat ->
     (i, j) <> (0%nat, 0%nat) -> (i, j) <> (0%nat, 1%nat) ->
     Ephi i j
     = 0.5 * (Scratch.U_current r ilev i j * Scratch.U_current r ilev i j
              + Scratch.V_current r ilev i j * Scratch.V_current r ilev i j)
       + Scratch.PHI_update r ilev i j + Scratch.PECND r ilev i j).
Proof.
  intros HNP r Ephi. split; [reflexivity|].
  now apply ScratchExtraFacts.compute_energy_grad_Ephi_points.
Qed.

(** X14: [preq_vertadv] of kokkos_scratch.  At every level and point it
    stores the vertical advection of the column in [T_vadv] and in both
    components of [v_vadv]: half the flux through the interface below times
    the difference to the level below, plus half the flux through the
    interface above times the difference to the level above, each divided
    by the thickness ([rpdel]); the top level has only the first term and
    the bottom level only the second. *)
Theorem preq_vertadv_closed_form
    (T : View3) (v : View4) (eta_dp_deta rpdel T_vadv : View3) (v_vadv : View4)
    (l j i : nat) :
  (2 <= NUM_LEV)%nat -> (l < NUM_LEV)%nat -> (j < NP)%nat -> (i < NP)%nat ->
  let t' := ScratchExtra.preq_vertadv NP NUM_LEV T v eta_dp_deta rpdel T_vadv v_vadv in
  let adv x :=
    ScratchExtra.vertical_advection NUM_LEV x
      (fun k => eta_dp_deta k j i) (fun k => rpdel k j i) l in
  fst t' l j i = adv (fun k => T k j i) /\
  snd t' l 0%nat j i = adv (fun k => v k 0%nat j i) /\
  snd t' l 1%nat j i = adv (fun k => v k 1%nat j i).
Proof.
  intros HN Hl Hj Hi. now apply ScratchExtraFacts.preq_vertadv_levels.
Qed.

(** X15: what [preq_vertadv] does not depend on.  The flux through the top
    and the bottom interface of the column is never read: two flux fields
    that agree on the interfaces [1 .. NUM_LEV-1] give the same result.  And
    where the flux through these interfaces is zero, the advection that is
    stored is zero. *)
Theorem preq_vertadv_boundary_flux
    (T : View3) (v : View4) (eta eta' rpdel T_vadv : View3) (v_vadv : View4) :
  (2 <= NUM_LEV)%nat ->
  (forall k j i, (1 <= k <= NUM_LEV - 1)%nat -> (j < NP)%nat -> (i < NP)%nat ->
     eta k j i = eta' k j i) ->
  ScratchExtra.preq_vertadv NP NUM_LEV T v eta rpdel T_vadv v_vadv
  = ScratchExtra.preq_vertadv NP NUM_LEV T v eta' rpdel T_vadv v_vadv /\
  ((forall k j i, (1 <= k <= NUM_LEV - 1)%nat -> (j < NP)%nat -> (i < NP)%nat ->
      eta' k j i = 0) ->
   forall l j i, (l < NUM_LEV)%nat -> (j < NP)%nat -> (i < NP)%nat ->
     fst (ScratchExtra.preq_vertadv NP NUM_LEV T v eta rpdel T_vadv v_vadv) l j i = 0 /\
     forall h, (h < 2)%nat ->
       snd (ScratchExtra.preq_vertadv NP NUM_LEV T v eta rpdel T_vadv v_vadv) l h j i
       = 0).
Proof.
  intros HN He. split.
  - now apply ScratchExtraFacts.preq_vertadv_interfaces.
  - intros Hz l j i Hl Hj Hi.
    destruct (ScratchExtraFacts.preq_vertadv_levels NP NUM_LEV T v eta rpdel
                T_vadv v_vadv l j i HN Hl Hj Hi) as (H1 & H2 & H3).
    assert (Z : forall x,
              ScratchExtra.vertical_advection NUM_LEV x
                (fun k => eta k j i) (fun k => rpdel k j i) l = 0).
    { intros x. apply ScratchExtraFacts.vertical_advection_zero; trivial.
      right. intros k Hk. rewrite He by trivial. now apply Hz. }
    split; [now rewrite H1|].
    intros h Hh. destruct h as [|[|h]]; [now rewrite H2 | now rewrite H3 | lia].
Qed.

(** X22: the two overloads of [preq_hydrostatic] of kokkos_basic, each
    with its own local array [phii], which starts with whatever the stack
    holds ([phii_serial], [phii_team]).  At every level from 1 on, and at
    both levels when there are only two, the serial overload and the one
    that takes the team store the same [phi].  With three levels or more
    both compute level 0 from the entry [phii[1]] that neither of them
    wrote: there the two results differ by the difference of these two
    entries. *)
Theorem preq_hydrostatic_overloads_compared
    (phii_serial phii_team : View3)
    (phis : View2) (T_v p dp : View3) (Rg : Real) (phi : View3) (l i j : nat) :
  (2 <= NUM_LEV)%nat -> (l < NUM_LEV)%nat -> (i < NP)%nat -> (j < NP)%nat ->
  let serial := Basic.preq_hydrostatic NP NUM_LEV phii_serial phis T_v p dp Rg phi in
  let team := Basic.preq_hydrostatic_team NP NUM_LEV phii_team phis T_v p dp Rg phi in
  ((1 <= l)%nat \/ NUM_LEV = 2%nat -> serial l i j = team l i j) /\
  ((3 <= NUM_LEV)%nat ->
   serial 0%nat i j - team 0%nat i j
   = phii_serial 1%nat i j - phii_team 1%nat i j).
Proof.
  intros HN Hl Hi Hj serial team.
  destruct (BasicExtraFacts.preq_hydrostatic_serial_levels NP NUM_LEV phii_serial
              phis T_v p dp Rg phi l i j HN Hl Hi Hj) as [S1 _].
  destruct (BasicExtraFacts.preq_hydrostatic_serial_levels NP NUM_LEV phii_serial
              phis T_v p dp Rg phi 0 i j HN ltac:(lia) Hi Hj) as [_ S0].
  cbv zeta in S1, S0. split.
  - intros Hok. unfold serial, team.
    destruct (Nat.eq_dec NUM_LEV 2) as [E2|N2].
    + rewrite S1 by now right.
      rewrite BasicFacts.preq_hydrostatic_team_levels; trivial. now right.
    + destruct l as [|[|l]].
      * destruct Hok; [lia | contradiction].
      * rewrite BasicFacts.preq_hydrostatic_level_1 by lia.
        rewrite BasicFacts.preq_hydrostatic_team_level_1 by lia. reflexivity.
      * rewrite S1 by (left; lia).
        rewrite BasicFacts.preq_hydrostatic_team_levels; trivial. left; lia.
  - intros H3. unfold serial, team. rewrite S0 by trivial.
    rewrite BasicFacts.preq_hydrostatic_team_level_0 by trivial. lra.
Qed.

End Extras.

Import Ascii String.

(** X16: the option of the number of elements, read back.  [main] started
    with the option [--tinman-num-elems=<n>] for a decimal numeral [n >= 1]
    that is an [int], among arguments that the loop passes over, goes on
    with [num_elems = n]; what stands between the first eighteen characters
    of the option and its first [=] is not looked at. *)
Theorem num_elems_round_trip
    (INT_MAX : Z) (prog junk : string) (before after : list string) (n : nat) :
  forallb Main.ignored before = true -> forallb Main.ignored after = true ->
  Main.strchr junk "="%char = None ->
  (1 <= n)%nat -> (Z.of_nat n <= INT_MAX)%Z ->
  Main.main INT_MAX
    (prog :: before ++ Main.num_elems_option junk (Main.decimal n) :: after)
  = Main.Run (Z.of_nat n).
Proof.
  intros Hb Ha Hj Hn Hmax. rewrite MainFacts.main_cons.
  rewrite MainFacts.argument_loop_all_ignored by trivial.
  rewrite MainFacts.argument_loop_option by trivial.
  rewrite <- (app_nil_r after).
  rewrite MainFacts.argument_loop_all_ignored by trivial.
  cbn [Main.argument_loop].
  destruct (Z.ltb_spec (Z.of_nat n) 1); [lia|reflexivity].
Qed.

(** X17: an argument that starts with [--tinman-num-elems] and holds no
    [=].  [strncmp] compares eighteen characters, one less than the option
    with its [=] has, so such an argument is taken for the option; [strchr]
    then returns the null pointer, and [is_unsigned_int] is called on the
    null pointer plus one. *)
Theorem num_elems_without_equal_sign
    (INT_MAX : Z) (prog rest : string) (before more : list string) :
  forallb Main.ignored before = true ->
  Main.strchr rest "="%char = None ->
  Main.main INT_MAX
    (prog :: before ++ ("--tinman-num-elems" ++ rest)%string :: more)
  = Main.Undefined.
Proof.
  intros Hb Hr. rewrite MainFacts.main_cons.
  rewrite MainFacts.argument_loop_all_ignored by trivial.
  cbn [Main.argument_loop].
  change (Main.strncmp ("--tinman-num-elems" ++ rest) "--tinman-num-elems=" 18)
    with Eq.
  rewrite (MainFacts.strchr_app "--tinman-num-elems" rest "="%char)
    by reflexivity.
  now rewrite Hr.
Qed.

(** X18: the numbers that [main] rejects.  With a character that is not a
    digit after the [=] of the option, [main] exits with code 1 at once.
    With a number whose value is zero, the empty one included, and no
    option after it, the loop ends with [num_elems = 0] and [main] exits
    with code 1 after the loop. *)
Theorem num_elems_rejected
    (INT_MAX : Z) (prog junk number : string) (before more : list string) :
  (0 <= INT_MAX)%Z ->
  forallb Main.ignored before = true ->
  Main.strchr junk "="%char = None ->
  Main.is_unsigned_int number = false \/
  (Main.is_unsigned_int number = true /\ Main.atoi INT_MAX number = Some 0%Z /\
   forallb Main.ignored more = true) ->
  Main.main INT_MAX (prog :: before ++ Main.num_elems_option junk number :: more)
  = Main.Exit 1.
Proof.
  intros Hmax Hb Hj H. rewrite MainFacts.main_cons.
  rewrite MainFacts.argument_loop_all_ignored by trivial.
  cbn [Main.argument_loop].
  rewrite MainFacts.num_elems_option_matches, MainFacts.num_elems_option_number
    by trivial.
  cbn [Main.next append].
  destruct H as [H|(H1 & H2 & H3)].
  - now rewrite H.
  - rewrite H1, H2. cbn [negb].
    rewrite <- (app_nil_r more).
    rewrite MainFacts.argument_loop_all_ignored by trivial.
    reflexivity.
Qed.

(** X19: the arguments that [main] does not know.  When every argument is
    passed over by the loop, and when there is no argument, [main] goes on
    with the default of ten elements. *)
Theorem unknown_arguments_ignored (INT_MAX : Z) (prog : string) (args : list string) :
  forallb Main.ignored args = true ->
  Main.main INT_MAX (prog :: args) = Main.Run 10 /\
  Main.main INT_MAX nil = Main.Run 10.
Proof.
  intros H. split; [|reflexivity]. rewrite MainFacts.main_cons.
  rewrite <- (app_nil_r args).
  rewrite MainFacts.argument_loop_all_ignored by trivial.
  reflexivity.
Qed.

(** X20: the help option.  An argument that starts with [--tinman-help],
    after arguments that the loop passes over, makes [main] exit with code
    0, whatever follows it on the command line. *)
Theorem help_exits_with_success
    (INT_MAX : Z) (prog rest : string) (before more : list string) :
  forallb Main.ignored before = true ->
  Main.main INT_MAX (prog :: before ++ ("--tinman-help" ++ rest)%string :: more)
  = Main.Exit 0.
Proof.
  intros Hb. rewrite MainFacts.main_cons.
  rewrite MainFacts.argument_loop_all_ignored by trivial.
  reflexivity.
Qed.

(** X21: the last option wins.  When [main] goes on to the computation for
    a command line, it goes on with [num_elems = n] for the same command
    line followed by the option [--tinman-num-elems=<n>]. *)
Theorem last_num_elems_option_wins
    (INT_MAX : Z) (prog junk : string) (args : list string) (m : Z) (n : nat) :
  Main.main INT_MAX (prog :: args) = Main.Run m ->
  Main.strchr junk "="%char = None ->
  (1 <= n)%nat -> (Z.of_nat n <= INT_MAX)%Z ->
  Main.main INT_MAX
    (prog :: args ++ Main.num_elems_option junk (Main.decimal n) :: nil)
  = Main.Run (Z.of_nat n).
Proof.
  intros Hm Hj Hn Hmax. rewrite MainFacts.main_cons in *.
  destruct (Main.argument_loop INT_MAX args 10) as [c|k|] eqn:E;
    try discriminate.
  rewrite (MainFacts.argument_loop_app INT_MAX args _ 10 k E).
  rewrite MainFacts.argument_loop_option by trivial.
  cbn [Main.argument_loop].
  destruct (Z.ltb_spec (Z.of_nat n) 1); [lia|reflexivity].
Qed.

(** ** The properties above on the small element and on a command line *)

Lemma preq_omega_ps_overloads_agree_witness :
  (2 <= Example.NUM_LEV)%nat /\ (1 < Example.NUM_LEV)%nat /\ (0 < Example.NP)%nat /\
  Basic.preq_omega_ps_team Example.NP Example.NUM_LEV Example.uninit2
    (Example.const3 2) (Example.const3 1) (Example.const3 4) (Example.const3 0)
    1%nat 0%nat 0%nat
  = Basic.preq_omega_ps Example.NP Example.NUM_LEV Example.uninit2
      (Example.const3 2) (Example.const3 1) (Example.const3 4) (Example.const3 0)
      1%nat 0%nat 0%nat.
Proof.
  assert (HN : (2 <= Example.NUM_LEV)%nat) by (unfold Example.NUM_LEV; lia).
  assert (Hl : (1 < Example.NUM_LEV)%nat) by (unfold Example.NUM_LEV; lia).
  assert (H0 : (0 < Example.NP)%nat) by (unfold Example.NP; lia).
  split; [exact HN|]. split; [exact Hl|]. split; [exact H0|].
  exact (proj1
    (preq_omega_ps_overloads_agree Example.NP Example.NUM_LEV Example.uninit2
       (Example.const3 2) (Example.const3 1) (Example.const3 4) (Example.const3 0)
       1 0 0 HN Hl H0 H0)).
Defined.

Lemma preq_hydrostatic_team_upper_levels_witness :
  (2 <= Example.NUM_LEV)%nat /\ (2 < Example.NUM_LEV)%nat /\ (0 < Example.NP)%nat /\
  Basic.preq_hydrostatic_team Example.NP Example.NUM_LEV Example.uninit3
    (Example.const2 0) (Example.const3 1) (Example.const3 1) (Example.const3 1) 1
    (Example.const3 0) 2%nat 0%nat 0%nat
  = 0.5.
Proof.
  assert (HN : (2 <= Example.NUM_LEV)%nat) by (unfold Example.NUM_LEV; lia).
  assert (Hl : (2 < Example.NUM_LEV)%nat) by (unfold Example.NUM_LEV; lia).
  assert (H0 : (0 < Example.NP)%nat) by (unfold Example.NP; lia).
  split; [exact HN|]. split; [exact Hl|]. split; [exact H0|].
  etransitivity.
  - exact (preq_hydrostatic_team_upper_levels Example.NP Example.NUM_LEV
             Example.uninit3 (Example.const2 0) (Example.const3 1) (Example.const3 1)
             (Example.const3 1) 1 (Example.const3 0) 2 0 0 HN Hl
             (or_introl (Nat.le_refl 2)) H0 H0).
  - cbv -[Rplus Rmult Rdiv Rminus Ropp Rinv IZR Q2R]. lra.
Defined.

Lemma team_lambda_geopotential_witness :
  (3 <= Example.NUM_LEV)%nat /\ (0 < Example.NP)%nat /\
  Basic.scalars_3d (fst (Example.team_body Example.basic_region Example.locals))
    Basic.PHI 1%nat 0%nat 0%nat
  = Basic.scalars_3d Example.basic_region Basic.PHI 1%nat 0%nat 0%nat.
Proof.
  assert (HN : (3 <= Example.NUM_LEV)%nat) by (unfold Example.NUM_LEV; lia).
  assert (H0 : (0 < Example.NP)%nat) by (unfold Example.NP; lia).
  split; [exact HN|]. split; [exact H0|].
  exact (proj1
    (team_lambda_geopotential Example.NP Example.NUM_LEV Example.gradient_sphere
       Example.divergence_sphere Example.vorticity_sphere
       Example.uninit2 Example.uninit3
       Example.pressure_order Example.data Example.basic_region Example.locals 0 0 HN H0 H0)).
Defined.

Lemma league_runs_each_element_once_witness :
  (Basic.nets (Basic.control Example.data)
   <= Basic.nete (Basic.control Example.data))%nat /\
  NoDup [1; 0]%nat /\
  fst (Basic.compute_and_apply_rhs Example.NP Example.NUM_LEV
         Example.gradient_sphere Example.divergence_sphere
         Example.vorticity_sphere Example.uninit2 Example.uninit3
         Example.pressure_order Example.data [1; 0]%nat
         (fun _ => Example.basic_region) Example.locals) 1%nat
  = Example.basic_region.
Proof.
  assert (H : (Basic.nets (Basic.control Example.data)
               <= Basic.nete (Basic.control Example.data))%nat) by (simpl; lia).
  assert (ND : NoDup [1; 0]%nat).
  { constructor; [simpl; lia|]. constructor; [simpl; lia|]. constructor. }
  assert (Hin : forall k, In k [1; 0]%nat
                  <-> (k < Basic.nete (Basic.control Example.data)
                           - Basic.nets (Basic.control Example.data) + 1)%nat)
    by (intros k; simpl; lia).
  split; [exact H|]. split; [exact ND|].
  apply (proj1
    (league_runs_each_element_once Example.NP Example.NUM_LEV
       Example.gradient_sphere Example.divergence_sphere Example.vorticity_sphere
       Example.uninit2 Example.uninit3
       Example.pressure_order Example.data [1; 0]%nat
       (fun _ => Example.basic_region) Example.locals H ND Hin) 1%nat).
  simpl. lia.
Defined.

Lemma team_temperature_stage_witness :
  (1 < Example.NUM_LEV)%nat /\ (0 < Example.NP)%nat /\
  fst (Basic.team_temperature Example.NP Example.NUM_LEV Example.data
         Example.basic_region (Example.const3 0, Example.const3 0))
    1%nat 0%nat 0%nat = 1 /\
  snd (Basic.team_temperature Example.NP Example.NUM_LEV Example.data
         Example.basic_region (Example.const3 0, Example.const3 0))
    1%nat 0%nat 0%nat = 1.
Proof.
  assert (Hl : (1 < Example.NUM_LEV)%nat) by (unfold Example.NUM_LEV; lia).
  assert (H0 : (0 < Example.NP)%nat) by (unfold Example.NP; lia).
  split; [exact Hl|]. split; [exact H0|].
  exact (team_temperature_stage Example.NP Example.NUM_LEV Example.data
           Example.basic_region (Example.const3 0, Example.const3 0) 1 0 0 Hl H0 H0).
Defined.

Lemma team_lambda_zero_tracers_witness :
  (forall l i j, Basic.Qdp Example.basic_region 5 1%nat l i j = 0) /\
  Basic.team_body Example.NP Example.NUM_LEV Example.gradient_sphere
    Example.divergence_sphere Example.vorticity_sphere
    Example.uninit2 Example.uninit3 Example.pressure_order
    (BasicExtra.with_qn0 Example.data 5) Example.basic_region Example.locals
  = Basic.team_body Example.NP Example.NUM_LEV Example.gradient_sphere
      Example.divergence_sphere Example.vorticity_sphere
      Example.uninit2 Example.uninit3 Example.pressure_order
      (BasicExtra.with_qn0 Example.data (-1)) Example.basic_region Example.locals.
Proof.
  assert (H : forall l i j, Basic.Qdp Example.basic_region 5 1%nat l i j = 0)
    by (intros l i j; reflexivity).
  assert (Hdp : forall l i j,
            (l < Example.NUM_LEV)%nat -> (i < Example.NP)%nat ->
            (j < Example.NP)%nat ->
            Basic.scalars_4d Example.basic_region
              (Basic.n0 (Basic.control Example.data)) Basic.DP3D l i j <> 0)
    by (intros l i j _ _ _; exact R1_neq_R0).
  split; [exact H|].
  exact (proj2
    (team_lambda_zero_tracers Example.NP Example.NUM_LEV Example.gradient_sphere
       Example.divergence_sphere Example.vorticity_sphere
       Example.uninit2 Example.uninit3
       Example.pressure_order Example.data Example.basic_region Example.locals 5
       H Hdp)).
Defined.

Lemma energy_view_holds_velocity_witness :
  (2 <= 2)%nat /\
  ScratchExtra.compute_energy_grad_Ephi 2 Example.uninit2 ExampleExtra.functor
    0 0%nat 0%nat = 7 /\
  ScratchExtra.compute_energy_grad_Ephi 2 Example.uninit2 ExampleExtra.functor
    0 1%nat 0%nat = 0.5 * (5 * 5 + 2 * 2).
Proof.
  assert (H : (2 <= 2)%nat) by lia.
  split; [exact H|].
  destruct (energy_view_holds_velocity 2 Example.gradient_sphere_update
              Example.uninit2 ExampleExtra.functor 0 (Example.const4 1)
              (Example.const3 0) H) as (_ & H00 & _ & Hpt).
  split.
  - etransitivity; [exact H00|].
    cbv -[Rplus Rmult Rdiv Rminus Ropp Rinv IZR Q2R]. lra.
  - etransitivity.
    + apply (Hpt 1%nat 0%nat); [lia | lia | discriminate | discriminate].
    + cbv -[Rplus Rmult Rdiv Rminus Ropp Rinv IZR Q2R]. lra.
Defined.

Lemma preq_vertadv_closed_form_witness :
  (2 <= Example.NUM_LEV)%nat /\ (1 < Example.NUM_LEV)%nat /\ (0 < Example.NP)%nat /\
  fst (ScratchExtra.preq_vertadv Example.NP Example.NUM_LEV ExampleExtra.level_field
         (Example.const4 1) (Example.const3 2) (Example.const3 1)
         (Example.const3 0) (Example.const4 0)) 1%nat 0%nat 0%nat
  = 2.
Proof.
  assert (HN : (2 <= Example.NUM_LEV)%nat) by (unfold Example.NUM_LEV; lia).
  assert (Hl : (1 < Example.NUM_LEV)%nat) by (unfold Example.NUM_LEV; lia).
  assert (H0 : (0 < Example.NP)%nat) by (unfold Example.NP; lia).
  split; [exact HN|]. split; [exact Hl|]. split; [exact H0|].
  etransitivity.
  - exact (proj1
      (preq_vertadv_closed_form Example.NP Example.NUM_LEV ExampleExtra.level_field
         (Example.const4 1) (Example.const3 2) (Example.const3 1)
         (Example.const3 0) (Example.const4 0) 1 0 0 HN Hl H0 H0)).
  - cbv -[Rplus Rmult Rdiv Rminus Ropp Rinv IZR Q2R]. lra.
Defined.

Lemma preq_vertadv_boundary_flux_witness :
  (2 <= Example.NUM_LEV)%nat /\
  (forall k j i, (1 <= k <= Example.NUM_LEV - 1)%nat ->
     (j < Example.NP)%nat -> (i < Example.NP)%nat ->
     ExampleExtra.boundary_flux k j i = Example.const3 0 k j i) /\
  ScratchExtra.preq_vertadv Example.NP Example.NUM_LEV ExampleExtra.level_field
    (Example.const4 1) ExampleExtra.boundary_flux (Example.const3 1)
    (Example.const3 0) (Example.const4 0)
  = ScratchExtra.preq_vertadv Example.NP Example.NUM_LEV ExampleExtra.level_field
      (Example.const4 1) (Example.const3 0) (Example.const3 1)
      (Example.const3 0) (Example.const4 0).
Proof.
  assert (HN : (2 <= Example.NUM_LEV)%nat) by (unfold Example.NUM_LEV; lia).
  assert (He : forall k j i, (1 <= k <= Example.NUM_LEV - 1)%nat ->
                 (j < Example.NP)%nat -> (i < Example.NP)%nat ->
                 ExampleExtra.boundary_flux k j i = Example.const3 0 k j i).
  { intros k j i Hk _ _. unfold Example.NUM_LEV in Hk.
    destruct k as [|[|[|k]]]; try lia; reflexivity. }
  split; [exact HN|]. split; [exact He|].
  exact (proj1
    (preq_vertadv_boundary_flux Example.NP Example.NUM_LEV ExampleExtra.level_field
       (Example.const4 1) ExampleExtra.boundary_flux (Example.const3 0)
       (Example.const3 1) (Example.const3 0) (Example.const4 0) HN He)).
Defined.

Lemma preq_hydrostatic_overloads_compared_witness :
  (2 <= Example.NUM_LEV)%nat /\ (0 < Example.NUM_LEV)%nat /\ (0 < Example.NP)%nat /\
  Basic.preq_hydrostatic Example.NP Example.NUM_LEV (Example.const3 7)
    (Example.const2 0) (Example.const3 1) (Example.const3 1) (Example.const3 1) 1
    (Example.const3 0) 0%nat 0%nat 0%nat
  - Basic.preq_hydrostatic_team Example.NP Example.NUM_LEV (Example.const3 0)
      (Example.const2 0) (Example.const3 1) (Example.const3 1) (Example.const3 1) 1
      (Example.const3 0) 0%nat 0%nat 0%nat
  = 7 - 0.
Proof.
  assert (HN : (2 <= Example.NUM_LEV)%nat) by (unfold Example.NUM_LEV; lia).
  assert (H3 : (3 <= Example.NUM_LEV)%nat) by (unfold Example.NUM_LEV; lia).
  assert (Hl : (0 < Example.NUM_LEV)%nat) by (unfold Example.NUM_LEV; lia).
  assert (H0 : (0 < Example.NP)%nat) by (unfold Example.NP; lia).
  split; [exact HN|]. split; [exact Hl|]. split; [exact H0|].
  exact (proj2
    (preq_hydrostatic_overloads_compared Example.NP Example.NUM_LEV
       (Example.const3 7) (Example.const3 0) (Example.const2 0) (Example.const3 1)
       (Example.const3 1) (Example.const3 1) 1 (Example.const3 0) 0 0 0
       HN Hl H0 H0) H3).
Defined.

Lemma sync_round_trip_witness :
  (2 * 2 <= 4)%nat /\
  Utility.sync_to_host 1 2 2 1
    (Utility.sync_to_device 1 2 4 2 (fun _ => 9) 1 ExampleExtra.host_levels
       (fun _ => 0))
    (fun _ => 0) [0; 3; 0; 0]%nat
  = ExampleExtra.host_levels [0; 3; 0; 0]%nat /\
  Utility.sync_to_device 1 2 4 2 (fun _ => 9) 1
    (Utility.sync_to_host 1 2 2 1 ExampleExtra.device_lanes (fun _ => 0))
    (fun _ => 0) [0; 0; 0; 1; 1]%nat
  = ExampleExtra.device_lanes [0; 0; 0; 1; 1]%nat.
Proof.
  assert (H : (2 * 2 <= 4)%nat) by lia.
  destruct (sync_round_trip 1 2 4 2 1 (fun _ => 9) ExampleExtra.host_levels
              ExampleExtra.device_lanes (fun _ => 0) (fun _ => 0) H) as [A B].
  split; [exact H|]. split.
  - apply A; lia.
  - apply B; lia.
Defined.

Lemma iterator_plus_then_minus_witness :
  Utility.in_int ExampleExtra.INT_MAX (Utility.m_index ExampleExtra.iterator) = true /\
  Utility.limit ExampleExtra.INT_MAX 8 ExampleExtra.iterator = Utility.Value 4%Z /\
  Utility.plus ExampleExtra.INT_MAX 8 ExampleExtra.iterator 1
  = Utility.Value (Utility.with_index ExampleExtra.iterator 2) /\
  Utility.minus ExampleExtra.INT_MAX 8 (Utility.with_index ExampleExtra.iterator 2) 1
  = Utility.Value ExampleExtra.iterator.
Proof.
  assert (R : Utility.in_int ExampleExtra.INT_MAX
                (Utility.m_index ExampleExtra.iterator) = true) by reflexivity.
  assert (L : Utility.limit ExampleExtra.INT_MAX 8 ExampleExtra.iterator
              = Utility.Value 4%Z) by reflexivity.
  assert (H : Utility.plus ExampleExtra.INT_MAX 8 ExampleExtra.iterator 1
              = Utility.Value (Utility.with_index ExampleExtra.iterator 2))
    by reflexivity.
  split; [exact R|]. split; [exact L|]. split; [exact H|].
  destruct (iterator_plus_then_minus ExampleExtra.INT_MAX 8 ExampleExtra.iterator
              (Utility.with_index ExampleExtra.iterator 2) 1 4 R L H)
    as (_ & _ & C).
  apply C.
  - vm_compute. discriminate.
  - reflexivity.
  - vm_compute. split; discriminate.
Defined.

Lemma num_elems_round_trip_witness :
  forallb Main.ignored ("--kokkos-threads=4"%string :: nil) = true /\
  forallb Main.ignored nil = true /\
  Main.strchr ""%string "="%char = None /\
  (1 <= 25)%nat /\ (Z.of_nat 25 <= ExampleExtra.INT_MAX)%Z /\
  Main.main ExampleExtra.INT_MAX
    ("tinman"%string :: "--kokkos-threads=4"%string
     :: "--tinman-num-elems=25"%string :: nil)
  = Main.Run 25.
Proof.
  assert (Hb : forallb Main.ignored ("--kokkos-threads=4"%string :: nil) = true)
    by reflexivity.
  assert (Ha : forallb Main.ignored nil = true) by reflexivity.
  assert (Hj : Main.strchr ""%string "="%char = None) by reflexivity.
  assert (Hn : (1 <= 25)%nat) by lia.
  assert (Hm : (Z.of_nat 25 <= ExampleExtra.INT_MAX)%Z)
    by (unfold ExampleExtra.INT_MAX; lia).
  split; [exact Hb|]. split; [exact Ha|]. split; [exact Hj|].
  split; [exact Hn|]. split; [exact Hm|].
  exact (num_elems_round_trip ExampleExtra.INT_MAX "tinman"%string ""%string
           ("--kokkos-threads=4"%string :: nil) nil 25 Hb Ha Hj Hn Hm).
Defined.

Lemma num_elems_without_equal_sign_witness :
  forallb Main.ignored nil = true /\
  Main.strchr "5"%string "="%char = None /\
  Main.main ExampleExtra.INT_MAX
    ("tinman"%string :: "--tinman-num-elems5"%string :: nil)
  = Main.Undefined.
Proof.
  assert (Hb : forallb Main.ignored nil = true) by reflexivity.
  assert (Hr : Main.strchr "5"%string "="%char = None) by reflexivity.
  split; [exact Hb|]. split; [exact Hr|].
  exact (num_elems_without_equal_sign ExampleExtra.INT_MAX "tinman"%string
           "5"%string nil nil Hb Hr).
Defined.

Lemma num_elems_rejected_witness :
  (0 <= ExampleExtra.INT_MAX)%Z /\
  forallb Main.ignored nil = true /\
  Main.strchr ""%string "="%char = None /\
  Main.is_unsigned_int "12a"%string = false /\
  Main.main ExampleExtra.INT_MAX
    ("tinman"%string :: "--tinman-num-elems=12a"%string :: nil)
  = Main.Exit 1 /\
  Main.is_unsigned_int ""%string = true /\
  Main.atoi ExampleExtra.INT_MAX ""%string = Some 0%Z /\
  Main.main ExampleExtra.INT_MAX
    ("tinman"%string :: "--tinman-num-elems="%string :: nil)
  = Main.Exit 1.
Proof.
  assert (Hm : (0 <= ExampleExtra.INT_MAX)%Z) by (unfold ExampleExtra.INT_MAX; lia).
  assert (Hb : forallb Main.ignored nil = true) by reflexivity.
  assert (Hj : Main.strchr ""%string "="%char = None) by reflexivity.
  assert (H1 : Main.is_unsigned_int "12a"%string = false) by reflexivity.
  assert (H2 : Main.is_unsigned_int ""%string = true) by reflexivity.
  assert (H3 : Main.atoi ExampleExtra.INT_MAX ""%string = Some 0%Z) by reflexivity.
  split; [exact Hm|]. split; [exact Hb|]. split; [exact Hj|]. split; [exact H1|].
  split.
  - exact (num_elems_rejected ExampleExtra.INT_MAX "tinman"%string ""%string
             "12a"%string nil nil Hm Hb Hj (or_introl H1)).
  - split; [exact H2|]. split; [exact H3|].
    exact (num_elems_rejected ExampleExtra.INT_MAX "tinman"%string ""%string
             ""%string nil nil Hm Hb Hj (or_intror (conj H2 (conj H3 Hb)))).
Defined.

Lemma unknown_arguments_ignored_witness :
  forallb Main.ignored
    ("--kokkos-threads=4"%string :: "--tinman-num-elem=3"%string :: nil) = true /\
  Main.main ExampleExtra.INT_MAX
    ("tinman"%string :: "--kokkos-threads=4"%string
     :: "--tinman-num-elem=3"%string :: nil)
  = Main.Run 10.
Proof.
  assert (H : forallb Main.ignored
                ("--kokkos-threads=4"%string :: "--tinman-num-elem=3"%string :: nil)
              = true) by reflexivity.
  split; [exact H|].
  exact (proj1
    (unknown_arguments_ignored ExampleExtra.INT_MAX "tinman"%string
       ("--kokkos-threads=4"%string :: "--tinman-num-elem=3"%string :: nil) H)).
Defined.

Lemma help_exits_with_success_witness :
  forallb Main.ignored ("--kokkos-threads=4"%string :: nil) = true /\
  Main.main ExampleExtra.INT_MAX
    ("tinman"%string :: "--kokkos-threads=4"%string :: "--tinman-helpful"%string
     :: "--tinman-num-elems=x"%string :: nil)
  = Main.Exit 0.
Proof.
  assert (H : forallb Main.ignored ("--kokkos-threads=4"%string :: nil) = true)
    by reflexivity.
  split; [exact H|].
  exact (help_exits_with_success ExampleExtra.INT_MAX "tinman"%string "ful"%string
           ("--kokkos-threads=4"%string :: nil)
           ("--tinman-num-elems=x"%string :: nil) H).
Defined.

Lemma last_num_elems_option_wins_witness :
  Main.main ExampleExtra.INT_MAX
    ("tinman"%string :: "--tinman-num-elems=3"%string :: nil) = Main.Run 3 /\
  Main.strchr ""%string "="%char = None /\
  (1 <= 25)%nat /\ (Z.of_nat 25 <= ExampleExtra.INT_MAX)%Z /\
  Main.main ExampleExtra.INT_MAX
    ("tinman"%string :: "--tinman-num-elems=3"%string
     :: "--tinman-num-elems=25"%string :: nil)
  = Main.Run 25.
Proof.
  assert (H3 : Main.main ExampleExtra.INT_MAX
                 ("tinman"%string :: "--tinman-num-elems=3"%string :: nil)
               = Main.Run 3) by reflexivity.
  assert (Hj : Main.strchr ""%string "="%char = None) by reflexivity.
  assert (Hn : (1 <= 25)%nat) by lia.
  assert (Hm : (Z.of_nat 25 <= ExampleExtra.INT_MAX)%Z)
    by (unfold ExampleExtra.INT_MAX; lia).
  split; [exact H3|]. split; [exact Hj|]. split; [exact Hn|]. split; [exact Hm|].
  exact (last_num_elems_option_wins ExampleExtra.INT_MAX "tinman"%string ""%string
           ("--tinman-num-elems=3"%string :: nil) 3 25 H3 Hj Hn Hm).
Defined.
